(** * Key derivation and key-file parsing of hac2l

    A shallow embedding of [source/hactool_processor.keys.cpp]:
    the [KeySet] registry, [DeriveKeys], [DecodeHex], [LoadTitleKey],
    [ProcessKeyValue] and [ProcessKeyValueFile], with the properties
    the specification states about them. *)

From Stdlib Require Import ZArith List Ascii String Lia Bool.
From stdpp Require Import base numbers list.

Local Open Scope Z_scope.
Local Open Scope nat_scope.

(** ** Bytes and slots

    A [u8] is a [Z] in [0, 256); a fixed-size [u8] array is the list of
    its bytes; a two-dimensional array is the list of its rows. *)

(** Modelled from the spec: [crypto::AesEncryptor128::KeySize], the size
    of a "128-bit" AES key, is declared outside this repository. *)
Definition AesKeySize : nat := 16.

(** [IsZero(data, size)]: every one of the [size] bytes is zero.  The
    source passes [sizeof] of the slot, so the list is the whole slot. *)
Fixpoint IsZero (data8 : list Z) : bool :=
  match data8 with
  | [] => true
  | b :: rest => if negb (b =? 0)%Z then false else IsZero rest
  end.

(** [a[i]] for an array of slots.  The source indexes inside the array
    only (see [KeySet_wf] below); outside it the model gives the empty
    list. *)
Definition slot (a : list (list Z)) (i : nat) : list Z := a !!! i.

(** [p + off] read for [n] bytes. *)
Definition span (p : list Z) (off n : nat) : list Z := take n (drop off p).

(** ** The key registry *)

Record KeySet : Type := mkKeySet {
  secure_boot_key : list Z;
  tsec_key : list Z;
  device_key : list Z;
  keyblob_keys : list (list Z);
  keyblob_mac_keys : list (list Z);
  encrypted_keyblobs : list (list Z);
  mariko_aes_class_keys : list (list Z);
  mariko_kek : list Z;
  mariko_bek : list Z;
  keyblobs : list (list Z);
  keyblob_key_sources : list (list Z);
  keyblob_mac_key_source : list Z;
  tsec_root_kek : list Z;
  package1_mac_kek : list Z;
  package1_kek : list Z;
  tsec_auth_signatures : list (list Z);
  tsec_root_keys : list (list Z);
  master_kek_sources : list (list Z);
  mariko_master_kek_sources : list (list Z);
  master_keks : list (list Z);
  master_key_source : list Z;
  master_keys : list (list Z);
  package1_mac_keys : list (list Z);
  package1_keys : list (list Z);
  package2_keys : list (list Z);
  package2_key_source : list Z;
  per_console_key_source : list Z;
  aes_kek_generation_source : list Z;
  aes_key_generation_source : list Z;
  key_area_key_application_source : list Z;
  key_area_key_ocean_source : list Z;
  key_area_key_system_source : list Z;
  titlekek_source : list Z;
  header_kek_source : list Z;
  sd_card_kek_source : list Z;
  sd_card_nca_key_source : list Z;
  sd_card_save_key_source : list Z;
  save_mac_kek_source : list Z;
  save_mac_key_source : list Z;
  header_key_source : list Z;
  header_key : list Z;
  titlekeks : list (list Z);
  key_area_keys : list (list (list Z));
  xci_header_key : list Z;
  save_mac_key : list Z;
  sd_card_keys : list (list Z);
  nca_hdr_fixed_key_moduli : list (list Z);
  acid_fixed_key_moduli : list (list Z);
  package2_fixed_key_modulus : list Z
}.

(** Field updates ([ks.f = v], [ks.f[i] = v] through [<[i:=v]>]) for the
    slots [DeriveKeys] assigns. *)

Definition set_device_key (ks : KeySet) (v : list Z) : KeySet :=
  {| secure_boot_key := secure_boot_key ks; tsec_key := tsec_key ks; device_key := v;
     keyblob_keys := keyblob_keys ks; keyblob_mac_keys := keyblob_mac_keys ks;
     encrypted_keyblobs := encrypted_keyblobs ks;
     mariko_aes_class_keys := mariko_aes_class_keys ks; mariko_kek := mariko_kek ks;
     mariko_bek := mariko_bek ks; keyblobs := keyblobs ks;
     keyblob_key_sources := keyblob_key_sources ks;
     keyblob_mac_key_source := keyblob_mac_key_source ks; tsec_root_kek := tsec_root_kek ks;
     package1_mac_kek := package1_mac_kek ks; package1_kek := package1_kek ks;
     tsec_auth_signatures := tsec_auth_signatures ks; tsec_root_keys := tsec_root_keys ks;
     master_kek_sources := master_kek_sources ks;
     mariko_master_kek_sources := mariko_master_kek_sources ks; master_keks := master_keks ks;
     master_key_source := master_key_source ks; master_keys := master_keys ks;
     package1_mac_keys := package1_mac_keys ks; package1_keys := package1_keys ks;
     package2_keys := package2_keys ks; package2_key_source := package2_key_source ks;
     per_console_key_source := per_console_key_source ks;
     aes_kek_generation_source := aes_kek_generation_source ks;
     aes_key_generation_source := aes_key_generation_source ks;
     key_area_key_application_source := key_area_key_application_source ks;
     key_area_key_ocean_source := key_area_key_ocean_source ks;
     key_area_key_system_source := key_area_key_system_source ks;
     titlekek_source := titlekek_source ks; header_kek_source := header_kek_source ks;
     sd_card_kek_source := sd_card_kek_source ks;
     sd_card_nca_key_source := sd_card_nca_key_source ks;
     sd_card_save_key_source := sd_card_save_key_source ks;
     save_mac_kek_source := save_mac_kek_source ks;
     save_mac_key_source := save_mac_key_source ks; header_key_source := header_key_source ks;
     header_key := header_key ks; titlekeks := titlekeks ks; key_area_keys := key_area_keys ks;
     xci_header_key := xci_header_key ks; save_mac_key := save_mac_key ks;
     sd_card_keys := sd_card_keys ks; nca_hdr_fixed_key_moduli := nca_hdr_fixed_key_moduli ks;
     acid_fixed_key_moduli := acid_fixed_key_moduli ks;
     package2_fixed_key_modulus := package2_fixed_key_modulus ks |}.

Definition set_keyblob_keys (ks : KeySet) (v : list (list Z)) : KeySet :=
  {| secure_boot_key := secure_boot_key ks; tsec_key := tsec_key ks;
     device_key := device_key ks; keyblob_keys := v; keyblob_mac_keys := keyblob_mac_keys ks;
     encrypted_keyblobs := encrypted_keyblobs ks;
     mariko_aes_class_keys := mariko_aes_class_keys ks; mariko_kek := mariko_kek ks;
     mariko_bek := mariko_bek ks; keyblobs := keyblobs ks;
     keyblob_key_sources := keyblob_key_sources ks;
     keyblob_mac_key_source := keyblob_mac_key_source ks; tsec_root_kek := tsec_root_kek ks;
     package1_mac_kek := package1_mac_kek ks; package1_kek := package1_kek ks;
     tsec_auth_signatures := tsec_auth_signatures ks; tsec_root_keys := tsec_root_keys ks;
     master_kek_sources := master_kek_sources ks;
     mariko_master_kek_sources := mariko_master_kek_sources ks; master_keks := master_keks ks;
     master_key_source := master_key_source ks; master_keys := master_keys ks;
     package1_mac_keys := package1_mac_keys ks; package1_keys := package1_keys ks;
     package2_keys := package2_keys ks; package2_key_source := package2_key_source ks;
     per_console_key_source := per_console_key_source ks;
     aes_kek_generation_source := aes_kek_generation_source ks;
     aes_key_generation_source := aes_key_generation_source ks;
     key_area_key_application_source := key_area_key_application_source ks;
     key_area_key_ocean_source := key_area_key_ocean_source ks;
     key_area_key_system_source := key_area_key_system_source ks;
     titlekek_source := titlekek_source ks; header_kek_source := header_kek_source ks;
     sd_card_kek_source := sd_card_kek_source ks;
     sd_card_nca_key_source := sd_card_nca_key_source ks;
     sd_card_save_key_source := sd_card_save_key_source ks;
     save_mac_kek_source := save_mac_kek_source ks;
     save_mac_key_source := save_mac_key_source ks; header_key_source := header_key_source ks;
     header_key := header_key ks; titlekeks := titlekeks ks; key_area_keys := key_area_keys ks;
     xci_header_key := xci_header_key ks; save_mac_key := save_mac_key ks;
     sd_card_keys := sd_card_keys ks; nca_hdr_fixed_key_moduli := nca_hdr_fixed_key_moduli ks;
     acid_fixed_key_moduli := acid_fixed_key_moduli ks;
     package2_fixed_key_modulus := package2_fixed_key_modulus ks |}.

Definition set_keyblob_mac_keys (ks : KeySet) (v : list (list Z)) : KeySet :=
  {| secure_boot_key := secure_boot_key ks; tsec_key := tsec_key ks;
     device_key := device_key ks; keyblob_keys := keyblob_keys ks; keyblob_mac_keys := v;
     encrypted_keyblobs := encrypted_keyblobs ks;
     mariko_aes_class_keys := mariko_aes_class_keys ks; mariko_kek := mariko_kek ks;
     mariko_bek := mariko_bek ks; keyblobs := keyblobs ks;
     keyblob_key_sources := keyblob_key_sources ks;
     keyblob_mac_key_source := keyblob_mac_key_source ks; tsec_root_kek := tsec_root_kek ks;
     package1_mac_kek := package1_mac_kek ks; package1_kek := package1_kek ks;
     tsec_auth_signatures := tsec_auth_signatures ks; tsec_root_keys := tsec_root_keys ks;
     master_kek_sources := master_kek_sources ks;
     mariko_master_kek_sources := mariko_master_kek_sources ks; master_keks := master_keks ks;
     master_key_source := master_key_source ks; master_keys := master_keys ks;
     package1_mac_keys := package1_mac_keys ks; package1_keys := package1_keys ks;
     package2_keys := package2_keys ks; package2_key_source := package2_key_source ks;
     per_console_key_source := per_console_key_source ks;
     aes_kek_generation_source := aes_kek_generation_source ks;
     aes_key_generation_source := aes_key_generation_source ks;
     key_area_key_application_source := key_area_key_application_source ks;
     key_area_key_ocean_source := key_area_key_ocean_source ks;
     key_area_key_system_source := key_area_key_system_source ks;
     titlekek_source := titlekek_source ks; header_kek_source := header_kek_source ks;
     sd_card_kek_source := sd_card_kek_source ks;
     sd_card_nca_key_source := sd_card_nca_key_source ks;
     sd_card_save_key_source := sd_card_save_key_source ks;
     save_mac_kek_source := save_mac_kek_source ks;
     save_mac_key_source := save_mac_key_source ks; header_key_source := header_key_source ks;
     header_key := header_key ks; titlekeks := titlekeks ks; key_area_keys := key_area_keys ks;
     xci_header_key := xci_header_key ks; save_mac_key := save_mac_key ks;
     sd_card_keys := sd_card_keys ks; nca_hdr_fixed_key_moduli := nca_hdr_fixed_key_moduli ks;
     acid_fixed_key_moduli := acid_fixed_key_moduli ks;
     package2_fixed_key_modulus := package2_fixed_key_modulus ks |}.

Definition set_package1_keys (ks : KeySet) (v : list (list Z)) : KeySet :=
  {| secure_boot_key := secure_boot_key ks; tsec_key := tsec_key ks;
     device_key := device_key ks; keyblob_keys := keyblob_keys ks;
     keyblob_mac_keys := keyblob_mac_keys ks; encrypted_keyblobs := encrypted_keyblobs ks;
     mariko_aes_class_keys := mariko_aes_class_keys ks; mariko_kek := mariko_kek ks;
     mariko_bek := mariko_bek ks; keyblobs := keyblobs ks;
     keyblob_key_sources := keyblob_key_sources ks;
     keyblob_mac_key_source := keyblob_mac_key_source ks; tsec_root_kek := tsec_root_kek ks;
     package1_mac_kek := package1_mac_kek ks; package1_kek := package1_kek ks;
     tsec_auth_signatures := tsec_auth_signatures ks; tsec_root_keys := tsec_root_keys ks;
     master_kek_sources := master_kek_sources ks;
     mariko_master_kek_sources := mariko_master_kek_sources ks; master_keks := master_keks ks;
     master_key_source := master_key_source ks; master_keys := master_keys ks;
     package1_mac_keys := package1_mac_keys ks; package1_keys := v;
     package2_keys := package2_keys ks; package2_key_source := package2_key_source ks;
     per_console_key_source := per_console_key_source ks;
     aes_kek_generation_source := aes_kek_generation_source ks;
     aes_key_generation_source := aes_key_generation_source ks;
     key_area_key_application_source := key_area_key_application_source ks;
     key_area_key_ocean_source := key_area_key_ocean_source ks;
     key_area_key_system_source := key_area_key_system_source ks;
     titlekek_source := titlekek_source ks; header_kek_source := header_kek_source ks;
     sd_card_kek_source := sd_card_kek_source ks;
     sd_card_nca_key_source := sd_card_nca_key_source ks;
     sd_card_save_key_source := sd_card_save_key_source ks;
     save_mac_kek_source := save_mac_kek_source ks;
     save_mac_key_source := save_mac_key_source ks; header_key_source := header_key_source ks;
     header_key := header_key ks; titlekeks := titlekeks ks; key_area_keys := key_area_keys ks;
     xci_header_key := xci_header_key ks; save_mac_key := save_mac_key ks;
     sd_card_keys := sd_card_keys ks; nca_hdr_fixed_key_moduli := nca_hdr_fixed_key_moduli ks;
     acid_fixed_key_moduli := acid_fixed_key_moduli ks;
     package2_fixed_key_modulus := package2_fixed_key_modulus ks |}.

Definition set_master_keks (ks : KeySet) (v : list (list Z)) : KeySet :=
  {| secure_boot_key := secure_boot_key ks; tsec_key := tsec_key ks;
     device_key := device_key ks; keyblob_keys := keyblob_keys ks;
     keyblob_mac_keys := keyblob_mac_keys ks; encrypted_keyblobs := encrypted_keyblobs ks;
     mariko_aes_class_keys := mariko_aes_class_keys ks; mariko_kek := mariko_kek ks;
     mariko_bek := mariko_bek ks; keyblobs := keyblobs ks;
     keyblob_key_sources := keyblob_key_sources ks;
     keyblob_mac_key_source := keyblob_mac_key_source ks; tsec_root_kek := tsec_root_kek ks;
     package1_mac_kek := package1_mac_kek ks; package1_kek := package1_kek ks;
     tsec_auth_signatures := tsec_auth_signatures ks; tsec_root_keys := tsec_root_keys ks;
     master_kek_sources := master_kek_sources ks;
     mariko_master_kek_sources := mariko_master_kek_sources ks; master_keks := v;
     master_key_source := master_key_source ks; master_keys := master_keys ks;
     package1_mac_keys := package1_mac_keys ks; package1_keys := package1_keys ks;
     package2_keys := package2_keys ks; package2_key_source := package2_key_source ks;
     per_console_key_source := per_console_key_source ks;
     aes_kek_generation_source := aes_kek_generation_source ks;
     aes_key_generation_source := aes_key_generation_source ks;
     key_area_key_application_source := key_area_key_application_source ks;
     key_area_key_ocean_source := key_area_key_ocean_source ks;
     key_area_key_system_source := key_area_key_system_source ks;
     titlekek_source := titlekek_source ks; header_kek_source := header_kek_source ks;
     sd_card_kek_source := sd_card_kek_source ks;
     sd_card_nca_key_source := sd_card_nca_key_source ks;
     sd_card_save_key_source := sd_card_save_key_source ks;
     save_mac_kek_source := save_mac_kek_source ks;
     save_mac_key_source := save_mac_key_source ks; header_key_source := header_key_source ks;
     header_key := header_key ks; titlekeks := titlekeks ks; key_area_keys := key_area_keys ks;
     xci_header_key := xci_header_key ks; save_mac_key := save_mac_key ks;
     sd_card_keys := sd_card_keys ks; nca_hdr_fixed_key_moduli := nca_hdr_fixed_key_moduli ks;
     acid_fixed_key_moduli := acid_fixed_key_moduli ks;
     package2_fixed_key_modulus := package2_fixed_key_modulus ks |}.

Definition set_master_keys (ks : KeySet) (v : list (list Z)) : KeySet :=
  {| secure_boot_key := secure_boot_key ks; tsec_key := tsec_key ks;
     device_key := device_key ks; keyblob_keys := keyblob_keys ks;
     keyblob_mac_keys := keyblob_mac_keys ks; encrypted_keyblobs := encrypted_keyblobs ks;
     mariko_aes_class_keys := mariko_aes_class_keys ks; mariko_kek := mariko_kek ks;
     mariko_bek := mariko_bek ks; keyblobs := keyblobs ks;
     keyblob_key_sources := keyblob_key_sources ks;
     keyblob_mac_key_source := keyblob_mac_key_source ks; tsec_root_kek := tsec_root_kek ks;
     package1_mac_kek := package1_mac_kek ks; package1_kek := package1_kek ks;
     tsec_auth_signatures := tsec_auth_signatures ks; tsec_root_keys := tsec_root_keys ks;
     master_kek_sources := master_kek_sources ks;
     mariko_master_kek_sources := mariko_master_kek_sources ks; master_keks := master_keks ks;
     master_key_source := master_key_source ks; master_keys := v;
     package1_mac_keys := package1_mac_keys ks; package1_keys := package1_keys ks;
     package2_keys := package2_keys ks; package2_key_source := package2_key_source ks;
     per_console_key_source := per_console_key_source ks;
     aes_kek_generation_source := aes_kek_generation_source ks;
     aes_key_generation_source := aes_key_generation_source ks;
     key_area_key_application_source := key_area_key_application_source ks;
     key_area_key_ocean_source := key_area_key_ocean_source ks;
     key_area_key_system_source := key_area_key_system_source ks;
     titlekek_source := titlekek_source ks; header_kek_source := header_kek_source ks;
     sd_card_kek_source := sd_card_kek_source ks;
     sd_card_nca_key_source := sd_card_nca_key_source ks;
     sd_card_save_key_source := sd_card_save_key_source ks;
     save_mac_kek_source := save_mac_kek_source ks;
     save_mac_key_source := save_mac_key_source ks; header_key_source := header_key_source ks;
     header_key := header_key ks; titlekeks := titlekeks ks; key_area_keys := key_area_keys ks;
     xci_header_key := xci_header_key ks; save_mac_key := save_mac_key ks;
     sd_card_keys := sd_card_keys ks; nca_hdr_fixed_key_moduli := nca_hdr_fixed_key_moduli ks;
     acid_fixed_key_moduli := acid_fixed_key_moduli ks;
     package2_fixed_key_modulus := package2_fixed_key_modulus ks |}.

(** Updates of the slots that the sample key sets below fill in, as a
    key file read by [LoadExternalKey] would. *)

Definition set_secure_boot_key (ks : KeySet) (v : list Z) : KeySet :=
  {| secure_boot_key := v; tsec_key := tsec_key ks; device_key := device_key ks;
     keyblob_keys := keyblob_keys ks; keyblob_mac_keys := keyblob_mac_keys ks;
     encrypted_keyblobs := encrypted_keyblobs ks;
     mariko_aes_class_keys := mariko_aes_class_keys ks; mariko_kek := mariko_kek ks;
     mariko_bek := mariko_bek ks; keyblobs := keyblobs ks;
     keyblob_key_sources := keyblob_key_sources ks;
     keyblob_mac_key_source := keyblob_mac_key_source ks; tsec_root_kek := tsec_root_kek ks;
     package1_mac_kek := package1_mac_kek ks; package1_kek := package1_kek ks;
     tsec_auth_signatures := tsec_auth_signatures ks; tsec_root_keys := tsec_root_keys ks;
     master_kek_sources := master_kek_sources ks;
     mariko_master_kek_sources := mariko_master_kek_sources ks; master_keks := master_keks ks;
     master_key_source := master_key_source ks; master_keys := master_keys ks;
     package1_mac_keys := package1_mac_keys ks; package1_keys := package1_keys ks;
     package2_keys := package2_keys ks; package2_key_source := package2_key_source ks;
     per_console_key_source := per_console_key_source ks;
     aes_kek_generation_source := aes_kek_generation_source ks;
     aes_key_generation_source := aes_key_generation_source ks;
     key_area_key_application_source := key_area_key_application_source ks;
     key_area_key_ocean_source := key_area_key_ocean_source ks;
     key_area_key_system_source := key_area_key_system_source ks;
     titlekek_source := titlekek_source ks; header_kek_source := header_kek_source ks;
     sd_card_kek_source := sd_card_kek_source ks;
     sd_card_nca_key_source := sd_card_nca_key_source ks;
     sd_card_save_key_source := sd_card_save_key_source ks;
     save_mac_kek_source := save_mac_kek_source ks;
     save_mac_key_source := save_mac_key_source ks; header_key_source := header_key_source ks;
     header_key := header_key ks; titlekeks := titlekeks ks; key_area_keys := key_area_keys ks;
     xci_header_key := xci_header_key ks; save_mac_key := save_mac_key ks;
     sd_card_keys := sd_card_keys ks; nca_hdr_fixed_key_moduli := nca_hdr_fixed_key_moduli ks;
     acid_fixed_key_moduli := acid_fixed_key_moduli ks;
     package2_fixed_key_modulus := package2_fixed_key_modulus ks |}.

Definition set_tsec_key (ks : KeySet) (v : list Z) : KeySet :=
  {| secure_boot_key := secure_boot_key ks; tsec_key := v; device_key := device_key ks;
     keyblob_keys := keyblob_keys ks; keyblob_mac_keys := keyblob_mac_keys ks;
     encrypted_keyblobs := encrypted_keyblobs ks;
     mariko_aes_class_keys := mariko_aes_class_keys ks; mariko_kek := mariko_kek ks;
     mariko_bek := mariko_bek ks; keyblobs := keyblobs ks;
     keyblob_key_sources := keyblob_key_sources ks;
     keyblob_mac_key_source := keyblob_mac_key_source ks; tsec_root_kek := tsec_root_kek ks;
     package1_mac_kek := package1_mac_kek ks; package1_kek := package1_kek ks;
     tsec_auth_signatures := tsec_auth_signatures ks; tsec_root_keys := tsec_root_keys ks;
     master_kek_sources := master_kek_sources ks;
     mariko_master_kek_sources := mariko_master_kek_sources ks; master_keks := master_keks ks;
     master_key_source := master_key_source ks; master_keys := master_keys ks;
     package1_mac_keys := package1_mac_keys ks; package1_keys := package1_keys ks;
     package2_keys := package2_keys ks; package2_key_source := package2_key_source ks;
     per_console_key_source := per_console_key_source ks;
     aes_kek_generation_source := aes_kek_generation_source ks;
     aes_key_generation_source := aes_key_generation_source ks;
     key_area_key_application_source := key_area_key_application_source ks;
     key_area_key_ocean_source := key_area_key_ocean_source ks;
     key_area_key_system_source := key_area_key_system_source ks;
     titlekek_source := titlekek_source ks; header_kek_source := header_kek_source ks;
     sd_card_kek_source := sd_card_kek_source ks;
     sd_card_nca_key_source := sd_card_nca_key_source ks;
     sd_card_save_key_source := sd_card_save_key_source ks;
     save_mac_kek_source := save_mac_kek_source ks;
     save_mac_key_source := save_mac_key_source ks; header_key_source := header_key_source ks;
     header_key := header_key ks; titlekeks := titlekeks ks; key_area_keys := key_area_keys ks;
     xci_header_key := xci_header_key ks; save_mac_key := save_mac_key ks;
     sd_card_keys := sd_card_keys ks; nca_hdr_fixed_key_moduli := nca_hdr_fixed_key_moduli ks;
     acid_fixed_key_moduli := acid_fixed_key_moduli ks;
     package2_fixed_key_modulus := package2_fixed_key_modulus ks |}.

Definition set_keyblob_key_sources (ks : KeySet) (v : list (list Z)) : KeySet :=
  {| secure_boot_key := secure_boot_key ks; tsec_key := tsec_key ks;
     device_key := device_key ks; keyblob_keys := keyblob_keys ks;
     keyblob_mac_keys := keyblob_mac_keys ks; encrypted_keyblobs := encrypted_keyblobs ks;
     mariko_aes_class_keys := mariko_aes_class_keys ks; mariko_kek := mariko_kek ks;
     mariko_bek := mariko_bek ks; keyblobs := keyblobs ks; keyblob_key_sources := v;
     keyblob_mac_key_source := keyblob_mac_key_source ks; tsec_root_kek := tsec_root_kek ks;
     package1_mac_kek := package1_mac_kek ks; package1_kek := package1_kek ks;
     tsec_auth_signatures := tsec_auth_signatures ks; tsec_root_keys := tsec_root_keys ks;
     master_kek_sources := master_kek_sources ks;
     mariko_master_kek_sources := mariko_master_kek_sources ks; master_keks := master_keks ks;
     master_key_source := master_key_source ks; master_keys := master_keys ks;
     package1_mac_keys := package1_mac_keys ks; package1_keys := package1_keys ks;
     package2_keys := package2_keys ks; package2_key_source := package2_key_source ks;
     per_console_key_source := per_console_key_source ks;
     aes_kek_generation_source := aes_kek_generation_source ks;
     aes_key_generation_source := aes_key_generation_source ks;
     key_area_key_application_source := key_area_key_application_source ks;
     key_area_key_ocean_source := key_area_key_ocean_source ks;
     key_area_key_system_source := key_area_key_system_source ks;
     titlekek_source := titlekek_source ks; header_kek_source := header_kek_source ks;
     sd_card_kek_source := sd_card_kek_source ks;
     sd_card_nca_key_source := sd_card_nca_key_source ks;
     sd_card_save_key_source := sd_card_save_key_source ks;
     save_mac_kek_source := save_mac_kek_source ks;
     save_mac_key_source := save_mac_key_source ks; header_key_source := header_key_source ks;
     header_key := header_key ks; titlekeks := titlekeks ks; key_area_keys := key_area_keys ks;
     xci_header_key := xci_header_key ks; save_mac_key := save_mac_key ks;
     sd_card_keys := sd_card_keys ks; nca_hdr_fixed_key_moduli := nca_hdr_fixed_key_moduli ks;
     acid_fixed_key_moduli := acid_fixed_key_moduli ks;
     package2_fixed_key_modulus := package2_fixed_key_modulus ks |}.

Definition set_keyblob_mac_key_source (ks : KeySet) (v : list Z) : KeySet :=
  {| secure_boot_key := secure_boot_key ks; tsec_key := tsec_key ks;
     device_key := device_key ks; keyblob_keys := keyblob_keys ks;
     keyblob_mac_keys := keyblob_mac_keys ks; encrypted_keyblobs := encrypted_keyblobs ks;
     mariko_aes_class_keys := mariko_aes_class_keys ks; mariko_kek := mariko_kek ks;
     mariko_bek := mariko_bek ks; keyblobs := keyblobs ks;
     keyblob_key_sources := keyblob_key_sources ks; keyblob_mac_key_source := v;
     tsec_root_kek := tsec_root_kek ks; package1_mac_kek := package1_mac_kek ks;
     package1_kek := package1_kek ks; tsec_auth_signatures := tsec_auth_signatures ks;
     tsec_root_keys := tsec_root_keys ks; master_kek_sources := master_kek_sources ks;
     mariko_master_kek_sources := mariko_master_kek_sources ks; master_keks := master_keks ks;
     master_key_source := master_key_source ks; master_keys := master_keys ks;
     package1_mac_keys := package1_mac_keys ks; package1_keys := package1_keys ks;
     package2_keys := package2_keys ks; package2_key_source := package2_key_source ks;
     per_console_key_source := per_console_key_source ks;
     aes_kek_generation_source := aes_kek_generation_source ks;
     aes_key_generation_source := aes_key_generation_source ks;
     key_area_key_application_source := key_area_key_application_source ks;
     key_area_key_ocean_source := key_area_key_ocean_source ks;
     key_area_key_system_source := key_area_key_system_source ks;
     titlekek_source := titlekek_source ks; header_kek_source := header_kek_source ks;
     sd_card_kek_source := sd_card_kek_source ks;
     sd_card_nca_key_source := sd_card_nca_key_source ks;
     sd_card_save_key_source := sd_card_save_key_source ks;
     save_mac_kek_source := save_mac_kek_source ks;
     save_mac_key_source := save_mac_key_source ks; header_key_source := header_key_source ks;
     header_key := header_key ks; titlekeks := titlekeks ks; key_area_keys := key_area_keys ks;
     xci_header_key := xci_header_key ks; save_mac_key := save_mac_key ks;
     sd_card_keys := sd_card_keys ks; nca_hdr_fixed_key_moduli := nca_hdr_fixed_key_moduli ks;
     acid_fixed_key_moduli := acid_fixed_key_moduli ks;
     package2_fixed_key_modulus := package2_fixed_key_modulus ks |}.

Definition set_per_console_key_source (ks : KeySet) (v : list Z) : KeySet :=
  {| secure_boot_key := secure_boot_key ks; tsec_key := tsec_key ks;
     device_key := device_key ks; keyblob_keys := keyblob_keys ks;
     keyblob_mac_keys := keyblob_mac_keys ks; encrypted_keyblobs := encrypted_keyblobs ks;
     mariko_aes_class_keys := mariko_aes_class_keys ks; mariko_kek := mariko_kek ks;
     mariko_bek := mariko_bek ks; keyblobs := keyblobs ks;
     keyblob_key_sources := keyblob_key_sources ks;
     keyblob_mac_key_source := keyblob_mac_key_source ks; tsec_root_kek := tsec_root_kek ks;
     package1_mac_kek := package1_mac_kek ks; package1_kek := package1_kek ks;
     tsec_auth_signatures := tsec_auth_signatures ks; tsec_root_keys := tsec_root_keys ks;
     master_kek_sources := master_kek_sources ks;
     mariko_master_kek_sources := mariko_master_kek_sources ks; master_keks := master_keks ks;
     master_key_source := master_key_source ks; master_keys := master_keys ks;
     package1_mac_keys := package1_mac_keys ks; package1_keys := package1_keys ks;
     package2_keys := package2_keys ks; package2_key_source := package2_key_source ks;
     per_console_key_source := v; aes_kek_generation_source := aes_kek_generation_source ks;
     aes_key_generation_source := aes_key_generation_source ks;
     key_area_key_application_source := key_area_key_application_source ks;
     key_area_key_ocean_source := key_area_key_ocean_source ks;
     key_area_key_system_source := key_area_key_system_source ks;
     titlekek_source := titlekek_source ks; header_kek_source := header_kek_source ks;
     sd_card_kek_source := sd_card_kek_source ks;
     sd_card_nca_key_source := sd_card_nca_key_source ks;
     sd_card_save_key_source := sd_card_save_key_source ks;
     save_mac_kek_source := save_mac_kek_source ks;
     save_mac_key_source := save_mac_key_source ks; header_key_source := header_key_source ks;
     header_key := header_key ks; titlekeks := titlekeks ks; key_area_keys := key_area_keys ks;
     xci_header_key := xci_header_key ks; save_mac_key := save_mac_key ks;
     sd_card_keys := sd_card_keys ks; nca_hdr_fixed_key_moduli := nca_hdr_fixed_key_moduli ks;
     acid_fixed_key_moduli := acid_fixed_key_moduli ks;
     package2_fixed_key_modulus := package2_fixed_key_modulus ks |}.

Definition set_keyblobs (ks : KeySet) (v : list (list Z)) : KeySet :=
  {| secure_boot_key := secure_boot_key ks; tsec_key := tsec_key ks;
     device_key := device_key ks; keyblob_keys := keyblob_keys ks;
     keyblob_mac_keys := keyblob_mac_keys ks; encrypted_keyblobs := encrypted_keyblobs ks;
     mariko_aes_class_keys := mariko_aes_class_keys ks; mariko_kek := mariko_kek ks;
     mariko_bek := mariko_bek ks; keyblobs := v; keyblob_key_sources := keyblob_key_sources ks;
     keyblob_mac_key_source := keyblob_mac_key_source ks; tsec_root_kek := tsec_root_kek ks;
     package1_mac_kek := package1_mac_kek ks; package1_kek := package1_kek ks;
     tsec_auth_signatures := tsec_auth_signatures ks; tsec_root_keys := tsec_root_keys ks;
     master_kek_sources := master_kek_sources ks;
     mariko_master_kek_sources := mariko_master_kek_sources ks; master_keks := master_keks ks;
     master_key_source := master_key_source ks; master_keys := master_keys ks;
     package1_mac_keys := package1_mac_keys ks; package1_keys := package1_keys ks;
     package2_keys := package2_keys ks; package2_key_source := package2_key_source ks;
     per_console_key_source := per_console_key_source ks;
     aes_kek_generation_source := aes_kek_generation_source ks;
     aes_key_generation_source := aes_key_generation_source ks;
     key_area_key_application_source := key_area_key_application_source ks;
     key_area_key_ocean_source := key_area_key_ocean_source ks;
     key_area_key_system_source := key_area_key_system_source ks;
     titlekek_source := titlekek_source ks; header_kek_source := header_kek_source ks;
     sd_card_kek_source := sd_card_kek_source ks;
     sd_card_nca_key_source := sd_card_nca_key_source ks;
     sd_card_save_key_source := sd_card_save_key_source ks;
     save_mac_kek_source := save_mac_kek_source ks;
     save_mac_key_source := save_mac_key_source ks; header_key_source := header_key_source ks;
     header_key := header_key ks; titlekeks := titlekeks ks; key_area_keys := key_area_keys ks;
     xci_header_key := xci_header_key ks; save_mac_key := save_mac_key ks;
     sd_card_keys := sd_card_keys ks; nca_hdr_fixed_key_moduli := nca_hdr_fixed_key_moduli ks;
     acid_fixed_key_moduli := acid_fixed_key_moduli ks;
     package2_fixed_key_modulus := package2_fixed_key_modulus ks |}.

Definition set_mariko_kek (ks : KeySet) (v : list Z) : KeySet :=
  {| secure_boot_key := secure_boot_key ks; tsec_key := tsec_key ks;
     device_key := device_key ks; keyblob_keys := keyblob_keys ks;
     keyblob_mac_keys := keyblob_mac_keys ks; encrypted_keyblobs := encrypted_keyblobs ks;
     mariko_aes_class_keys := mariko_aes_class_keys ks; mariko_kek := v;
     mariko_bek := mariko_bek ks; keyblobs := keyblobs ks;
     keyblob_key_sources := keyblob_key_sources ks;
     keyblob_mac_key_source := keyblob_mac_key_source ks; tsec_root_kek := tsec_root_kek ks;
     package1_mac_kek := package1_mac_kek ks; package1_kek := package1_kek ks;
     tsec_auth_signatures := tsec_auth_signatures ks; tsec_root_keys := tsec_root_keys ks;
     master_kek_sources := master_kek_sources ks;
     mariko_master_kek_sources := mariko_master_kek_sources ks; master_keks := master_keks ks;
     master_key_source := master_key_source ks; master_keys := master_keys ks;
     package1_mac_keys := package1_mac_keys ks; package1_keys := package1_keys ks;
     package2_keys := package2_keys ks; package2_key_source := package2_key_source ks;
     per_console_key_source := per_console_key_source ks;
     aes_kek_generation_source := aes_kek_generation_source ks;
     aes_key_generation_source := aes_key_generation_source ks;
     key_area_key_application_source := key_area_key_application_source ks;
     key_area_key_ocean_source := key_area_key_ocean_source ks;
     key_area_key_system_source := key_area_key_system_source ks;
     titlekek_source := titlekek_source ks; header_kek_source := header_kek_source ks;
     sd_card_kek_source := sd_card_kek_source ks;
     sd_card_nca_key_source := sd_card_nca_key_source ks;
     sd_card_save_key_source := sd_card_save_key_source ks;
     save_mac_kek_source := save_mac_kek_source ks;
     save_mac_key_source := save_mac_key_source ks; header_key_source := header_key_source ks;
     header_key := header_key ks; titlekeks := titlekeks ks; key_area_keys := key_area_keys ks;
     xci_header_key := xci_header_key ks; save_mac_key := save_mac_key ks;
     sd_card_keys := sd_card_keys ks; nca_hdr_fixed_key_moduli := nca_hdr_fixed_key_moduli ks;
     acid_fixed_key_moduli := acid_fixed_key_moduli ks;
     package2_fixed_key_modulus := package2_fixed_key_modulus ks |}.

Definition set_mariko_master_kek_sources (ks : KeySet) (v : list (list Z)) : KeySet :=
  {| secure_boot_key := secure_boot_key ks; tsec_key := tsec_key ks;
     device_key := device_key ks; keyblob_keys := keyblob_keys ks;
     keyblob_mac_keys := keyblob_mac_keys ks; encrypted_keyblobs := encrypted_keyblobs ks;
     mariko_aes_class_keys := mariko_aes_class_keys ks; mariko_kek := mariko_kek ks;
     mariko_bek := mariko_bek ks; keyblobs := keyblobs ks;
     keyblob_key_sources := keyblob_key_sources ks;
     keyblob_mac_key_source := keyblob_mac_key_source ks; tsec_root_kek := tsec_root_kek ks;
     package1_mac_kek := package1_mac_kek ks; package1_kek := package1_kek ks;
     tsec_auth_signatures := tsec_auth_signatures ks; tsec_root_keys := tsec_root_keys ks;
     master_kek_sources := master_kek_sources ks; mariko_master_kek_sources := v;
     master_keks := master_keks ks; master_key_source := master_key_source ks;
     master_keys := master_keys ks; package1_mac_keys := package1_mac_keys ks;
     package1_keys := package1_keys ks; package2_keys := package2_keys ks;
     package2_key_source := package2_key_source ks;
     per_console_key_source := per_console_key_source ks;
     aes_kek_generation_source := aes_kek_generation_source ks;
     aes_key_generation_source := aes_key_generation_source ks;
     key_area_key_application_source := key_area_key_application_source ks;
     key_area_key_ocean_source := key_area_key_ocean_source ks;
     key_area_key_system_source := key_area_key_system_source ks;
     titlekek_source := titlekek_source ks; header_kek_source := header_kek_source ks;
     sd_card_kek_source := sd_card_kek_source ks;
     sd_card_nca_key_source := sd_card_nca_key_source ks;
     sd_card_save_key_source := sd_card_save_key_source ks;
     save_mac_kek_source := save_mac_kek_source ks;
     save_mac_key_source := save_mac_key_source ks; header_key_source := header_key_source ks;
     header_key := header_key ks; titlekeks := titlekeks ks; key_area_keys := key_area_keys ks;
     xci_header_key := xci_header_key ks; save_mac_key := save_mac_key ks;
     sd_card_keys := sd_card_keys ks; nca_hdr_fixed_key_moduli := nca_hdr_fixed_key_moduli ks;
     acid_fixed_key_moduli := acid_fixed_key_moduli ks;
     package2_fixed_key_modulus := package2_fixed_key_modulus ks |}.

Definition set_master_key_source (ks : KeySet) (v : list Z) : KeySet :=
  {| secure_boot_key := secure_boot_key ks; tsec_key := tsec_key ks;
     device_key := device_key ks; keyblob_keys := keyblob_keys ks;
     keyblob_mac_keys := keyblob_mac_keys ks; encrypted_keyblobs := encrypted_keyblobs ks;
     mariko_aes_class_keys := mariko_aes_class_keys ks; mariko_kek := mariko_kek ks;
     mariko_bek := mariko_bek ks; keyblobs := keyblobs ks;
     keyblob_key_sources := keyblob_key_sources ks;
     keyblob_mac_key_source := keyblob_mac_key_source ks; tsec_root_kek := tsec_root_kek ks;
     package1_mac_kek := package1_mac_kek ks; package1_kek := package1_kek ks;
     tsec_auth_signatures := tsec_auth_signatures ks; tsec_root_keys := tsec_root_keys ks;
     master_kek_sources := master_kek_sources ks;
     mariko_master_kek_sources := mariko_master_kek_sources ks; master_keks := master_keks ks;
     master_key_source := v; master_keys := master_keys ks;
     package1_mac_keys := package1_mac_keys ks; package1_keys := package1_keys ks;
     package2_keys := package2_keys ks; package2_key_source := package2_key_source ks;
     per_console_key_source := per_console_key_source ks;
     aes_kek_generation_source := aes_kek_generation_source ks;
     aes_key_generation_source := aes_key_generation_source ks;
     key_area_key_application_source := key_area_key_application_source ks;
     key_area_key_ocean_source := key_area_key_ocean_source ks;
     key_area_key_system_source := key_area_key_system_source ks;
     titlekek_source := titlekek_source ks; header_kek_source := header_kek_source ks;
     sd_card_kek_source := sd_card_kek_source ks;
     sd_card_nca_key_source := sd_card_nca_key_source ks;
     sd_card_save_key_source := sd_card_save_key_source ks;
     save_mac_kek_source := save_mac_kek_source ks;
     save_mac_key_source := save_mac_key_source ks; header_key_source := header_key_source ks;
     header_key := header_key ks; titlekeks := titlekeks ks; key_area_keys := key_area_keys ks;
     xci_header_key := xci_header_key ks; save_mac_key := save_mac_key ks;
     sd_card_keys := sd_card_keys ks; nca_hdr_fixed_key_moduli := nca_hdr_fixed_key_moduli ks;
     acid_fixed_key_moduli := acid_fixed_key_moduli ks;
     package2_fixed_key_modulus := package2_fixed_key_modulus ks |}.

(** [crypto::Rsa2048PssSha256Verifier::ModulusSize], from outside this
    repository: the size of a 2048-bit modulus.  Only the size of three
    slots that nothing here reads depends on it. *)
Definition RsaKeySize : nat := 256.

Definition zeros (n : nat) : list Z := repeat 0%Z n.
Definition rows (n size : nat) : list (list Z) := repeat (zeros size) n.

(** [constinit KeySet g_keyset{}]: every byte zero, the arrays at the
    sizes of the struct. *)
Definition g_keyset (KeyGeneration_Max : nat) : KeySet :=
  {| secure_boot_key := zeros AesKeySize; tsec_key := zeros AesKeySize;
     device_key := zeros AesKeySize; keyblob_keys := rows KeyGeneration_Max AesKeySize;
     keyblob_mac_keys := rows KeyGeneration_Max AesKeySize;
     encrypted_keyblobs := rows KeyGeneration_Max 0xB0;
     mariko_aes_class_keys := rows 0xC AesKeySize; mariko_kek := zeros AesKeySize;
     mariko_bek := zeros AesKeySize; keyblobs := rows KeyGeneration_Max 0x90;
     keyblob_key_sources := rows KeyGeneration_Max AesKeySize;
     keyblob_mac_key_source := zeros AesKeySize; tsec_root_kek := zeros AesKeySize;
     package1_mac_kek := zeros AesKeySize; package1_kek := zeros AesKeySize;
     tsec_auth_signatures := rows KeyGeneration_Max AesKeySize;
     tsec_root_keys := rows KeyGeneration_Max AesKeySize;
     master_kek_sources := rows KeyGeneration_Max AesKeySize;
     mariko_master_kek_sources := rows KeyGeneration_Max AesKeySize;
     master_keks := rows KeyGeneration_Max AesKeySize; master_key_source := zeros AesKeySize;
     master_keys := rows KeyGeneration_Max AesKeySize;
     package1_mac_keys := rows KeyGeneration_Max AesKeySize;
     package1_keys := rows KeyGeneration_Max AesKeySize;
     package2_keys := rows KeyGeneration_Max AesKeySize;
     package2_key_source := zeros AesKeySize; per_console_key_source := zeros AesKeySize;
     aes_kek_generation_source := zeros AesKeySize;
     aes_key_generation_source := zeros AesKeySize;
     key_area_key_application_source := zeros AesKeySize;
     key_area_key_ocean_source := zeros AesKeySize;
     key_area_key_system_source := zeros AesKeySize; titlekek_source := zeros AesKeySize;
     header_kek_source := zeros AesKeySize; sd_card_kek_source := zeros AesKeySize;
     sd_card_nca_key_source := zeros 0x20; sd_card_save_key_source := zeros 0x20;
     save_mac_kek_source := zeros AesKeySize; save_mac_key_source := zeros AesKeySize;
     header_key_source := zeros KeyGeneration_Max; header_key := zeros KeyGeneration_Max;
     titlekeks := rows KeyGeneration_Max AesKeySize;
     key_area_keys := repeat (rows 3 AesKeySize) KeyGeneration_Max;
     xci_header_key := zeros AesKeySize; save_mac_key := zeros AesKeySize;
     sd_card_keys := rows 2 KeyGeneration_Max; nca_hdr_fixed_key_moduli := rows 2 RsaKeySize;
     acid_fixed_key_moduli := rows 2 RsaKeySize;
     package2_fixed_key_modulus := zeros RsaKeySize |}.

(** *** Sample key sets

    The generations are numbered as in Atmosphère's [pkg1] header:
    [KeyGeneration_1_0_0 = 0], [KeyGeneration_6_2_0 = 6],
    [KeyGeneration_Max = 32]. *)

(** The sixteen bytes [b], [b + 1], ..., [b + 15]. *)
Definition block_from (b : Z) : list Z := map (fun i => (b + Z.of_nat i)%Z) (seq 0 16).

(** A key set with every input of generation 0 present: the console
    keys, the seeds, a decrypted keyblob (master kek at [0x00], package1
    key at [0x80]) and the Mariko inputs. *)
Definition sample_keys : KeySet :=
  let ks := g_keyset 32 in
  let ks := set_secure_boot_key ks (block_from 0x10) in
  let ks := set_tsec_key ks (block_from 0x20) in
  let ks := set_keyblob_key_sources ks (<[0 := block_from 0x30]> (keyblob_key_sources ks)) in
  let ks := set_keyblob_mac_key_source ks (block_from 0x40) in
  let ks := set_per_console_key_source ks (block_from 0x50) in
  let ks := set_master_key_source ks (block_from 0x60) in
  let ks := set_keyblobs ks
    (<[0 := block_from 0x70 ++ zeros 0x70 ++ block_from 0x80]> (keyblobs ks)) in
  let ks := set_mariko_kek ks (block_from 0x90) in
  set_mariko_master_kek_sources ks (<[0 := block_from 0xA0]> (mariko_master_kek_sources ks)).

(** The same without [master_key_source]. *)
Definition sample_keys_no_master_key_source : KeySet :=
  set_master_key_source sample_keys (zeros AesKeySize).

(** A key set as the key file
    [keyblob_key_00 = 101112...1f], [keyblob_mac_key_source = 404142...4f]
    leaves it: the keyblob key of generation 0 is given, the console
    keys it is derived from are not. *)
Definition sample_keys_given_keyblob_key : KeySet :=
  let ks := g_keyset 32 in
  let ks := set_keyblob_keys ks (<[0 := block_from 0x10]> (keyblob_keys ks)) in
  set_keyblob_mac_key_source ks (block_from 0x40).

(** A key manager that keeps the registered pairs, the last one first. *)
Definition register_pair (km : list (list Z * list Z)) (rights_id access_key : list Z)
  : list (list Z * list Z) :=
  (rights_id, access_key) :: km.

(** ** Characters, C strings and diagnostics

    A [char] is an [ascii]; comparisons are on its code.  Every
    comparison in the source is against an ASCII constant, so signed
    and unsigned [char] agree on it. *)

Definition NUL : ascii := "000"%char.
Definition TAB : ascii := "009"%char.
Definition LF : ascii := "010"%char.
Definition CR : ascii := "013"%char.
Definition SPACE : ascii := " "%char.

Definition chr_le (a b : ascii) : bool := (N_of_ascii a <=? N_of_ascii b)%N.

(** [lo <= c && c <= hi] *)
Definition between (lo hi c : ascii) : bool := chr_le lo c && chr_le c hi.

Definition chr_Z (c : ascii) : Z := Z.of_N (N_of_ascii c).

(** A [const char *] is the list of the bytes from the pointee to the
    end of the allocation it points into: [p !! i] is [p[i]], and a
    read at or past the length of the list is outside the allocation.
    Such a read or write is undefined behaviour in the source; the
    model reports it ([None], or the exit [OutOfBounds]) instead of
    inventing a value. *)
Definition cptr : Type := list ascii.

(** [std::strlen]: the index of the first NUL. *)
Fixpoint strlen (s : cptr) : option nat :=
  match s with
  | [] => None
  | c :: s' => if Ascii.eqb c NUL then Some 0 else S <$> strlen s'
  end.

(** The characters of the C string at [s], as [%s] prints them. *)
Fixpoint c_str (s : cptr) : list ascii :=
  match s with
  | [] => []
  | c :: s' => if Ascii.eqb c NUL then [] else c :: c_str s'
  end.

(** The lines written to [stderr], by the [fprintf] that writes them
    (the text of a message is not modelled). *)
Inductive Warning : Type :=
| MalformedValueLength (len expected : nat)
| RightsIdOddLength
| RightsIdWrongLength
| RightsIdNotHexadecimal
| TitleKeyWrongLength
| ValueOddLength
| ValueNotHexadecimal
| MalformedKey
| TruncatedPair
| MalformedPair
| EmptyKey
| MissingValue.

(** ** Hex codec *)

(** The lambda [HexToI] of [DecodeHex]; its result is an [int]. *)
Definition HexToI (c : ascii) : Z :=
  if between "a" "f" c then (0xA + (chr_Z c - chr_Z "a"))%Z
  else if between "A" "F" c then (0xA + (chr_Z c - chr_Z "A"))%Z
  else if between "0" "9" c then (0x0 + (chr_Z c - chr_Z "0"))%Z
  else 0%Z.

(** [dst[i] = (HexToI(src[2*i+0]) << 4) | (HexToI(src[2*i+1]) << 0)],
    converted to [u8], for [i] from [i] up to [i + n). *)
Fixpoint decode_from (n : nat) (src : cptr) (i : nat) : option (list Z) :=
  match n with
  | 0 => Some []
  | S n' =>
    match src !! (2 * i + 0), src !! (2 * i + 1) with
    | Some hi, Some lo =>
      match decode_from n' src (S i) with
      | Some rest =>
        Some ((Z.lor (Z.shiftl (HexToI hi) 4) (Z.shiftl (HexToI lo) 0) mod 256)%Z :: rest)
      | None => None
      end
    | _, _ => None
    end
  end.

(** [DecodeHex(dst, src, size)], with [dst] an array of [size] bytes
    (every caller passes [sizeof] of the destination).  The result is
    the new content of [dst] and the diagnostics, or [None] when a read
    of [src] leaves its allocation. *)
Definition DecodeHex (src : cptr) (size : nat) (log : list Warning)
  : option (list Z * list Warning) :=
  match strlen src with
  | None => None
  | Some len =>
    let log := if negb (len =? 2 * size) then log ++ [MalformedValueLength len (2 * size)]
               else log in
    match decode_from size src 0 with
    | Some dst => Some (dst, log)
    | None => None
    end
  end.

(** The test [!('0' <= c && c <= '9') && !('a' <= c && c <= 'f') &&
    !('A' <= c && c <= 'F')] of [LoadTitleKey] and [ProcessKeyValue]. *)
Definition not_hexadecimal (c : ascii) : bool :=
  negb (between "0" "9" c) && negb (between "a" "f" c) && negb (between "A" "F" c).

(** [for (i = 0; i < len; ++i) if (not hexadecimal s[i]) return;]
    over the [len] characters of a C string: [true] when the loop
    returns. *)
Definition has_not_hexadecimal (len : nat) (s : cptr) : bool :=
  existsb not_hexadecimal (take len s).

(** ** Title keys

    [fs::RightsId] and [spl::AccessKey] are declared outside this
    repository. *)

(** Modelled from the spec: [sizeof(rights_id.data)], a "128-bit rights
    identifier". *)
Definition RightsIdSize : nat := 16.

(** Modelled from the spec: [sizeof(access_key)], a "128-bit access key". *)
Definition AccessKeySize : nat := 16.

Section TitleKeys.

(** [fssrv::impl::ExternalKeyManager] and its [Register] are not in
    this repository: the loader is parametric in them. *)
Variable KeyManager : Type.
Variable Register : KeyManager -> list Z -> list Z -> KeyManager.

Definition LoadTitleKey (km : KeyManager) (key value : cptr) (log : list Warning)
  : option (KeyManager * list Warning) :=
  match strlen key with
  | None => None
  | Some key_len =>
    if negb (key_len mod 2 =? 0) then Some (km, log ++ [RightsIdOddLength])
    else if negb (key_len =? 32) then Some (km, log ++ [RightsIdWrongLength])
    else if has_not_hexadecimal key_len key then Some (km, log ++ [RightsIdNotHexadecimal])
    else
      match strlen value with
      | None => None
      | Some value_len =>
        let log := if negb (value_len =? 32) then log ++ [TitleKeyWrongLength] else log in
        match DecodeHex key RightsIdSize log with
        | None => None
        | Some (rights_id, log) =>
          match DecodeHex value AccessKeySize log with
          | None => None
          | Some (access_key, log) => Some (Register km rights_id access_key, log)
          end
        end
      end
  end.

End TitleKeys.

(** ** The key-value parser *)

(** What the callback works on, and [stderr]. *)
Definition World (St : Type) : Type := (St * list Warning)%type.

Definition warn {St : Type} (w : World St) (m : Warning) : World St :=
  (fst w, snd w ++ [m]).

(** How [ProcessKeyValueFile] ends: its loop runs to the end of the
    file, or it returns early after a diagnostic, or it reads or writes
    outside the buffer it was given.  [OutOfFuel] is the model's own:
    the loop is run on a counter, and [ProcessKeyValueFile_fuel] shows
    that the counter is never exhausted. *)
Inductive Exit : Type := Finished | Returned | OutOfBounds | OutOfFuel.

Record Parsed (St : Type) : Type := mkParsed {
  parsed_buf : list ascii;
  parsed_world : World St;
  parsed_exit : Exit
}.
Arguments mkParsed {St} _ _ _.
Arguments parsed_buf {St} _.
Arguments parsed_world {St} _.
Arguments parsed_exit {St} _.

(** The first test of the loop: start-of-line filler. *)
Definition is_filler (c : ascii) : bool :=
  Ascii.eqb c LF || Ascii.eqb c CR || Ascii.eqb c NUL || Ascii.eqb c SPACE || Ascii.eqb c TAB.

(** [' '], [','], ['\t'] or ['=']: what ends a key. *)
Definition is_key_end (c : ascii) : bool :=
  Ascii.eqb c SPACE || Ascii.eqb c "," || Ascii.eqb c TAB || Ascii.eqb c "=".

(** [c != '_' && !('0' <= c && c <= '9') && !('a' <= c && c <= 'z')] *)
Definition not_key_char (c : ascii) : bool :=
  negb (Ascii.eqb c "_") && negb (between "0" "9" c) && negb (between "a" "z" c).

(** ['a' + (c - 'A')] *)
Definition fold_upper (c : ascii) : ascii :=
  ascii_of_N (N_of_ascii "a" + (N_of_ascii c - N_of_ascii "A")).

Definition is_blank (c : ascii) : bool := Ascii.eqb c SPACE || Ascii.eqb c TAB.

(** ['\n'], ['\r'], [' '] or ['\t']: what ends a value. *)
Definition is_value_end (c : ascii) : bool :=
  Ascii.eqb c LF || Ascii.eqb c CR || Ascii.eqb c SPACE || Ascii.eqb c TAB.

Definition is_delimiter (c : ascii) : bool := Ascii.eqb c "=" || Ascii.eqb c ",".

(** The key loop [for (kend = ofs; kend < file_size; ++kend)], run on
    the number [n] of indices left up to [file_size]. *)
Inductive KeyScan : Type :=
| KeyEnds (buf : list ascii) (kend : nat)
| KeyMalformed (buf : list ascii)
| KeyOutOfBounds (buf : list ascii).

Fixpoint scan_key (n : nat) (buf : list ascii) (kend : nat) : KeyScan :=
  match n with
  | 0 => KeyEnds buf kend
  | S n' =>
    match buf !! kend with
    | None => KeyOutOfBounds buf
    | Some c =>
      if is_key_end c then KeyEnds buf kend
      else if Ascii.eqb c NUL then KeyMalformed buf
      else if between "A" "Z" c then scan_key n' (<[kend := fold_upper c]> buf) (S kend)
      else if not_key_char c then
        if S kend <? length buf then KeyMalformed (<[S kend := NUL]> buf)
        else KeyOutOfBounds buf
      else scan_key n' buf (S kend)
    end
  end.

(** [while (ofs < file_size && (buf[ofs] == ' ' || buf[ofs] == '\t')) ++ofs;] *)
Fixpoint skip_blanks (n : nat) (buf : list ascii) (ofs : nat) : option nat :=
  match n with
  | 0 => Some ofs
  | S n' =>
    match buf !! ofs with
    | None => None
    | Some c => if is_blank c then skip_blanks n' buf (S ofs) else Some ofs
    end
  end.

(** The value loop [for (vend = ofs; vend < file_size; ++vend)]. *)
Fixpoint scan_value (n : nat) (buf : list ascii) (vend : nat) : option (list ascii * nat) :=
  match n with
  | 0 => Some (buf, vend)
  | S n' =>
    match buf !! vend with
    | None => None
    | Some c =>
      if is_value_end c then Some (<[vend := NUL]> buf, vend)
      else scan_value n' buf (S vend)
    end
  end.

Section Parser.

Variable St : Type.

(** The callback [f(key, value)]; [None] when it leaves an allocation. *)
Variable f : cptr -> cptr -> World St -> option (World St).

Definition ProcessKeyValue (key value : cptr) (w : World St) : option (World St) :=
  match strlen value with
  | None => None
  | Some value_len =>
    if negb (value_len mod 2 =? 0) then Some (warn w ValueOddLength)
    else if has_not_hexadecimal value_len value then Some (warn w ValueNotHexadecimal)
    else f key value w
  end.

(** One turn of [while (ofs < file_size)], entered with
    [ofs < file_size]: the loop goes on from a new offset, or the
    function ends. *)
Inductive Turn : Type :=
| Continue (buf : list ascii) (ofs : nat) (w : World St)
| Stop (r : Parsed St).

(** From "Key must not be empty" to the call of [ProcessKeyValue];
    [key] is the offset of the key and [ofs] the one after the
    delimiter. *)
Definition parse_value (file_size : nat) (buf : list ascii) (key ofs : nat) (w : World St)
  : Turn :=
  match buf !! key with
  | None => Stop (mkParsed buf w OutOfBounds)
  | Some k0 =>
    if Ascii.eqb k0 NUL then Stop (mkParsed buf (warn w EmptyKey) Returned)
    else
      match skip_blanks (file_size - ofs) buf ofs with
      | None => Stop (mkParsed buf w OutOfBounds)
      | Some ofs =>
        if ofs =? file_size then Stop (mkParsed buf (warn w MissingValue) Returned)
        else
          match scan_value (file_size - ofs) buf ofs with
          | None => Stop (mkParsed buf w OutOfBounds)
          | Some (buf, vend) =>
            match ProcessKeyValue (drop key buf) (drop ofs buf) w with
            | None => Stop (mkParsed buf w OutOfBounds)
            | Some w => Continue buf vend w
            end
          end
      end
  end.

Definition parse_turn (file_size : nat) (buf : list ascii) (ofs : nat) (w : World St) : Turn :=
  match buf !! ofs with
  | None => Stop (mkParsed buf w OutOfBounds)
  | Some c =>
    if is_filler c then Continue buf (S ofs) w
    else
      let key := ofs in
      match scan_key (file_size - ofs) buf ofs with
      | KeyOutOfBounds buf => Stop (mkParsed buf w OutOfBounds)
      | KeyMalformed buf => Stop (mkParsed buf (warn w MalformedKey) Returned)
      | KeyEnds buf kend =>
        if kend =? file_size then
          if kend <? length buf
          then Stop (mkParsed (<[kend := NUL]> buf) (warn w TruncatedPair) Returned)
          else Stop (mkParsed buf w OutOfBounds)
        else
          let ofs := kend in
          match buf !! ofs with
          | None => Stop (mkParsed buf w OutOfBounds)
          | Some d =>
            if is_delimiter d then
              parse_value file_size (<[ofs := NUL]> buf) key (S ofs) w
            else
              let buf := <[ofs := NUL]> buf in
              match skip_blanks (file_size - S ofs) buf (S ofs) with
              | None => Stop (mkParsed buf w OutOfBounds)
              | Some ofs =>
                if ofs =? file_size then Stop (mkParsed buf (warn w MalformedPair) Returned)
                else
                  match buf !! ofs with
                  | None => Stop (mkParsed buf w OutOfBounds)
                  | Some d =>
                    if negb (is_delimiter d)
                    then Stop (mkParsed buf (warn w MalformedPair) Returned)
                    else parse_value file_size (<[ofs := NUL]> buf) key (S ofs) w
                  end
              end
          end
      end
  end.

Fixpoint parse_loop (fuel : nat) (file_size : nat) (buf : list ascii) (ofs : nat)
    (w : World St) : Parsed St :=
  match fuel with
  | 0 => mkParsed buf w (if ofs <? file_size then OutOfFuel else Finished)
  | S fuel' =>
    if ofs <? file_size then
      match parse_turn file_size buf ofs w with
      | Continue buf ofs w => parse_loop fuel' file_size buf ofs w
      | Stop r => r
      end
    else mkParsed buf w Finished
  end.

(** [ProcessKeyValueFile(path, buf, file_size, f)].  Every turn of the
    loop moves [ofs] forward, so [file_size] turns are enough. *)
Definition ProcessKeyValueFile (buf : list ascii) (file_size : nat) (w : World St)
  : Parsed St :=
  parse_loop file_size file_size buf 0 w.

End Parser.

(** The callback that only notes the pair it is given, as the two C
    strings it points to. *)
Definition note_pair (key value : cptr) (w : World (list (string * string)))
  : option (World (list (string * string))) :=
  Some (fst w ++ [(string_of_list_ascii (c_str key), string_of_list_ascii (c_str value))],
        snd w).

(** The pairs [ProcessKeyValueFile] hands to its callback on a file of
    content [text], in the order of the calls. *)
Definition pairs_of (text : list ascii) : list (string * string) :=
  fst (parsed_world (ProcessKeyValueFile _ note_pair text (length text) ([], []))).

(** Moving a result of the parser to a buffer that has [pre] in front
    of it: offsets move by [length pre] and the buffer gains [pre]. *)
Definition shift_keyscan (pre : list ascii) (r : KeyScan) : KeyScan :=
  match r with
  | KeyEnds buf kend => KeyEnds (pre ++ buf) (length pre + kend)
  | KeyMalformed buf => KeyMalformed (pre ++ buf)
  | KeyOutOfBounds buf => KeyOutOfBounds (pre ++ buf)
  end.

Definition shift_parsed {St : Type} (pre : list ascii) (r : Parsed St) : Parsed St :=
  mkParsed (pre ++ parsed_buf r) (parsed_world r) (parsed_exit r).

Definition shift_turn {St : Type} (pre : list ascii) (t : Turn St) : Turn St :=
  match t with
  | Continue _ buf ofs w => Continue St (pre ++ buf) (length pre + ofs) w
  | Stop _ r => Stop St (shift_parsed pre r)
  end.

(** The characters a key is made of, and what the key loop leaves
    in their place. *)
Definition key_char (c : ascii) : bool :=
  between "A" "Z" c || between "a" "z" c || between "0" "9" c || Ascii.eqb c "_".

Definition to_lower (c : ascii) : ascii := if between "A" "Z" c then fold_upper c else c.

(** A character of a value token: it neither ends the value loop nor
    the C string. *)
Definition value_char (c : ascii) : bool := negb (is_value_end c) && negb (Ascii.eqb c NUL).

(** The test of [ProcessKeyValue] on a value of characters [v]. *)
Definition well_formed_value (v : list ascii) : bool :=
  (length v mod 2 =? 0) && negb (existsb not_hexadecimal v).

(** [ProcessKeyValueFile] with the noting callback, from a given world. *)
Definition run_noting (w : World (list (string * string))) (text : list ascii)
  : World (list (string * string)) :=
  parsed_world (ProcessKeyValueFile _ note_pair text (length text) w).

Definition prepend_world (acc : list (string * string)) (log : list Warning)
    (w : World (list (string * string))) : World (list (string * string)) :=
  (acc ++ fst w, log ++ snd w).

Definition prepend_parsed (acc : list (string * string)) (log : list Warning)
    (r : Parsed (list (string * string))) : Parsed (list (string * string)) :=
  mkParsed (parsed_buf r) (prepend_world acc log (parsed_world r)) (parsed_exit r).

Definition prepend_turn (acc : list (string * string)) (log : list Warning)
    (t : Turn (list (string * string))) : Turn (list (string * string)) :=
  match t with
  | Continue _ buf ofs w => Continue _ buf ofs (prepend_world acc log w)
  | Stop _ r => Stop _ (prepend_parsed acc log r)
  end.

(** What [ProcessKeyValue] with the noting callback does to the world
    for a key of characters [k] and a value of characters [v]. *)
Definition note_value (k v : list ascii) (w : World (list (string * string)))
  : World (list (string * string)) :=
  if negb (length v mod 2 =? 0) then warn w ValueOddLength
  else if existsb not_hexadecimal v then warn w ValueNotHexadecimal
  else (fst w ++ [(string_of_list_ascii k, string_of_list_ascii v)], snd w).

(** One entry of a key file as text: a key, blanks, a delimiter,
    blanks, a value token and the character that ends it. *)
Record Entry : Type := mkEntry {
  entry_key : list ascii;
  entry_blanks_before : list ascii;
  entry_delimiter : ascii;
  entry_blanks_after : list ascii;
  entry_value : list ascii;
  entry_end : ascii
}.

Definition render (e : Entry) : list ascii :=
  entry_key e ++ entry_blanks_before e ++ entry_delimiter e
    :: entry_blanks_after e ++ entry_value e ++ [entry_end e].

(** The key is a non-empty run of [A-Za-z0-9_], the value a non-empty
    token; the value itself need not be well formed. *)
Definition entry_ok (e : Entry) : bool :=
  negb (length (entry_key e) =? 0) && forallb key_char (entry_key e)
  && forallb is_blank (entry_blanks_before e) && is_delimiter (entry_delimiter e)
  && forallb is_blank (entry_blanks_after e)
  && negb (length (entry_value e) =? 0) && forallb value_char (entry_value e)
  && is_value_end (entry_end e).

(** The pair an entry contributes: none when its value is malformed. *)
Definition entry_pairs (e : Entry) : list (string * string) :=
  if well_formed_value (entry_value e)
  then [(string_of_list_ascii (map to_lower (entry_key e)),
         string_of_list_ascii (entry_value e))]
  else [].

(** ** AES-128 block decryption

    Modelled from the spec: the "block-cipher decrypt given a 128-bit
    key" that the code takes from [crypto::AesDecryptor128], outside
    this repository.  The derivation below is parametric in it; this
    instance (the inverse cipher of FIPS-197, single block) gives the
    parameter a value where a concrete key set is evaluated. *)

Module Aes128.

Definition aes_sbox : list Z :=
  [99; 124; 119; 123; 242; 107; 111; 197; 48; 1; 103; 43; 254; 215; 171; 118;
   202; 130; 201; 125; 250; 89; 71; 240; 173; 212; 162; 175; 156; 164; 114; 192;
   183; 253; 147; 38; 54; 63; 247; 204; 52; 165; 229; 241; 113; 216; 49; 21;
   4; 199; 35; 195; 24; 150; 5; 154; 7; 18; 128; 226; 235; 39; 178; 117;
   9; 131; 44; 26; 27; 110; 90; 160; 82; 59; 214; 179; 41; 227; 47; 132;
   83; 209; 0; 237; 32; 252; 177; 91; 106; 203; 190; 57; 74; 76; 88; 207;
   208; 239; 170; 251; 67; 77; 51; 133; 69; 249; 2; 127; 80; 60; 159; 168;
   81; 163; 64; 143; 146; 157; 56; 245; 188; 182; 218; 33; 16; 255; 243; 210;
   205; 12; 19; 236; 95; 151; 68; 23; 196; 167; 126; 61; 100; 93; 25; 115;
   96; 129; 79; 220; 34; 42; 144; 136; 70; 238; 184; 20; 222; 94; 11; 219;
   224; 50; 58; 10; 73; 6; 36; 92; 194; 211; 172; 98; 145; 149; 228; 121;
   231; 200; 55; 109; 141; 213; 78; 169; 108; 86; 244; 234; 101; 122; 174; 8;
   186; 120; 37; 46; 28; 166; 180; 198; 232; 221; 116; 31; 75; 189; 139; 138;
   112; 62; 181; 102; 72; 3; 246; 14; 97; 53; 87; 185; 134; 193; 29; 158;
   225; 248; 152; 17; 105; 217; 142; 148; 155; 30; 135; 233; 206; 85; 40; 223;
   140; 161; 137; 13; 191; 230; 66; 104; 65; 153; 45; 15; 176; 84; 187; 22]%Z.

Definition aes_inv_sbox : list Z :=
  [82; 9; 106; 213; 48; 54; 165; 56; 191; 64; 163; 158; 129; 243; 215; 251;
   124; 227; 57; 130; 155; 47; 255; 135; 52; 142; 67; 68; 196; 222; 233; 203;
   84; 123; 148; 50; 166; 194; 35; 61; 238; 76; 149; 11; 66; 250; 195; 78;
   8; 46; 161; 102; 40; 217; 36; 178; 118; 91; 162; 73; 109; 139; 209; 37;
   114; 248; 246; 100; 134; 104; 152; 22; 212; 164; 92; 204; 93; 101; 182; 146;
   108; 112; 72; 80; 253; 237; 185; 218; 94; 21; 70; 87; 167; 141; 157; 132;
   144; 216; 171; 0; 140; 188; 211; 10; 247; 228; 88; 5; 184; 179; 69; 6;
   208; 44; 30; 143; 202; 63; 15; 2; 193; 175; 189; 3; 1; 19; 138; 107;
   58; 145; 17; 65; 79; 103; 220; 234; 151; 242; 207; 206; 240; 180; 230; 115;
   150; 172; 116; 34; 231; 173; 53; 133; 226; 249; 55; 232; 28; 117; 223; 110;
   71; 241; 26; 113; 29; 41; 197; 137; 111; 183; 98; 14; 170; 24; 190; 27;
   252; 86; 62; 75; 198; 210; 121; 32; 154; 219; 192; 254; 120; 205; 90; 244;
   31; 221; 168; 51; 136; 7; 199; 49; 177; 18; 16; 89; 39; 128; 236; 95;
   96; 81; 127; 169; 25; 181; 74; 13; 45; 229; 122; 159; 147; 201; 156; 239;
   160; 224; 59; 77; 174; 42; 245; 176; 200; 235; 187; 60; 131; 83; 153; 97;
   23; 43; 4; 126; 186; 119; 214; 38; 225; 105; 20; 99; 85; 33; 12; 125]%Z.

Definition byte_at (l : list Z) (i : nat) : Z := nth i l 0%Z.

Definition sub (table : list Z) (x : Z) : Z := nth (Z.to_nat x) table 0%Z.

(** Multiplication by [x] in GF(2^8) modulo [x^8 + x^4 + x^3 + x + 1]. *)
Definition xtime (a : Z) : Z :=
  Z.land (if Z.testbit a 7 then Z.lxor (Z.shiftl a 1) 0x11b else Z.shiftl a 1) 0xff.

Fixpoint gmul_bits (n : nat) (a b : Z) : Z :=
  match n with
  | 0 => 0%Z
  | S n' => Z.lxor (if Z.odd b then a else 0%Z) (gmul_bits n' (xtime a) (Z.shiftr b 1))
  end.

Definition gmul (a b : Z) : Z := gmul_bits 8 a b.

Definition xor_bytes (n : nat) (a b : list Z) : list Z :=
  map (fun i => Z.lxor (byte_at a i) (byte_at b i)) (seq 0 n).

(** The key expansion: word [i] from words [i - 1] and [i - 4]. *)
Fixpoint expand_from (n i : nat) (rcon : Z) (w : list (list Z)) : list (list Z) :=
  match n with
  | 0 => w
  | S n' =>
    let prev := nth (i - 1) w [] in
    let back := nth (i - 4) w [] in
    if i mod 4 =? 0 then
      let t := [Z.lxor (sub aes_sbox (byte_at prev 1)) rcon; sub aes_sbox (byte_at prev 2);
                sub aes_sbox (byte_at prev 3); sub aes_sbox (byte_at prev 0)] in
      expand_from n' (S i) (xtime rcon) (w ++ [xor_bytes 4 back t])
    else expand_from n' (S i) rcon (w ++ [xor_bytes 4 back prev])
  end.

Definition key_schedule (key : list Z) : list (list Z) :=
  expand_from 40 4 1%Z
    (map (fun c => map (fun r => byte_at key (4 * c + r)) (seq 0 4)) (seq 0 4)).

Definition round_key (w : list (list Z)) (round : nat) : list Z :=
  concat (take 4 (drop (4 * round) w)).

(** The state is kept as the block is: byte [r + 4 * c] is row [r] of
    column [c]. *)
Definition inv_shift_rows (s : list Z) : list Z :=
  map (fun i => byte_at s (i mod 4 + 4 * ((i / 4 + 4 - i mod 4) mod 4))) (seq 0 16).

Definition inv_sub_bytes (s : list Z) : list Z := map (sub aes_inv_sbox) s.

Definition inv_mix_column (a0 a1 a2 a3 : Z) : list Z :=
  [Z.lxor (Z.lxor (gmul a0 14) (gmul a1 11)) (Z.lxor (gmul a2 13) (gmul a3 9));
   Z.lxor (Z.lxor (gmul a0 9) (gmul a1 14)) (Z.lxor (gmul a2 11) (gmul a3 13));
   Z.lxor (Z.lxor (gmul a0 13) (gmul a1 9)) (Z.lxor (gmul a2 14) (gmul a3 11));
   Z.lxor (Z.lxor (gmul a0 11) (gmul a1 13)) (Z.lxor (gmul a2 9) (gmul a3 14))].

Definition inv_mix_columns (s : list Z) : list Z :=
  concat (map (fun c => inv_mix_column (byte_at s (4 * c)) (byte_at s (4 * c + 1))
                          (byte_at s (4 * c + 2)) (byte_at s (4 * c + 3)))
              (seq 0 4)).

Definition decrypt_block (key src : list Z) : list Z :=
  let w := key_schedule key in
  let s := xor_bytes 16 src (round_key w 10) in
  let s :=
    fold_left
      (fun s round =>
         inv_mix_columns (xor_bytes 16 (inv_sub_bytes (inv_shift_rows s)) (round_key w round)))
      [9; 8; 7; 6; 5; 4; 3; 2; 1] s in
  xor_bytes 16 (inv_sub_bytes (inv_shift_rows s)) (round_key w 0).

End Aes128.


(** ** Text of bytes

    What a key file holds for a slot: two hex digits per byte, the high
    digit first, in upper or lower case. *)

Definition hex_digit (upper : bool) (d : Z) : ascii :=
  if (d <? 10)%Z then ascii_of_N (Z.to_N (chr_Z "0" + d))
  else ascii_of_N (Z.to_N (chr_Z (if upper then "A" else "a") + (d - 10))).

Definition hex_of (upper : bool) (bs : list Z) : list ascii :=
  flat_map (fun b => [hex_digit upper (b / 16); hex_digit upper (b mod 16)]) bs.

(** A [u8]. *)
Definition is_byte (b : Z) : bool := (0 <=? b)%Z && (b <? 256)%Z.

(** ** Key files as text *)

(** What [ProcessKeyValueFile] leaves in the buffer of a well-formed
    entry: the key folded to lower case, a NUL on the character after
    it and on the delimiter, the value, and a NUL on the character that
    ends it. *)
Definition entry_done (e : Entry) : list ascii :=
  map to_lower (entry_key e) ++ NUL :: tl (entry_blanks_before e ++ [NUL])
    ++ entry_blanks_after e ++ entry_value e ++ [NUL].

(** The world after the noting callback has been given the entries
    [es], one after the other. *)
Definition note_entries (es : list Entry) (w : World (list (string * string)))
  : World (list (string * string)) :=
  fold_left (fun w e => note_value (map to_lower (entry_key e)) (entry_value e) w) es w.

(** A key file as text: lines of filler and an entry. *)
Definition text_of (lines : list (list ascii * Entry)) : list ascii :=
  concat (map (fun l => fst l ++ render (snd l)) lines).

Definition lines_ok (lines : list (list ascii * Entry)) : bool :=
  forallb (fun l => forallb is_filler (fst l) && entry_ok (snd l)) lines.

(** What the parser leaves of the lines in the buffer. *)
Definition text_done (lines : list (list ascii * Entry)) : list ascii :=
  concat (map (fun l => fst l ++ entry_done (snd l)) lines).

(** The diagnostic of an entry: the one of its value, if any. *)
Definition entry_warnings (e : Entry) : list Warning :=
  if negb (length (entry_value e) mod 2 =? 0) then [ValueOddLength]
  else if existsb not_hexadecimal (entry_value e) then [ValueNotHexadecimal]
  else [].

(** A key file of three lines with DOS line ends: an entry, an entry
    whose value is not hexadecimal, an entry with blanks and a comma. *)
Definition sample_lines : list (list ascii * Entry) :=
  [ ([], mkEntry (list_ascii_of_string "Key_A") [] "=" [] (list_ascii_of_string "0011") CR);
    ([LF], mkEntry (list_ascii_of_string "key_b") [] "=" [] (list_ascii_of_string "xyz0") CR);
    ([LF; LF], mkEntry (list_ascii_of_string "KEY_C") [SPACE] "," [TAB]
                 (list_ascii_of_string "AbCd") CR) ].

(** What the callbacks rely on in a pair: the key is a non-empty word
    over [a-z0-9_] and the value an even number of hex digits. *)
Definition pair_ok (p : string * string) : bool :=
  let k := list_ascii_of_string (fst p) in
  negb (length k =? 0) && forallb (fun c => negb (not_key_char c)) k
  && well_formed_value (list_ascii_of_string (snd p)).

(** The characters of [buf] from [key] up to [kend] are in [a-z0-9_]. *)
Definition key_segment (buf : list ascii) (key kend : nat) : Prop :=
  forall i, key <= i < kend -> exists c, buf !! i = Some c /\ not_key_char c = false.

(** ** Title-key files as text *)

(** The callback [PresetInternalKeys] gives [LoadKeyValueFile] for the
    title-key file: [LoadTitleKey(m_external_nca_key_manager, key, value)]. *)
Definition title_key_callback {KeyManager : Type}
    (Register : KeyManager -> list Z -> list Z -> KeyManager)
    (key value : cptr) (w : World KeyManager) : option (World KeyManager) :=
  LoadTitleKey KeyManager Register (fst w) key value (snd w).

(** One line of a title-key file as text: filler, the rights id in hex,
    blanks, a delimiter, blanks, the title key in hex and the character
    that ends it.  Each of the two numbers is written in one case. *)
Record TitleKeyLine : Type := mkTitleKeyLine {
  line_filler : list ascii;
  line_rights_id : list Z;
  line_rights_id_upper : bool;
  line_blanks_before : list ascii;
  line_delimiter : ascii;
  line_blanks_after : list ascii;
  line_access_key : list Z;
  line_access_key_upper : bool;
  line_end : ascii
}.

Definition line_entry (l : TitleKeyLine) : Entry :=
  mkEntry (hex_of (line_rights_id_upper l) (line_rights_id l)) (line_blanks_before l)
    (line_delimiter l) (line_blanks_after l)
    (hex_of (line_access_key_upper l) (line_access_key l)) (line_end l).

Definition line_text (l : TitleKeyLine) : list ascii :=
  line_filler l ++ render (line_entry l).

Definition line_ok (l : TitleKeyLine) : bool :=
  forallb is_filler (line_filler l)
  && (length (line_rights_id l) =? RightsIdSize) && forallb is_byte (line_rights_id l)
  && forallb is_blank (line_blanks_before l) && is_delimiter (line_delimiter l)
  && forallb is_blank (line_blanks_after l)
  && (length (line_access_key l) =? AccessKeySize) && forallb is_byte (line_access_key l)
  && is_value_end (line_end l).

(** The registrations of the lines, in their order. *)
Definition register_lines {KeyManager : Type}
    (Register : KeyManager -> list Z -> list Z -> KeyManager)
    (lines : list TitleKeyLine) (km : KeyManager) : KeyManager :=
  fold_left (fun km l => Register km (line_rights_id l) (line_access_key l)) lines km.

(** A title-key file of two lines, the second in upper
    case with blanks around a comma and a carriage return before the
    line feed. *)
Definition sample_title_key_lines : list TitleKeyLine :=
  [ mkTitleKeyLine [] (block_from 1) false [] "=" [] (block_from 17) false LF;
    mkTitleKeyLine [LF] (block_from 33) true [SPACE] "," [TAB] (block_from 49) true CR ].

(** ** Reading a key file *)

(** The warnings of [LoadKeyValueFile], one for each call that can
    fail: [fs::OpenFile], [fs::GetFileSize], the allocation of the
    buffer and [fs::ReadFile]. *)
Inductive FileFailure : Type :=
| FailedToOpen
| FailedToGetSize
| FailedToAllocate
| FailedToRead.

(** [LoadKeyValueFile(path, f)].  The file system is outside this
    repository: [file] is what its calls give for [path], the first
    failure or the content of the file.  After a failure the function
    writes its warning and returns.  Otherwise the buffer is
    [std::make_unique<char[]>(file_size)] with the file read into it,
    the [file_size] characters of the file and no more, and
    [ProcessKeyValueFile] runs on it. *)
Definition LoadKeyValueFile {St : Type} (f : cptr -> cptr -> World St -> option (World St))
    (file : FileFailure + list ascii) (w : World St) : FileFailure + Parsed St :=
  match file with
  | inl failure => inl failure
  | inr content => inr (ProcessKeyValueFile St f content (length content) w)
  end.

(** ** External keys

    Field updates for the slots [LoadExternalKey] decodes into. *)

Definition set_aes_kek_generation_source (ks : KeySet) (v : list Z) : KeySet :=
  {| secure_boot_key := secure_boot_key ks; tsec_key := tsec_key ks;
     device_key := device_key ks; keyblob_keys := keyblob_keys ks;
     keyblob_mac_keys := keyblob_mac_keys ks; encrypted_keyblobs := encrypted_keyblobs ks;
     mariko_aes_class_keys := mariko_aes_class_keys ks; mariko_kek := mariko_kek ks;
     mariko_bek := mariko_bek ks; keyblobs := keyblobs ks;
     keyblob_key_sources := keyblob_key_sources ks;
     keyblob_mac_key_source := keyblob_mac_key_source ks; tsec_root_kek := tsec_root_kek ks;
     package1_mac_kek := package1_mac_kek ks; package1_kek := package1_kek ks;
     tsec_auth_signatures := tsec_auth_signatures ks; tsec_root_keys := tsec_root_keys ks;
     master_kek_sources := master_kek_sources ks;
     mariko_master_kek_sources := mariko_master_kek_sources ks; master_keks := master_keks ks;
     master_key_source := master_key_source ks; master_keys := master_keys ks;
     package1_mac_keys := package1_mac_keys ks; package1_keys := package1_keys ks;
     package2_keys := package2_keys ks; package2_key_source := package2_key_source ks;
     per_console_key_source := per_console_key_source ks; aes_kek_generation_source := v;
     aes_key_generation_source := aes_key_generation_source ks;
     key_area_key_application_source := key_area_key_application_source ks;
     key_area_key_ocean_source := key_area_key_ocean_source ks;
     key_area_key_system_source := key_area_key_system_source ks;
     titlekek_source := titlekek_source ks; header_kek_source := header_kek_source ks;
     sd_card_kek_source := sd_card_kek_source ks;
     sd_card_nca_key_source := sd_card_nca_key_source ks;
     sd_card_save_key_source := sd_card_save_key_source ks;
     save_mac_kek_source := save_mac_kek_source ks;
     save_mac_key_source := save_mac_key_source ks; header_key_source := header_key_source ks;
     header_key := header_key ks; titlekeks := titlekeks ks; key_area_keys := key_area_keys ks;
     xci_header_key := xci_header_key ks; save_mac_key := save_mac_key ks;
     sd_card_keys := sd_card_keys ks; nca_hdr_fixed_key_moduli := nca_hdr_fixed_key_moduli ks;
     acid_fixed_key_moduli := acid_fixed_key_moduli ks;
     package2_fixed_key_modulus := package2_fixed_key_modulus ks |}.

Definition set_aes_key_generation_source (ks : KeySet) (v : list Z) : KeySet :=
  {| secure_boot_key := secure_boot_key ks; tsec_key := tsec_key ks;
     device_key := device_key ks; keyblob_keys := keyblob_keys ks;
     keyblob_mac_keys := keyblob_mac_keys ks; encrypted_keyblobs := encrypted_keyblobs ks;
     mariko_aes_class_keys := mariko_aes_class_keys ks; mariko_kek := mariko_kek ks;
     mariko_bek := mariko_bek ks; keyblobs := keyblobs ks;
     keyblob_key_sources := keyblob_key_sources ks;
     keyblob_mac_key_source := keyblob_mac_key_source ks; tsec_root_kek := tsec_root_kek ks;
     package1_mac_kek := package1_mac_kek ks; package1_kek := package1_kek ks;
     tsec_auth_signatures := tsec_auth_signatures ks; tsec_root_keys := tsec_root_keys ks;
     master_kek_sources := master_kek_sources ks;
     mariko_master_kek_sources := mariko_master_kek_sources ks; master_keks := master_keks ks;
     master_key_source := master_key_source ks; master_keys := master_keys ks;
     package1_mac_keys := package1_mac_keys ks; package1_keys := package1_keys ks;
     package2_keys := package2_keys ks; package2_key_source := package2_key_source ks;
     per_console_key_source := per_console_key_source ks;
     aes_kek_generation_source := aes_kek_generation_source ks; aes_key_generation_source := v;
     key_area_key_application_source := key_area_key_application_source ks;
     key_area_key_ocean_source := key_area_key_ocean_source ks;
     key_area_key_system_source := key_area_key_system_source ks;
     titlekek_source := titlekek_source ks; header_kek_source := header_kek_source ks;
     sd_card_kek_source := sd_card_kek_source ks;
     sd_card_nca_key_source := sd_card_nca_key_source ks;
     sd_card_save_key_source := sd_card_save_key_source ks;
     save_mac_kek_source := save_mac_kek_source ks;
     save_mac_key_source := save_mac_key_source ks; header_key_source := header_key_source ks;
     header_key := header_key ks; titlekeks := titlekeks ks; key_area_keys := key_area_keys ks;
     xci_header_key := xci_header_key ks; save_mac_key := save_mac_key ks;
     sd_card_keys := sd_card_keys ks; nca_hdr_fixed_key_moduli := nca_hdr_fixed_key_moduli ks;
     acid_fixed_key_moduli := acid_fixed_key_moduli ks;
     package2_fixed_key_modulus := package2_fixed_key_modulus ks |}.

Definition set_key_area_key_application_source (ks : KeySet) (v : list Z) : KeySet :=
  {| secure_boot_key := secure_boot_key ks; tsec_key := tsec_key ks;
     device_key := device_key ks; keyblob_keys := keyblob_keys ks;
     keyblob_mac_keys := keyblob_mac_keys ks; encrypted_keyblobs := encrypted_keyblobs ks;
     mariko_aes_class_keys := mariko_aes_class_keys ks; mariko_kek := mariko_kek ks;
     mariko_bek := mariko_bek ks; keyblobs := keyblobs ks;
     keyblob_key_sources := keyblob_key_sources ks;
     keyblob_mac_key_source := keyblob_mac_key_source ks; tsec_root_kek := tsec_root_kek ks;
     package1_mac_kek := package1_mac_kek ks; package1_kek := package1_kek ks;
     tsec_auth_signatures := tsec_auth_signatures ks; tsec_root_keys := tsec_root_keys ks;
     master_kek_sources := master_kek_sources ks;
     mariko_master_kek_sources := mariko_master_kek_sources ks; master_keks := master_keks ks;
     master_key_source := master_key_source ks; master_keys := master_keys ks;
     package1_mac_keys := package1_mac_keys ks; package1_keys := package1_keys ks;
     package2_keys := package2_keys ks; package2_key_source := package2_key_source ks;
     per_console_key_source := per_console_key_source ks;
     aes_kek_generation_source := aes_kek_generation_source ks;
     aes_key_generation_source := aes_key_generation_source ks;
     key_area_key_application_source := v;
     key_area_key_ocean_source := key_area_key_ocean_source ks;
     key_area_key_system_source := key_area_key_system_source ks;
     titlekek_source := titlekek_source ks; header_kek_source := header_kek_source ks;
     sd_card_kek_source := sd_card_kek_source ks;
     sd_card_nca_key_source := sd_card_nca_key_source ks;
     sd_card_save_key_source := sd_card_save_key_source ks;
     save_mac_kek_source := save_mac_kek_source ks;
     save_mac_key_source := save_mac_key_source ks; header_key_source := header_key_source ks;
     header_key := header_key ks; titlekeks := titlekeks ks; key_area_keys := key_area_keys ks;
     xci_header_key := xci_header_key ks; save_mac_key := save_mac_key ks;
     sd_card_keys := sd_card_keys ks; nca_hdr_fixed_key_moduli := nca_hdr_fixed_key_moduli ks;
     acid_fixed_key_moduli := acid_fixed_key_moduli ks;
     package2_fixed_key_modulus := package2_fixed_key_modulus ks |}.

Definition set_key_area_key_ocean_source (ks : KeySet) (v : list Z) : KeySet :=
  {| secure_boot_key := secure_boot_key ks; tsec_key := tsec_key ks;
     device_key := device_key ks; keyblob_keys := keyblob_keys ks;
     keyblob_mac_keys := keyblob_mac_keys ks; encrypted_keyblobs := encrypted_keyblobs ks;
     mariko_aes_class_keys := mariko_aes_class_keys ks; mariko_kek := mariko_kek ks;
     mariko_bek := mariko_bek ks; keyblobs := keyblobs ks;
     keyblob_key_sources := keyblob_key_sources ks;
     keyblob_mac_key_source := keyblob_mac_key_source ks; tsec_root_kek := tsec_root_kek ks;
     package1_mac_kek := package1_mac_kek ks; package1_kek := package1_kek ks;
     tsec_auth_signatures := tsec_auth_signatures ks; tsec_root_keys := tsec_root_keys ks;
     master_kek_sources := master_kek_sources ks;
     mariko_master_kek_sources := mariko_master_kek_sources ks; master_keks := master_keks ks;
     master_key_source := master_key_source ks; master_keys := master_keys ks;
     package1_mac_keys := package1_mac_keys ks; package1_keys := package1_keys ks;
     package2_keys := package2_keys ks; package2_key_source := package2_key_source ks;
     per_console_key_source := per_console_key_source ks;
     aes_kek_generation_source := aes_kek_generation_source ks;
     aes_key_generation_source := aes_key_generation_source ks;
     key_area_key_application_source := key_area_key_application_source ks;
     key_area_key_ocean_source := v;
     key_area_key_system_source := key_area_key_system_source ks;
     titlekek_source := titlekek_source ks; header_kek_source := header_kek_source ks;
     sd_card_kek_source := sd_card_kek_source ks;
     sd_card_nca_key_source := sd_card_nca_key_source ks;
     sd_card_save_key_source := sd_card_save_key_source ks;
     save_mac_kek_source := save_mac_kek_source ks;
     save_mac_key_source := save_mac_key_source ks; header_key_source := header_key_source ks;
     header_key := header_key ks; titlekeks := titlekeks ks; key_area_keys := key_area_keys ks;
     xci_header_key := xci_header_key ks; save_mac_key := save_mac_key ks;
     sd_card_keys := sd_card_keys ks; nca_hdr_fixed_key_moduli := nca_hdr_fixed_key_moduli ks;
     acid_fixed_key_moduli := acid_fixed_key_moduli ks;
     package2_fixed_key_modulus := package2_fixed_key_modulus ks |}.

Definition set_key_area_key_system_source (ks : KeySet) (v : list Z) : KeySet :=
  {| secure_boot_key := secure_boot_key ks; tsec_key := tsec_key ks;
     device_key := device_key ks; keyblob_keys := keyblob_keys ks;
     keyblob_mac_keys := keyblob_mac_keys ks; encrypted_keyblobs := encrypted_keyblobs ks;
     mariko_aes_class_keys := mariko_aes_class_keys ks; mariko_kek := mariko_kek ks;
     mariko_bek := mariko_bek ks; keyblobs := keyblobs ks;
     keyblob_key_sources := keyblob_key_sources ks;
     keyblob_mac_key_source := keyblob_mac_key_source ks; tsec_root_kek := tsec_root_kek ks;
     package1_mac_kek := package1_mac_kek ks; package1_kek := package1_kek ks;
     tsec_auth_signatures := tsec_auth_signatures ks; tsec_root_keys := tsec_root_keys ks;
     master_kek_sources := master_kek_sources ks;
     mariko_master_kek_sources := mariko_master_kek_sources ks; master_keks := master_keks ks;
     master_key_source := master_key_source ks; master_keys := master_keys ks;
     package1_mac_keys := package1_mac_keys ks; package1_keys := package1_keys ks;
     package2_keys := package2_keys ks; package2_key_source := package2_key_source ks;
     per_console_key_source := per_console_key_source ks;
     aes_kek_generation_source := aes_kek_generation_source ks;
     aes_key_generation_source := aes_key_generation_source ks;
     key_area_key_application_source := key_area_key_application_source ks;
     key_area_key_ocean_source := key_area_key_ocean_source ks;
     key_area_key_system_source := v; titlekek_source := titlekek_source ks;
     header_kek_source := header_kek_source ks; sd_card_kek_source := sd_card_kek_source ks;
     sd_card_nca_key_source := sd_card_nca_key_source ks;
     sd_card_save_key_source := sd_card_save_key_source ks;
     save_mac_kek_source := save_mac_kek_source ks;
     save_mac_key_source := save_mac_key_source ks; header_key_source := header_key_source ks;
     header_key := header_key ks; titlekeks := titlekeks ks; key_area_keys := key_area_keys ks;
     xci_header_key := xci_header_key ks; save_mac_key := save_mac_key ks;
     sd_card_keys := sd_card_keys ks; nca_hdr_fixed_key_moduli := nca_hdr_fixed_key_moduli ks;
     acid_fixed_key_moduli := acid_fixed_key_moduli ks;
     package2_fixed_key_modulus := package2_fixed_key_modulus ks |}.

Definition set_titlekek_source (ks : KeySet) (v : list Z) : KeySet :=
  {| secure_boot_key := secure_boot_key ks; tsec_key := tsec_key ks;
     device_key := device_key ks; keyblob_keys := keyblob_keys ks;
     keyblob_mac_keys := keyblob_mac_keys ks; encrypted_keyblobs := encrypted_keyblobs ks;
     mariko_aes_class_keys := mariko_aes_class_keys ks; mariko_kek := mariko_kek ks;
     mariko_bek := mariko_bek ks; keyblobs := keyblobs ks;
     keyblob_key_sources := keyblob_key_sources ks;
     keyblob_mac_key_source := keyblob_mac_key_source ks; tsec_root_kek := tsec_root_kek ks;
     package1_mac_kek := package1_mac_kek ks; package1_kek := package1_kek ks;
     tsec_auth_signatures := tsec_auth_signatures ks; tsec_root_keys := tsec_root_keys ks;
     master_kek_sources := master_kek_sources ks;
     mariko_master_kek_sources := mariko_master_kek_sources ks; master_keks := master_keks ks;
     master_key_source := master_key_source ks; master_keys := master_keys ks;
     package1_mac_keys := package1_mac_keys ks; package1_keys := package1_keys ks;
     package2_keys := package2_keys ks; package2_key_source := package2_key_source ks;
     per_console_key_source := per_console_key_source ks;
     aes_kek_generation_source := aes_kek_generation_source ks;
     aes_key_generation_source := aes_key_generation_source ks;
     key_area_key_application_source := key_area_key_application_source ks;
     key_area_key_ocean_source := key_area_key_ocean_source ks;
     key_area_key_system_source := key_area_key_system_source ks; titlekek_source := v;
     header_kek_source := header_kek_source ks; sd_card_kek_source := sd_card_kek_source ks;
     sd_card_nca_key_source := sd_card_nca_key_source ks;
     sd_card_save_key_source := sd_card_save_key_source ks;
     save_mac_kek_source := save_mac_kek_source ks;
     save_mac_key_source := save_mac_key_source ks; header_key_source := header_key_source ks;
     header_key := header_key ks; titlekeks := titlekeks ks; key_area_keys := key_area_keys ks;
     xci_header_key := xci_header_key ks; save_mac_key := save_mac_key ks;
     sd_card_keys := sd_card_keys ks; nca_hdr_fixed_key_moduli := nca_hdr_fixed_key_moduli ks;
     acid_fixed_key_moduli := acid_fixed_key_moduli ks;
     package2_fixed_key_modulus := package2_fixed_key_modulus ks |}.

Definition set_header_kek_source (ks : KeySet) (v : list Z) : KeySet :=
  {| secure_boot_key := secure_boot_key ks; tsec_key := tsec_key ks;
     device_key := device_key ks; keyblob_keys := keyblob_keys ks;
     keyblob_mac_keys := keyblob_mac_keys ks; encrypted_keyblobs := encrypted_keyblobs ks;
     mariko_aes_class_keys := mariko_aes_class_keys ks; mariko_kek := mariko_kek ks;
     mariko_bek := mariko_bek ks; keyblobs := keyblobs ks;
     keyblob_key_sources := keyblob_key_sources ks;
     keyblob_mac_key_source := keyblob_mac_key_source ks; tsec_root_kek := tsec_root_kek ks;
     package1_mac_kek := package1_mac_kek ks; package1_kek := package1_kek ks;
     tsec_auth_signatures := tsec_auth_signatures ks; tsec_root_keys := tsec_root_keys ks;
     master_kek_sources := master_kek_sources ks;
     mariko_master_kek_sources := mariko_master_kek_sources ks; master_keks := master_keks ks;
     master_key_source := master_key_source ks; master_keys := master_keys ks;
     package1_mac_keys := package1_mac_keys ks; package1_keys := package1_keys ks;
     package2_keys := package2_keys ks; package2_key_source := package2_key_source ks;
     per_console_key_source := per_console_key_source ks;
     aes_kek_generation_source := aes_kek_generation_source ks;
     aes_key_generation_source := aes_key_generation_source ks;
     key_area_key_application_source := key_area_key_application_source ks;
     key_area_key_ocean_source := key_area_key_ocean_source ks;
     key_area_key_system_source := key_area_key_system_source ks;
     titlekek_source := titlekek_source ks; header_kek_source := v;
     sd_card_kek_source := sd_card_kek_source ks;
     sd_card_nca_key_source := sd_card_nca_key_source ks;
     sd_card_save_key_source := sd_card_save_key_source ks;
     save_mac_kek_source := save_mac_kek_source ks;
     save_mac_key_source := save_mac_key_source ks; header_key_source := header_key_source ks;
     header_key := header_key ks; titlekeks := titlekeks ks; key_area_keys := key_area_keys ks;
     xci_header_key := xci_header_key ks; save_mac_key := save_mac_key ks;
     sd_card_keys := sd_card_keys ks; nca_hdr_fixed_key_moduli := nca_hdr_fixed_key_moduli ks;
     acid_fixed_key_moduli := acid_fixed_key_moduli ks;
     package2_fixed_key_modulus := package2_fixed_key_modulus ks |}.

Definition set_header_key_source (ks : KeySet) (v : list Z) : KeySet :=
  {| secure_boot_key := secure_boot_key ks; tsec_key := tsec_key ks;
     device_key := device_key ks; keyblob_keys := keyblob_keys ks;
     keyblob_mac_keys := keyblob_mac_keys ks; encrypted_keyblobs := encrypted_keyblobs ks;
     mariko_aes_class_keys := mariko_aes_class_keys ks; mariko_kek := mariko_kek ks;
     mariko_bek := mariko_bek ks; keyblobs := keyblobs ks;
     keyblob_key_sources := keyblob_key_sources ks;
     keyblob_mac_key_source := keyblob_mac_key_source ks; tsec_root_kek := tsec_root_kek ks;
     package1_mac_kek := package1_mac_kek ks; package1_kek := package1_kek ks;
     tsec_auth_signatures := tsec_auth_signatures ks; tsec_root_keys := tsec_root_keys ks;
     master_kek_sources := master_kek_sources ks;
     mariko_master_kek_sources := mariko_master_kek_sources ks; master_keks := master_keks ks;
     master_key_source := master_key_source ks; master_keys := master_keys ks;
     package1_mac_keys := package1_mac_keys ks; package1_keys := package1_keys ks;
     package2_keys := package2_keys ks; package2_key_source := package2_key_source ks;
     per_console_key_source := per_console_key_source ks;
     aes_kek_generation_source := aes_kek_generation_source ks;
     aes_key_generation_source := aes_key_generation_source ks;
     key_area_key_application_source := key_area_key_application_source ks;
     key_area_key_ocean_source := key_area_key_ocean_source ks;
     key_area_key_system_source := key_area_key_system_source ks;
     titlekek_source := titlekek_source ks; header_kek_source := header_kek_source ks;
     sd_card_kek_source := sd_card_kek_source ks;
     sd_card_nca_key_source := sd_card_nca_key_source ks;
     sd_card_save_key_source := sd_card_save_key_source ks;
     save_mac_kek_source := save_mac_kek_source ks;
     save_mac_key_source := save_mac_key_source ks; header_key_source := v;
     header_key := header_key ks; titlekeks := titlekeks ks; key_area_keys := key_area_keys ks;
     xci_header_key := xci_header_key ks; save_mac_key := save_mac_key ks;
     sd_card_keys := sd_card_keys ks; nca_hdr_fixed_key_moduli := nca_hdr_fixed_key_moduli ks;
     acid_fixed_key_moduli := acid_fixed_key_moduli ks;
     package2_fixed_key_modulus := package2_fixed_key_modulus ks |}.

Definition set_header_key (ks : KeySet) (v : list Z) : KeySet :=
  {| secure_boot_key := secure_boot_key ks; tsec_key := tsec_key ks;
     device_key := device_key ks; keyblob_keys := keyblob_keys ks;
     keyblob_mac_keys := keyblob_mac_keys ks; encrypted_keyblobs := encrypted_keyblobs ks;
     mariko_aes_class_keys := mariko_aes_class_keys ks; mariko_kek := mariko_kek ks;
     mariko_bek := mariko_bek ks; keyblobs := keyblobs ks;
     keyblob_key_sources := keyblob_key_sources ks;
     keyblob_mac_key_source := keyblob_mac_key_source ks; tsec_root_kek := tsec_root_kek ks;
     package1_mac_kek := package1_mac_kek ks; package1_kek := package1_kek ks;
     tsec_auth_signatures := tsec_auth_signatures ks; tsec_root_keys := tsec_root_keys ks;
     master_kek_sources := master_kek_sources ks;
     mariko_master_kek_sources := mariko_master_kek_sources ks; master_keks := master_keks ks;
     master_key_source := master_key_source ks; master_keys := master_keys ks;
     package1_mac_keys := package1_mac_keys ks; package1_keys := package1_keys ks;
     package2_keys := package2_keys ks; package2_key_source := package2_key_source ks;
     per_console_key_source := per_console_key_source ks;
     aes_kek_generation_source := aes_kek_generation_source ks;
     aes_key_generation_source := aes_key_generation_source ks;
     key_area_key_application_source := key_area_key_application_source ks;
     key_area_key_ocean_source := key_area_key_ocean_source ks;
     key_area_key_system_source := key_area_key_system_source ks;
     titlekek_source := titlekek_source ks; header_kek_source := header_kek_source ks;
     sd_card_kek_source := sd_card_kek_source ks;
     sd_card_nca_key_source := sd_card_nca_key_source ks;
     sd_card_save_key_source := sd_card_save_key_source ks;
     save_mac_kek_source := save_mac_kek_source ks;
     save_mac_key_source := save_mac_key_source ks; header_key_source := header_key_source ks;
     header_key := v; titlekeks := titlekeks ks; key_area_keys := key_area_keys ks;
     xci_header_key := xci_header_key ks; save_mac_key := save_mac_key ks;
     sd_card_keys := sd_card_keys ks; nca_hdr_fixed_key_moduli := nca_hdr_fixed_key_moduli ks;
     acid_fixed_key_moduli := acid_fixed_key_moduli ks;
     package2_fixed_key_modulus := package2_fixed_key_modulus ks |}.

Definition set_package2_key_source (ks : KeySet) (v : list Z) : KeySet :=
  {| secure_boot_key := secure_boot_key ks; tsec_key := tsec_key ks;
     device_key := device_key ks; keyblob_keys := keyblob_keys ks;
     keyblob_mac_keys := keyblob_mac_keys ks; encrypted_keyblobs := encrypted_keyblobs ks;
     mariko_aes_class_keys := mariko_aes_class_keys ks; mariko_kek := mariko_kek ks;
     mariko_bek := mariko_bek ks; keyblobs := keyblobs ks;
     keyblob_key_sources := keyblob_key_sources ks;
     keyblob_mac_key_source := keyblob_mac_key_source ks; tsec_root_kek := tsec_root_kek ks;
     package1_mac_kek := package1_mac_kek ks; package1_kek := package1_kek ks;
     tsec_auth_signatures := tsec_auth_signatures ks; tsec_root_keys := tsec_root_keys ks;
     master_kek_sources := master_kek_sources ks;
     mariko_master_kek_sources := mariko_master_kek_sources ks; master_keks := master_keks ks;
     master_key_source := master_key_source ks; master_keys := master_keys ks;
     package1_mac_keys := package1_mac_keys ks; package1_keys := package1_keys ks;
     package2_keys := package2_keys ks; package2_key_source := v;
     per_console_key_source := per_console_key_source ks;
     aes_kek_generation_source := aes_kek_generation_source ks;
     aes_key_generation_source := aes_key_generation_source ks;
     key_area_key_application_source := key_area_key_application_source ks;
     key_area_key_ocean_source := key_area_key_ocean_source ks;
     key_area_key_system_source := key_area_key_system_source ks;
     titlekek_source := titlekek_source ks; header_kek_source := header_kek_source ks;
     sd_card_kek_source := sd_card_kek_source ks;
     sd_card_nca_key_source := sd_card_nca_key_source ks;
     sd_card_save_key_source := sd_card_save_key_source ks;
     save_mac_kek_source := save_mac_kek_source ks;
     save_mac_key_source := save_mac_key_source ks; header_key_source := header_key_source ks;
     header_key := header_key ks; titlekeks := titlekeks ks; key_area_keys := key_area_keys ks;
     xci_header_key := xci_header_key ks; save_mac_key := save_mac_key ks;
     sd_card_keys := sd_card_keys ks; nca_hdr_fixed_key_moduli := nca_hdr_fixed_key_moduli ks;
     acid_fixed_key_moduli := acid_fixed_key_moduli ks;
     package2_fixed_key_modulus := package2_fixed_key_modulus ks |}.

Definition set_xci_header_key (ks : KeySet) (v : list Z) : KeySet :=
  {| secure_boot_key := secure_boot_key ks; tsec_key := tsec_key ks;
     device_key := device_key ks; keyblob_keys := keyblob_keys ks;
     keyblob_mac_keys := keyblob_mac_keys ks; encrypted_keyblobs := encrypted_keyblobs ks;
     mariko_aes_class_keys := mariko_aes_class_keys ks; mariko_kek := mariko_kek ks;
     mariko_bek := mariko_bek ks; keyblobs := keyblobs ks;
     keyblob_key_sources := keyblob_key_sources ks;
     keyblob_mac_key_source := keyblob_mac_key_source ks; tsec_root_kek := tsec_root_kek ks;
     package1_mac_kek := package1_mac_kek ks; package1_kek := package1_kek ks;
     tsec_auth_signatures := tsec_auth_signatures ks; tsec_root_keys := tsec_root_keys ks;
     master_kek_sources := master_kek_sources ks;
     mariko_master_kek_sources := mariko_master_kek_sources ks; master_keks := master_keks ks;
     master_key_source := master_key_source ks; master_keys := master_keys ks;
     package1_mac_keys := package1_mac_keys ks; package1_keys := package1_keys ks;
     package2_keys := package2_keys ks; package2_key_source := package2_key_source ks;
     per_console_key_source := per_console_key_source ks;
     aes_kek_generation_source := aes_kek_generation_source ks;
     aes_key_generation_source := aes_key_generation_source ks;
     key_area_key_application_source := key_area_key_application_source ks;
     key_area_key_ocean_source := key_area_key_ocean_source ks;
     key_area_key_system_source := key_area_key_system_source ks;
     titlekek_source := titlekek_source ks; header_kek_source := header_kek_source ks;
     sd_card_kek_source := sd_card_kek_source ks;
     sd_card_nca_key_source := sd_card_nca_key_source ks;
     sd_card_save_key_source := sd_card_save_key_source ks;
     save_mac_kek_source := save_mac_kek_source ks;
     save_mac_key_source := save_mac_key_source ks; header_key_source := header_key_source ks;
     header_key := header_key ks; titlekeks := titlekeks ks; key_area_keys := key_area_keys ks;
     xci_header_key := v; save_mac_key := save_mac_key ks; sd_card_keys := sd_card_keys ks;
     nca_hdr_fixed_key_moduli := nca_hdr_fixed_key_moduli ks;
     acid_fixed_key_moduli := acid_fixed_key_moduli ks;
     package2_fixed_key_modulus := package2_fixed_key_modulus ks |}.

Definition set_sd_card_kek_source (ks : KeySet) (v : list Z) : KeySet :=
  {| secure_boot_key := secure_boot_key ks; tsec_key := tsec_key ks;
     device_key := device_key ks; keyblob_keys := keyblob_keys ks;
     keyblob_mac_keys := keyblob_mac_keys ks; encrypted_keyblobs := encrypted_keyblobs ks;
     mariko_aes_class_keys := mariko_aes_class_keys ks; mariko_kek := mariko_kek ks;
     mariko_bek := mariko_bek ks; keyblobs := keyblobs ks;
     keyblob_key_sources := keyblob_key_sources ks;
     keyblob_mac_key_source := keyblob_mac_key_source ks; tsec_root_kek := tsec_root_kek ks;
     package1_mac_kek := package1_mac_kek ks; package1_kek := package1_kek ks;
     tsec_auth_signatures := tsec_auth_signatures ks; tsec_root_keys := tsec_root_keys ks;
     master_kek_sources := master_kek_sources ks;
     mariko_master_kek_sources := mariko_master_kek_sources ks; master_keks := master_keks ks;
     master_key_source := master_key_source ks; master_keys := master_keys ks;
     package1_mac_keys := package1_mac_keys ks; package1_keys := package1_keys ks;
     package2_keys := package2_keys ks; package2_key_source := package2_key_source ks;
     per_console_key_source := per_console_key_source ks;
     aes_kek_generation_source := aes_kek_generation_source ks;
     aes_key_generation_source := aes_key_generation_source ks;
     key_area_key_application_source := key_area_key_application_source ks;
     key_area_key_ocean_source := key_area_key_ocean_source ks;
     key_area_key_system_source := key_area_key_system_source ks;
     titlekek_source := titlekek_source ks; header_kek_source := header_kek_source ks;
     sd_card_kek_source := v; sd_card_nca_key_source := sd_card_nca_key_source ks;
     sd_card_save_key_source := sd_card_save_key_source ks;
     save_mac_kek_source := save_mac_kek_source ks;
     save_mac_key_source := save_mac_key_source ks; header_key_source := header_key_source ks;
     header_key := header_key ks; titlekeks := titlekeks ks; key_area_keys := key_area_keys ks;
     xci_header_key := xci_header_key ks; save_mac_key := save_mac_key ks;
     sd_card_keys := sd_card_keys ks; nca_hdr_fixed_key_moduli := nca_hdr_fixed_key_moduli ks;
     acid_fixed_key_moduli := acid_fixed_key_moduli ks;
     package2_fixed_key_modulus := package2_fixed_key_modulus ks |}.

Definition set_sd_card_nca_key_source (ks : KeySet) (v : list Z) : KeySet :=
  {| secure_boot_key := secure_boot_key ks; tsec_key := tsec_key ks;
     device_key := device_key ks; keyblob_keys := keyblob_keys ks;
     keyblob_mac_keys := keyblob_mac_keys ks; encrypted_keyblobs := encrypted_keyblobs ks;
     mariko_aes_class_keys := mariko_aes_class_keys ks; mariko_kek := mariko_kek ks;
     mariko_bek := mariko_bek ks; keyblobs := keyblobs ks;
     keyblob_key_sources := keyblob_key_sources ks;
     keyblob_mac_key_source := keyblob_mac_key_source ks; tsec_root_kek := tsec_root_kek ks;
     package1_mac_kek := package1_mac_kek ks; package1_kek := package1_kek ks;
     tsec_auth_signatures := tsec_auth_signatures ks; tsec_root_keys := tsec_root_keys ks;
     master_kek_sources := master_kek_sources ks;
     mariko_master_kek_sources := mariko_master_kek_sources ks; master_keks := master_keks ks;
     master_key_source := master_key_source ks; master_keys := master_keys ks;
     package1_mac_keys := package1_mac_keys ks; package1_keys := package1_keys ks;
     package2_keys := package2_keys ks; package2_key_source := package2_key_source ks;
     per_console_key_source := per_console_key_source ks;
     aes_kek_generation_source := aes_kek_generation_source ks;
     aes_key_generation_source := aes_key_generation_source ks;
     key_area_key_application_source := key_area_key_application_source ks;
     key_area_key_ocean_source := key_area_key_ocean_source ks;
     key_area_key_system_source := key_area_key_system_source ks;
     titlekek_source := titlekek_source ks; header_kek_source := header_kek_source ks;
     sd_card_kek_source := sd_card_kek_source ks; sd_card_nca_key_source := v;
     sd_card_save_key_source := sd_card_save_key_source ks;
     save_mac_kek_source := save_mac_kek_source ks;
     save_mac_key_source := save_mac_key_source ks; header_key_source := header_key_source ks;
     header_key := header_key ks; titlekeks := titlekeks ks; key_area_keys := key_area_keys ks;
     xci_header_key := xci_header_key ks; save_mac_key := save_mac_key ks;
     sd_card_keys := sd_card_keys ks; nca_hdr_fixed_key_moduli := nca_hdr_fixed_key_moduli ks;
     acid_fixed_key_moduli := acid_fixed_key_moduli ks;
     package2_fixed_key_modulus := package2_fixed_key_modulus ks |}.

Definition set_sd_card_save_key_source (ks : KeySet) (v : list Z) : KeySet :=
  {| secure_boot_key := secure_boot_key ks; tsec_key := tsec_key ks;
     device_key := device_key ks; keyblob_keys := keyblob_keys ks;
     keyblob_mac_keys := keyblob_mac_keys ks; encrypted_keyblobs := encrypted_keyblobs ks;
     mariko_aes_class_keys := mariko_aes_class_keys ks; mariko_kek := mariko_kek ks;
     mariko_bek := mariko_bek ks; keyblobs := keyblobs ks;
     keyblob_key_sources := keyblob_key_sources ks;
     keyblob_mac_key_source := keyblob_mac_key_source ks; tsec_root_kek := tsec_root_kek ks;
     package1_mac_kek := package1_mac_kek ks; package1_kek := package1_kek ks;
     tsec_auth_signatures := tsec_auth_signatures ks; tsec_root_keys := tsec_root_keys ks;
     master_kek_sources := master_kek_sources ks;
     mariko_master_kek_sources := mariko_master_kek_sources ks; master_keks := master_keks ks;
     master_key_source := master_key_source ks; master_keys := master_keys ks;
     package1_mac_keys := package1_mac_keys ks; package1_keys := package1_keys ks;
     package2_keys := package2_keys ks; package2_key_source := package2_key_source ks;
     per_console_key_source := per_console_key_source ks;
     aes_kek_generation_source := aes_kek_generation_source ks;
     aes_key_generation_source := aes_key_generation_source ks;
     key_area_key_application_source := key_area_key_application_source ks;
     key_area_key_ocean_source := key_area_key_ocean_source ks;
     key_area_key_system_source := key_area_key_system_source ks;
     titlekek_source := titlekek_source ks; header_kek_source := header_kek_source ks;
     sd_card_kek_source := sd_card_kek_source ks;
     sd_card_nca_key_source := sd_card_nca_key_source ks; sd_card_save_key_source := v;
     save_mac_kek_source := save_mac_kek_source ks;
     save_mac_key_source := save_mac_key_source ks; header_key_source := header_key_source ks;
     header_key := header_key ks; titlekeks := titlekeks ks; key_area_keys := key_area_keys ks;
     xci_header_key := xci_header_key ks; save_mac_key := save_mac_key ks;
     sd_card_keys := sd_card_keys ks; nca_hdr_fixed_key_moduli := nca_hdr_fixed_key_moduli ks;
     acid_fixed_key_moduli := acid_fixed_key_moduli ks;
     package2_fixed_key_modulus := package2_fixed_key_modulus ks |}.

Definition set_save_mac_kek_source (ks : KeySet) (v : list Z) : KeySet :=
  {| secure_boot_key := secure_boot_key ks; tsec_key := tsec_key ks;
     device_key := device_key ks; keyblob_keys := keyblob_keys ks;
     keyblob_mac_keys := keyblob_mac_keys ks; encrypted_keyblobs := encrypted_keyblobs ks;
     mariko_aes_class_keys := mariko_aes_class_keys ks; mariko_kek := mariko_kek ks;
     mariko_bek := mariko_bek ks; keyblobs := keyblobs ks;
     keyblob_key_sources := keyblob_key_sources ks;
     keyblob_mac_key_source := keyblob_mac_key_source ks; tsec_root_kek := tsec_root_kek ks;
     package1_mac_kek := package1_mac_kek ks; package1_kek := package1_kek ks;
     tsec_auth_signatures := tsec_auth_signatures ks; tsec_root_keys := tsec_root_keys ks;
     master_kek_sources := master_kek_sources ks;
     mariko_master_kek_sources := mariko_master_kek_sources ks; master_keks := master_keks ks;
     master_key_source := master_key_source ks; master_keys := master_keys ks;
     package1_mac_keys := package1_mac_keys ks; package1_keys := package1_keys ks;
     package2_keys := package2_keys ks; package2_key_source := package2_key_source ks;
     per_console_key_source := per_console_key_source ks;
     aes_kek_generation_source := aes_kek_generation_source ks;
     aes_key_generation_source := aes_key_generation_source ks;
     key_area_key_application_source := key_area_key_application_source ks;
     key_area_key_ocean_source := key_area_key_ocean_source ks;
     key_area_key_system_source := key_area_key_system_source ks;
     titlekek_source := titlekek_source ks; header_kek_source := header_kek_source ks;
     sd_card_kek_source := sd_card_kek_source ks;
     sd_card_nca_key_source := sd_card_nca_key_source ks;
     sd_card_save_key_source := sd_card_save_key_source ks; save_mac_kek_source := v;
     save_mac_key_source := save_mac_key_source ks; header_key_source := header_key_source ks;
     header_key := header_key ks; titlekeks := titlekeks ks; key_area_keys := key_area_keys ks;
     xci_header_key := xci_header_key ks; save_mac_key := save_mac_key ks;
     sd_card_keys := sd_card_keys ks; nca_hdr_fixed_key_moduli := nca_hdr_fixed_key_moduli ks;
     acid_fixed_key_moduli := acid_fixed_key_moduli ks;
     package2_fixed_key_modulus := package2_fixed_key_modulus ks |}.

Definition set_save_mac_key_source (ks : KeySet) (v : list Z) : KeySet :=
  {| secure_boot_key := secure_boot_key ks; tsec_key := tsec_key ks;
     device_key := device_key ks; keyblob_keys := keyblob_keys ks;
     keyblob_mac_keys := keyblob_mac_keys ks; encrypted_keyblobs := encrypted_keyblobs ks;
     mariko_aes_class_keys := mariko_aes_class_keys ks; mariko_kek := mariko_kek ks;
     mariko_bek := mariko_bek ks; keyblobs := keyblobs ks;
     keyblob_key_sources := keyblob_key_sources ks;
     keyblob_mac_key_source := keyblob_mac_key_source ks; tsec_root_kek := tsec_root_kek ks;
     package1_mac_kek := package1_mac_kek ks; package1_kek := package1_kek ks;
     tsec_auth_signatures := tsec_auth_signatures ks; tsec_root_keys := tsec_root_keys ks;
     master_kek_sources := master_kek_sources ks;
     mariko_master_kek_sources := mariko_master_kek_sources ks; master_keks := master_keks ks;
     master_key_source := master_key_source ks; master_keys := master_keys ks;
     package1_mac_keys := package1_mac_keys ks; package1_keys := package1_keys ks;
     package2_keys := package2_keys ks; package2_key_source := package2_key_source ks;
     per_console_key_source := per_console_key_source ks;
     aes_kek_generation_source := aes_kek_generation_source ks;
     aes_key_generation_source := aes_key_generation_source ks;
     key_area_key_application_source := key_area_key_application_source ks;
     key_area_key_ocean_source := key_area_key_ocean_source ks;
     key_area_key_system_source := key_area_key_system_source ks;
     titlekek_source := titlekek_source ks; header_kek_source := header_kek_source ks;
     sd_card_kek_source := sd_card_kek_source ks;
     sd_card_nca_key_source := sd_card_nca_key_source ks;
     sd_card_save_key_source := sd_card_save_key_source ks;
     save_mac_kek_source := save_mac_kek_source ks; save_mac_key_source := v;
     header_key_source := header_key_source ks; header_key := header_key ks;
     titlekeks := titlekeks ks; key_area_keys := key_area_keys ks;
     xci_header_key := xci_header_key ks; save_mac_key := save_mac_key ks;
     sd_card_keys := sd_card_keys ks; nca_hdr_fixed_key_moduli := nca_hdr_fixed_key_moduli ks;
     acid_fixed_key_moduli := acid_fixed_key_moduli ks;
     package2_fixed_key_modulus := package2_fixed_key_modulus ks |}.

Definition set_mariko_bek (ks : KeySet) (v : list Z) : KeySet :=
  {| secure_boot_key := secure_boot_key ks; tsec_key := tsec_key ks;
     device_key := device_key ks; keyblob_keys := keyblob_keys ks;
     keyblob_mac_keys := keyblob_mac_keys ks; encrypted_keyblobs := encrypted_keyblobs ks;
     mariko_aes_class_keys := mariko_aes_class_keys ks; mariko_kek := mariko_kek ks;
     mariko_bek := v; keyblobs := keyblobs ks; keyblob_key_sources := keyblob_key_sources ks;
     keyblob_mac_key_source := keyblob_mac_key_source ks; tsec_root_kek := tsec_root_kek ks;
     package1_mac_kek := package1_mac_kek ks; package1_kek := package1_kek ks;
     tsec_auth_signatures := tsec_auth_signatures ks; tsec_root_keys := tsec_root_keys ks;
     master_kek_sources := master_kek_sources ks;
     mariko_master_kek_sources := mariko_master_kek_sources ks; master_keks := master_keks ks;
     master_key_source := master_key_source ks; master_keys := master_keys ks;
     package1_mac_keys := package1_mac_keys ks; package1_keys := package1_keys ks;
     package2_keys := package2_keys ks; package2_key_source := package2_key_source ks;
     per_console_key_source := per_console_key_source ks;
     aes_kek_generation_source := aes_kek_generation_source ks;
     aes_key_generation_source := aes_key_generation_source ks;
     key_area_key_application_source := key_area_key_application_source ks;
     key_area_key_ocean_source := key_area_key_ocean_source ks;
     key_area_key_system_source := key_area_key_system_source ks;
     titlekek_source := titlekek_source ks; header_kek_source := header_kek_source ks;
     sd_card_kek_source := sd_card_kek_source ks;
     sd_card_nca_key_source := sd_card_nca_key_source ks;
     sd_card_save_key_source := sd_card_save_key_source ks;
     save_mac_kek_source := save_mac_kek_source ks;
     save_mac_key_source := save_mac_key_source ks; header_key_source := header_key_source ks;
     header_key := header_key ks; titlekeks := titlekeks ks; key_area_keys := key_area_keys ks;
     xci_header_key := xci_header_key ks; save_mac_key := save_mac_key ks;
     sd_card_keys := sd_card_keys ks; nca_hdr_fixed_key_moduli := nca_hdr_fixed_key_moduli ks;
     acid_fixed_key_moduli := acid_fixed_key_moduli ks;
     package2_fixed_key_modulus := package2_fixed_key_modulus ks |}.

Definition set_tsec_root_kek (ks : KeySet) (v : list Z) : KeySet :=
  {| secure_boot_key := secure_boot_key ks; tsec_key := tsec_key ks;
     device_key := device_key ks; keyblob_keys := keyblob_keys ks;
     keyblob_mac_keys := keyblob_mac_keys ks; encrypted_keyblobs := encrypted_keyblobs ks;
     mariko_aes_class_keys := mariko_aes_class_keys ks; mariko_kek := mariko_kek ks;
     mariko_bek := mariko_bek ks; keyblobs := keyblobs ks;
     keyblob_key_sources := keyblob_key_sources ks;
     keyblob_mac_key_source := keyblob_mac_key_source ks; tsec_root_kek := v;
     package1_mac_kek := package1_mac_kek ks; package1_kek := package1_kek ks;
     tsec_auth_signatures := tsec_auth_signatures ks; tsec_root_keys := tsec_root_keys ks;
     master_kek_sources := master_kek_sources ks;
     mariko_master_kek_sources := mariko_master_kek_sources ks; master_keks := master_keks ks;
     master_key_source := master_key_source ks; master_keys := master_keys ks;
     package1_mac_keys := package1_mac_keys ks; package1_keys := package1_keys ks;
     package2_keys := package2_keys ks; package2_key_source := package2_key_source ks;
     per_console_key_source := per_console_key_source ks;
     aes_kek_generation_source := aes_kek_generation_source ks;
     aes_key_generation_source := aes_key_generation_source ks;
     key_area_key_application_source := key_area_key_application_source ks;
     key_area_key_ocean_source := key_area_key_ocean_source ks;
     key_area_key_system_source := key_area_key_system_source ks;
     titlekek_source := titlekek_source ks; header_kek_source := header_kek_source ks;
     sd_card_kek_source := sd_card_kek_source ks;
     sd_card_nca_key_source := sd_card_nca_key_source ks;
     sd_card_save_key_source := sd_card_save_key_source ks;
     save_mac_kek_source := save_mac_kek_source ks;
     save_mac_key_source := save_mac_key_source ks; header_key_source := header_key_source ks;
     header_key := header_key ks; titlekeks := titlekeks ks; key_area_keys := key_area_keys ks;
     xci_header_key := xci_header_key ks; save_mac_key := save_mac_key ks;
     sd_card_keys := sd_card_keys ks; nca_hdr_fixed_key_moduli := nca_hdr_fixed_key_moduli ks;
     acid_fixed_key_moduli := acid_fixed_key_moduli ks;
     package2_fixed_key_modulus := package2_fixed_key_modulus ks |}.

Definition set_package1_mac_kek (ks : KeySet) (v : list Z) : KeySet :=
  {| secure_boot_key := secure_boot_key ks; tsec_key := tsec_key ks;
     device_key := device_key ks; keyblob_keys := keyblob_keys ks;
     keyblob_mac_keys := keyblob_mac_keys ks; encrypted_keyblobs := encrypted_keyblobs ks;
     mariko_aes_class_keys := mariko_aes_class_keys ks; mariko_kek := mariko_kek ks;
     mariko_bek := mariko_bek ks; keyblobs := keyblobs ks;
     keyblob_key_sources := keyblob_key_sources ks;
     keyblob_mac_key_source := keyblob_mac_key_source ks; tsec_root_kek := tsec_root_kek ks;
     package1_mac_kek := v; package1_kek := package1_kek ks;
     tsec_auth_signatures := tsec_auth_signatures ks; tsec_root_keys := tsec_root_keys ks;
     master_kek_sources := master_kek_sources ks;
     mariko_master_kek_sources := mariko_master_kek_sources ks; master_keks := master_keks ks;
     master_key_source := master_key_source ks; master_keys := master_keys ks;
     package1_mac_keys := package1_mac_keys ks; package1_keys := package1_keys ks;
     package2_keys := package2_keys ks; package2_key_source := package2_key_source ks;
     per_console_key_source := per_console_key_source ks;
     aes_kek_generation_source := aes_kek_generation_source ks;
     aes_key_generation_source := aes_key_generation_source ks;
     key_area_key_application_source := key_area_key_application_source ks;
     key_area_key_ocean_source := key_area_key_ocean_source ks;
     key_area_key_system_source := key_area_key_system_source ks;
     titlekek_source := titlekek_source ks; header_kek_source := header_kek_source ks;
     sd_card_kek_source := sd_card_kek_source ks;
     sd_card_nca_key_source := sd_card_nca_key_source ks;
     sd_card_save_key_source := sd_card_save_key_source ks;
     save_mac_kek_source := save_mac_kek_source ks;
     save_mac_key_source := save_mac_key_source ks; header_key_source := header_key_source ks;
     header_key := header_key ks; titlekeks := titlekeks ks; key_area_keys := key_area_keys ks;
     xci_header_key := xci_header_key ks; save_mac_key := save_mac_key ks;
     sd_card_keys := sd_card_keys ks; nca_hdr_fixed_key_moduli := nca_hdr_fixed_key_moduli ks;
     acid_fixed_key_moduli := acid_fixed_key_moduli ks;
     package2_fixed_key_modulus := package2_fixed_key_modulus ks |}.

Definition set_package1_kek (ks : KeySet) (v : list Z) : KeySet :=
  {| secure_boot_key := secure_boot_key ks; tsec_key := tsec_key ks;
     device_key := device_key ks; keyblob_keys := keyblob_keys ks;
     keyblob_mac_keys := keyblob_mac_keys ks; encrypted_keyblobs := encrypted_keyblobs ks;
     mariko_aes_class_keys := mariko_aes_class_keys ks; mariko_kek := mariko_kek ks;
     mariko_bek := mariko_bek ks; keyblobs := keyblobs ks;
     keyblob_key_sources := keyblob_key_sources ks;
     keyblob_mac_key_source := keyblob_mac_key_source ks; tsec_root_kek := tsec_root_kek ks;
     package1_mac_kek := package1_mac_kek ks; package1_kek := v;
     tsec_auth_signatures := tsec_auth_signatures ks; tsec_root_keys := tsec_root_keys ks;
     master_kek_sources := master_kek_sources ks;
     mariko_master_kek_sources := mariko_master_kek_sources ks; master_keks := master_keks ks;
     master_key_source := master_key_source ks; master_keys := master_keys ks;
     package1_mac_keys := package1_mac_keys ks; package1_keys := package1_keys ks;
     package2_keys := package2_keys ks; package2_key_source := package2_key_source ks;
     per_console_key_source := per_console_key_source ks;
     aes_kek_generation_source := aes_kek_generation_source ks;
     aes_key_generation_source := aes_key_generation_source ks;
     key_area_key_application_source := key_area_key_application_source ks;
     key_area_key_ocean_source := key_area_key_ocean_source ks;
     key_area_key_system_source := key_area_key_system_source ks;
     titlekek_source := titlekek_source ks; header_kek_source := header_kek_source ks;
     sd_card_kek_source := sd_card_kek_source ks;
     sd_card_nca_key_source := sd_card_nca_key_source ks;
     sd_card_save_key_source := sd_card_save_key_source ks;
     save_mac_kek_source := save_mac_kek_source ks;
     save_mac_key_source := save_mac_key_source ks; header_key_source := header_key_source ks;
     header_key := header_key ks; titlekeks := titlekeks ks; key_area_keys := key_area_keys ks;
     xci_header_key := xci_header_key ks; save_mac_key := save_mac_key ks;
     sd_card_keys := sd_card_keys ks; nca_hdr_fixed_key_moduli := nca_hdr_fixed_key_moduli ks;
     acid_fixed_key_moduli := acid_fixed_key_moduli ks;
     package2_fixed_key_modulus := package2_fixed_key_modulus ks |}.

Definition set_encrypted_keyblobs (ks : KeySet) (v : list (list Z)) : KeySet :=
  {| secure_boot_key := secure_boot_key ks; tsec_key := tsec_key ks;
     device_key := device_key ks; keyblob_keys := keyblob_keys ks;
     keyblob_mac_keys := keyblob_mac_keys ks; encrypted_keyblobs := v;
     mariko_aes_class_keys := mariko_aes_class_keys ks; mariko_kek := mariko_kek ks;
     mariko_bek := mariko_bek ks; keyblobs := keyblobs ks;
     keyblob_key_sources := keyblob_key_sources ks;
     keyblob_mac_key_source := keyblob_mac_key_source ks; tsec_root_kek := tsec_root_kek ks;
     package1_mac_kek := package1_mac_kek ks; package1_kek := package1_kek ks;
     tsec_auth_signatures := tsec_auth_signatures ks; tsec_root_keys := tsec_root_keys ks;
     master_kek_sources := master_kek_sources ks;
     mariko_master_kek_sources := mariko_master_kek_sources ks; master_keks := master_keks ks;
     master_key_source := master_key_source ks; master_keys := master_keys ks;
     package1_mac_keys := package1_mac_keys ks; package1_keys := package1_keys ks;
     package2_keys := package2_keys ks; package2_key_source := package2_key_source ks;
     per_console_key_source := per_console_key_source ks;
     aes_kek_generation_source := aes_kek_generation_source ks;
     aes_key_generation_source := aes_key_generation_source ks;
     key_area_key_application_source := key_area_key_application_source ks;
     key_area_key_ocean_source := key_area_key_ocean_source ks;
     key_area_key_system_source := key_area_key_system_source ks;
     titlekek_source := titlekek_source ks; header_kek_source := header_kek_source ks;
     sd_card_kek_source := sd_card_kek_source ks;
     sd_card_nca_key_source := sd_card_nca_key_source ks;
     sd_card_save_key_source := sd_card_save_key_source ks;
     save_mac_kek_source := save_mac_kek_source ks;
     save_mac_key_source := save_mac_key_source ks; header_key_source := header_key_source ks;
     header_key := header_key ks; titlekeks := titlekeks ks; key_area_keys := key_area_keys ks;
     xci_header_key := xci_header_key ks; save_mac_key := save_mac_key ks;
     sd_card_keys := sd_card_keys ks; nca_hdr_fixed_key_moduli := nca_hdr_fixed_key_moduli ks;
     acid_fixed_key_moduli := acid_fixed_key_moduli ks;
     package2_fixed_key_modulus := package2_fixed_key_modulus ks |}.

Definition set_tsec_auth_signatures (ks : KeySet) (v : list (list Z)) : KeySet :=
  {| secure_boot_key := secure_boot_key ks; tsec_key := tsec_key ks;
     device_key := device_key ks; keyblob_keys := keyblob_keys ks;
     keyblob_mac_keys := keyblob_mac_keys ks; encrypted_keyblobs := encrypted_keyblobs ks;
     mariko_aes_class_keys := mariko_aes_class_keys ks; mariko_kek := mariko_kek ks;
     mariko_bek := mariko_bek ks; keyblobs := keyblobs ks;
     keyblob_key_sources := keyblob_key_sources ks;
     keyblob_mac_key_source := keyblob_mac_key_source ks; tsec_root_kek := tsec_root_kek ks;
     package1_mac_kek := package1_mac_kek ks; package1_kek := package1_kek ks;
     tsec_auth_signatures := v; tsec_root_keys := tsec_root_keys ks;
     master_kek_sources := master_kek_sources ks;
     mariko_master_kek_sources := mariko_master_kek_sources ks; master_keks := master_keks ks;
     master_key_source := master_key_source ks; master_keys := master_keys ks;
     package1_mac_keys := package1_mac_keys ks; package1_keys := package1_keys ks;
     package2_keys := package2_keys ks; package2_key_source := package2_key_source ks;
     per_console_key_source := per_console_key_source ks;
     aes_kek_generation_source := aes_kek_generation_source ks;
     aes_key_generation_source := aes_key_generation_source ks;
     key_area_key_application_source := key_area_key_application_source ks;
     key_area_key_ocean_source := key_area_key_ocean_source ks;
     key_area_key_system_source := key_area_key_system_source ks;
     titlekek_source := titlekek_source ks; header_kek_source := header_kek_source ks;
     sd_card_kek_source := sd_card_kek_source ks;
     sd_card_nca_key_source := sd_card_nca_key_source ks;
     sd_card_save_key_source := sd_card_save_key_source ks;
     save_mac_kek_source := save_mac_kek_source ks;
     save_mac_key_source := save_mac_key_source ks; header_key_source := header_key_source ks;
     header_key := header_key ks; titlekeks := titlekeks ks; key_area_keys := key_area_keys ks;
     xci_header_key := xci_header_key ks; save_mac_key := save_mac_key ks;
     sd_card_keys := sd_card_keys ks; nca_hdr_fixed_key_moduli := nca_hdr_fixed_key_moduli ks;
     acid_fixed_key_moduli := acid_fixed_key_moduli ks;
     package2_fixed_key_modulus := package2_fixed_key_modulus ks |}.

Definition set_tsec_root_keys (ks : KeySet) (v : list (list Z)) : KeySet :=
  {| secure_boot_key := secure_boot_key ks; tsec_key := tsec_key ks;
     device_key := device_key ks; keyblob_keys := keyblob_keys ks;
     keyblob_mac_keys := keyblob_mac_keys ks; encrypted_keyblobs := encrypted_keyblobs ks;
     mariko_aes_class_keys := mariko_aes_class_keys ks; mariko_kek := mariko_kek ks;
     mariko_bek := mariko_bek ks; keyblobs := keyblobs ks;
     keyblob_key_sources := keyblob_key_sources ks;
     keyblob_mac_key_source := keyblob_mac_key_source ks; tsec_root_kek := tsec_root_kek ks;
     package1_mac_kek := package1_mac_kek ks; package1_kek := package1_kek ks;
     tsec_auth_signatures := tsec_auth_signatures ks; tsec_root_keys := v;
     master_kek_sources := master_kek_sources ks;
     mariko_master_kek_sources := mariko_master_kek_sources ks; master_keks := master_keks ks;
     master_key_source := master_key_source ks; master_keys := master_keys ks;
     package1_mac_keys := package1_mac_keys ks; package1_keys := package1_keys ks;
     package2_keys := package2_keys ks; package2_key_source := package2_key_source ks;
     per_console_key_source := per_console_key_source ks;
     aes_kek_generation_source := aes_kek_generation_source ks;
     aes_key_generation_source := aes_key_generation_source ks;
     key_area_key_application_source := key_area_key_application_source ks;
     key_area_key_ocean_source := key_area_key_ocean_source ks;
     key_area_key_system_source := key_area_key_system_source ks;
     titlekek_source := titlekek_source ks; header_kek_source := header_kek_source ks;
     sd_card_kek_source := sd_card_kek_source ks;
     sd_card_nca_key_source := sd_card_nca_key_source ks;
     sd_card_save_key_source := sd_card_save_key_source ks;
     save_mac_kek_source := save_mac_kek_source ks;
     save_mac_key_source := save_mac_key_source ks; header_key_source := header_key_source ks;
     header_key := header_key ks; titlekeks := titlekeks ks; key_area_keys := key_area_keys ks;
     xci_header_key := xci_header_key ks; save_mac_key := save_mac_key ks;
     sd_card_keys := sd_card_keys ks; nca_hdr_fixed_key_moduli := nca_hdr_fixed_key_moduli ks;
     acid_fixed_key_moduli := acid_fixed_key_moduli ks;
     package2_fixed_key_modulus := package2_fixed_key_modulus ks |}.

Definition set_master_kek_sources (ks : KeySet) (v : list (list Z)) : KeySet :=
  {| secure_boot_key := secure_boot_key ks; tsec_key := tsec_key ks;
     device_key := device_key ks; keyblob_keys := keyblob_keys ks;
     keyblob_mac_keys := keyblob_mac_keys ks; encrypted_keyblobs := encrypted_keyblobs ks;
     mariko_aes_class_keys := mariko_aes_class_keys ks; mariko_kek := mariko_kek ks;
     mariko_bek := mariko_bek ks; keyblobs := keyblobs ks;
     keyblob_key_sources := keyblob_key_sources ks;
     keyblob_mac_key_source := keyblob_mac_key_source ks; tsec_root_kek := tsec_root_kek ks;
     package1_mac_kek := package1_mac_kek ks; package1_kek := package1_kek ks;
     tsec_auth_signatures := tsec_auth_signatures ks; tsec_root_keys := tsec_root_keys ks;
     master_kek_sources := v; mariko_master_kek_sources := mariko_master_kek_sources ks;
     master_keks := master_keks ks; master_key_source := master_key_source ks;
     master_keys := master_keys ks; package1_mac_keys := package1_mac_keys ks;
     package1_keys := package1_keys ks; package2_keys := package2_keys ks;
     package2_key_source := package2_key_source ks;
     per_console_key_source := per_console_key_source ks;
     aes_kek_generation_source := aes_kek_generation_source ks;
     aes_key_generation_source := aes_key_generation_source ks;
     key_area_key_application_source := key_area_key_application_source ks;
     key_area_key_ocean_source := key_area_key_ocean_source ks;
     key_area_key_system_source := key_area_key_system_source ks;
     titlekek_source := titlekek_source ks; header_kek_source := header_kek_source ks;
     sd_card_kek_source := sd_card_kek_source ks;
     sd_card_nca_key_source := sd_card_nca_key_source ks;
     sd_card_save_key_source := sd_card_save_key_source ks;
     save_mac_kek_source := save_mac_kek_source ks;
     save_mac_key_source := save_mac_key_source ks; header_key_source := header_key_source ks;
     header_key := header_key ks; titlekeks := titlekeks ks; key_area_keys := key_area_keys ks;
     xci_header_key := xci_header_key ks; save_mac_key := save_mac_key ks;
     sd_card_keys := sd_card_keys ks; nca_hdr_fixed_key_moduli := nca_hdr_fixed_key_moduli ks;
     acid_fixed_key_moduli := acid_fixed_key_moduli ks;
     package2_fixed_key_modulus := package2_fixed_key_modulus ks |}.

Definition set_package1_mac_keys (ks : KeySet) (v : list (list Z)) : KeySet :=
  {| secure_boot_key := secure_boot_key ks; tsec_key := tsec_key ks;
     device_key := device_key ks; keyblob_keys := keyblob_keys ks;
     keyblob_mac_keys := keyblob_mac_keys ks; encrypted_keyblobs := encrypted_keyblobs ks;
     mariko_aes_class_keys := mariko_aes_class_keys ks; mariko_kek := mariko_kek ks;
     mariko_bek := mariko_bek ks; keyblobs := keyblobs ks;
     keyblob_key_sources := keyblob_key_sources ks;
     keyblob_mac_key_source := keyblob_mac_key_source ks; tsec_root_kek := tsec_root_kek ks;
     package1_mac_kek := package1_mac_kek ks; package1_kek := package1_kek ks;
     tsec_auth_signatures := tsec_auth_signatures ks; tsec_root_keys := tsec_root_keys ks;
     master_kek_sources := master_kek_sources ks;
     mariko_master_kek_sources := mariko_master_kek_sources ks; master_keks := master_keks ks;
     master_key_source := master_key_source ks; master_keys := master_keys ks;
     package1_mac_keys := v; package1_keys := package1_keys ks;
     package2_keys := package2_keys ks; package2_key_source := package2_key_source ks;
     per_console_key_source := per_console_key_source ks;
     aes_kek_generation_source := aes_kek_generation_source ks;
     aes_key_generation_source := aes_key_generation_source ks;
     key_area_key_application_source := key_area_key_application_source ks;
     key_area_key_ocean_source := key_area_key_ocean_source ks;
     key_area_key_system_source := key_area_key_system_source ks;
     titlekek_source := titlekek_source ks; header_kek_source := header_kek_source ks;
     sd_card_kek_source := sd_card_kek_source ks;
     sd_card_nca_key_source := sd_card_nca_key_source ks;
     sd_card_save_key_source := sd_card_save_key_source ks;
     save_mac_kek_source := save_mac_kek_source ks;
     save_mac_key_source := save_mac_key_source ks; header_key_source := header_key_source ks;
     header_key := header_key ks; titlekeks := titlekeks ks; key_area_keys := key_area_keys ks;
     xci_header_key := xci_header_key ks; save_mac_key := save_mac_key ks;
     sd_card_keys := sd_card_keys ks; nca_hdr_fixed_key_moduli := nca_hdr_fixed_key_moduli ks;
     acid_fixed_key_moduli := acid_fixed_key_moduli ks;
     package2_fixed_key_modulus := package2_fixed_key_modulus ks |}.

Definition set_mariko_aes_class_keys (ks : KeySet) (v : list (list Z)) : KeySet :=
  {| secure_boot_key := secure_boot_key ks; tsec_key := tsec_key ks;
     device_key := device_key ks; keyblob_keys := keyblob_keys ks;
     keyblob_mac_keys := keyblob_mac_keys ks; encrypted_keyblobs := encrypted_keyblobs ks;
     mariko_aes_class_keys := v; mariko_kek := mariko_kek ks; mariko_bek := mariko_bek ks;
     keyblobs := keyblobs ks; keyblob_key_sources := keyblob_key_sources ks;
     keyblob_mac_key_source := keyblob_mac_key_source ks; tsec_root_kek := tsec_root_kek ks;
     package1_mac_kek := package1_mac_kek ks; package1_kek := package1_kek ks;
     tsec_auth_signatures := tsec_auth_signatures ks; tsec_root_keys := tsec_root_keys ks;
     master_kek_sources := master_kek_sources ks;
     mariko_master_kek_sources := mariko_master_kek_sources ks; master_keks := master_keks ks;
     master_key_source := master_key_source ks; master_keys := master_keys ks;
     package1_mac_keys := package1_mac_keys ks; package1_keys := package1_keys ks;
     package2_keys := package2_keys ks; package2_key_source := package2_key_source ks;
     per_console_key_source := per_console_key_source ks;
     aes_kek_generation_source := aes_kek_generation_source ks;
     aes_key_generation_source := aes_key_generation_source ks;
     key_area_key_application_source := key_area_key_application_source ks;
     key_area_key_ocean_source := key_area_key_ocean_source ks;
     key_area_key_system_source := key_area_key_system_source ks;
     titlekek_source := titlekek_source ks; header_kek_source := header_kek_source ks;
     sd_card_kek_source := sd_card_kek_source ks;
     sd_card_nca_key_source := sd_card_nca_key_source ks;
     sd_card_save_key_source := sd_card_save_key_source ks;
     save_mac_kek_source := save_mac_kek_source ks;
     save_mac_key_source := save_mac_key_source ks; header_key_source := header_key_source ks;
     header_key := header_key ks; titlekeks := titlekeks ks; key_area_keys := key_area_keys ks;
     xci_header_key := xci_header_key ks; save_mac_key := save_mac_key ks;
     sd_card_keys := sd_card_keys ks; nca_hdr_fixed_key_moduli := nca_hdr_fixed_key_moduli ks;
     acid_fixed_key_moduli := acid_fixed_key_moduli ks;
     package2_fixed_key_modulus := package2_fixed_key_modulus ks |}.

Definition set_package2_keys (ks : KeySet) (v : list (list Z)) : KeySet :=
  {| secure_boot_key := secure_boot_key ks; tsec_key := tsec_key ks;
     device_key := device_key ks; keyblob_keys := keyblob_keys ks;
     keyblob_mac_keys := keyblob_mac_keys ks; encrypted_keyblobs := encrypted_keyblobs ks;
     mariko_aes_class_keys := mariko_aes_class_keys ks; mariko_kek := mariko_kek ks;
     mariko_bek := mariko_bek ks; keyblobs := keyblobs ks;
     keyblob_key_sources := keyblob_key_sources ks;
     keyblob_mac_key_source := keyblob_mac_key_source ks; tsec_root_kek := tsec_root_kek ks;
     package1_mac_kek := package1_mac_kek ks; package1_kek := package1_kek ks;
     tsec_auth_signatures := tsec_auth_signatures ks; tsec_root_keys := tsec_root_keys ks;
     master_kek_sources := master_kek_sources ks;
     mariko_master_kek_sources := mariko_master_kek_sources ks; master_keks := master_keks ks;
     master_key_source := master_key_source ks; master_keys := master_keys ks;
     package1_mac_keys := package1_mac_keys ks; package1_keys := package1_keys ks;
     package2_keys := v; package2_key_source := package2_key_source ks;
     per_console_key_source := per_console_key_source ks;
     aes_kek_generation_source := aes_kek_generation_source ks;
     aes_key_generation_source := aes_key_generation_source ks;
     key_area_key_application_source := key_area_key_application_source ks;
     key_area_key_ocean_source := key_area_key_ocean_source ks;
     key_area_key_system_source := key_area_key_system_source ks;
     titlekek_source := titlekek_source ks; header_kek_source := header_kek_source ks;
     sd_card_kek_source := sd_card_kek_source ks;
     sd_card_nca_key_source := sd_card_nca_key_source ks;
     sd_card_save_key_source := sd_card_save_key_source ks;
     save_mac_kek_source := save_mac_kek_source ks;
     save_mac_key_source := save_mac_key_source ks; header_key_source := header_key_source ks;
     header_key := header_key ks; titlekeks := titlekeks ks; key_area_keys := key_area_keys ks;
     xci_header_key := xci_header_key ks; save_mac_key := save_mac_key ks;
     sd_card_keys := sd_card_keys ks; nca_hdr_fixed_key_moduli := nca_hdr_fixed_key_moduli ks;
     acid_fixed_key_moduli := acid_fixed_key_moduli ks;
     package2_fixed_key_modulus := package2_fixed_key_modulus ks |}.

Definition set_titlekeks (ks : KeySet) (v : list (list Z)) : KeySet :=
  {| secure_boot_key := secure_boot_key ks; tsec_key := tsec_key ks;
     device_key := device_key ks; keyblob_keys := keyblob_keys ks;
     keyblob_mac_keys := keyblob_mac_keys ks; encrypted_keyblobs := encrypted_keyblobs ks;
     mariko_aes_class_keys := mariko_aes_class_keys ks; mariko_kek := mariko_kek ks;
     mariko_bek := mariko_bek ks; keyblobs := keyblobs ks;
     keyblob_key_sources := keyblob_key_sources ks;
     keyblob_mac_key_source := keyblob_mac_key_source ks; tsec_root_kek := tsec_root_kek ks;
     package1_mac_kek := package1_mac_kek ks; package1_kek := package1_kek ks;
     tsec_auth_signatures := tsec_auth_signatures ks; tsec_root_keys := tsec_root_keys ks;
     master_kek_sources := master_kek_sources ks;
     mariko_master_kek_sources := mariko_master_kek_sources ks; master_keks := master_keks ks;
     master_key_source := master_key_source ks; master_keys := master_keys ks;
     package1_mac_keys := package1_mac_keys ks; package1_keys := package1_keys ks;
     package2_keys := package2_keys ks; package2_key_source := package2_key_source ks;
     per_console_key_source := per_console_key_source ks;
     aes_kek_generation_source := aes_kek_generation_source ks;
     aes_key_generation_source := aes_key_generation_source ks;
     key_area_key_application_source := key_area_key_application_source ks;
     key_area_key_ocean_source := key_area_key_ocean_source ks;
     key_area_key_system_source := key_area_key_system_source ks;
     titlekek_source := titlekek_source ks; header_kek_source := header_kek_source ks;
     sd_card_kek_source := sd_card_kek_source ks;
     sd_card_nca_key_source := sd_card_nca_key_source ks;
     sd_card_save_key_source := sd_card_save_key_source ks;
     save_mac_kek_source := save_mac_kek_source ks;
     save_mac_key_source := save_mac_key_source ks; header_key_source := header_key_source ks;
     header_key := header_key ks; titlekeks := v; key_area_keys := key_area_keys ks;
     xci_header_key := xci_header_key ks; save_mac_key := save_mac_key ks;
     sd_card_keys := sd_card_keys ks; nca_hdr_fixed_key_moduli := nca_hdr_fixed_key_moduli ks;
     acid_fixed_key_moduli := acid_fixed_key_moduli ks;
     package2_fixed_key_modulus := package2_fixed_key_modulus ks |}.

Definition set_key_area_keys (ks : KeySet) (v : list (list (list Z))) : KeySet :=
  {| secure_boot_key := secure_boot_key ks; tsec_key := tsec_key ks;
     device_key := device_key ks; keyblob_keys := keyblob_keys ks;
     keyblob_mac_keys := keyblob_mac_keys ks; encrypted_keyblobs := encrypted_keyblobs ks;
     mariko_aes_class_keys := mariko_aes_class_keys ks; mariko_kek := mariko_kek ks;
     mariko_bek := mariko_bek ks; keyblobs := keyblobs ks;
     keyblob_key_sources := keyblob_key_sources ks;
     keyblob_mac_key_source := keyblob_mac_key_source ks; tsec_root_kek := tsec_root_kek ks;
     package1_mac_kek := package1_mac_kek ks; package1_kek := package1_kek ks;
     tsec_auth_signatures := tsec_auth_signatures ks; tsec_root_keys := tsec_root_keys ks;
     master_kek_sources := master_kek_sources ks;
     mariko_master_kek_sources := mariko_master_kek_sources ks; master_keks := master_keks ks;
     master_key_source := master_key_source ks; master_keys := master_keys ks;
     package1_mac_keys := package1_mac_keys ks; package1_keys := package1_keys ks;
     package2_keys := package2_keys ks; package2_key_source := package2_key_source ks;
     per_console_key_source := per_console_key_source ks;
     aes_kek_generation_source := aes_kek_generation_source ks;
     aes_key_generation_source := aes_key_generation_source ks;
     key_area_key_application_source := key_area_key_application_source ks;
     key_area_key_ocean_source := key_area_key_ocean_source ks;
     key_area_key_system_source := key_area_key_system_source ks;
     titlekek_source := titlekek_source ks; header_kek_source := header_kek_source ks;
     sd_card_kek_source := sd_card_kek_source ks;
     sd_card_nca_key_source := sd_card_nca_key_source ks;
     sd_card_save_key_source := sd_card_save_key_source ks;
     save_mac_kek_source := save_mac_kek_source ks;
     save_mac_key_source := save_mac_key_source ks; header_key_source := header_key_source ks;
     header_key := header_key ks; titlekeks := titlekeks ks; key_area_keys := v;
     xci_header_key := xci_header_key ks; save_mac_key := save_mac_key ks;
     sd_card_keys := sd_card_keys ks; nca_hdr_fixed_key_moduli := nca_hdr_fixed_key_moduli ks;
     acid_fixed_key_moduli := acid_fixed_key_moduli ks;
     package2_fixed_key_modulus := package2_fixed_key_modulus ks |}.

(** [std::strcmp(s, name) == 0] for a string literal given by its
    characters.  [s] is read up to its first difference from the
    literal, at most up to the terminator; the result is [None] when
    that leaves the allocation of [s]. *)
Fixpoint strcmp_eq (s : cptr) (name : list ascii) : option bool :=
  match s, name with
  | [], _ => None
  | c :: _, [] => Some (Ascii.eqb c NUL)
  | c :: s', n :: name' => if Ascii.eqb c n then strcmp_eq s' name' else Some false
  end.

(** [%x]: the digits of [n] in base 16, lower case, the most
    significant first; [fuel] bounds their number. *)
Fixpoint hex_digits (fuel n : nat) (acc : list ascii) : list ascii :=
  match fuel with
  | 0 => acc
  | S fuel' =>
    let acc := hex_digit false (Z.of_nat (n mod 16)) :: acc in
    if n / 16 =? 0 then acc else hex_digits fuel' (n / 16) acc
  end.

(** ["%02" PRIx32] of a [u32], which has at most eight digits: at
    least two digits, padded with zeros. *)
Definition format_02x (n : nat) : list ascii :=
  let ds := hex_digits 8 n [] in
  if length ds <? 2 then "0"%char :: ds else ds.

(** One [if (std::strcmp(key, name) == 0) { matched_key = true;
    DecodeHex(slot, value, sizeof(slot)); }]: the name, the size of
    the slot and the assignment of the decoded bytes to it. *)
Record KeyTest : Type := mkKeyTest {
  test_name : list ascii;
  test_size : nat;
  test_store : KeySet -> list Z -> KeySet
}.

(** [TEST_KEY(kn)]: the name is [#kn] and the slot [ks.kn]. *)
Definition TEST_KEY (kn : string) (size : nat) (set_kn : KeySet -> list Z -> KeySet)
  : KeyTest :=
  mkKeyTest (list_ascii_of_string kn) size set_kn.

(** [TEST_KEY_WITH_GEN(kn, gn)]: the name is [#kn "_%02x"] of [gn] and
    the slot [ks.kn##s[gn]], a row of [size] bytes.  In the source
    [gn] is inside the array by the bounds of the loops. *)
Definition TEST_KEY_WITH_GEN (kn : string) (gn : nat) (size : nat)
    (kns : KeySet -> list (list Z)) (set_kns : KeySet -> list (list Z) -> KeySet) : KeyTest :=
  mkKeyTest (list_ascii_of_string kn ++ "_"%char :: format_02x gn) size
    (fun ks dst => set_kns ks (<[gn := dst]> (kns ks))).

(** The tests on [key_area_key_application_%02x] and its two siblings:
    the slot is [ks.key_area_keys[gen][index]]. *)
Definition TEST_KEY_AREA_KEY (kn : string) (gen index : nat) : KeyTest :=
  mkKeyTest (list_ascii_of_string kn ++ "_"%char :: format_02x gen) AesKeySize
    (fun ks dst =>
       set_key_area_keys ks
         (<[gen := <[index := dst]> (key_area_keys ks !!! gen)]> (key_area_keys ks))).

(** The state of [LoadExternalKey] between two tests: the key set,
    [stderr] and [matched_key]; [None] once a read has left an
    allocation. *)
Definition run_test (key value : cptr) (st : option (KeySet * list Warning * bool))
    (t : KeyTest) : option (KeySet * list Warning * bool) :=
  match st with
  | None => None
  | Some (ks, log, matched_key) =>
    match strcmp_eq key (test_name t) with
    | None => None
    | Some false => Some (ks, log, matched_key)
    | Some true =>
      match DecodeHex value (test_size t) log with
      | None => None
      | Some (dst, log) => Some (test_store t ks dst, log, true)
      end
    end
  end.

Section ExternalKeys.

Variables KeyGeneration_1_0_0 KeyGeneration_6_2_0 KeyGeneration_Max : nat.

(** The values of [gen] in [for (int gen = lo; gen < hi; ++gen)]. *)
Definition gens (lo hi : nat) : list nat := seq lo (hi - lo).

(** The tests of [LoadExternalKey], in the order of the source.
    [sizeof(ks.header_key_source)] and [sizeof(ks.header_key)] are
    [pkg1::KeyGeneration_Max], as the struct declares them. *)
Definition external_key_tests : list KeyTest :=
  [ TEST_KEY "aes_kek_generation_source" AesKeySize set_aes_kek_generation_source;
    TEST_KEY "aes_key_generation_source" AesKeySize set_aes_key_generation_source;
    TEST_KEY "key_area_key_application_source" AesKeySize
      set_key_area_key_application_source;
    TEST_KEY "key_area_key_ocean_source" AesKeySize set_key_area_key_ocean_source;
    TEST_KEY "key_area_key_system_source" AesKeySize set_key_area_key_system_source;
    TEST_KEY "titlekek_source" AesKeySize set_titlekek_source;
    TEST_KEY "header_kek_source" AesKeySize set_header_kek_source;
    TEST_KEY "header_key_source" KeyGeneration_Max set_header_key_source;
    TEST_KEY "header_key" KeyGeneration_Max set_header_key;
    TEST_KEY "package2_key_source" AesKeySize set_package2_key_source;
    TEST_KEY "per_console_key_source" AesKeySize set_per_console_key_source;
    TEST_KEY "xci_header_key" AesKeySize set_xci_header_key;
    TEST_KEY "sd_card_kek_source" AesKeySize set_sd_card_kek_source;
    TEST_KEY "sd_card_nca_key_source" 0x20 set_sd_card_nca_key_source;
    TEST_KEY "sd_card_save_key_source" 0x20 set_sd_card_save_key_source;
    TEST_KEY "save_mac_kek_source" AesKeySize set_save_mac_kek_source;
    TEST_KEY "save_mac_key_source" AesKeySize set_save_mac_key_source;
    TEST_KEY "master_key_source" AesKeySize set_master_key_source;
    TEST_KEY "keyblob_mac_key_source" AesKeySize set_keyblob_mac_key_source;
    TEST_KEY "secure_boot_key" AesKeySize set_secure_boot_key;
    TEST_KEY "tsec_key" AesKeySize set_tsec_key;
    TEST_KEY "mariko_kek" AesKeySize set_mariko_kek;
    TEST_KEY "mariko_bek" AesKeySize set_mariko_bek;
    TEST_KEY "tsec_root_kek" AesKeySize set_tsec_root_kek;
    TEST_KEY "package1_mac_kek" AesKeySize set_package1_mac_kek;
    TEST_KEY "package1_kek" AesKeySize set_package1_kek ]
  ++ flat_map (fun gen =>
       [ TEST_KEY_WITH_GEN "keyblob_key_source" gen AesKeySize
           keyblob_key_sources set_keyblob_key_sources;
         TEST_KEY_WITH_GEN "keyblob_key" gen AesKeySize keyblob_keys set_keyblob_keys;
         TEST_KEY_WITH_GEN "keyblob_mac_key" gen AesKeySize
           keyblob_mac_keys set_keyblob_mac_keys;
         TEST_KEY_WITH_GEN "encrypted_keyblob" gen 0xB0
           encrypted_keyblobs set_encrypted_keyblobs;
         TEST_KEY_WITH_GEN "keyblob" gen 0x90 keyblobs set_keyblobs;
         TEST_KEY_WITH_GEN "mariko_master_kek_source" gen AesKeySize
           mariko_master_kek_sources set_mariko_master_kek_sources ])
       (gens KeyGeneration_1_0_0 KeyGeneration_6_2_0)
  ++ flat_map (fun gen =>
       [ TEST_KEY_WITH_GEN "tsec_auth_signature" (gen - KeyGeneration_6_2_0) AesKeySize
           tsec_auth_signatures set_tsec_auth_signatures;
         TEST_KEY_WITH_GEN "tsec_root_key" (gen - KeyGeneration_6_2_0) AesKeySize
           tsec_root_keys set_tsec_root_keys;
         TEST_KEY_WITH_GEN "master_kek_source" gen AesKeySize
           master_kek_sources set_master_kek_sources;
         TEST_KEY_WITH_GEN "mariko_master_kek_source" gen AesKeySize
           mariko_master_kek_sources set_mariko_master_kek_sources;
         TEST_KEY_WITH_GEN "package1_mac_key" gen AesKeySize
           package1_mac_keys set_package1_mac_keys ])
       (gens KeyGeneration_6_2_0 KeyGeneration_Max)
  ++ flat_map (fun idx =>
       [ TEST_KEY_WITH_GEN "mariko_aes_class_key" idx AesKeySize
           mariko_aes_class_keys set_mariko_aes_class_keys ])
       (gens 0 0xC)
  ++ flat_map (fun gen =>
       [ TEST_KEY_WITH_GEN "master_kek" gen AesKeySize master_keks set_master_keks;
         TEST_KEY_WITH_GEN "master_key" gen AesKeySize master_keys set_master_keys;
         TEST_KEY_WITH_GEN "package1_key" gen AesKeySize package1_keys set_package1_keys;
         TEST_KEY_WITH_GEN "package2_key" gen AesKeySize package2_keys set_package2_keys;
         TEST_KEY_WITH_GEN "titlekek" gen AesKeySize titlekeks set_titlekeks;
         TEST_KEY_AREA_KEY "key_area_key_application" gen 0;
         TEST_KEY_AREA_KEY "key_area_key_ocean" gen 1;
         TEST_KEY_AREA_KEY "key_area_key_system" gen 2 ])
       (gens KeyGeneration_1_0_0 KeyGeneration_Max).

(** [LoadExternalKey(ks, key, value)].  The line "Failed to match
    key" goes to [stderr] like the others; the model keeps it apart, in
    [unmatched], with the key and the value it prints (so the two
    strings are read up to their terminators). *)
Definition LoadExternalKey (ks : KeySet) (key value : cptr) (log : list Warning)
    (unmatched : list (list ascii * list ascii))
  : option (KeySet * list Warning * list (list ascii * list ascii)) :=
  match fold_left (run_test key value) external_key_tests (Some (ks, log, false)) with
  | None => None
  | Some (ks, log, matched_key) =>
    if negb matched_key then
      match strlen key, strlen value with
      | Some _, Some _ => Some (ks, log, unmatched ++ [(c_str key, c_str value)])
      | _, _ => None
      end
    else Some (ks, log, unmatched)
  end.

(** The callback [PresetInternalKeys] gives [LoadKeyValueFile] for the
    key file: [LoadExternalKey(g_keyset, key, value)]. *)
Definition external_key_callback (key value : cptr)
    (w : World (KeySet * list (list ascii * list ascii)))
  : option (World (KeySet * list (list ascii * list ascii))) :=
  match LoadExternalKey (fst (fst w)) key value (snd w) (snd (fst w)) with
  | None => None
  | Some (ks, log, unmatched) => Some ((ks, unmatched), log)
  end.

End ExternalKeys.

(** Whether a name ends in ['_'] and two hex digits, as the names of
    [TEST_KEY_WITH_GEN] do. *)
Definition ends_with_gen (name : list ascii) : bool :=
  match rev name with
  | d0 :: d1 :: u :: _ => Ascii.eqb u "_" && negb (not_hexadecimal d1) && negb (not_hexadecimal d0)
  | _ => false
  end.

(** Whether no name occurs twice. *)
Fixpoint distinct_names (names : list (list ascii)) : bool :=
  match names with
  | [] => true
  | x :: rest =>
    negb (existsb (fun y => if List.list_eq_dec ascii_dec x y then true else false) rest)
    && distinct_names rest
  end.

(** One line of a key file as text: filler, the name of a slot as the
    file writes it, blanks, a delimiter, blanks, the bytes for the slot
    in hex (in one case) and the character that ends them. *)
Record KeyLine : Type := mkKeyLine {
  key_filler : list ascii;
  key_written : list ascii;
  key_test : KeyTest;
  key_blanks_before : list ascii;
  key_delimiter : ascii;
  key_blanks_after : list ascii;
  key_bytes : list Z;
  key_upper : bool;
  key_end : ascii
}.

Definition key_line_entry (l : KeyLine) : Entry :=
  mkEntry (key_written l) (key_blanks_before l) (key_delimiter l) (key_blanks_after l)
    (hex_of (key_upper l) (key_bytes l)) (key_end l).

Definition key_line_text (l : KeyLine) : list ascii :=
  key_filler l ++ render (key_line_entry l).

(** The line names a slot that is tested for, in any case of its
    letters, and gives it as many bytes as the slot has. *)
Definition key_line_ok (tests : list KeyTest) (l : KeyLine) : Prop :=
  In (key_test l) tests
  /\ forallb key_char (key_written l) = true
  /\ map to_lower (key_written l) = test_name (key_test l)
  /\ key_bytes l <> []
  /\ length (key_bytes l) = test_size (key_test l)
  /\ forallb is_byte (key_bytes l) = true
  /\ forallb is_filler (key_filler l) = true
  /\ forallb is_blank (key_blanks_before l) = true
  /\ is_delimiter (key_delimiter l) = true
  /\ forallb is_blank (key_blanks_after l) = true
  /\ is_value_end (key_end l) = true.

(** The assignments of the lines, in their order. *)
Definition store_lines (lines : list KeyLine) (ks : KeySet) : KeySet :=
  fold_left (fun ks l => test_store (key_test l) ks (key_bytes l)) lines ks.

(** The tests of [master_kek_05], [master_key_05] and
    [master_key_source] with the generations numbered as in the sample
    key sets. *)
Definition sample_master_kek_test : KeyTest :=
  TEST_KEY_WITH_GEN "master_kek" 5 AesKeySize master_keks set_master_keks.

Definition sample_master_key_test : KeyTest :=
  TEST_KEY_WITH_GEN "master_key" 5 AesKeySize master_keys set_master_keys.

Definition sample_master_key_source_test : KeyTest :=
  TEST_KEY "master_key_source" AesKeySize set_master_key_source.

(** The line [MASTER_KEK_05 = 0102...10] with a DOS line end, whose
    line feed starts the next line, and the line
    [master_key_source,2122...30] in upper-case digits. *)
Definition sample_master_kek_line : KeyLine :=
  mkKeyLine [] (list_ascii_of_string "MASTER_KEK_05") sample_master_kek_test
    [SPACE] "=" [SPACE] (block_from 0x01) false CR.

Definition sample_master_key_source_line : KeyLine :=
  mkKeyLine [LF] (list_ascii_of_string "master_key_source") sample_master_key_source_test
    [] "," [] (block_from 0x21) true LF.

Definition sample_key_lines : list KeyLine :=
  [sample_master_kek_line; sample_master_key_source_line].
(** ** Key derivation

    [pkg1::KeyGeneration_1_0_0], [pkg1::KeyGeneration_6_2_0] and
    [pkg1::KeyGeneration_Max] come from [exosphere/pkg1.hpp] and the
    single-block AES-128 decryption from [crypto::AesDecryptor128];
    neither is part of this repository, so the derivation takes them
    as parameters.  [DecryptBlock key src] is the block that
    [AesDecryptor128(key).DecryptBlock(dst, src)] leaves in [dst]. *)

Section Derivation.

Variables KeyGeneration_1_0_0 KeyGeneration_6_2_0 KeyGeneration_Max : nat.
Variable DecryptBlock : list Z -> list Z -> list Z.

(** [for (int gen = lo; gen < hi; ++gen) body], threading the key set. *)
Definition for_gen (lo hi : nat) (body : KeySet -> nat -> KeySet) (ks : KeySet) : KeySet :=
  fold_left body (seq lo (hi - lo)) ks.

(** One iteration of "Derive keyblob keys".  [SKIP_IF_UNSET(v)] is
    [if (IsZero(v, sizeof(v))) continue;], which ends the iteration
    with the key set as it is at that point. *)
Definition derive_keyblob_keys_body (ks : KeySet) (gen : nat) : KeySet :=
  if IsZero (secure_boot_key ks) then ks else
  if IsZero (tsec_key ks) then ks else
  if IsZero (slot (keyblob_key_sources ks) gen) then ks else
  let ks := set_keyblob_keys ks
    (<[gen := DecryptBlock (tsec_key ks) (slot (keyblob_key_sources ks) gen)]> (keyblob_keys ks)) in
  let ks := set_keyblob_keys ks
    (<[gen := DecryptBlock (secure_boot_key ks) (slot (keyblob_keys ks) gen)]> (keyblob_keys ks)) in
  if IsZero (keyblob_mac_key_source ks) then ks else
  let ks := set_keyblob_mac_keys ks
    (<[gen := DecryptBlock (slot (keyblob_keys ks) gen) (keyblob_mac_key_source ks)]>
       (keyblob_mac_keys ks)) in
  if (gen =? KeyGeneration_1_0_0) && negb (IsZero (per_console_key_source ks)) then
    set_device_key ks (DecryptBlock (slot (keyblob_keys ks) gen) (per_console_key_source ks))
  else ks.

(** One iteration of "Decrypt keyblobs": the three checks are on the
    whole arrays, and the body after them is empty. *)
Definition decrypt_keyblobs_body (ks : KeySet) (gen : nat) : KeySet :=
  if IsZero (concat (keyblob_keys ks)) then ks else
  if IsZero (concat (keyblob_mac_keys ks)) then ks else
  if IsZero (concat (encrypted_keyblobs ks)) then ks else
  ks.

(** One iteration of "Set package1 key/master kek via keyblobs". *)
Definition keyblob_fields_body (ks : KeySet) (gen : nat) : KeySet :=
  let ks :=
    if negb (IsZero (span (slot (keyblobs ks) gen) 0x80 AesKeySize)) then
      set_package1_keys ks
        (<[gen := span (slot (keyblobs ks) gen) 0x80 AesKeySize]> (package1_keys ks))
    else ks in
  if negb (IsZero (span (slot (keyblobs ks) gen) 0x00 AesKeySize)) then
    set_master_keks ks
      (<[gen := span (slot (keyblobs ks) gen) 0x00 AesKeySize]> (master_keks ks))
  else ks.

(** One iteration of "Derive newer keydata via tsec": a check and no body. *)
Definition tsec_keydata_body (ks : KeySet) (gen : nat) : KeySet :=
  if IsZero (slot (tsec_auth_signatures ks) (gen - KeyGeneration_6_2_0)) then ks else
  ks.

(** One iteration of "Derive master keks with mariko keydata". *)
Definition mariko_master_kek_body (ks : KeySet) (gen : nat) : KeySet :=
  if IsZero (mariko_kek ks) then ks else
  if IsZero (slot (mariko_master_kek_sources ks) gen) then ks else
  set_master_keks ks
    (<[gen := DecryptBlock (mariko_kek ks) (slot (mariko_master_kek_sources ks) gen)]>
       (master_keks ks)).

(** One iteration of "Derive master keys". *)
Definition master_key_body (ks : KeySet) (gen : nat) : KeySet :=
  if IsZero (master_key_source ks) then ks else
  if IsZero (slot (master_keks ks) gen) then ks else
  set_master_keys ks
    (<[gen := DecryptBlock (slot (master_keks ks) gen) (master_key_source ks)]>
       (master_keys ks)).

Definition DeriveKeys (ks : KeySet) : KeySet :=
  let ks := for_gen KeyGeneration_1_0_0 KeyGeneration_6_2_0 derive_keyblob_keys_body ks in
  let ks := for_gen KeyGeneration_1_0_0 KeyGeneration_6_2_0 decrypt_keyblobs_body ks in
  let ks := for_gen KeyGeneration_1_0_0 KeyGeneration_6_2_0 keyblob_fields_body ks in
  let ks := for_gen KeyGeneration_6_2_0 KeyGeneration_Max tsec_keydata_body ks in
  let ks := for_gen KeyGeneration_1_0_0 KeyGeneration_Max mariko_master_kek_body ks in
  for_gen KeyGeneration_1_0_0 KeyGeneration_Max master_key_body ks.

(** The struct's array bounds: every generation-indexed array that
    [DeriveKeys] indexes has [KeyGeneration_Max] rows. *)
Definition KeySet_wf (ks : KeySet) : Prop :=
  length (keyblob_keys ks) = KeyGeneration_Max
  /\ length (keyblob_mac_keys ks) = KeyGeneration_Max
  /\ length (keyblobs ks) = KeyGeneration_Max
  /\ length (keyblob_key_sources ks) = KeyGeneration_Max
  /\ length (mariko_master_kek_sources ks) = KeyGeneration_Max
  /\ length (master_keks ks) = KeyGeneration_Max
  /\ length (master_keys ks) = KeyGeneration_Max
  /\ length (package1_keys ks) = KeyGeneration_Max.

(** [frame_eq a b]: the two key sets agree on every field other than
    [device_key], [keyblob_keys], [keyblob_mac_keys], [package1_keys],
    [master_keks] and [master_keys]. *)
Definition frame_eq (a b : KeySet) : Prop :=
  secure_boot_key a = secure_boot_key b
  /\ tsec_key a = tsec_key b
  /\ encrypted_keyblobs a = encrypted_keyblobs b
  /\ mariko_aes_class_keys a = mariko_aes_class_keys b
  /\ mariko_kek a = mariko_kek b
  /\ mariko_bek a = mariko_bek b
  /\ keyblobs a = keyblobs b
  /\ keyblob_key_sources a = keyblob_key_sources b
  /\ keyblob_mac_key_source a = keyblob_mac_key_source b
  /\ tsec_root_kek a = tsec_root_kek b
  /\ package1_mac_kek a = package1_mac_kek b
  /\ package1_kek a = package1_kek b
  /\ tsec_auth_signatures a = tsec_auth_signatures b
  /\ tsec_root_keys a = tsec_root_keys b
  /\ master_kek_sources a = master_kek_sources b
  /\ mariko_master_kek_sources a = mariko_master_kek_sources b
  /\ master_key_source a = master_key_source b
  /\ package1_mac_keys a = package1_mac_keys b
  /\ package2_keys a = package2_keys b
  /\ package2_key_source a = package2_key_source b
  /\ per_console_key_source a = per_console_key_source b
  /\ aes_kek_generation_source a = aes_kek_generation_source b
  /\ aes_key_generation_source a = aes_key_generation_source b
  /\ key_area_key_application_source a = key_area_key_application_source b
  /\ key_area_key_ocean_source a = key_area_key_ocean_source b
  /\ key_area_key_system_source a = key_area_key_system_source b
  /\ titlekek_source a = titlekek_source b
  /\ header_kek_source a = header_kek_source b
  /\ sd_card_kek_source a = sd_card_kek_source b
  /\ sd_card_nca_key_source a = sd_card_nca_key_source b
  /\ sd_card_save_key_source a = sd_card_save_key_source b
  /\ save_mac_kek_source a = save_mac_kek_source b
  /\ save_mac_key_source a = save_mac_key_source b
  /\ header_key_source a = header_key_source b
  /\ header_key a = header_key b
  /\ titlekeks a = titlekeks b
  /\ key_area_keys a = key_area_keys b
  /\ xci_header_key a = xci_header_key b
  /\ save_mac_key a = save_mac_key b
  /\ sd_card_keys a = sd_card_keys b
  /\ nca_hdr_fixed_key_moduli a = nca_hdr_fixed_key_moduli b
  /\ acid_fixed_key_moduli a = acid_fixed_key_moduli b
  /\ package2_fixed_key_modulus a = package2_fixed_key_modulus b.

(** Guards and values of the stages, as functions of the key set the
    stage starts from.  They are used to state what each loop leaves in
    a slot. *)
Definition in_gen (lo hi gen : nat) : bool := (lo <=? gen) && (gen <? hi).

Definition keyblob_key_ready (ks : KeySet) (gen : nat) : bool :=
  negb (IsZero (secure_boot_key ks)) && negb (IsZero (tsec_key ks))
  && negb (IsZero (slot (keyblob_key_sources ks) gen)).

Definition keyblob_key_value (ks : KeySet) (gen : nat) : list Z :=
  DecryptBlock (secure_boot_key ks)
    (DecryptBlock (tsec_key ks) (slot (keyblob_key_sources ks) gen)).

Definition keyblob_mac_key_ready (ks : KeySet) (gen : nat) : bool :=
  keyblob_key_ready ks gen && negb (IsZero (keyblob_mac_key_source ks)).

Definition keyblob_mac_key_value (ks : KeySet) (gen : nat) : list Z :=
  DecryptBlock (keyblob_key_value ks gen) (keyblob_mac_key_source ks).

Definition device_key_ready (ks : KeySet) (gen : nat) : bool :=
  keyblob_mac_key_ready ks gen
  && ((gen =? KeyGeneration_1_0_0) && negb (IsZero (per_console_key_source ks))).

Definition device_key_value (ks : KeySet) (gen : nat) : list Z :=
  DecryptBlock (keyblob_key_value ks gen) (per_console_key_source ks).

Definition keyblob_package1_ready (ks : KeySet) (gen : nat) : bool :=
  negb (IsZero (span (slot (keyblobs ks) gen) 0x80 AesKeySize)).

Definition keyblob_package1_value (ks : KeySet) (gen : nat) : list Z :=
  span (slot (keyblobs ks) gen) 0x80 AesKeySize.

Definition keyblob_master_kek_ready (ks : KeySet) (gen : nat) : bool :=
  negb (IsZero (span (slot (keyblobs ks) gen) 0x00 AesKeySize)).

Definition keyblob_master_kek_value (ks : KeySet) (gen : nat) : list Z :=
  span (slot (keyblobs ks) gen) 0x00 AesKeySize.

Definition mariko_master_kek_ready (ks : KeySet) (gen : nat) : bool :=
  negb (IsZero (mariko_kek ks)) && negb (IsZero (slot (mariko_master_kek_sources ks) gen)).

Definition mariko_master_kek_value (ks : KeySet) (gen : nat) : list Z :=
  DecryptBlock (mariko_kek ks) (slot (mariko_master_kek_sources ks) gen).

Definition master_key_ready (ks : KeySet) (gen : nat) : bool :=
  negb (IsZero (master_key_source ks)) && negb (IsZero (slot (master_keks ks) gen)).

Definition master_key_value (ks : KeySet) (gen : nat) : list Z :=
  DecryptBlock (slot (master_keks ks) gen) (master_key_source ks).

(** The four loops of [DeriveKeys] that assign something. *)
Definition stage_keyblob_keys : KeySet -> KeySet :=
  for_gen KeyGeneration_1_0_0 KeyGeneration_6_2_0 derive_keyblob_keys_body.
Definition stage_keyblob_fields : KeySet -> KeySet :=
  for_gen KeyGeneration_1_0_0 KeyGeneration_6_2_0 keyblob_fields_body.
Definition stage_mariko : KeySet -> KeySet :=
  for_gen KeyGeneration_1_0_0 KeyGeneration_Max mariko_master_kek_body.
Definition stage_master_keys : KeySet -> KeySet :=
  for_gen KeyGeneration_1_0_0 KeyGeneration_Max master_key_body.

(** ** Presetting the keys *)

Section Preset.

(** [fssrv::impl::ExternalKeyManager], as for [LoadTitleKey]. *)
Variable KeyManager : Type.
Variable Register : KeyManager -> list Z -> list Z -> KeyManager.

(** What [Processor::PresetInternalKeys] reads and writes: [g_keyset];
    the keys given to [spl::smc::PresetInternalKey] with their
    generations, in the order of the calls;
    [m_external_nca_key_manager]; and what goes to [stderr], which is
    the diagnostics of the two files, the keys that matched no name,
    the warnings of [LoadKeyValueFile] and the warning on the keys of
    the gamecard library. *)
Record Processor : Type := mkProcessor {
  keyset : KeySet;
  spl_keys : list (list Z * nat);
  external_nca_key_manager : KeyManager;
  stderr : list Warning;
  unmatched_keys : list (list ascii * list ascii);
  file_failures : list FileFailure;
  gamecard_warning : bool
}.

(** What a run of the parser leaves its caller with; nothing when it
    has left its buffer. *)
Definition parsed_result {St : Type} (r : Parsed St) : option (World St) :=
  match parsed_exit r with
  | Finished | Returned => Some (parsed_world r)
  | OutOfBounds | OutOfFuel => None
  end.

(** [Processor::PresetInternalKeys()].  [m_options.key_file_path] and
    [m_options.titlekey_path] are given by what reading the file
    yields, [None] for a null path.  [InitializeKeySet] does nothing.
    [spl::smc::PresetInternalKey] and
    [gc::impl::EmbeddedDataHolder::SetLibraryEmbeddedKeys] are outside
    this repository: the calls of the first are recorded, and whether
    the second succeeds is [gamecard_keys_set]. *)
Definition PresetInternalKeys (key_file titlekey_file : option (FileFailure + list ascii))
    (gamecard_keys_set : bool) (p : Processor) : option Processor :=
  (* Load external keys. *)
  let loaded :=
    match key_file with
    | None => Some p
    | Some file =>
      match LoadKeyValueFile
              (external_key_callback KeyGeneration_1_0_0 KeyGeneration_6_2_0 KeyGeneration_Max)
              file ((keyset p, unmatched_keys p), stderr p) with
      | inl failure =>
        Some (mkProcessor (keyset p) (spl_keys p) (external_nca_key_manager p) (stderr p)
                (unmatched_keys p) (file_failures p ++ [failure]) (gamecard_warning p))
      | inr r =>
        match parsed_result r with
        | None => None
        | Some ((ks, unmatched), log) =>
          Some (mkProcessor ks (spl_keys p) (external_nca_key_manager p) log unmatched
                  (file_failures p) (gamecard_warning p))
        end
      end
    end in
  match loaded with
  | None => None
  | Some p =>
    (* Derive keys. *)
    let ks := DeriveKeys (keyset p) in
    (* Set all master keys with spl. *)
    let spl :=
      spl_keys p
      ++ map (fun gen => (slot (master_keys ks) gen, gen))
           (gens KeyGeneration_1_0_0 KeyGeneration_Max) in
    (* Set internal keys for gamecard library. *)
    let warning := gamecard_warning p || negb gamecard_keys_set in
    (* Load titlekeys. *)
    match titlekey_file with
    | None =>
      Some (mkProcessor ks spl (external_nca_key_manager p) (stderr p) (unmatched_keys p)
              (file_failures p) warning)
    | Some file =>
      match LoadKeyValueFile (title_key_callback Register) file
              (external_nca_key_manager p, stderr p) with
      | inl failure =>
        Some (mkProcessor ks spl (external_nca_key_manager p) (stderr p) (unmatched_keys p)
                (file_failures p ++ [failure]) warning)
      | inr r =>
        match parsed_result r with
        | None => None
        | Some (km, log) =>
          Some (mkProcessor ks spl km log (unmatched_keys p) (file_failures p) warning)
        end
      end
    end
  end.

End Preset.

(** *** Loops *)

Lemma fold_left_invariant {A B : Type} (P : A -> Prop) (f : A -> B -> A) (l : list B) :
  (forall a b, P a -> P (f a b)) -> forall a, P a -> P (fold_left f l a).
Proof.
  intros Hstep. induction l as [|b l IH]; intros a Ha; simpl; [exact Ha|].
  apply IH, Hstep, Ha.
Qed.

Lemma fold_left_id {A B : Type} (f : A -> B -> A) (l : list B) :
  (forall a b, f a b = a) -> forall a, fold_left f l a = a.
Proof.
  intros Hid. induction l as [|b l IH]; intros a; simpl; [reflexivity|].
  rewrite Hid. apply IH.
Qed.

Lemma fold_left_proj {A B C : Type} (proj : A -> C) (f : A -> B -> A) (l : list B) :
  (forall a b, proj (f a b) = proj a) -> forall a, proj (fold_left f l a) = proj a.
Proof.
  intros Hp a. apply (fold_left_invariant (fun x => proj x = proj a)); [|reflexivity].
  intros x b Hx. rewrite Hp. exact Hx.
Qed.

Lemma slot_lookup (a : list (list Z)) (i : nat) (x : list Z) :
  a !! i = Some x -> slot a i = x.
Proof. intros H. unfold slot. apply list_lookup_total_correct, H. Qed.

Lemma lookup_slot (a : list (list Z)) (i : nat) :
  i < length a -> a !! i = Some (slot a i).
Proof.
  intros H. unfold slot. apply list_lookup_lookup_total_lt, H.
Qed.

Lemma slot_insert_eq (a : list (list Z)) (i : nat) (x : list Z) :
  i < length a -> slot (<[i := x]> a) i = x.
Proof. intros H. apply slot_lookup, list_lookup_insert_eq, H. Qed.



(** *** Frame of each loop body *)

Lemma frame_eq_refl (a : KeySet) : frame_eq a a.
Proof. unfold frame_eq. repeat split. Qed.

Lemma frame_eq_trans (a b c : KeySet) : frame_eq a b -> frame_eq b c -> frame_eq a c.
Proof.
  unfold frame_eq. intros Hab Hbc. destruct_and!.
  repeat split; etransitivity; eassumption.
Qed.

Ltac frame_body body :=
  intros; unfold body; repeat case_match; apply frame_eq_refl || (unfold frame_eq; simpl; repeat split).

Lemma frame_derive_keyblob_keys_body ks gen : frame_eq ks (derive_keyblob_keys_body ks gen).
Proof. frame_body derive_keyblob_keys_body. Qed.

Lemma decrypt_keyblobs_body_id ks gen : decrypt_keyblobs_body ks gen = ks.
Proof. unfold decrypt_keyblobs_body. repeat case_match; reflexivity. Qed.

Lemma tsec_keydata_body_id ks gen : tsec_keydata_body ks gen = ks.
Proof. unfold tsec_keydata_body. case_match; reflexivity. Qed.

Lemma frame_keyblob_fields_body ks gen : frame_eq ks (keyblob_fields_body ks gen).
Proof. frame_body keyblob_fields_body. Qed.

Lemma frame_mariko_master_kek_body ks gen : frame_eq ks (mariko_master_kek_body ks gen).
Proof. frame_body mariko_master_kek_body. Qed.

Lemma frame_master_key_body ks gen : frame_eq ks (master_key_body ks gen).
Proof. frame_body master_key_body. Qed.

Lemma frame_for_gen lo hi body ks :
  (forall a g, frame_eq a (body a g)) -> frame_eq ks (for_gen lo hi body ks).
Proof.
  intros Hb. unfold for_gen.
  apply (fold_left_invariant (frame_eq ks)); [|apply frame_eq_refl].
  intros a g Ha. eapply frame_eq_trans; [exact Ha|apply Hb].
Qed.


(** *** A loop of guarded single-slot writes

    [body] writes [proj ks] at the index of its iteration only, under a
    guard; guard and value do not depend on what earlier iterations
    wrote.  After the loop over [l], slot [g] holds the value when [g]
    was visited with its guard true, and its old content otherwise. *)

Section GuardedInsert.

Variable bound : nat.
Variable Inv : KeySet -> Prop.
Variable proj : KeySet -> list (list Z).
Variable body : KeySet -> nat -> KeySet.
Variable guard : KeySet -> nat -> bool.
Variable value : KeySet -> nat -> list Z.

Hypothesis Inv_body : forall ks g, Inv ks -> Inv (body ks g).
Hypothesis Inv_length : forall ks, Inv ks -> length (proj ks) = bound.
Hypothesis proj_body : forall ks g, Inv ks -> g < bound ->
  proj (body ks g) = if guard ks g then <[g := value ks g]> (proj ks) else proj ks.
Hypothesis guard_stable : forall ks g g', guard (body ks g') g = guard ks g.
Hypothesis value_stable : forall ks g g', value (body ks g') g = value ks g.

Lemma fold_left_guarded_insert (l : list nat) :
  forall ks g, Inv ks -> Forall (fun a => a < bound) l -> g < bound ->
    proj (fold_left body l ks) !! g
    = if bool_decide (g ∈ l) && guard ks g then Some (value ks g) else proj ks !! g.
Proof.
  induction l as [|a l IH]; intros ks g HI Hl Hg; simpl.
  - reflexivity.
  - inversion Hl as [|? ? Ha Hl']; subst.
    rewrite IH by auto. rewrite guard_stable, value_stable.
    rewrite proj_body by assumption.
    destruct (decide (g = a)) as [->|Hne].
    + rewrite (bool_decide_eq_true_2 (a ∈ a :: l)) by apply list_elem_of_here.
      simpl. destruct (guard ks a) eqn:Hc.
      * destruct (bool_decide (a ∈ l)); simpl; [reflexivity|].
        apply list_lookup_insert_eq. rewrite Inv_length by assumption. exact Hg.
      * rewrite andb_false_r. reflexivity.
    + assert (bool_decide (g ∈ a :: l) = bool_decide (g ∈ l)) as ->.
      { apply bool_decide_ext. rewrite elem_of_cons. tauto. }
      destruct (bool_decide (g ∈ l) && guard ks g); [reflexivity|].
      destruct (guard ks a); [|reflexivity].
      apply list_lookup_insert_ne. congruence.
Qed.

Lemma for_gen_guarded_insert (lo hi : nat) (ks : KeySet) (g : nat) :
  Inv ks -> hi <= bound -> g < bound ->
  proj (for_gen lo hi body ks) !! g
  = if (lo <=? g) && (g <? hi) && guard ks g then Some (value ks g) else proj ks !! g.
Proof.
  intros HI Hhi Hg. unfold for_gen.
  rewrite fold_left_guarded_insert; try assumption.
  - assert (bool_decide (g ∈ seq lo (hi - lo)) = (lo <=? g) && (g <? hi)) as ->; [|reflexivity].
    destruct ((lo <=? g) && (g <? hi)) eqn:E.
    + apply bool_decide_eq_true_2, elem_of_seq.
      apply andb_true_iff in E as [E1 E2].
      apply Nat.leb_le in E1. apply Nat.ltb_lt in E2. lia.
    + apply bool_decide_eq_false_2. rewrite elem_of_seq. intros [H1 H2].
      apply andb_false_iff in E as [E|E].
      * apply Nat.leb_gt in E. lia.
      * apply Nat.ltb_ge in E. lia.
  - apply Forall_forall. intros a Ha. apply elem_of_seq in Ha. lia.
Qed.

End GuardedInsert.


(** *** What one iteration writes *)

Ltac wf_body body :=
  intros; unfold body; unfold KeySet_wf in *; repeat case_match; simpl;
  rewrite ?length_insert; assumption.

Lemma wf_derive_keyblob_keys_body ks gen :
  KeySet_wf ks -> KeySet_wf (derive_keyblob_keys_body ks gen).
Proof. wf_body derive_keyblob_keys_body. Qed.

Lemma wf_keyblob_fields_body ks gen : KeySet_wf ks -> KeySet_wf (keyblob_fields_body ks gen).
Proof. wf_body keyblob_fields_body. Qed.

Lemma wf_mariko_master_kek_body ks gen :
  KeySet_wf ks -> KeySet_wf (mariko_master_kek_body ks gen).
Proof. wf_body mariko_master_kek_body. Qed.

Lemma wf_master_key_body ks gen : KeySet_wf ks -> KeySet_wf (master_key_body ks gen).
Proof. wf_body master_key_body. Qed.

Lemma wf_for_gen lo hi body ks :
  (forall a g, KeySet_wf a -> KeySet_wf (body a g)) ->
  KeySet_wf ks -> KeySet_wf (for_gen lo hi body ks).
Proof. intros Hb. unfold for_gen. apply (fold_left_invariant KeySet_wf). exact Hb. Qed.

Ltac split_guards :=
  unfold device_key_ready, keyblob_mac_key_ready, keyblob_key_ready,
    device_key_value, keyblob_mac_key_value, keyblob_key_value;
  repeat match goal with
  | |- context [IsZero ?x] => destruct (IsZero x) eqn:?; simpl
  end.

Arguments slot : simpl never.
Arguments span : simpl never.

Ltac guards_cases :=
  repeat case_match;
  repeat match goal with
  | H : IsZero _ = _ |- _ => rewrite H in *
  | H : (_ =? _) = _ |- _ => rewrite H in *
  end;
  simpl in *; rewrite ?andb_false_r in *; simpl in *;
  try discriminate; try reflexivity; try congruence.

Ltac body_proj body :=
  unfold body; simpl;
  repeat progress (rewrite ?list_insert_insert_eq;
                   rewrite ?slot_insert_eq by (rewrite ?length_insert; assumption));
  unfold device_key_ready, device_key_value, keyblob_mac_key_ready, keyblob_mac_key_value,
    keyblob_key_ready, keyblob_key_value, keyblob_package1_ready, keyblob_package1_value,
    keyblob_master_kek_ready, keyblob_master_kek_value, mariko_master_kek_ready,
    mariko_master_kek_value, master_key_ready, master_key_value;
  guards_cases.

Lemma keyblob_keys_derive_body ks gen :
  gen < length (keyblob_keys ks) ->
  keyblob_keys (derive_keyblob_keys_body ks gen)
  = if keyblob_key_ready ks gen then <[gen := keyblob_key_value ks gen]> (keyblob_keys ks)
    else keyblob_keys ks.
Proof. intros Hg. body_proj derive_keyblob_keys_body. Qed.

Lemma keyblob_mac_keys_derive_body ks gen :
  gen < length (keyblob_keys ks) ->
  keyblob_mac_keys (derive_keyblob_keys_body ks gen)
  = if keyblob_mac_key_ready ks gen
    then <[gen := keyblob_mac_key_value ks gen]> (keyblob_mac_keys ks)
    else keyblob_mac_keys ks.
Proof. intros Hg. body_proj derive_keyblob_keys_body. Qed.

Lemma device_key_derive_body ks gen :
  gen < length (keyblob_keys ks) ->
  device_key (derive_keyblob_keys_body ks gen)
  = if device_key_ready ks gen then device_key_value ks gen else device_key ks.
Proof. intros Hg. body_proj derive_keyblob_keys_body. Qed.

Lemma package1_keys_keyblob_fields_body ks gen :
  package1_keys (keyblob_fields_body ks gen)
  = if keyblob_package1_ready ks gen
    then <[gen := keyblob_package1_value ks gen]> (package1_keys ks)
    else package1_keys ks.
Proof. body_proj keyblob_fields_body. Qed.

Lemma master_keks_keyblob_fields_body ks gen :
  master_keks (keyblob_fields_body ks gen)
  = if keyblob_master_kek_ready ks gen
    then <[gen := keyblob_master_kek_value ks gen]> (master_keks ks)
    else master_keks ks.
Proof. body_proj keyblob_fields_body. Qed.

Lemma master_keks_mariko_body ks gen :
  master_keks (mariko_master_kek_body ks gen)
  = if mariko_master_kek_ready ks gen
    then <[gen := mariko_master_kek_value ks gen]> (master_keks ks)
    else master_keks ks.
Proof. body_proj mariko_master_kek_body. Qed.

Lemma master_keys_master_key_body ks gen :
  master_keys (master_key_body ks gen)
  = if master_key_ready ks gen
    then <[gen := master_key_value ks gen]> (master_keys ks)
    else master_keys ks.
Proof. body_proj master_key_body. Qed.

(** The derived slots an iteration does not assign. *)
Ltac body_keeps body := intros; unfold body; repeat case_match; reflexivity.

Lemma derive_body_keeps ks gen :
  package1_keys (derive_keyblob_keys_body ks gen) = package1_keys ks
  /\ master_keks (derive_keyblob_keys_body ks gen) = master_keks ks
  /\ master_keys (derive_keyblob_keys_body ks gen) = master_keys ks.
Proof. repeat split; body_keeps derive_keyblob_keys_body. Qed.

Lemma keyblob_fields_body_keeps ks gen :
  device_key (keyblob_fields_body ks gen) = device_key ks
  /\ keyblob_keys (keyblob_fields_body ks gen) = keyblob_keys ks
  /\ keyblob_mac_keys (keyblob_fields_body ks gen) = keyblob_mac_keys ks
  /\ master_keys (keyblob_fields_body ks gen) = master_keys ks.
Proof. repeat split; body_keeps keyblob_fields_body. Qed.

Lemma mariko_body_keeps ks gen :
  device_key (mariko_master_kek_body ks gen) = device_key ks
  /\ keyblob_keys (mariko_master_kek_body ks gen) = keyblob_keys ks
  /\ keyblob_mac_keys (mariko_master_kek_body ks gen) = keyblob_mac_keys ks
  /\ package1_keys (mariko_master_kek_body ks gen) = package1_keys ks
  /\ master_keys (mariko_master_kek_body ks gen) = master_keys ks.
Proof. repeat split; body_keeps mariko_master_kek_body. Qed.

Lemma master_key_body_keeps ks gen :
  device_key (master_key_body ks gen) = device_key ks
  /\ keyblob_keys (master_key_body ks gen) = keyblob_keys ks
  /\ keyblob_mac_keys (master_key_body ks gen) = keyblob_mac_keys ks
  /\ package1_keys (master_key_body ks gen) = package1_keys ks
  /\ master_keks (master_key_body ks gen) = master_keks ks.
Proof. repeat split; body_keeps master_key_body. Qed.


(** *** Guards and values read only what the loops leave alone *)

Ltac by_frame :=
  unfold frame_eq, device_key_ready, device_key_value, keyblob_mac_key_ready,
    keyblob_mac_key_value, keyblob_key_ready, keyblob_key_value, keyblob_package1_ready,
    keyblob_package1_value, keyblob_master_kek_ready, keyblob_master_kek_value,
    mariko_master_kek_ready, mariko_master_kek_value, master_key_ready, master_key_value;
  intros; destruct_and!; repeat split; congruence.

Lemma frame_keyblob_key a b g :
  frame_eq a b ->
  keyblob_key_ready a g = keyblob_key_ready b g
  /\ keyblob_key_value a g = keyblob_key_value b g
  /\ keyblob_mac_key_ready a g = keyblob_mac_key_ready b g
  /\ keyblob_mac_key_value a g = keyblob_mac_key_value b g
  /\ device_key_ready a g = device_key_ready b g
  /\ device_key_value a g = device_key_value b g.
Proof. by_frame. Qed.

Lemma frame_keyblob_fields a b g :
  frame_eq a b ->
  keyblob_package1_ready a g = keyblob_package1_ready b g
  /\ keyblob_package1_value a g = keyblob_package1_value b g
  /\ keyblob_master_kek_ready a g = keyblob_master_kek_ready b g
  /\ keyblob_master_kek_value a g = keyblob_master_kek_value b g.
Proof. by_frame. Qed.

Lemma frame_mariko a b g :
  frame_eq a b ->
  mariko_master_kek_ready a g = mariko_master_kek_ready b g
  /\ mariko_master_kek_value a g = mariko_master_kek_value b g.
Proof. by_frame. Qed.

Lemma frame_master_key a b g :
  frame_eq a b -> master_keks a = master_keks b ->
  master_key_ready a g = master_key_ready b g
  /\ master_key_value a g = master_key_value b g.
Proof. by_frame. Qed.

(** *** What each loop leaves in the derived slots *)

Section Stages.

Hypothesis gen_le : KeyGeneration_6_2_0 <= KeyGeneration_Max.

Lemma DeriveKeys_stages ks :
  DeriveKeys ks
  = stage_master_keys (stage_mariko (stage_keyblob_fields (stage_keyblob_keys ks))).
Proof.
  unfold DeriveKeys, stage_master_keys, stage_mariko, stage_keyblob_fields, stage_keyblob_keys.
  cbv zeta. unfold for_gen at 3. rewrite (fold_left_id tsec_keydata_body) by apply tsec_keydata_body_id.
  unfold for_gen at 4. rewrite (fold_left_id decrypt_keyblobs_body) by apply decrypt_keyblobs_body_id.
  reflexivity.
Qed.

Lemma wf_length ks :
  KeySet_wf ks ->
  length (keyblob_keys ks) = KeyGeneration_Max
  /\ length (keyblob_mac_keys ks) = KeyGeneration_Max
  /\ length (package1_keys ks) = KeyGeneration_Max
  /\ length (master_keks ks) = KeyGeneration_Max
  /\ length (master_keys ks) = KeyGeneration_Max.
Proof. unfold KeySet_wf. intros H. destruct_and!. repeat split; assumption. Qed.

Lemma stage_keyblob_keys_keyblob_keys ks g :
  KeySet_wf ks -> g < KeyGeneration_Max ->
  keyblob_keys (stage_keyblob_keys ks) !! g
  = if in_gen KeyGeneration_1_0_0 KeyGeneration_6_2_0 g && keyblob_key_ready ks g
    then Some (keyblob_key_value ks g) else keyblob_keys ks !! g.
Proof.
  intros Hwf Hg. unfold stage_keyblob_keys, in_gen.
  apply (for_gen_guarded_insert KeyGeneration_Max KeySet_wf keyblob_keys); try assumption.
  - apply wf_derive_keyblob_keys_body.
  - intros a Ha. apply wf_length, Ha.
  - intros a i Ha Hi. apply keyblob_keys_derive_body.
    apply wf_length in Ha. destruct_and!. lia.
  - intros a i i'. symmetry.
    apply (frame_keyblob_key a (derive_keyblob_keys_body a i') i), frame_derive_keyblob_keys_body.
  - intros a i i'. symmetry.
    apply (frame_keyblob_key a (derive_keyblob_keys_body a i') i), frame_derive_keyblob_keys_body.
Qed.

Lemma stage_keyblob_keys_keyblob_mac_keys ks g :
  KeySet_wf ks -> g < KeyGeneration_Max ->
  keyblob_mac_keys (stage_keyblob_keys ks) !! g
  = if in_gen KeyGeneration_1_0_0 KeyGeneration_6_2_0 g && keyblob_mac_key_ready ks g
    then Some (keyblob_mac_key_value ks g) else keyblob_mac_keys ks !! g.
Proof.
  intros Hwf Hg. unfold stage_keyblob_keys, in_gen.
  apply (for_gen_guarded_insert KeyGeneration_Max KeySet_wf keyblob_mac_keys); try assumption.
  - apply wf_derive_keyblob_keys_body.
  - intros a Ha. apply wf_length, Ha.
  - intros a i Ha Hi. apply keyblob_mac_keys_derive_body.
    apply wf_length in Ha. destruct_and!. lia.
  - intros a i i'. symmetry.
    apply (frame_keyblob_key a (derive_keyblob_keys_body a i') i), frame_derive_keyblob_keys_body.
  - intros a i i'. symmetry.
    apply (frame_keyblob_key a (derive_keyblob_keys_body a i') i), frame_derive_keyblob_keys_body.
Qed.

Lemma fold_derive_device_key (l : list nat) :
  forall ks, KeySet_wf ks -> Forall (fun a => a < KeyGeneration_Max) l ->
    device_key (fold_left derive_keyblob_keys_body l ks)
    = if bool_decide (KeyGeneration_1_0_0 ∈ l) && device_key_ready ks KeyGeneration_1_0_0
      then device_key_value ks KeyGeneration_1_0_0 else device_key ks.
Proof.
  induction l as [|a l IH]; intros ks Hwf Hl; simpl; [reflexivity|].
  inversion Hl as [|? ? Ha Hl']; subst.
  rewrite IH by (auto using wf_derive_keyblob_keys_body).
  destruct (frame_keyblob_key ks (derive_keyblob_keys_body ks a) KeyGeneration_1_0_0
              (frame_derive_keyblob_keys_body ks a)) as (_ & _ & _ & _ & <- & <-).
  rewrite device_key_derive_body by (apply wf_length in Hwf; destruct_and!; lia).
  destruct (decide (KeyGeneration_1_0_0 = a)) as [<-|Hne].
  - rewrite (bool_decide_eq_true_2 (_ ∈ _ :: l)) by apply list_elem_of_here.
    simpl. destruct (bool_decide _), (device_key_ready ks KeyGeneration_1_0_0); reflexivity.
  - assert (bool_decide (KeyGeneration_1_0_0 ∈ a :: l) = bool_decide (KeyGeneration_1_0_0 ∈ l)) as ->.
    { apply bool_decide_ext. rewrite elem_of_cons. tauto. }
    assert (device_key_ready ks a = false) as ->; [|reflexivity].
    unfold device_key_ready. apply Nat.eqb_neq in Hne. rewrite Nat.eqb_sym in Hne.
    rewrite Hne. simpl. apply andb_false_r.
Qed.


Lemma stage_keyblob_keys_device_key ks :
  KeySet_wf ks ->
  device_key (stage_keyblob_keys ks)
  = if (KeyGeneration_1_0_0 <? KeyGeneration_6_2_0)
       && device_key_ready ks KeyGeneration_1_0_0
    then device_key_value ks KeyGeneration_1_0_0 else device_key ks.
Proof.
  intros Hwf. unfold stage_keyblob_keys, for_gen. rewrite fold_derive_device_key.
  - assert (bool_decide
              (KeyGeneration_1_0_0 ∈ seq KeyGeneration_1_0_0
                 (KeyGeneration_6_2_0 - KeyGeneration_1_0_0))
            = (KeyGeneration_1_0_0 <? KeyGeneration_6_2_0)) as ->; [|reflexivity].
    destruct (KeyGeneration_1_0_0 <? KeyGeneration_6_2_0) eqn:E.
    + apply bool_decide_eq_true_2, elem_of_seq. apply Nat.ltb_lt in E. lia.
    + apply bool_decide_eq_false_2. rewrite elem_of_seq. apply Nat.ltb_ge in E. lia.
  - exact Hwf.
  - apply Forall_forall. intros a Ha. apply elem_of_seq in Ha. lia.
Qed.

Lemma stage_keyblob_keys_keeps ks :
  package1_keys (stage_keyblob_keys ks) = package1_keys ks
  /\ master_keks (stage_keyblob_keys ks) = master_keks ks
  /\ master_keys (stage_keyblob_keys ks) = master_keys ks.
Proof.
  unfold stage_keyblob_keys, for_gen.
  repeat split; apply fold_left_proj; intros; apply derive_body_keeps.
Qed.

Lemma stage_keyblob_fields_package1_keys ks g :
  KeySet_wf ks -> g < KeyGeneration_Max ->
  package1_keys (stage_keyblob_fields ks) !! g
  = if in_gen KeyGeneration_1_0_0 KeyGeneration_6_2_0 g && keyblob_package1_ready ks g
    then Some (keyblob_package1_value ks g) else package1_keys ks !! g.
Proof.
  intros Hwf Hg. unfold stage_keyblob_fields, in_gen.
  apply (for_gen_guarded_insert KeyGeneration_Max KeySet_wf package1_keys); try assumption.
  - apply wf_keyblob_fields_body.
  - intros a Ha. apply wf_length, Ha.
  - intros a i _ _. apply package1_keys_keyblob_fields_body.
  - intros a i i'. symmetry.
    apply (frame_keyblob_fields a (keyblob_fields_body a i') i), frame_keyblob_fields_body.
  - intros a i i'. symmetry.
    apply (frame_keyblob_fields a (keyblob_fields_body a i') i), frame_keyblob_fields_body.
Qed.

Lemma stage_keyblob_fields_master_keks ks g :
  KeySet_wf ks -> g < KeyGeneration_Max ->
  master_keks (stage_keyblob_fields ks) !! g
  = if in_gen KeyGeneration_1_0_0 KeyGeneration_6_2_0 g && keyblob_master_kek_ready ks g
    then Some (keyblob_master_kek_value ks g) else master_keks ks !! g.
Proof.
  intros Hwf Hg. unfold stage_keyblob_fields, in_gen.
  apply (for_gen_guarded_insert KeyGeneration_Max KeySet_wf master_keks); try assumption.
  - apply wf_keyblob_fields_body.
  - intros a Ha. apply wf_length, Ha.
  - intros a i _ _. apply master_keks_keyblob_fields_body.
  - intros a i i'. symmetry.
    apply (frame_keyblob_fields a (keyblob_fields_body a i') i), frame_keyblob_fields_body.
  - intros a i i'. symmetry.
    apply (frame_keyblob_fields a (keyblob_fields_body a i') i), frame_keyblob_fields_body.
Qed.

Lemma stage_keyblob_fields_keeps ks :
  device_key (stage_keyblob_fields ks) = device_key ks
  /\ keyblob_keys (stage_keyblob_fields ks) = keyblob_keys ks
  /\ keyblob_mac_keys (stage_keyblob_fields ks) = keyblob_mac_keys ks
  /\ master_keys (stage_keyblob_fields ks) = master_keys ks.
Proof.
  unfold stage_keyblob_fields, for_gen.
  repeat split; apply fold_left_proj; intros; apply keyblob_fields_body_keeps.
Qed.

Lemma stage_mariko_master_keks ks g :
  KeySet_wf ks -> g < KeyGeneration_Max ->
  master_keks (stage_mariko ks) !! g
  = if in_gen KeyGeneration_1_0_0 KeyGeneration_Max g && mariko_master_kek_ready ks g
    then Some (mariko_master_kek_value ks g) else master_keks ks !! g.
Proof.
  intros Hwf Hg. unfold stage_mariko, in_gen.
  apply (for_gen_guarded_insert KeyGeneration_Max KeySet_wf master_keks); try assumption.
  - apply wf_mariko_master_kek_body.
  - intros a Ha. apply wf_length, Ha.
  - intros a i _ _. apply master_keks_mariko_body.
  - intros a i i'. symmetry.
    apply (frame_mariko a (mariko_master_kek_body a i') i), frame_mariko_master_kek_body.
  - intros a i i'. symmetry.
    apply (frame_mariko a (mariko_master_kek_body a i') i), frame_mariko_master_kek_body.
  - reflexivity.
Qed.

Lemma stage_mariko_keeps ks :
  device_key (stage_mariko ks) = device_key ks
  /\ keyblob_keys (stage_mariko ks) = keyblob_keys ks
  /\ keyblob_mac_keys (stage_mariko ks) = keyblob_mac_keys ks
  /\ package1_keys (stage_mariko ks) = package1_keys ks
  /\ master_keys (stage_mariko ks) = master_keys ks.
Proof.
  unfold stage_mariko, for_gen.
  repeat split; apply fold_left_proj; intros; apply mariko_body_keeps.
Qed.

Lemma stage_master_keys_master_keys ks g :
  KeySet_wf ks -> g < KeyGeneration_Max ->
  master_keys (stage_master_keys ks) !! g
  = if in_gen KeyGeneration_1_0_0 KeyGeneration_Max g && master_key_ready ks g
    then Some (master_key_value ks g) else master_keys ks !! g.
Proof.
  intros Hwf Hg. unfold stage_master_keys, in_gen.
  apply (for_gen_guarded_insert KeyGeneration_Max KeySet_wf master_keys); try assumption.
  - apply wf_master_key_body.
  - intros a Ha. apply wf_length, Ha.
  - intros a i _ _. apply master_keys_master_key_body.
  - intros a i i'. symmetry.
    apply (frame_master_key a (master_key_body a i') i); [apply frame_master_key_body|].
    symmetry. apply master_key_body_keeps.
  - intros a i i'. symmetry.
    apply (frame_master_key a (master_key_body a i') i); [apply frame_master_key_body|].
    symmetry. apply master_key_body_keeps.
  - reflexivity.
Qed.

Lemma stage_master_keys_keeps ks :
  device_key (stage_master_keys ks) = device_key ks
  /\ keyblob_keys (stage_master_keys ks) = keyblob_keys ks
  /\ keyblob_mac_keys (stage_master_keys ks) = keyblob_mac_keys ks
  /\ package1_keys (stage_master_keys ks) = package1_keys ks
  /\ master_keks (stage_master_keys ks) = master_keks ks.
Proof.
  unfold stage_master_keys, for_gen.
  repeat split; apply fold_left_proj; intros; apply master_key_body_keeps.
Qed.

(** Frame and array bounds of the stages and of the whole derivation. *)

Lemma frame_stage_keyblob_keys ks : frame_eq ks (stage_keyblob_keys ks).
Proof. apply frame_for_gen, frame_derive_keyblob_keys_body. Qed.

Lemma frame_stage_keyblob_fields ks : frame_eq ks (stage_keyblob_fields ks).
Proof. apply frame_for_gen, frame_keyblob_fields_body. Qed.

Lemma frame_stage_mariko ks : frame_eq ks (stage_mariko ks).
Proof. apply frame_for_gen, frame_mariko_master_kek_body. Qed.

Lemma frame_stage_master_keys ks : frame_eq ks (stage_master_keys ks).
Proof. apply frame_for_gen, frame_master_key_body. Qed.

Lemma wf_stage_keyblob_keys ks : KeySet_wf ks -> KeySet_wf (stage_keyblob_keys ks).
Proof. apply wf_for_gen, wf_derive_keyblob_keys_body. Qed.

Lemma wf_stage_keyblob_fields ks : KeySet_wf ks -> KeySet_wf (stage_keyblob_fields ks).
Proof. apply wf_for_gen, wf_keyblob_fields_body. Qed.

Lemma wf_stage_mariko ks : KeySet_wf ks -> KeySet_wf (stage_mariko ks).
Proof. apply wf_for_gen, wf_mariko_master_kek_body. Qed.

Lemma wf_stage_master_keys ks : KeySet_wf ks -> KeySet_wf (stage_master_keys ks).
Proof. apply wf_for_gen, wf_master_key_body. Qed.

Lemma frame_DeriveKeys ks : frame_eq ks (DeriveKeys ks).
Proof.
  rewrite DeriveKeys_stages.
  eapply frame_eq_trans; [apply frame_stage_keyblob_keys|].
  eapply frame_eq_trans; [apply frame_stage_keyblob_fields|].
  eapply frame_eq_trans; [apply frame_stage_mariko|].
  apply frame_stage_master_keys.
Qed.

Lemma wf_DeriveKeys ks : KeySet_wf ks -> KeySet_wf (DeriveKeys ks).
Proof.
  intros Hwf. rewrite DeriveKeys_stages.
  apply wf_stage_master_keys, wf_stage_mariko, wf_stage_keyblob_fields,
    wf_stage_keyblob_keys, Hwf.
Qed.


(** *** What [DeriveKeys] leaves in the derived slots *)

Lemma DeriveKeys_keyblob_keys ks g :
  KeySet_wf ks -> g < KeyGeneration_Max ->
  keyblob_keys (DeriveKeys ks) !! g
  = if in_gen KeyGeneration_1_0_0 KeyGeneration_6_2_0 g && keyblob_key_ready ks g
    then Some (keyblob_key_value ks g) else keyblob_keys ks !! g.
Proof.
  intros Hwf Hg. rewrite DeriveKeys_stages.
  rewrite (proj1 (proj2 (stage_master_keys_keeps _))).
  rewrite (proj1 (proj2 (stage_mariko_keeps _))).
  rewrite (proj1 (proj2 (stage_keyblob_fields_keeps _))).
  apply stage_keyblob_keys_keyblob_keys; assumption.
Qed.

Lemma DeriveKeys_keyblob_mac_keys ks g :
  KeySet_wf ks -> g < KeyGeneration_Max ->
  keyblob_mac_keys (DeriveKeys ks) !! g
  = if in_gen KeyGeneration_1_0_0 KeyGeneration_6_2_0 g && keyblob_mac_key_ready ks g
    then Some (keyblob_mac_key_value ks g) else keyblob_mac_keys ks !! g.
Proof.
  intros Hwf Hg. rewrite DeriveKeys_stages.
  rewrite (proj1 (proj2 (proj2 (stage_master_keys_keeps _)))).
  rewrite (proj1 (proj2 (proj2 (stage_mariko_keeps _)))).
  rewrite (proj1 (proj2 (proj2 (stage_keyblob_fields_keeps _)))).
  apply stage_keyblob_keys_keyblob_mac_keys; assumption.
Qed.

Lemma DeriveKeys_device_key ks :
  KeySet_wf ks ->
  device_key (DeriveKeys ks)
  = if (KeyGeneration_1_0_0 <? KeyGeneration_6_2_0)
       && device_key_ready ks KeyGeneration_1_0_0
    then device_key_value ks KeyGeneration_1_0_0 else device_key ks.
Proof.
  intros Hwf. rewrite DeriveKeys_stages.
  rewrite (proj1 (stage_master_keys_keeps _)).
  rewrite (proj1 (stage_mariko_keeps _)).
  rewrite (proj1 (stage_keyblob_fields_keeps _)).
  apply stage_keyblob_keys_device_key; assumption.
Qed.

Lemma DeriveKeys_package1_keys ks g :
  KeySet_wf ks -> g < KeyGeneration_Max ->
  package1_keys (DeriveKeys ks) !! g
  = if in_gen KeyGeneration_1_0_0 KeyGeneration_6_2_0 g && keyblob_package1_ready ks g
    then Some (keyblob_package1_value ks g) else package1_keys ks !! g.
Proof.
  intros Hwf Hg. rewrite DeriveKeys_stages.
  rewrite (proj1 (proj2 (proj2 (proj2 (stage_master_keys_keeps _))))).
  rewrite (proj1 (proj2 (proj2 (proj2 (stage_mariko_keeps _))))).
  rewrite stage_keyblob_fields_package1_keys by auto using wf_stage_keyblob_keys.
  destruct (frame_keyblob_fields ks (stage_keyblob_keys ks) g (frame_stage_keyblob_keys ks))
    as (<- & <- & _).
  rewrite (proj1 (stage_keyblob_keys_keeps ks)). reflexivity.
Qed.

Lemma DeriveKeys_master_keks ks g :
  KeySet_wf ks -> g < KeyGeneration_Max ->
  master_keks (DeriveKeys ks) !! g
  = if in_gen KeyGeneration_1_0_0 KeyGeneration_Max g && mariko_master_kek_ready ks g
    then Some (mariko_master_kek_value ks g)
    else if in_gen KeyGeneration_1_0_0 KeyGeneration_6_2_0 g && keyblob_master_kek_ready ks g
    then Some (keyblob_master_kek_value ks g) else master_keks ks !! g.
Proof.
  intros Hwf Hg. rewrite DeriveKeys_stages.
  rewrite (proj2 (proj2 (proj2 (proj2 (stage_master_keys_keeps _))))).
  rewrite stage_mariko_master_keks
    by auto using wf_stage_keyblob_keys, wf_stage_keyblob_fields.
  rewrite stage_keyblob_fields_master_keks by auto using wf_stage_keyblob_keys.
  pose proof (frame_stage_keyblob_keys ks) as F1.
  pose proof (frame_eq_trans _ _ _ F1 (frame_stage_keyblob_fields _)) as F3.
  destruct (frame_mariko _ _ g F3) as (<- & <-).
  destruct (frame_keyblob_fields _ _ g F1) as (_ & _ & <- & <-).
  rewrite (proj1 (proj2 (stage_keyblob_keys_keeps ks))). reflexivity.
Qed.

Lemma DeriveKeys_master_keys ks g :
  KeySet_wf ks -> g < KeyGeneration_Max ->
  master_keys (DeriveKeys ks) !! g
  = if in_gen KeyGeneration_1_0_0 KeyGeneration_Max g && master_key_ready (DeriveKeys ks) g
    then Some (master_key_value (DeriveKeys ks) g) else master_keys ks !! g.
Proof.
  intros Hwf Hg. rewrite DeriveKeys_stages.
  rewrite stage_master_keys_master_keys
    by auto using wf_stage_keyblob_keys, wf_stage_keyblob_fields, wf_stage_mariko.
  match goal with |- context [stage_master_keys ?s] =>
    destruct (frame_master_key s (stage_master_keys s) g (frame_stage_master_keys s)) as (<- & <-)
  end.
  { symmetry. apply stage_master_keys_keeps. }
  rewrite (proj2 (proj2 (proj2 (proj2 (stage_mariko_keeps _))))).
  rewrite (proj2 (proj2 (proj2 (stage_keyblob_fields_keeps _)))).
  rewrite (proj2 (proj2 (stage_keyblob_keys_keeps ks))). reflexivity.
Qed.

Lemma in_gen_true lo hi g : lo <= g < hi -> in_gen lo hi g = true.
Proof.
  intros [H1 H2]. unfold in_gen. apply andb_true_iff. split.
  - apply Nat.leb_le, H1.
  - apply Nat.ltb_lt, H2.
Qed.

Lemma list_eq_bounded (n : nat) (l1 l2 : list (list Z)) :
  length l1 = n -> length l2 = n -> (forall g, g < n -> l1 !! g = l2 !! g) -> l1 = l2.
Proof.
  intros H1 H2 H. apply list_eq. intros g.
  destruct (decide (g < n)) as [Hg|Hg]; [apply H, Hg|].
  rewrite !lookup_ge_None_2 by lia. reflexivity.
Qed.

Lemma KeySet_eq (a b : KeySet) :
  frame_eq a b ->
  device_key a = device_key b -> keyblob_keys a = keyblob_keys b ->
  keyblob_mac_keys a = keyblob_mac_keys b -> package1_keys a = package1_keys b ->
  master_keks a = master_keks b -> master_keys a = master_keys b ->
  a = b.
Proof.
  destruct a, b. unfold frame_eq. simpl. intros. destruct_and!. subst. reflexivity.
Qed.

(** *** The properties of [DeriveKeys] *)

(** C1 (stage S1).  For a generation in [[KeyGeneration_1_0_0,
    KeyGeneration_6_2_0)] whose [secure_boot_key], [tsec_key] and
    [keyblob_key_sources[gen]] are all non-zero, [DeriveKeys] leaves in
    [keyblob_keys[gen]] the source decrypted under [tsec_key] first and
    under [secure_boot_key] second. *)
Theorem DeriveKeys_keyblob_key_double_decrypt (ks : KeySet) (gen : nat) :
  KeySet_wf ks ->
  KeyGeneration_1_0_0 <= gen < KeyGeneration_6_2_0 ->
  IsZero (secure_boot_key ks) = false ->
  IsZero (tsec_key ks) = false ->
  IsZero (slot (keyblob_key_sources ks) gen) = false ->
  slot (keyblob_keys (DeriveKeys ks)) gen
  = DecryptBlock (secure_boot_key ks)
      (DecryptBlock (tsec_key ks) (slot (keyblob_key_sources ks) gen)).
Proof.
  intros Hwf Hgen Hsbk Htsec Hsrc. apply slot_lookup.
  rewrite DeriveKeys_keyblob_keys by (assumption || lia).
  rewrite in_gen_true by assumption.
  unfold keyblob_key_ready. rewrite Hsbk, Htsec, Hsrc. reflexivity.
Qed.

(** C2 (stage S7 after S5).  For every generation whose [mariko_kek]
    and [mariko_master_kek_sources[gen]] are both non-zero, after
    [DeriveKeys] the slot [master_keks[gen]] holds the Mariko value,
    whatever the keyblob of that generation holds. *)
Theorem DeriveKeys_master_kek_mariko (ks : KeySet) (gen : nat) :
  KeySet_wf ks ->
  KeyGeneration_1_0_0 <= gen < KeyGeneration_Max ->
  IsZero (mariko_kek ks) = false ->
  IsZero (slot (mariko_master_kek_sources ks) gen) = false ->
  slot (master_keks (DeriveKeys ks)) gen
  = DecryptBlock (mariko_kek ks) (slot (mariko_master_kek_sources ks) gen).
Proof.
  intros Hwf Hgen Hkek Hsrc. apply slot_lookup.
  rewrite DeriveKeys_master_keks by (assumption || lia).
  rewrite in_gen_true by assumption.
  unfold mariko_master_kek_ready. rewrite Hkek, Hsrc. reflexivity.
Qed.

(** C6, as the code has it (stage S2).  For a generation in
    [[KeyGeneration_1_0_0, KeyGeneration_6_2_0)], [keyblob_mac_keys[gen]]
    becomes [keyblob_mac_key_source] decrypted under the derived
    [keyblob_keys[gen]] when [secure_boot_key], [tsec_key],
    [keyblob_key_sources[gen]] and [keyblob_mac_key_source] are all
    non-zero; when any of the four is zero the slot keeps its content. *)
Theorem DeriveKeys_keyblob_mac_key (ks : KeySet) (gen : nat) :
  KeySet_wf ks ->
  KeyGeneration_1_0_0 <= gen < KeyGeneration_6_2_0 ->
  slot (keyblob_mac_keys (DeriveKeys ks)) gen
  = if negb (IsZero (secure_boot_key ks)) && negb (IsZero (tsec_key ks))
       && negb (IsZero (slot (keyblob_key_sources ks) gen))
       && negb (IsZero (keyblob_mac_key_source ks))
    then DecryptBlock (slot (keyblob_keys (DeriveKeys ks)) gen) (keyblob_mac_key_source ks)
    else slot (keyblob_mac_keys ks) gen.
Proof.
  intros Hwf Hgen. apply slot_lookup.
  rewrite DeriveKeys_keyblob_mac_keys by (assumption || lia).
  rewrite in_gen_true by assumption. simpl.
  change (negb (IsZero (secure_boot_key ks)) && negb (IsZero (tsec_key ks))
          && negb (IsZero (slot (keyblob_key_sources ks) gen))
          && negb (IsZero (keyblob_mac_key_source ks)))
    with (keyblob_mac_key_ready ks gen).
  destruct (keyblob_mac_key_ready ks gen) eqn:E.
  - unfold keyblob_mac_key_value. f_equal. f_equal. symmetry. apply slot_lookup.
    rewrite DeriveKeys_keyblob_keys by (assumption || lia).
    rewrite in_gen_true by assumption.
    unfold keyblob_mac_key_ready in E. apply andb_true_iff in E as [-> _]. reflexivity.
  - apply lookup_slot. apply wf_length in Hwf. destruct_and!. lia.
Qed.

(** C7.  When [master_key_source] is all-zero, [DeriveKeys] leaves
    every [master_keys] slot as it was. *)
Theorem DeriveKeys_master_keys_unset (ks : KeySet) :
  IsZero (master_key_source ks) = true ->
  master_keys (DeriveKeys ks) = master_keys ks.
Proof.
  intros Hz. rewrite DeriveKeys_stages.
  set (s := stage_mariko (stage_keyblob_fields (stage_keyblob_keys ks))).
  assert (Hs : master_key_source s = master_key_source ks).
  { pose proof (frame_stage_keyblob_keys ks) as F1.
    pose proof (frame_eq_trans _ _ _ F1 (frame_stage_keyblob_fields _)) as F3.
    pose proof (frame_eq_trans _ _ _ F3 (frame_stage_mariko _)) as F5.
    unfold frame_eq in F5. destruct_and!. symmetry. assumption. }
  assert (Hid : stage_master_keys s = s).
  { unfold stage_master_keys, for_gen.
    apply (fold_left_invariant (fun a => a = s)); [|reflexivity].
    intros a g ->. unfold master_key_body. rewrite Hs, Hz. reflexivity. }
  rewrite Hid. unfold s.
  rewrite (proj2 (proj2 (proj2 (proj2 (stage_mariko_keeps _))))).
  rewrite (proj2 (proj2 (proj2 (stage_keyblob_fields_keeps _)))).
  apply stage_keyblob_keys_keeps.
Qed.

(** C8.  Running [DeriveKeys] on its own result changes nothing. *)
Theorem DeriveKeys_idempotent (ks : KeySet) :
  KeySet_wf ks -> DeriveKeys (DeriveKeys ks) = DeriveKeys ks.
Proof.
  intros Hwf. pose proof (wf_DeriveKeys ks Hwf) as Hwf1.
  pose proof (wf_DeriveKeys _ Hwf1) as Hwf2.
  pose proof (frame_DeriveKeys ks) as F.
  pose proof (frame_DeriveKeys (DeriveKeys ks)) as F'.
  pose proof (wf_length _ Hwf1) as (L1 & L2 & L3 & L4 & L5).
  pose proof (wf_length _ Hwf2) as (M1 & M2 & M3 & M4 & M5).
  assert (Hmk : master_keks (DeriveKeys (DeriveKeys ks)) = master_keks (DeriveKeys ks)).
  { apply (list_eq_bounded KeyGeneration_Max); try assumption. intros g Hg.
    rewrite (DeriveKeys_master_keks (DeriveKeys ks)) by assumption.
    destruct (frame_mariko _ _ g F) as (<- & <-).
    destruct (frame_keyblob_fields _ _ g F) as (_ & _ & <- & <-).
    rewrite (DeriveKeys_master_keks ks) by assumption.
    repeat case_match; reflexivity. }
  symmetry. apply KeySet_eq; try assumption.
  - rewrite (DeriveKeys_device_key (DeriveKeys ks)) by assumption.
    destruct (frame_keyblob_key _ _ KeyGeneration_1_0_0 F) as (_ & _ & _ & _ & <- & <-).
    rewrite (DeriveKeys_device_key ks) by assumption.
    repeat case_match; reflexivity.
  - apply (list_eq_bounded KeyGeneration_Max); try assumption. intros g Hg.
    rewrite (DeriveKeys_keyblob_keys (DeriveKeys ks)) by assumption.
    destruct (frame_keyblob_key _ _ g F) as (<- & <- & _).
    rewrite (DeriveKeys_keyblob_keys ks) by assumption.
    repeat case_match; reflexivity.
  - apply (list_eq_bounded KeyGeneration_Max); try assumption. intros g Hg.
    rewrite (DeriveKeys_keyblob_mac_keys (DeriveKeys ks)) by assumption.
    destruct (frame_keyblob_key _ _ g F) as (_ & _ & <- & <- & _).
    rewrite (DeriveKeys_keyblob_mac_keys ks) by assumption.
    repeat case_match; reflexivity.
  - apply (list_eq_bounded KeyGeneration_Max); try assumption. intros g Hg.
    rewrite (DeriveKeys_package1_keys (DeriveKeys ks)) by assumption.
    destruct (frame_keyblob_fields _ _ g F) as (<- & <- & _).
    rewrite (DeriveKeys_package1_keys ks) by assumption.
    repeat case_match; reflexivity.
  - symmetry. exact Hmk.
  - apply (list_eq_bounded KeyGeneration_Max); try assumption. intros g Hg.
    rewrite (DeriveKeys_master_keys (DeriveKeys ks)) by assumption.
    destruct (frame_master_key _ _ g F' (eq_sym Hmk)) as (<- & <-).
    rewrite (DeriveKeys_master_keys ks) by assumption.
    repeat case_match; reflexivity.
Qed.

(** C9.  [DeriveKeys] assigns only [device_key], [keyblob_keys],
    [keyblob_mac_keys], [package1_keys], [master_keks] and [master_keys]:
    every other field of the key set is the same before and after. *)
Theorem DeriveKeys_frame (ks : KeySet) :
  secure_boot_key (DeriveKeys ks) = secure_boot_key ks
  /\ tsec_key (DeriveKeys ks) = tsec_key ks
  /\ encrypted_keyblobs (DeriveKeys ks) = encrypted_keyblobs ks
  /\ mariko_aes_class_keys (DeriveKeys ks) = mariko_aes_class_keys ks
  /\ mariko_kek (DeriveKeys ks) = mariko_kek ks
  /\ mariko_bek (DeriveKeys ks) = mariko_bek ks
  /\ keyblobs (DeriveKeys ks) = keyblobs ks
  /\ keyblob_key_sources (DeriveKeys ks) = keyblob_key_sources ks
  /\ keyblob_mac_key_source (DeriveKeys ks) = keyblob_mac_key_source ks
  /\ tsec_root_kek (DeriveKeys ks) = tsec_root_kek ks
  /\ package1_mac_kek (DeriveKeys ks) = package1_mac_kek ks
  /\ package1_kek (DeriveKeys ks) = package1_kek ks
  /\ tsec_auth_signatures (DeriveKeys ks) = tsec_auth_signatures ks
  /\ tsec_root_keys (DeriveKeys ks) = tsec_root_keys ks
  /\ master_kek_sources (DeriveKeys ks) = master_kek_sources ks
  /\ mariko_master_kek_sources (DeriveKeys ks) = mariko_master_kek_sources ks
  /\ master_key_source (DeriveKeys ks) = master_key_source ks
  /\ package1_mac_keys (DeriveKeys ks) = package1_mac_keys ks
  /\ package2_keys (DeriveKeys ks) = package2_keys ks
  /\ package2_key_source (DeriveKeys ks) = package2_key_source ks
  /\ per_console_key_source (DeriveKeys ks) = per_console_key_source ks
  /\ aes_kek_generation_source (DeriveKeys ks) = aes_kek_generation_source ks
  /\ aes_key_generation_source (DeriveKeys ks) = aes_key_generation_source ks
  /\ key_area_key_application_source (DeriveKeys ks) = key_area_key_application_source ks
  /\ key_area_key_ocean_source (DeriveKeys ks) = key_area_key_ocean_source ks
  /\ key_area_key_system_source (DeriveKeys ks) = key_area_key_system_source ks
  /\ titlekek_source (DeriveKeys ks) = titlekek_source ks
  /\ header_kek_source (DeriveKeys ks) = header_kek_source ks
  /\ sd_card_kek_source (DeriveKeys ks) = sd_card_kek_source ks
  /\ sd_card_nca_key_source (DeriveKeys ks) = sd_card_nca_key_source ks
  /\ sd_card_save_key_source (DeriveKeys ks) = sd_card_save_key_source ks
  /\ save_mac_kek_source (DeriveKeys ks) = save_mac_kek_source ks
  /\ save_mac_key_source (DeriveKeys ks) = save_mac_key_source ks
  /\ header_key_source (DeriveKeys ks) = header_key_source ks
  /\ header_key (DeriveKeys ks) = header_key ks
  /\ titlekeks (DeriveKeys ks) = titlekeks ks
  /\ key_area_keys (DeriveKeys ks) = key_area_keys ks
  /\ xci_header_key (DeriveKeys ks) = xci_header_key ks
  /\ save_mac_key (DeriveKeys ks) = save_mac_key ks
  /\ sd_card_keys (DeriveKeys ks) = sd_card_keys ks
  /\ nca_hdr_fixed_key_moduli (DeriveKeys ks) = nca_hdr_fixed_key_moduli ks
  /\ acid_fixed_key_moduli (DeriveKeys ks) = acid_fixed_key_moduli ks
  /\ package2_fixed_key_modulus (DeriveKeys ks) = package2_fixed_key_modulus ks.
Proof.
  pose proof (frame_DeriveKeys ks) as F. unfold frame_eq in F.
  destruct_and!. repeat split; symmetry; assumption.
Qed.

End Stages.

End Derivation.

(** ** Properties of the parser *)

(** *** The scans move forward and keep the size of the buffer *)

Lemma scan_key_ends (n : nat) :
  forall buf kend buf' kend',
    scan_key n buf kend = KeyEnds buf' kend' ->
    kend <= kend' <= kend + n /\ length buf' = length buf.
Proof.
  induction n as [|n IH]; intros buf kend buf' kend' H; simpl in H.
  - inversion H; subst. split; [lia|reflexivity].
  - destruct (buf !! kend) as [c|]; [|discriminate].
    destruct (is_key_end c); [inversion H; subst; split; [lia|reflexivity]|].
    destruct (Ascii.eqb c NUL); [discriminate|].
    destruct (between "A" "Z" c).
    + apply IH in H as [H1 H2]. rewrite length_insert in H2. split; [lia|exact H2].
    + destruct (not_key_char c).
      * destruct (S kend <? length buf); discriminate.
      * apply IH in H as [H1 H2]. split; [lia|exact H2].
Qed.

Lemma scan_key_length (n : nat) :
  forall buf kend,
    match scan_key n buf kend with
    | KeyEnds buf' _ | KeyMalformed buf' | KeyOutOfBounds buf' => length buf' = length buf
    end.
Proof.
  induction n as [|n IH]; intros buf kend; simpl; [reflexivity|].
  destruct (buf !! kend) as [c|]; [|reflexivity].
  destruct (is_key_end c); [reflexivity|].
  destruct (Ascii.eqb c NUL); [reflexivity|].
  destruct (between "A" "Z" c).
  - specialize (IH (<[kend := fold_upper c]> buf) (S kend)).
    destruct (scan_key n _ _); rewrite IH; apply length_insert.
  - destruct (not_key_char c); [|apply IH].
    destruct (S kend <? length buf); [apply length_insert|reflexivity].
Qed.

Lemma skip_blanks_bounds (n : nat) :
  forall buf ofs ofs', skip_blanks n buf ofs = Some ofs' -> ofs <= ofs' <= ofs + n.
Proof.
  induction n as [|n IH]; intros buf ofs ofs' H; simpl in H.
  - inversion H; subst. lia.
  - destruct (buf !! ofs) as [c|]; [|discriminate].
    destruct (is_blank c); [apply IH in H; lia|inversion H; subst; lia].
Qed.

Lemma scan_value_bounds (n : nat) :
  forall buf vend buf' vend',
    scan_value n buf vend = Some (buf', vend') ->
    vend <= vend' <= vend + n /\ length buf' = length buf.
Proof.
  induction n as [|n IH]; intros buf vend buf' vend' H; simpl in H.
  - inversion H; subst. split; [lia|reflexivity].
  - destruct (buf !! vend) as [c|]; [|discriminate].
    destruct (is_value_end c).
    + inversion H; subst. split; [lia|apply length_insert].
    + apply IH in H as [H1 H2]. split; [lia|exact H2].
Qed.

Section ParserProgress.

Variable St : Type.
Variable f : cptr -> cptr -> World St -> option (World St).

Lemma parse_value_progress file_size buf key ofs w buf' ofs' w' :
  parse_value St f file_size buf key ofs w = Continue St buf' ofs' w' ->
  ofs <= file_size ->
  ofs <= ofs' <= file_size /\ length buf' = length buf.
Proof.
  unfold parse_value. intros H Hofs.
  destruct (buf !! key) as [k0|]; [|discriminate].
  destruct (Ascii.eqb k0 NUL); [discriminate|].
  destruct (skip_blanks (file_size - ofs) buf ofs) as [o|] eqn:Hs; [|discriminate].
  apply skip_blanks_bounds in Hs.
  destruct (o =? file_size); [discriminate|].
  destruct (scan_value (file_size - o) buf o) as [[b v]|] eqn:Hv; [|discriminate].
  apply scan_value_bounds in Hv as [Hv1 Hv2].
  destruct (ProcessKeyValue St f (drop key b) (drop o b) w); [|discriminate].
  inversion H; subst. split; [lia|exact Hv2].
Qed.

Lemma parse_turn_progress file_size buf ofs w buf' ofs' w' :
  parse_turn St f file_size buf ofs w = Continue St buf' ofs' w' ->
  ofs < file_size ->
  ofs < ofs' <= file_size /\ length buf' = length buf.
Proof.
  unfold parse_turn. intros H Hofs.
  destruct (buf !! ofs) as [c|]; [|discriminate].
  destruct (is_filler c); [inversion H; subst; split; [lia|reflexivity]|].
  destruct (scan_key (file_size - ofs) buf ofs) as [b kend|b|b] eqn:Hk; try discriminate.
  apply scan_key_ends in Hk as [Hk1 Hk2].
  destruct (kend =? file_size) eqn:Hend.
  { destruct (kend <? length b); discriminate. }
  apply Nat.eqb_neq in Hend.
  destruct (b !! kend) as [d|]; [|discriminate].
  destruct (is_delimiter d).
  - apply parse_value_progress in H; [|lia].
    rewrite length_insert in H. split; [lia|]. destruct H as [_ ->]. exact Hk2.
  - destruct (skip_blanks (file_size - S kend) (<[kend := NUL]> b) (S kend)) as [o|] eqn:Hs;
      [|discriminate].
    apply skip_blanks_bounds in Hs.
    destruct (o =? file_size) eqn:Ho; [discriminate|]. apply Nat.eqb_neq in Ho.
    destruct (<[kend := NUL]> b !! o) as [d'|]; [|discriminate].
    destruct (negb (is_delimiter d')); [discriminate|].
    apply parse_value_progress in H; [|lia].
    rewrite !length_insert in H. split; [lia|]. destruct H as [_ ->]. exact Hk2.
Qed.

(** With at least [file_size - ofs] turns allowed the loop never stops
    for want of turns, and the number allowed does not matter. *)
Lemma parse_loop_fuel (fuel : nat) :
  forall file_size buf ofs w,
    file_size - ofs <= fuel ->
    parsed_exit (parse_loop St f fuel file_size buf ofs w) <> OutOfFuel.
Proof.
  induction fuel as [|fuel IH]; intros file_size buf ofs w Hfuel; simpl.
  - destruct (ofs <? file_size) eqn:E; [|discriminate].
    apply Nat.ltb_lt in E. lia.
  - destruct (ofs <? file_size) eqn:E; [|discriminate]. apply Nat.ltb_lt in E.
    destruct (parse_turn St f file_size buf ofs w) as [b o w'|r] eqn:Ht.
    + apply parse_turn_progress in Ht as [Ht _]; [|exact E]. apply IH. lia.
    + revert Ht. unfold parse_turn, parse_value.
      repeat (case_match; try discriminate); intros Ht; inversion Ht; subst; simpl; discriminate.
Qed.

Lemma parse_loop_fuel_irrelevant (fuel1 : nat) :
  forall fuel2 file_size buf ofs w,
    file_size - ofs <= fuel1 -> file_size - ofs <= fuel2 ->
    parse_loop St f fuel1 file_size buf ofs w = parse_loop St f fuel2 file_size buf ofs w.
Proof.
  induction fuel1 as [|fuel1 IH]; intros fuel2 file_size buf ofs w H1 H2.
  - destruct fuel2; simpl; [reflexivity|].
    destruct (ofs <? file_size) eqn:E; [|reflexivity]. apply Nat.ltb_lt in E. lia.
  - destruct fuel2; simpl.
    + destruct (ofs <? file_size) eqn:E; [|reflexivity]. apply Nat.ltb_lt in E. lia.
    + destruct (ofs <? file_size) eqn:E; [|reflexivity]. apply Nat.ltb_lt in E.
      destruct (parse_turn St f file_size buf ofs w) as [b o w'|r] eqn:Ht; [|reflexivity].
      apply parse_turn_progress in Ht as [Ht _]; [|exact E]. apply IH; lia.
Qed.

Lemma ProcessKeyValueFile_fuel buf file_size w :
  parsed_exit (ProcessKeyValueFile St f buf file_size w) <> OutOfFuel.
Proof. unfold ProcessKeyValueFile. apply parse_loop_fuel. lia. Qed.

End ParserProgress.

(** *** The parser looks at the buffer from its offset on only *)

Lemma lookup_app_plus (pre buf : list ascii) (i : nat) :
  (pre ++ buf) !! (length pre + i) = buf !! i.
Proof. rewrite lookup_app_r by lia. f_equal. lia. Qed.

Lemma scan_key_shift (pre : list ascii) (n : nat) :
  forall buf kend,
    scan_key n (pre ++ buf) (length pre + kend) = shift_keyscan pre (scan_key n buf kend).
Proof.
  induction n as [|n IH]; intros buf kend; simpl; [reflexivity|].
  rewrite lookup_app_plus.
  destruct (buf !! kend) as [c|]; [|reflexivity].
  destruct (is_key_end c); [reflexivity|].
  destruct (Ascii.eqb c NUL); [reflexivity|].
  destruct (between "A" "Z" c).
  - rewrite insert_app_r, <- Nat.add_succ_r. apply IH.
  - destruct (not_key_char c).
    + rewrite length_app.
      assert ((S (length pre + kend) <? length pre + length buf) = (S kend <? length buf)) as ->.
      { destruct (S kend <? length buf) eqn:E.
        - apply Nat.ltb_lt. apply Nat.ltb_lt in E. lia.
        - apply Nat.ltb_ge. apply Nat.ltb_ge in E. lia. }
      destruct (S kend <? length buf); [|reflexivity].
      rewrite <- Nat.add_succ_r, insert_app_r. reflexivity.
    + rewrite <- Nat.add_succ_r. apply IH.
Qed.

Lemma skip_blanks_shift (pre : list ascii) (n : nat) :
  forall buf ofs,
    skip_blanks n (pre ++ buf) (length pre + ofs)
    = (fun o => length pre + o) <$> skip_blanks n buf ofs.
Proof.
  induction n as [|n IH]; intros buf ofs; simpl; [reflexivity|].
  rewrite lookup_app_plus.
  destruct (buf !! ofs) as [c|]; [|reflexivity].
  destruct (is_blank c); [|reflexivity].
  rewrite <- Nat.add_succ_r. apply IH.
Qed.

Lemma scan_value_shift (pre : list ascii) (n : nat) :
  forall buf vend,
    scan_value n (pre ++ buf) (length pre + vend)
    = (fun r => (pre ++ fst r, length pre + snd r)) <$> scan_value n buf vend.
Proof.
  induction n as [|n IH]; intros buf vend; simpl; [reflexivity|].
  rewrite lookup_app_plus.
  destruct (buf !! vend) as [c|]; [|reflexivity].
  destruct (is_value_end c).
  - rewrite insert_app_r. reflexivity.
  - rewrite <- Nat.add_succ_r. apply IH.
Qed.

Lemma eqb_shift (p a b : nat) : (p + a =? p + b) = (a =? b).
Proof.
  destruct (a =? b) eqn:E.
  - apply Nat.eqb_eq in E. apply Nat.eqb_eq. lia.
  - apply Nat.eqb_neq in E. apply Nat.eqb_neq. lia.
Qed.

Lemma ltb_shift (p a b : nat) : (p + a <? p + b) = (a <? b).
Proof.
  destruct (a <? b) eqn:E.
  - apply Nat.ltb_lt in E. apply Nat.ltb_lt. lia.
  - apply Nat.ltb_ge in E. apply Nat.ltb_ge. lia.
Qed.

Section ParserShift.

Variable St : Type.
Variable f : cptr -> cptr -> World St -> option (World St).

Lemma parse_value_shift (pre : list ascii) file_size buf key ofs w :
  parse_value St f (length pre + file_size) (pre ++ buf) (length pre + key)
    (length pre + ofs) w
  = shift_turn pre (parse_value St f file_size buf key ofs w).
Proof.
  unfold parse_value. rewrite lookup_app_plus.
  destruct (buf !! key) as [k0|]; [|reflexivity].
  destruct (Ascii.eqb k0 NUL); [reflexivity|].
  replace (length pre + file_size - (length pre + ofs)) with (file_size - ofs) by lia.
  rewrite skip_blanks_shift.
  destruct (skip_blanks (file_size - ofs) buf ofs) as [o|]; simpl; [|reflexivity].
  rewrite eqb_shift. destruct (o =? file_size); [reflexivity|].
  replace (length pre + file_size - (length pre + o)) with (file_size - o) by lia.
  rewrite scan_value_shift.
  destruct (scan_value (file_size - o) buf o) as [[b v]|]; simpl; [|reflexivity].
  rewrite !drop_app_add.
  destruct (ProcessKeyValue St f (drop key b) (drop o b) w); reflexivity.
Qed.

Lemma parse_turn_shift (pre : list ascii) file_size buf ofs w :
  parse_turn St f (length pre + file_size) (pre ++ buf) (length pre + ofs) w
  = shift_turn pre (parse_turn St f file_size buf ofs w).
Proof.
  unfold parse_turn. rewrite lookup_app_plus.
  destruct (buf !! ofs) as [c|]; [|reflexivity].
  destruct (is_filler c); [simpl; rewrite Nat.add_succ_r; reflexivity|].
  replace (length pre + file_size - (length pre + ofs)) with (file_size - ofs) by lia.
  rewrite scan_key_shift.
  destruct (scan_key (file_size - ofs) buf ofs) as [b kend|b|b]; simpl; try reflexivity.
  rewrite eqb_shift. destruct (kend =? file_size).
  { rewrite length_app, ltb_shift.
    destruct (kend <? length b); [|reflexivity].
    simpl. unfold shift_parsed. simpl. rewrite insert_app_r. reflexivity. }
  rewrite lookup_app_plus.
  destruct (b !! kend) as [d|]; [|reflexivity].
  destruct (is_delimiter d).
  - rewrite insert_app_r, <- Nat.add_succ_r. apply parse_value_shift.
  - rewrite insert_app_r, <- Nat.add_succ_r.
    replace (length pre + file_size - (length pre + S kend)) with (file_size - S kend) by lia.
    rewrite skip_blanks_shift.
    destruct (skip_blanks (file_size - S kend) (<[kend := NUL]> b) (S kend)) as [o|];
      simpl; [|reflexivity].
    rewrite eqb_shift. destruct (o =? file_size); [reflexivity|].
    rewrite lookup_app_plus.
    destruct (<[kend := NUL]> b !! o) as [d'|]; [|reflexivity].
    destruct (negb (is_delimiter d')); [reflexivity|].
    rewrite insert_app_r, <- Nat.add_succ_r. apply parse_value_shift.
Qed.

Lemma parse_loop_shift (pre : list ascii) (fuel : nat) :
  forall file_size buf ofs w,
    parse_loop St f fuel (length pre + file_size) (pre ++ buf) (length pre + ofs) w
    = shift_parsed pre (parse_loop St f fuel file_size buf ofs w).
Proof.
  induction fuel as [|fuel IH]; intros file_size buf ofs w; simpl.
  - rewrite ltb_shift. reflexivity.
  - rewrite ltb_shift. destruct (ofs <? file_size); [|reflexivity].
    rewrite parse_turn_shift.
    destruct (parse_turn St f file_size buf ofs w) as [b o w'|r]; simpl; [apply IH|reflexivity].
Qed.

End ParserShift.

(** *** Character classes *)

Ltac ascii_cases c := destruct c as [[] [] [] [] [] [] [] []]; vm_compute.

Lemma key_char_facts (c : ascii) :
  key_char c = true ->
  is_filler c = false /\ is_key_end c = false /\ Ascii.eqb c NUL = false
  /\ (between "A" "Z" c = false -> not_key_char c = false)
  /\ Ascii.eqb (to_lower c) NUL = false
  /\ key_char (to_lower c) = true.
Proof. ascii_cases c; intros H; try discriminate H; repeat split; intros; congruence. Qed.

Lemma not_key_char_facts (c : ascii) :
  key_char c = false -> is_key_end c = false ->
  between "A" "Z" c = false /\ (Ascii.eqb c NUL = false -> not_key_char c = true).
Proof. ascii_cases c; intros H H'; try discriminate; split; intros; congruence. Qed.

Lemma value_char_facts (c : ascii) :
  value_char c = true ->
  is_blank c = false /\ is_value_end c = false /\ Ascii.eqb c NUL = false.
Proof. ascii_cases c; intros H; try discriminate H; repeat split. Qed.

Lemma is_delimiter_key_end (c : ascii) : is_delimiter c = true -> is_key_end c = true.
Proof. ascii_cases c; intros H; try discriminate H; reflexivity. Qed.

(** *** C strings inside a buffer *)

Lemma strlen_app (s rest : list ascii) :
  forallb (fun c => negb (Ascii.eqb c NUL)) s = true ->
  strlen (s ++ NUL :: rest) = Some (length s).
Proof.
  induction s as [|c s IH]; simpl; intros H; [reflexivity|].
  apply andb_true_iff in H as [Hc Hs]. apply negb_true_iff in Hc. rewrite Hc.
  rewrite IH by exact Hs. reflexivity.
Qed.

Lemma c_str_app (s rest : list ascii) :
  forallb (fun c => negb (Ascii.eqb c NUL)) s = true ->
  c_str (s ++ NUL :: rest) = s.
Proof.
  induction s as [|c s IH]; simpl; intros H; [reflexivity|].
  apply andb_true_iff in H as [Hc Hs]. apply negb_true_iff in Hc. rewrite Hc.
  rewrite IH by exact Hs. reflexivity.
Qed.

Lemma forallb_impl {A : Type} (p q : A -> bool) (l : list A) :
  (forall x, p x = true -> q x = true) -> forallb p l = true -> forallb q l = true.
Proof.
  intros Hpq. induction l as [|x l IH]; simpl; [reflexivity|].
  intros H. apply andb_true_iff in H as [Hx Hl]. rewrite (Hpq x Hx), (IH Hl). reflexivity.
Qed.

(** *** The scans on a well-formed key and value *)

Lemma scan_key_key (k : list ascii) :
  forall n c tail,
    forallb key_char k = true -> is_key_end c = true -> length k < n ->
    scan_key n (k ++ c :: tail) 0 = KeyEnds (map to_lower k ++ c :: tail) (length k).
Proof.
  induction k as [|a k IH]; intros n c tail Hk Hc Hn; simpl in *.
  - destruct n; [lia|]. simpl. rewrite Hc. reflexivity.
  - destruct n; [lia|]. simpl.
    apply andb_true_iff in Hk as [Ha Hk].
    destruct (key_char_facts a Ha) as (_ & -> & -> & Hl & _).
    unfold to_lower. destruct (between "A" "Z" a).
    + change (scan_key n ([fold_upper a] ++ (k ++ c :: tail)) (length [fold_upper a] + 0)
              = KeyEnds (fold_upper a :: map to_lower k ++ c :: tail) (S (length k))).
      rewrite scan_key_shift, IH by (assumption || lia). reflexivity.
    + rewrite Hl by reflexivity.
      change (scan_key n ([a] ++ (k ++ c :: tail)) (length [a] + 0)
              = KeyEnds (a :: map to_lower k ++ c :: tail) (S (length k))).
      rewrite scan_key_shift, IH by (assumption || lia). reflexivity.
Qed.

Lemma scan_key_bad (k : list ascii) :
  forall n c tail,
    forallb key_char k = true -> key_char c = false -> is_key_end c = false ->
    length k < n ->
    match scan_key n (k ++ c :: tail) 0 with
    | KeyEnds _ _ => False
    | KeyMalformed _ | KeyOutOfBounds _ => True
    end.
Proof.
  induction k as [|a k IH]; intros n c tail Hk Hc Hc' Hn; simpl in *.
  - destruct n; [lia|]. simpl. rewrite Hc'.
    destruct (not_key_char_facts c Hc Hc') as (-> & Hbad).
    destruct (Ascii.eqb c NUL); [exact I|]. rewrite Hbad by reflexivity.
    destruct (1 <? _); exact I.
  - destruct n; [lia|]. simpl.
    apply andb_true_iff in Hk as [Ha Hk].
    destruct (key_char_facts a Ha) as (_ & -> & -> & Hl & _).
    destruct (between "A" "Z" a).
    + change (match scan_key n ([fold_upper a] ++ (k ++ c :: tail)) (length [fold_upper a] + 0)
              with KeyEnds _ _ => False | _ => True end).
      rewrite scan_key_shift. specialize (IH n c tail Hk Hc Hc' ltac:(lia)).
      destruct (scan_key n (k ++ c :: tail) 0); [contradiction|exact I|exact I].
    + rewrite Hl by reflexivity.
      change (match scan_key n ([a] ++ (k ++ c :: tail)) (length [a] + 0)
              with KeyEnds _ _ => False | _ => True end).
      rewrite scan_key_shift. specialize (IH n c tail Hk Hc Hc' ltac:(lia)).
      destruct (scan_key n (k ++ c :: tail) 0); [contradiction|exact I|exact I].
Qed.

Lemma scan_value_value (v : list ascii) :
  forall n t rest,
    forallb value_char v = true -> is_value_end t = true -> length v < n ->
    scan_value n (v ++ t :: rest) 0 = Some (v ++ NUL :: rest, length v).
Proof.
  induction v as [|a v IH]; intros n t rest Hv Ht Hn; simpl in *.
  - destruct n; [lia|]. simpl. rewrite Ht. reflexivity.
  - destruct n; [lia|]. simpl.
    apply andb_true_iff in Hv as [Ha Hv].
    destruct (value_char_facts a Ha) as (_ & -> & _).
    change (scan_value n ([a] ++ (v ++ t :: rest)) (length [a] + 0)
            = Some (a :: v ++ NUL :: rest, S (length v))).
    rewrite scan_value_shift, IH by (assumption || lia). reflexivity.
Qed.

(** *** The noting callback: what was noted before stays in front *)

Lemma warn_prepend acc log (w : World (list (string * string))) m :
  warn (prepend_world acc log w) m = prepend_world acc log (warn w m).
Proof. unfold warn, prepend_world. simpl. rewrite app_assoc. reflexivity. Qed.

Lemma ProcessKeyValue_note_prepend acc log key value w :
  ProcessKeyValue _ note_pair key value (prepend_world acc log w)
  = prepend_world acc log <$> ProcessKeyValue _ note_pair key value w.
Proof.
  unfold ProcessKeyValue. destruct (strlen value) as [n|]; [|reflexivity].
  destruct (negb (n mod 2 =? 0)); [simpl; rewrite warn_prepend; reflexivity|].
  destruct (has_not_hexadecimal n value); [simpl; rewrite warn_prepend; reflexivity|].
  unfold note_pair, prepend_world. simpl. rewrite app_assoc. reflexivity.
Qed.

Lemma parse_value_note_prepend acc log file_size buf key ofs w :
  parse_value _ note_pair file_size buf key ofs (prepend_world acc log w)
  = prepend_turn acc log (parse_value _ note_pair file_size buf key ofs w).
Proof.
  unfold parse_value. destruct (buf !! key) as [k0|]; [|reflexivity].
  destruct (Ascii.eqb k0 NUL); [simpl; rewrite warn_prepend; reflexivity|].
  destruct (skip_blanks (file_size - ofs) buf ofs) as [o|]; [|reflexivity].
  destruct (o =? file_size); [simpl; rewrite warn_prepend; reflexivity|].
  destruct (scan_value (file_size - o) buf o) as [[b v]|]; [|reflexivity].
  rewrite ProcessKeyValue_note_prepend.
  destruct (ProcessKeyValue _ note_pair (drop key b) (drop o b) w); reflexivity.
Qed.

Lemma parse_turn_note_prepend acc log file_size buf ofs w :
  parse_turn _ note_pair file_size buf ofs (prepend_world acc log w)
  = prepend_turn acc log (parse_turn _ note_pair file_size buf ofs w).
Proof.
  unfold parse_turn. destruct (buf !! ofs) as [c|]; [|reflexivity].
  destruct (is_filler c); [reflexivity|].
  destruct (scan_key (file_size - ofs) buf ofs) as [b kend|b|b]; simpl;
    [|rewrite warn_prepend; reflexivity|reflexivity].
  destruct (kend =? file_size).
  { destruct (kend <? length b); simpl; [rewrite warn_prepend|]; reflexivity. }
  destruct (b !! kend) as [d|]; [|reflexivity].
  destruct (is_delimiter d); [apply parse_value_note_prepend|].
  destruct (skip_blanks _ _ _) as [o|]; [|reflexivity].
  destruct (o =? file_size); [simpl; rewrite warn_prepend; reflexivity|].
  destruct (_ !! o) as [d'|]; [|reflexivity].
  destruct (negb (is_delimiter d')); [simpl; rewrite warn_prepend; reflexivity|].
  apply parse_value_note_prepend.
Qed.

Lemma parse_loop_note_prepend acc log (fuel : nat) :
  forall file_size buf ofs w,
    parse_loop _ note_pair fuel file_size buf ofs (prepend_world acc log w)
    = prepend_parsed acc log (parse_loop _ note_pair fuel file_size buf ofs w).
Proof.
  induction fuel as [|fuel IH]; intros file_size buf ofs w; simpl; [reflexivity|].
  destruct (ofs <? file_size); [|reflexivity].
  rewrite parse_turn_note_prepend.
  destruct (parse_turn _ note_pair file_size buf ofs w) as [b o w'|r]; simpl;
    [apply IH|reflexivity].
Qed.

Lemma run_noting_prepend acc log text :
  run_noting (acc, log) text = prepend_world acc log (run_noting ([], []) text).
Proof.
  unfold run_noting, ProcessKeyValueFile.
  rewrite <- (app_nil_r acc) at 1. rewrite <- (app_nil_r log) at 1.
  change (acc ++ [], log ++ []) with (prepend_world acc log ([], [])).
  rewrite parse_loop_note_prepend. reflexivity.
Qed.

(** *** One turn, then the rest of the file *)

Lemma run_noting_continue text pre tail w w' :
  parse_turn _ note_pair (length text) text 0 w = Continue _ (pre ++ tail) (length pre) w' ->
  run_noting w text = run_noting w' tail.
Proof.
  intros Ht. destruct text as [|a text]; [discriminate Ht|].
  pose proof (parse_turn_progress _ _ _ _ _ _ _ _ _ Ht ltac:(simpl; lia)) as [Hofs Hlen].
  rewrite length_app in Hlen. simpl in Hlen.
  unfold run_noting, ProcessKeyValueFile. simpl length. simpl parse_loop.
  simpl in Ht. rewrite Ht.
  replace (S (length text)) with (length pre + length tail) by lia.
  rewrite <- (Nat.add_0_r (length pre)) at 2.
  rewrite parse_loop_shift. simpl.
  f_equal. apply parse_loop_fuel_irrelevant; lia.
Qed.

Lemma run_noting_stop text r w :
  text <> [] ->
  parse_turn _ note_pair (length text) text 0 w = Stop _ r ->
  run_noting w text = parsed_world r.
Proof.
  intros Hne Ht. destruct text as [|a text]; [contradiction|].
  unfold run_noting, ProcessKeyValueFile. simpl length. simpl parse_loop.
  simpl in Ht. rewrite Ht. reflexivity.
Qed.

Lemma run_noting_filler c rest w :
  is_filler c = true -> run_noting w (c :: rest) = run_noting w rest.
Proof.
  intros Hc. apply (run_noting_continue (c :: rest) [c] rest).
  unfold parse_turn. simpl. rewrite Hc. reflexivity.
Qed.

(** *** A turn on a well-formed entry *)

Lemma blank_facts (c : ascii) :
  is_blank c = true ->
  is_key_end c = true /\ is_delimiter c = false /\ is_filler c = true.
Proof. ascii_cases c; intros H; try discriminate H; repeat split. Qed.

Lemma delimiter_not_blank (c : ascii) : is_delimiter c = true -> is_blank c = false.
Proof. ascii_cases c; intros H; try discriminate H; reflexivity. Qed.

Lemma skip_blanks_blanks (bl : list ascii) :
  forall n c tail,
    forallb is_blank bl = true -> is_blank c = false -> length bl < n ->
    skip_blanks n (bl ++ c :: tail) 0 = Some (length bl).
Proof.
  induction bl as [|b bl IH]; intros n c tail Hbl Hc Hn; simpl in *.
  - destruct n; [lia|]. simpl. rewrite Hc. reflexivity.
  - destruct n; [lia|]. simpl.
    apply andb_true_iff in Hbl as [Hb Hbl]. rewrite Hb.
    change (skip_blanks n ([b] ++ (bl ++ c :: tail)) (length [b] + 0) = Some (S (length bl))).
    rewrite skip_blanks_shift, IH by (assumption || lia). reflexivity.
Qed.

Lemma ProcessKeyValue_note (lk X v rest : list ascii) w :
  forallb (fun c => negb (Ascii.eqb c NUL)) lk = true ->
  forallb value_char v = true ->
  ProcessKeyValue _ note_pair (lk ++ NUL :: X) (v ++ NUL :: rest) w
  = Some (note_value lk v w).
Proof.
  intros Hlk Hv. unfold ProcessKeyValue, note_value, note_pair.
  assert (Hv' : forallb (fun c => negb (Ascii.eqb c NUL)) v = true).
  { revert Hv. apply forallb_impl. intros c Hc.
    destruct (value_char_facts c Hc) as (_ & _ & ->). reflexivity. }
  rewrite strlen_app by exact Hv'.
  destruct (negb (length v mod 2 =? 0)); [reflexivity|].
  unfold has_not_hexadecimal. rewrite take_app_length.
  destruct (existsb not_hexadecimal v); [reflexivity|].
  rewrite !c_str_app by assumption. reflexivity.
Qed.

Lemma parse_value_entry (a : ascii) (lk X bl v : list ascii) (t : ascii) (rest : list ascii)
    (P : list ascii) (file_size : nat) w :
  P = (a :: lk) ++ NUL :: X ->
  forallb (fun c => negb (Ascii.eqb c NUL)) (a :: lk) = true ->
  forallb is_blank bl = true ->
  v <> [] -> forallb value_char v = true -> is_value_end t = true ->
  file_size = length (P ++ bl ++ v ++ t :: rest) ->
  parse_value _ note_pair file_size (P ++ bl ++ v ++ t :: rest) 0 (length P) w
  = Continue _ ((P ++ bl ++ v) ++ NUL :: rest) (length (P ++ bl ++ v))
      (note_value (a :: lk) v w).
Proof.
  intros HP Hlk Hbl Hne Hv Ht Hfs. unfold parse_value.
  assert (Ha : Ascii.eqb a NUL = false).
  { simpl in Hlk. apply andb_true_iff in Hlk as [Ha _]. apply negb_true_iff in Ha. exact Ha. }
  assert (Hl : (P ++ bl ++ v ++ t :: rest) !! 0 = Some a) by (rewrite HP; reflexivity).
  rewrite Hl, Ha. clear Hl.
  destruct v as [|v0 v]; [contradiction|].
  assert (Hv0 : is_blank v0 = false).
  { simpl in Hv. apply andb_true_iff in Hv as [Hv0 _].
    apply (value_char_facts v0 Hv0). }
  rewrite !length_app in Hfs. simpl in Hfs.
  rewrite <- (Nat.add_0_r (length P)) at 2.
  rewrite skip_blanks_shift.
  rewrite (skip_blanks_blanks bl _ v0 (v ++ t :: rest)) by (assumption || lia).
  simpl fmap. cbv beta iota.
  assert ((length P + length bl =? file_size) = false) as -> by (apply Nat.eqb_neq; lia).
  rewrite (app_assoc P bl).
  replace (length P + length bl) with (length (P ++ bl) + 0) by (rewrite length_app; lia).
  rewrite scan_value_shift.
  rewrite (scan_value_value (v0 :: v) _ t rest)
    by (assumption || (rewrite length_app; simpl; lia)).
  simpl fmap. cbv beta iota. cbn [fst snd].
  rewrite Nat.add_0_r, drop_0, drop_app_length.
  rewrite <- (app_assoc P bl). rewrite HP at 1. rewrite <- app_assoc.
  match goal with |- context [ProcessKeyValue _ _ ?key ?value w] =>
    assert (E : ProcessKeyValue _ note_pair key value w
                = Some (note_value (a :: lk) (v0 :: v) w))
      by (apply (ProcessKeyValue_note (a :: lk) (X ++ bl ++ v0 :: v ++ NUL :: rest)
                   (v0 :: v) rest w); assumption);
    rewrite E; clear E
  end.
  f_equal.
  - rewrite <- !app_assoc. reflexivity.
  - rewrite !length_app. simpl. lia.
Qed.

Lemma insert_middle (A B : list ascii) (x y : ascii) (n : nat) :
  n = length A -> <[n := y]> (A ++ x :: B) = A ++ y :: B.
Proof.
  intros ->. rewrite insert_app_r_alt by lia. rewrite Nat.sub_diag. reflexivity.
Qed.

Lemma no_NUL_lower (k : list ascii) :
  forallb key_char k = true ->
  forallb (fun c => negb (Ascii.eqb c NUL)) (map to_lower k) = true.
Proof.
  induction k as [|a k IH]; simpl; intros H; [reflexivity|].
  apply andb_true_iff in H as [Ha Hk].
  destruct (key_char_facts a Ha) as (_ & _ & _ & _ & -> & _). simpl. apply IH, Hk.
Qed.

Lemma parse_turn_entry (k bl1 : list ascii) (d : ascii) (bl2 v : list ascii) (t : ascii)
    (rest : list ascii) w :
  k <> [] -> forallb key_char k = true ->
  forallb is_blank bl1 = true -> is_delimiter d = true -> forallb is_blank bl2 = true ->
  v <> [] -> forallb value_char v = true -> is_value_end t = true ->
  exists pre,
    parse_turn _ note_pair (length (k ++ bl1 ++ d :: bl2 ++ v ++ t :: rest))
      (k ++ bl1 ++ d :: bl2 ++ v ++ t :: rest) 0 w
    = Continue _ (pre ++ NUL :: rest) (length pre) (note_value (map to_lower k) v w).
Proof.
  intros Hne Hk Hbl1 Hd Hbl2 Hv0 Hv Ht.
  pose proof (no_NUL_lower k Hk) as Hlk.
  destruct k as [|a k]; [contradiction|]. clear Hne.
  pose proof Hk as Hk'. simpl in Hk'. apply andb_true_iff in Hk' as [Ha _].
  destruct (key_char_facts a Ha) as (Hfill & _).
  set (text := (a :: k) ++ bl1 ++ d :: bl2 ++ v ++ t :: rest).
  assert (Hl0 : text !! 0 = Some a) by reflexivity.
  unfold parse_turn. rewrite Hl0, Hfill, Nat.sub_0_r. clear Hl0.
  destruct bl1 as [|b bl1].
  - (* the delimiter follows the key *)
    unfold text. simpl app.
    change (a :: k ++ d :: bl2 ++ v ++ t :: rest) with ((a :: k) ++ d :: bl2 ++ v ++ t :: rest).
    rewrite scan_key_key; [|assumption|apply is_delimiter_key_end, Hd|rewrite length_app; simpl; lia].
    assert ((length (a :: k) =? length ((a :: k) ++ d :: bl2 ++ v ++ t :: rest)) = false) as ->.
    { apply Nat.eqb_neq. rewrite length_app. simpl. lia. }
    rewrite list_lookup_middle by (rewrite length_map; reflexivity).
    rewrite Hd. rewrite insert_middle by (rewrite length_map; reflexivity).
    set (P := map to_lower (a :: k) ++ [NUL]).
    replace (map to_lower (a :: k) ++ NUL :: bl2 ++ v ++ t :: rest)
      with (P ++ bl2 ++ v ++ t :: rest) by (unfold P; rewrite <- app_assoc; reflexivity).
    replace (S (length (a :: k))) with (length P)
      by (unfold P; rewrite length_app, length_map; simpl; lia).
    exists (P ++ bl2 ++ v).
    apply (parse_value_entry (to_lower a) (map to_lower k) [] bl2 v t rest P); try assumption.
    + reflexivity.
    + unfold P. rewrite !length_app, !length_map. simpl. rewrite !length_app. simpl. lia.
  - (* blanks, then the delimiter *)
    simpl in Hbl1. apply andb_true_iff in Hbl1 as [Hb Hbl1].
    destruct (blank_facts b Hb) as (Hbe & Hbd & _).
    unfold text.
    change ((a :: k) ++ (b :: bl1) ++ d :: bl2 ++ v ++ t :: rest)
      with ((a :: k) ++ b :: bl1 ++ d :: bl2 ++ v ++ t :: rest).
    rewrite scan_key_key; [|assumption|assumption|rewrite length_app; simpl; lia].
    assert ((length (a :: k) =? length ((a :: k) ++ b :: bl1 ++ d :: bl2 ++ v ++ t :: rest))
            = false) as ->.
    { apply Nat.eqb_neq. rewrite length_app. simpl. lia. }
    rewrite list_lookup_middle by (rewrite length_map; reflexivity).
    rewrite Hbd. cbv zeta. rewrite insert_middle by (rewrite length_map; reflexivity).
    set (Q := map to_lower (a :: k) ++ [NUL]).
    replace (map to_lower (a :: k) ++ NUL :: bl1 ++ d :: bl2 ++ v ++ t :: rest)
      with (Q ++ bl1 ++ d :: bl2 ++ v ++ t :: rest)
      by (unfold Q; rewrite <- app_assoc; reflexivity).
    assert (HQ : length Q = S (length (a :: k)))
      by (unfold Q; rewrite length_app, length_map; simpl; lia).
    rewrite <- HQ.
    set (N := length ((a :: k) ++ b :: bl1 ++ d :: bl2 ++ v ++ t :: rest)).
    assert (HN : N = length Q + (length bl1 + S (length bl2 + (length v + S (length rest))))).
    { unfold N. rewrite HQ. rewrite !length_app. simpl. rewrite !length_app. simpl.
      rewrite !length_app. simpl. lia. }
    assert (Hs : skip_blanks (N - length Q) (Q ++ bl1 ++ d :: bl2 ++ v ++ t :: rest) (length Q)
                 = Some (length Q + length bl1)).
    { rewrite <- (Nat.add_0_r (length Q)) at 2. rewrite skip_blanks_shift.
      rewrite (skip_blanks_blanks bl1 _ d (bl2 ++ v ++ t :: rest));
        [reflexivity|assumption|apply delimiter_not_blank, Hd|lia]. }
    rewrite Hs. clear Hs.
    assert ((length Q + length bl1 =? N) = false) as -> by (apply Nat.eqb_neq; lia).
    rewrite (app_assoc Q bl1).
    rewrite list_lookup_middle by (rewrite length_app; reflexivity).
    rewrite Hd. simpl negb. cbv iota.
    rewrite insert_middle by (rewrite length_app; reflexivity).
    set (P := (Q ++ bl1) ++ [NUL]).
    replace ((Q ++ bl1) ++ NUL :: bl2 ++ v ++ t :: rest)
      with (P ++ bl2 ++ v ++ t :: rest) by (unfold P; rewrite <- !app_assoc; reflexivity).
    replace (S (length Q + length bl1)) with (length P)
      by (unfold P; rewrite !length_app; simpl; lia).
    exists (P ++ bl2 ++ v).
    apply (parse_value_entry (to_lower a) (map to_lower k) (bl1 ++ [NUL]) bl2 v t rest P);
      try assumption.
    + unfold P, Q. simpl. rewrite <- !app_assoc. reflexivity.
    + rewrite HN. unfold P. rewrite !length_app. simpl. rewrite !length_app. simpl. lia.
Qed.

(** *** Entries, one after the other *)

Lemma run_noting_entry (k bl1 : list ascii) (d : ascii) (bl2 v : list ascii) (t : ascii)
    (rest : list ascii) w :
  k <> [] -> forallb key_char k = true ->
  forallb is_blank bl1 = true -> is_delimiter d = true -> forallb is_blank bl2 = true ->
  v <> [] -> forallb value_char v = true -> is_value_end t = true ->
  run_noting w (k ++ bl1 ++ d :: bl2 ++ v ++ t :: rest)
  = run_noting (note_value (map to_lower k) v w) rest.
Proof.
  intros Hne Hk Hbl1 Hd Hbl2 Hv0 Hv Ht.
  destruct (parse_turn_entry k bl1 d bl2 v t rest w) as [pre Hturn]; try assumption.
  rewrite (run_noting_continue _ pre (NUL :: rest) w _ Hturn).
  apply run_noting_filler. reflexivity.
Qed.

Lemma fst_note_value k v w :
  fst (note_value k v w)
  = fst w ++ (if well_formed_value v
              then [(string_of_list_ascii k, string_of_list_ascii v)] else []).
Proof.
  unfold note_value, well_formed_value.
  destruct (length v mod 2 =? 0); simpl; [|symmetry; apply app_nil_r].
  destruct (existsb not_hexadecimal v); simpl; [symmetry; apply app_nil_r|reflexivity].
Qed.

Lemma length_nonzero {A : Type} (l : list A) : negb (length l =? 0) = true -> l <> [].
Proof. destruct l; [discriminate|]. intros _. discriminate. Qed.

Lemma pairs_of_entry (e : Entry) (rest : list ascii) :
  entry_ok e = true ->
  pairs_of (render e ++ rest) = entry_pairs e ++ pairs_of rest.
Proof.
  unfold entry_ok. intros H.
  repeat (apply andb_true_iff in H as [H ?]).
  unfold pairs_of, render, entry_pairs.
  fold (run_noting ([], [])
          ((entry_key e ++ entry_blanks_before e ++ entry_delimiter e
              :: entry_blanks_after e ++ entry_value e ++ [entry_end e]) ++ rest)).
  fold (run_noting ([], []) rest).
  replace ((entry_key e ++ entry_blanks_before e ++ entry_delimiter e
              :: entry_blanks_after e ++ entry_value e ++ [entry_end e]) ++ rest)
    with (entry_key e ++ entry_blanks_before e ++ entry_delimiter e
              :: entry_blanks_after e ++ entry_value e ++ entry_end e :: rest)
    by (rewrite <- !app_assoc; simpl; rewrite <- !app_assoc; reflexivity).
  rewrite run_noting_entry by auto using length_nonzero.
  destruct (note_value (map to_lower (entry_key e)) (entry_value e) ([], [])) as [acc log] eqn:E.
  rewrite run_noting_prepend. simpl.
  change acc with (fst (acc, log)). rewrite <- E, fst_note_value. reflexivity.
Qed.

Lemma pairs_of_entries (es : list Entry) (rest : list ascii) :
  forallb entry_ok es = true ->
  pairs_of (concat (map render es) ++ rest) = concat (map entry_pairs es) ++ pairs_of rest.
Proof.
  induction es as [|e es IH]; simpl; intros H; [reflexivity|].
  apply andb_true_iff in H as [He Hes].
  rewrite <- !app_assoc, pairs_of_entry by exact He.
  rewrite IH by exact Hes. reflexivity.
Qed.

Lemma pairs_of_malformed_key (k : list ascii) (c : ascii) (rest : list ascii) :
  k <> [] -> forallb key_char k = true -> key_char c = false -> is_key_end c = false ->
  pairs_of (k ++ c :: rest) = [].
Proof.
  intros Hne Hk Hc Hc'. unfold pairs_of.
  fold (run_noting ([], []) (k ++ c :: rest)).
  pose proof (scan_key_bad k (length (k ++ c :: rest)) c rest Hk Hc Hc'
                ltac:(rewrite length_app; simpl; lia)) as Hbad.
  destruct k as [|a k]; [contradiction|].
  simpl in Hk. apply andb_true_iff in Hk as [Ha _].
  destruct (key_char_facts a Ha) as (Hfill & _).
  assert (Hl0 : ((a :: k) ++ c :: rest) !! 0 = Some a) by reflexivity.
  destruct (scan_key (length ((a :: k) ++ c :: rest)) ((a :: k) ++ c :: rest) 0)
    as [b kend|b|b] eqn:Hscan; [contradiction| |].
  - rewrite (run_noting_stop _ (mkParsed b (warn ([], []) MalformedKey) Returned));
      [reflexivity|discriminate|].
    unfold parse_turn. rewrite Hl0, Hfill, Nat.sub_0_r, Hscan. reflexivity.
  - rewrite (run_noting_stop _ (mkParsed b ([], []) OutOfBounds));
      [reflexivity|discriminate|].
    unfold parse_turn. rewrite Hl0, Hfill, Nat.sub_0_r, Hscan. reflexivity.
Qed.

(** C5.  After any well-formed entries, a key token that runs into a
    character that is neither a key character nor one that ends a key
    (an embedded NUL, a [!]) ends the emission: whatever follows it in
    the buffer, the pairs noted are those of the entries before.  An
    entry whose value is malformed (odd length, or a character that is
    not a hex digit) contributes no pair, and what follows it is parsed
    as if the entry were not there. *)
Theorem ProcessKeyValueFile_error_scopes (es : list Entry) (k : list ascii) (c : ascii)
    (e : Entry) (rest : list ascii) :
  forallb entry_ok es = true ->
  k <> [] -> forallb key_char k = true -> key_char c = false -> is_key_end c = false ->
  entry_ok e = true -> well_formed_value (entry_value e) = false ->
  pairs_of (concat (map render es) ++ k ++ c :: rest) = concat (map entry_pairs es)
  /\ pairs_of (concat (map render es) ++ render e ++ rest)
     = concat (map entry_pairs es) ++ pairs_of rest.
Proof.
  intros Hes Hne Hk Hc Hc' He Hv. split.
  - rewrite pairs_of_entries by exact Hes.
    rewrite pairs_of_malformed_key by assumption. apply app_nil_r.
  - rewrite pairs_of_entries by exact Hes.
    rewrite pairs_of_entry by exact He.
    unfold entry_pairs at 2. rewrite Hv. reflexivity.
Qed.

(** ** The hex codec and the title-key loader *)

Lemma strlen_lt (s : cptr) (n : nat) : strlen s = Some n -> n < length s.
Proof.
  revert n. induction s as [|c s IH]; intros n H; simpl in *; [discriminate|].
  destruct (Ascii.eqb c NUL); [inversion H; lia|].
  destruct (strlen s) as [m|]; [|discriminate].
  inversion H; subst. specialize (IH m eq_refl). lia.
Qed.

Lemma decode_from_defined (n : nat) :
  forall src i, 2 * (i + n) <= length src ->
    exists dst, decode_from n src i = Some dst /\ length dst = n.
Proof.
  induction n as [|n IH]; intros src i H.
  - exists []. split; reflexivity.
  - destruct (lookup_lt_is_Some_2 src (2 * i + 0) ltac:(lia)) as [hi Hhi].
    destruct (lookup_lt_is_Some_2 src (2 * i + 1) ltac:(lia)) as [lo Hlo].
    destruct (IH src (S i) ltac:(lia)) as (rest & Hrest & Hlen).
    exists ((Z.lor (Z.shiftl (HexToI hi) 4) (Z.shiftl (HexToI lo) 0) mod 256)%Z :: rest).
    split; [|simpl; rewrite Hlen; reflexivity].
    change (decode_from (S n) src i)
      with (match src !! (2 * i + 0), src !! (2 * i + 1) with
            | Some hi, Some lo =>
              match decode_from n src (S i) with
              | Some rest =>
                Some ((Z.lor (Z.shiftl (HexToI hi) 4) (Z.shiftl (HexToI lo) 0) mod 256)%Z
                        :: rest)
              | None => None
              end
            | _, _ => None
            end).
    rewrite Hhi, Hlo, Hrest. reflexivity.
Qed.

(** A character that is not a hex digit decodes as [0]. *)
Lemma HexToI_not_hexadecimal (c : ascii) : not_hexadecimal c = true -> HexToI c = 0%Z.
Proof. ascii_cases c; intros H; try discriminate H; reflexivity. Qed.

(** Inside its allocation [DecodeHex] gives [size] bytes, with the
    diagnostic exactly when the length of [src] is not [2 * size]. *)
Lemma DecodeHex_defined (src : cptr) (size len : nat) (log : list Warning) :
  strlen src = Some len -> 2 * size <= length src ->
  exists dst,
    decode_from size src 0 = Some dst /\ length dst = size
    /\ DecodeHex src size log
       = Some (dst, if len =? 2 * size then log
                    else log ++ [MalformedValueLength len (2 * size)]).
Proof.
  intros Hlen Hsize. unfold DecodeHex. rewrite Hlen.
  destruct (decode_from_defined size src 0 ltac:(lia)) as (dst & Hdst & Hl).
  exists dst. rewrite Hdst. repeat split; try assumption.
  destruct (len =? 2 * size); reflexivity.
Qed.

(** C4, at the failing input.  [src] is the C string "0011" where 32
    hex digits are expected.  With the next line of the key file behind
    the terminator, the bytes after the first two are decoded from that
    line; with zeros behind it they are zero; with the allocation
    ending at the terminator there is no result. *)
Example DecodeHex_reads_past_terminator :
  c_str (list_ascii_of_string "0011" ++ NUL :: list_ascii_of_string "secure_boot_key = ffeeddccbb")
  = list_ascii_of_string "0011"
  /\ DecodeHex
       (list_ascii_of_string "0011" ++ NUL :: list_ascii_of_string "secure_boot_key = ffeeddccbb")
       16 []
     = Some ([0; 17; 0; 236; 0; 224; 176; 0; 0; 224; 0; 15; 254; 237; 220; 203]%Z,
             [MalformedValueLength 4 32])
  /\ DecodeHex (list_ascii_of_string "0011" ++ NUL :: repeat NUL 27) 16 []
     = Some ([0; 17; 0; 0; 0; 0; 0; 0; 0; 0; 0; 0; 0; 0; 0; 0]%Z, [MalformedValueLength 4 32])
  /\ DecodeHex (list_ascii_of_string "0011" ++ [NUL]) 16 [] = None.
Proof. repeat split; vm_compute; reflexivity. Qed.

Section TitleKeyProperties.

Variable KeyManager : Type.
Variable Register : KeyManager -> list Z -> list Z -> KeyManager.

(** C10.  [LoadTitleKey] leaves the key manager as it is exactly when
    the rights id is malformed: its length is not 32 (odd or not) or
    one of its characters is not a hex digit.  For a well-formed rights
    id the pair is decoded and registered whatever the length of the
    value; a value whose length is not 32 adds a diagnostic.  The value
    is read for [2 * AccessKeySize] characters, which have to be inside
    its allocation. *)
Theorem LoadTitleKey_refuses_only_malformed_rights_id
    (km : KeyManager) (key value : cptr) (log : list Warning) (key_len value_len : nat) :
  strlen key = Some key_len -> strlen value = Some value_len ->
  2 * AccessKeySize <= length value ->
  exists km' log',
    LoadTitleKey KeyManager Register km key value log = Some (km', log')
    /\ if (key_len =? 32) && negb (has_not_hexadecimal key_len key)
       then (exists rights_id access_key,
               decode_from RightsIdSize key 0 = Some rights_id
               /\ decode_from AccessKeySize value 0 = Some access_key
               /\ km' = Register km rights_id access_key)
            /\ (value_len <> 32 -> In TitleKeyWrongLength log')
       else km' = km.
Proof.
  intros Hk Hv Hread. unfold LoadTitleKey. rewrite Hk.
  destruct (key_len mod 2 =? 0) eqn:Heven; simpl.
  2:{ exists km, (log ++ [RightsIdOddLength]). split; [reflexivity|].
      assert ((key_len =? 32) = false) as ->; [|reflexivity].
      apply Nat.eqb_neq. intros ->. discriminate Heven. }
  destruct (key_len =? 32) eqn:H32; simpl.
  2:{ exists km, (log ++ [RightsIdWrongLength]). split; reflexivity. }
  apply Nat.eqb_eq in H32. subst key_len.
  destruct (has_not_hexadecimal 32 key) eqn:Hhex; simpl.
  { exists km, (log ++ [RightsIdNotHexadecimal]). split; reflexivity. }
  rewrite Hv.
  pose proof (strlen_lt _ _ Hk) as Hklen.
  set (log1 := if negb (value_len =? 32) then log ++ [TitleKeyWrongLength] else log).
  destruct (DecodeHex_defined key RightsIdSize 32 log1 Hk ltac:(unfold RightsIdSize; lia))
    as (rid & Hrid & _ & ->).
  set (log2 := if 32 =? 2 * RightsIdSize then log1
               else log1 ++ [MalformedValueLength 32 (2 * RightsIdSize)]).
  destruct (DecodeHex_defined value AccessKeySize value_len log2 Hv Hread)
    as (ak & Hak & _ & ->).
  eexists _, _. split; [reflexivity|]. split.
  - exists rid, ak. repeat split; assumption.
  - intros Hne. apply Nat.eqb_neq in Hne.
    destruct (value_len =? 2 * AccessKeySize);
      unfold log2, log1; simpl; rewrite Hne; simpl; rewrite ?in_app_iff; simpl; tauto.
Qed.

End TitleKeyProperties.

(** ** The parser on the buffer of the specification *)

(** C3, at the buffer of the specification: the comma after [0011] does not end
    the value, so the value token is [0011,KEY_B]; it is refused as not
    hexadecimal, the next key is empty, and no pair is noted. *)
Example ProcessKeyValueFile_comma_buffer :
  pairs_of (list_ascii_of_string "key_a=0011,KEY_B = 2233" ++ [LF]) = []
  /\ parsed_world
       (ProcessKeyValueFile _ note_pair
          (list_ascii_of_string "key_a=0011,KEY_B = 2233" ++ [LF]) 24 ([], []))
     = ([], [ValueNotHexadecimal; EmptyKey])
  /\ pairs_of (list_ascii_of_string "key_a=0011,KEY_B = 2233" ++ [LF])
     <> [("key_a"%string, "0011"%string); ("key_b"%string, "2233"%string)].
Proof.
  split; [vm_compute; reflexivity|]. split; [vm_compute; reflexivity|].
  vm_compute. discriminate.
Qed.

(** C3, as the code has it: with a newline between the two entries the
    parser notes the two pairs, in order, the second key folded to
    lower case. *)
Theorem ProcessKeyValueFile_two_pairs :
  pairs_of (list_ascii_of_string "key_a=0011" ++ LF :: list_ascii_of_string "KEY_B = 2233" ++ [LF])
  = [("key_a"%string, "0011"%string); ("key_b"%string, "2233"%string)]
  /\ parsed_exit
       (ProcessKeyValueFile _ note_pair
          (list_ascii_of_string "key_a=0011" ++ LF :: list_ascii_of_string "KEY_B = 2233" ++ [LF])
          24 ([], []))
     = Finished.
Proof.
  split.
  - change (list_ascii_of_string "key_a=0011" ++ LF :: list_ascii_of_string "KEY_B = 2233" ++ [LF])
      with (concat (map render
                      [mkEntry (list_ascii_of_string "key_a") [] "=" []
                         (list_ascii_of_string "0011") LF;
                       mkEntry (list_ascii_of_string "KEY_B") [SPACE] "=" [SPACE]
                         (list_ascii_of_string "2233") LF]) ++ []).
    rewrite pairs_of_entries by (vm_compute; reflexivity).
    vm_compute. reflexivity.
  - vm_compute. reflexivity.
Qed.

(** ** The properties at sample inputs

    AES-128 decryption stands for [DecryptBlock], the generations are
    numbered 0, 6 and 32 (see the sample key sets). *)

Example Aes128_decrypt_block_fips197 :
  Aes128.decrypt_block (map Z.of_nat (seq 0 16))
    [0x69; 0xc4; 0xe0; 0xd8; 0x6a; 0x7b; 0x04; 0x30;
     0xd8; 0xcd; 0xb7; 0x80; 0x70; 0xb4; 0xc5; 0x5a]%Z
  = [0x00; 0x11; 0x22; 0x33; 0x44; 0x55; 0x66; 0x77;
     0x88; 0x99; 0xaa; 0xbb; 0xcc; 0xdd; 0xee; 0xff]%Z.
Proof. vm_compute. reflexivity. Qed.

Ltac sample_wf := unfold KeySet_wf; repeat split; reflexivity.

Lemma DeriveKeys_keyblob_key_sample :
  IsZero (secure_boot_key sample_keys) = false
  /\ IsZero (tsec_key sample_keys) = false
  /\ IsZero (slot (keyblob_key_sources sample_keys) 0) = false
  /\ slot (keyblob_keys (DeriveKeys 0 6 32 Aes128.decrypt_block sample_keys)) 0
     = Aes128.decrypt_block (secure_boot_key sample_keys)
         (Aes128.decrypt_block (tsec_key sample_keys)
            (slot (keyblob_key_sources sample_keys) 0)).
Proof.
  split; [reflexivity|]. split; [reflexivity|]. split; [reflexivity|].
  apply (DeriveKeys_keyblob_key_double_decrypt 0 6 32 Aes128.decrypt_block).
  - lia.
  - sample_wf.
  - lia.
  - reflexivity.
  - reflexivity.
  - reflexivity.
Defined.

Lemma DeriveKeys_master_kek_mariko_sample :
  IsZero (span (slot (keyblobs sample_keys) 0) 0x00 AesKeySize) = false
  /\ slot (master_keks (DeriveKeys 0 6 32 Aes128.decrypt_block sample_keys)) 0
     = Aes128.decrypt_block (mariko_kek sample_keys)
         (slot (mariko_master_kek_sources sample_keys) 0).
Proof.
  split; [reflexivity|].
  apply (DeriveKeys_master_kek_mariko 0 6 32 Aes128.decrypt_block).
  - lia.
  - sample_wf.
  - lia.
  - reflexivity.
  - reflexivity.
Defined.

(** C6, at a key set whose [keyblob_keys[0]] was given and whose
    [keyblob_mac_key_source] is set: [secure_boot_key] is unset, the
    iteration ends at its first check, and [keyblob_mac_keys[0]] stays
    all-zero instead of becoming the decryption of the source under
    the given key. *)
Lemma DeriveKeys_given_keyblob_key_no_mac_key :
  IsZero (keyblob_mac_key_source sample_keys_given_keyblob_key) = false
  /\ slot (keyblob_keys (DeriveKeys 0 6 32 Aes128.decrypt_block sample_keys_given_keyblob_key)) 0
     = block_from 0x10
  /\ slot (keyblob_mac_keys (DeriveKeys 0 6 32 Aes128.decrypt_block sample_keys_given_keyblob_key)) 0
     = zeros AesKeySize
  /\ slot (keyblob_mac_keys (DeriveKeys 0 6 32 Aes128.decrypt_block sample_keys_given_keyblob_key)) 0
     <> Aes128.decrypt_block
          (slot (keyblob_keys
                   (DeriveKeys 0 6 32 Aes128.decrypt_block sample_keys_given_keyblob_key)) 0)
          (keyblob_mac_key_source sample_keys_given_keyblob_key).
Proof.
  split; [reflexivity|]. split; [vm_compute; reflexivity|]. split; [vm_compute; reflexivity|].
  vm_compute. discriminate.
Qed.

Lemma DeriveKeys_keyblob_mac_key_sample :
  slot (keyblob_mac_keys (DeriveKeys 0 6 32 Aes128.decrypt_block sample_keys)) 0
  = Aes128.decrypt_block
      (slot (keyblob_keys (DeriveKeys 0 6 32 Aes128.decrypt_block sample_keys)) 0)
      (keyblob_mac_key_source sample_keys)
  /\ slot (keyblob_mac_keys
             (DeriveKeys 0 6 32 Aes128.decrypt_block sample_keys_given_keyblob_key)) 0
     = slot (keyblob_mac_keys sample_keys_given_keyblob_key) 0.
Proof.
  split.
  - rewrite (DeriveKeys_keyblob_mac_key 0 6 32 Aes128.decrypt_block ltac:(lia) sample_keys 0
               ltac:(sample_wf) ltac:(lia)).
    reflexivity.
  - rewrite (DeriveKeys_keyblob_mac_key 0 6 32 Aes128.decrypt_block ltac:(lia)
               sample_keys_given_keyblob_key 0 ltac:(sample_wf) ltac:(lia)).
    reflexivity.
Defined.

Lemma DeriveKeys_master_keys_unset_sample :
  IsZero (master_key_source sample_keys_no_master_key_source) = true
  /\ master_keys (DeriveKeys 0 6 32 Aes128.decrypt_block sample_keys_no_master_key_source)
     = master_keys sample_keys_no_master_key_source.
Proof.
  split; [reflexivity|].
  apply (DeriveKeys_master_keys_unset 0 6 32 Aes128.decrypt_block). reflexivity.
Defined.

Lemma DeriveKeys_idempotent_sample :
  DeriveKeys 0 6 32 Aes128.decrypt_block (DeriveKeys 0 6 32 Aes128.decrypt_block sample_keys)
  = DeriveKeys 0 6 32 Aes128.decrypt_block sample_keys.
Proof.
  apply (DeriveKeys_idempotent 0 6 32 Aes128.decrypt_block).
  - lia.
  - sample_wf.
Defined.

Lemma ProcessKeyValueFile_error_scopes_sample :
  pairs_of
    (concat (map render
               [mkEntry (list_ascii_of_string "key_a") [] "=" []
                  (list_ascii_of_string "0011") LF])
     ++ list_ascii_of_string "ke" ++ "!"%char :: list_ascii_of_string "key_c,33" ++ [LF])
  = concat (map entry_pairs
              [mkEntry (list_ascii_of_string "key_a") [] "=" []
                 (list_ascii_of_string "0011") LF])
  /\ pairs_of
       (concat (map render
                  [mkEntry (list_ascii_of_string "key_a") [] "=" []
                     (list_ascii_of_string "0011") LF])
        ++ render (mkEntry (list_ascii_of_string "key_b") [SPACE] "=" [SPACE]
                     (list_ascii_of_string "22x") LF)
        ++ list_ascii_of_string "key_c,33" ++ [LF])
     = concat (map entry_pairs
                 [mkEntry (list_ascii_of_string "key_a") [] "=" []
                    (list_ascii_of_string "0011") LF])
       ++ pairs_of (list_ascii_of_string "key_c,33" ++ [LF]).
Proof.
  apply ProcessKeyValueFile_error_scopes.
  - reflexivity.
  - discriminate.
  - reflexivity.
  - reflexivity.
  - reflexivity.
  - reflexivity.
  - reflexivity.
Defined.

Lemma LoadTitleKey_short_value_sample :
  exists km' log',
    LoadTitleKey _ register_pair []
      (list_ascii_of_string "0100000000001000000000000000000A" ++ [NUL])
      (list_ascii_of_string "abcd" ++ NUL :: list_ascii_of_string "0100000000002000000000000000000b")
      [] = Some (km', log')
    /\ if (32 =? 32)
          && negb (has_not_hexadecimal 32
                     (list_ascii_of_string "0100000000001000000000000000000A" ++ [NUL]))
       then (exists rights_id access_key,
               decode_from RightsIdSize
                 (list_ascii_of_string "0100000000001000000000000000000A" ++ [NUL]) 0
               = Some rights_id
               /\ decode_from AccessKeySize
                    (list_ascii_of_string "abcd"
                       ++ NUL :: list_ascii_of_string "0100000000002000000000000000000b") 0
                  = Some access_key
               /\ km' = register_pair [] rights_id access_key)
            /\ (4 <> 32 -> In TitleKeyWrongLength log')
       else km' = [].
Proof.
  apply (LoadTitleKey_refuses_only_malformed_rights_id _ register_pair).
  - reflexivity.
  - reflexivity.
  - vm_compute. lia.
Defined.

(** ** More on [DeriveKeys]: every derived slot, in every case *)

Section DerivationCases.

Variables KeyGeneration_1_0_0 KeyGeneration_6_2_0 KeyGeneration_Max : nat.
Variable DecryptBlock : list Z -> list Z -> list Z.
Hypothesis gen_le : KeyGeneration_6_2_0 <= KeyGeneration_Max.

Local Abbreviation DeriveKeys' :=
  (DeriveKeys KeyGeneration_1_0_0 KeyGeneration_6_2_0 KeyGeneration_Max DecryptBlock).

Lemma frame_inputs (a b : KeySet) :
  frame_eq a b ->
  secure_boot_key a = secure_boot_key b /\ tsec_key a = tsec_key b
  /\ keyblob_key_sources a = keyblob_key_sources b
  /\ keyblob_mac_key_source a = keyblob_mac_key_source b
  /\ per_console_key_source a = per_console_key_source b
  /\ keyblobs a = keyblobs b /\ mariko_kek a = mariko_kek b
  /\ mariko_master_kek_sources a = mariko_master_kek_sources b
  /\ master_key_source a = master_key_source b.
Proof. unfold frame_eq. intros H. destruct_and!. repeat split; assumption. Qed.

(** X1.  Stage S8, with the master kek the run ends with.  For every
    generation, [master_keys[gen]] becomes [master_key_source]
    decrypted under the final [master_keks[gen]] when both are
    non-zero, and keeps its content otherwise. *)
Theorem DeriveKeys_master_key (ks : KeySet) (gen : nat) :
  KeySet_wf KeyGeneration_Max ks ->
  KeyGeneration_1_0_0 <= gen < KeyGeneration_Max ->
  slot (master_keys (DeriveKeys' ks)) gen
  = if negb (IsZero (master_key_source ks))
       && negb (IsZero (slot (master_keks (DeriveKeys' ks)) gen))
    then DecryptBlock (slot (master_keks (DeriveKeys' ks)) gen) (master_key_source ks)
    else slot (master_keys ks) gen.
Proof.
  clear gen_le. intros Hwf Hgen. apply slot_lookup.
  rewrite DeriveKeys_master_keys by (assumption || lia).
  rewrite in_gen_true by assumption. simpl.
  unfold master_key_ready, master_key_value.
  destruct (frame_inputs _ _ (frame_DeriveKeys KeyGeneration_1_0_0 KeyGeneration_6_2_0
                                KeyGeneration_Max DecryptBlock ks))
    as (_ & _ & _ & _ & _ & _ & _ & _ & <-).
  destruct (_ && _); [reflexivity|].
  apply lookup_slot. destruct Hwf as (_ & _ & _ & _ & _ & _ & -> & _). lia.
Qed.

(** X2.  Stages S5 and S7 together.  For every generation, [master_keks[gen]]
    ends as the Mariko value when [mariko_kek] and the generation's
    Mariko source are non-zero; failing that, as bytes [0x00..0x10] of
    the generation's keyblob when the generation is before
    [KeyGeneration_6_2_0] and those bytes are non-zero; failing both, as
    it was (a master kek given in the key file stays). *)
Theorem DeriveKeys_master_kek_cases (ks : KeySet) (gen : nat) :
  KeySet_wf KeyGeneration_Max ks ->
  KeyGeneration_1_0_0 <= gen < KeyGeneration_Max ->
  slot (master_keks (DeriveKeys' ks)) gen
  = if negb (IsZero (mariko_kek ks)) && negb (IsZero (slot (mariko_master_kek_sources ks) gen))
    then DecryptBlock (mariko_kek ks) (slot (mariko_master_kek_sources ks) gen)
    else if (gen <? KeyGeneration_6_2_0)
            && negb (IsZero (span (slot (keyblobs ks) gen) 0x00 AesKeySize))
    then span (slot (keyblobs ks) gen) 0x00 AesKeySize
    else slot (master_keks ks) gen.
Proof.
  intros Hwf Hgen. apply slot_lookup.
  rewrite DeriveKeys_master_keks by (assumption || lia).
  rewrite in_gen_true by assumption. simpl.
  unfold mariko_master_kek_ready, mariko_master_kek_value, keyblob_master_kek_ready,
    keyblob_master_kek_value, in_gen.
  destruct (_ && negb (IsZero (slot (mariko_master_kek_sources ks) gen))); [reflexivity|].
  assert ((KeyGeneration_1_0_0 <=? gen) = true) as -> by (apply Nat.leb_le; lia). simpl.
  destruct (_ && _); [reflexivity|].
  apply lookup_slot. destruct Hwf as (_ & _ & _ & _ & _ & -> & _). lia.
Qed.

(** X3.  Stage S1, the other way round from C1.  For every generation,
    [keyblob_keys[gen]] changes only when the generation is before
    [KeyGeneration_6_2_0] and [secure_boot_key], [tsec_key] and the
    generation's source are all non-zero; a keyblob key given in the
    key file stays when one of them is missing. *)
Theorem DeriveKeys_keyblob_key_kept (ks : KeySet) (gen : nat) :
  KeySet_wf KeyGeneration_Max ks ->
  gen < KeyGeneration_Max ->
  gen < KeyGeneration_1_0_0 \/ KeyGeneration_6_2_0 <= gen
  \/ IsZero (secure_boot_key ks) = true \/ IsZero (tsec_key ks) = true
  \/ IsZero (slot (keyblob_key_sources ks) gen) = true ->
  slot (keyblob_keys (DeriveKeys' ks)) gen = slot (keyblob_keys ks) gen.
Proof.
  intros Hwf Hgen Hcase. apply slot_lookup.
  rewrite DeriveKeys_keyblob_keys by assumption.
  assert (in_gen KeyGeneration_1_0_0 KeyGeneration_6_2_0 gen && keyblob_key_ready ks gen = false)
    as ->.
  { unfold in_gen, keyblob_key_ready.
    destruct Hcase as [H|[H|[H|[H|H]]]].
    - assert ((KeyGeneration_1_0_0 <=? gen) = false) as -> by (apply Nat.leb_gt; lia).
      reflexivity.
    - assert ((gen <? KeyGeneration_6_2_0) = false) as -> by (apply Nat.ltb_ge; lia).
      rewrite andb_false_r. reflexivity.
    - rewrite H. simpl. apply andb_false_r.
    - rewrite H. simpl. rewrite andb_false_r. apply andb_false_r.
    - rewrite H. simpl. rewrite !andb_false_r. reflexivity. }
  apply lookup_slot. destruct Hwf as (-> & _). exact Hgen.
Qed.

(** X4.  Stage S3.  [device_key] becomes [per_console_key_source] decrypted
    under the derived [keyblob_keys[KeyGeneration_1_0_0]] when
    [secure_boot_key], [tsec_key], the first generation's keyblob key
    source, [keyblob_mac_key_source] and [per_console_key_source] are
    all non-zero, and keeps its content otherwise: without
    [keyblob_mac_key_source] there is no device key. *)
Theorem DeriveKeys_device_key_cases (ks : KeySet) :
  KeySet_wf KeyGeneration_Max ks ->
  KeyGeneration_1_0_0 < KeyGeneration_6_2_0 ->
  device_key (DeriveKeys' ks)
  = if negb (IsZero (secure_boot_key ks)) && negb (IsZero (tsec_key ks))
       && negb (IsZero (slot (keyblob_key_sources ks) KeyGeneration_1_0_0))
       && negb (IsZero (keyblob_mac_key_source ks))
       && negb (IsZero (per_console_key_source ks))
    then DecryptBlock (slot (keyblob_keys (DeriveKeys' ks)) KeyGeneration_1_0_0)
           (per_console_key_source ks)
    else device_key ks.
Proof.
  intros Hwf Hlt.
  rewrite DeriveKeys_device_key by assumption.
  assert ((KeyGeneration_1_0_0 <? KeyGeneration_6_2_0) = true) as ->
    by (apply Nat.ltb_lt; exact Hlt).
  simpl. unfold device_key_ready, keyblob_mac_key_ready, device_key_value.
  rewrite Nat.eqb_refl. simpl.
  change (negb (IsZero (secure_boot_key ks)) && negb (IsZero (tsec_key ks))
          && negb (IsZero (slot (keyblob_key_sources ks) KeyGeneration_1_0_0)))
    with (keyblob_key_ready ks KeyGeneration_1_0_0).
  destruct (keyblob_key_ready ks KeyGeneration_1_0_0) eqn:E; [|reflexivity].
  assert (slot (keyblob_keys (DeriveKeys' ks)) KeyGeneration_1_0_0
          = keyblob_key_value DecryptBlock ks KeyGeneration_1_0_0) as ->; [|reflexivity].
  apply slot_lookup.
  rewrite DeriveKeys_keyblob_keys by (assumption || lia).
  rewrite in_gen_true by lia. rewrite E. reflexivity.
Qed.

(** X5.  Stage S5, package1 keys.  For every generation, [package1_keys[gen]]
    becomes bytes [0x80..0x90] of the generation's keyblob when the
    generation is before [KeyGeneration_6_2_0] and those bytes are
    non-zero, and keeps its content otherwise; generations from
    [KeyGeneration_6_2_0] on are never written. *)
Theorem DeriveKeys_package1_key_cases (ks : KeySet) (gen : nat) :
  KeySet_wf KeyGeneration_Max ks ->
  KeyGeneration_1_0_0 <= gen < KeyGeneration_Max ->
  slot (package1_keys (DeriveKeys' ks)) gen
  = if (gen <? KeyGeneration_6_2_0)
       && negb (IsZero (span (slot (keyblobs ks) gen) 0x80 AesKeySize))
    then span (slot (keyblobs ks) gen) 0x80 AesKeySize
    else slot (package1_keys ks) gen.
Proof.
  intros Hwf Hgen. apply slot_lookup.
  rewrite DeriveKeys_package1_keys by (assumption || lia).
  unfold in_gen, keyblob_package1_ready, keyblob_package1_value.
  assert ((KeyGeneration_1_0_0 <=? gen) = true) as -> by (apply Nat.leb_le; lia). simpl.
  destruct (_ && _); [reflexivity|].
  apply lookup_slot. destruct Hwf as (_ & _ & _ & _ & _ & _ & _ & ->). lia.
Qed.

Lemma fold_left_fixed {A B : Type} (f : A -> B -> A) (l : list B) (a : A) :
  (forall b, In b l -> f a b = a) -> fold_left f l a = a.
Proof.
  induction l as [|b l IH]; simpl; intros H; [reflexivity|].
  rewrite (H b) by (left; reflexivity). apply IH. intros b' Hb'. apply H. right. exact Hb'.
Qed.

(** X6.  Nothing to derive from.  When [secure_boot_key] or [tsec_key] is
    unset, no keyblob of a generation before [KeyGeneration_6_2_0] holds
    a master kek or a package1 key, and [mariko_kek] and
    [master_key_source] are unset, [DeriveKeys] returns the key set as
    it got it: keys given directly in the key file are all kept. *)
Theorem DeriveKeys_nothing_to_derive (ks : KeySet) :
  IsZero (secure_boot_key ks) = true \/ IsZero (tsec_key ks) = true ->
  (forall gen, KeyGeneration_1_0_0 <= gen < KeyGeneration_6_2_0 ->
     IsZero (span (slot (keyblobs ks) gen) 0x80 AesKeySize) = true
     /\ IsZero (span (slot (keyblobs ks) gen) 0x00 AesKeySize) = true) ->
  IsZero (mariko_kek ks) = true ->
  IsZero (master_key_source ks) = true ->
  DeriveKeys' ks = ks.
Proof.
  clear gen_le. intros Hroot Hblobs Hmariko Hsource. rewrite DeriveKeys_stages.
  assert (H1 : stage_keyblob_keys KeyGeneration_1_0_0 KeyGeneration_6_2_0 DecryptBlock ks = ks).
  { unfold stage_keyblob_keys, for_gen. apply fold_left_fixed. intros g _.
    unfold derive_keyblob_keys_body. destruct Hroot as [->| ->]; [reflexivity|].
    destruct (IsZero (secure_boot_key ks)); reflexivity. }
  rewrite H1.
  assert (H3 : stage_keyblob_fields KeyGeneration_1_0_0 KeyGeneration_6_2_0 ks = ks).
  { unfold stage_keyblob_fields, for_gen. apply fold_left_fixed. intros g Hg.
    apply list_elem_of_In, elem_of_seq in Hg.
    destruct (Hblobs g ltac:(lia)) as [Hp Hm].
    unfold keyblob_fields_body. rewrite Hp. simpl. rewrite Hm. reflexivity. }
  rewrite H3.
  assert (H5 : stage_mariko KeyGeneration_1_0_0 KeyGeneration_Max DecryptBlock ks = ks).
  { unfold stage_mariko, for_gen. apply fold_left_fixed. intros g _.
    unfold mariko_master_kek_body. rewrite Hmariko. reflexivity. }
  rewrite H5.
  unfold stage_master_keys, for_gen. apply fold_left_fixed. intros g _.
  unfold master_key_body. rewrite Hsource. reflexivity.
Qed.

End DerivationCases.

(** ** More on the hex codec *)

Lemma hex_digit_cases (d : Z) :
  (0 <= d < 16)%Z ->
  d = 0%Z \/ d = 1%Z \/ d = 2%Z \/ d = 3%Z \/ d = 4%Z \/ d = 5%Z \/ d = 6%Z \/ d = 7%Z
  \/ d = 8%Z \/ d = 9%Z \/ d = 10%Z \/ d = 11%Z \/ d = 12%Z \/ d = 13%Z \/ d = 14%Z
  \/ d = 15%Z.
Proof. lia. Qed.

Lemma hex_digit_facts (upper : bool) (d : Z) :
  (0 <= d < 16)%Z ->
  HexToI (hex_digit upper d) = d
  /\ not_hexadecimal (hex_digit upper d) = false
  /\ Ascii.eqb (hex_digit upper d) NUL = false
  /\ to_lower (hex_digit upper d) = hex_digit false d
  /\ key_char (hex_digit upper d) = true
  /\ value_char (hex_digit upper d) = true.
Proof.
  intros Hd. destruct upper;
    destruct (hex_digit_cases d Hd)
      as [->|[->|[->|[->|[->|[->|[->|[->|[->|[->|[->|[->|[->|[->|[->| ->]]]]]]]]]]]]]]];
    vm_compute; repeat split; reflexivity.
Qed.

Lemma byte_of_digits (hi lo : Z) :
  (0 <= hi < 16)%Z -> (0 <= lo < 16)%Z ->
  (Z.lor (Z.shiftl hi 4) (Z.shiftl lo 0) mod 256 = 16 * hi + lo)%Z.
Proof.
  intros Hhi Hlo.
  destruct (hex_digit_cases hi Hhi)
    as [->|[->|[->|[->|[->|[->|[->|[->|[->|[->|[->|[->|[->|[->|[->| ->]]]]]]]]]]]]]]];
    destruct (hex_digit_cases lo Hlo)
      as [->|[->|[->|[->|[->|[->|[->|[->|[->|[->|[->|[->|[->|[->|[->| ->]]]]]]]]]]]]]]];
    reflexivity.
Qed.

Lemma decode_from_skip_pair (n : nat) :
  forall (a b : ascii) (src : cptr) (i : nat),
    decode_from n (a :: b :: src) (S i) = decode_from n src i.
Proof.
  induction n as [|n IH]; intros a b src i; [reflexivity|].
  cbn [decode_from]. rewrite IH.
  replace (2 * S i + 0) with (S (S (2 * i + 0))) by lia.
  replace (2 * S i + 1) with (S (S (2 * i + 1))) by lia.
  reflexivity.
Qed.

Lemma decode_from_hex_of (upper : bool) (bs : list Z) (rest : list ascii) :
  forallb is_byte bs = true ->
  decode_from (length bs) (hex_of upper bs ++ rest) 0 = Some bs.
Proof.
  induction bs as [|b bs IH]; intros H; [reflexivity|].
  simpl in H. apply andb_true_iff in H as [Hb Hbs].
  unfold is_byte in Hb. apply andb_true_iff in Hb as [Hb0 Hb1].
  apply Z.leb_le in Hb0. apply Z.ltb_lt in Hb1.
  assert (Hhi : (0 <= b / 16 < 16)%Z).
  { split; [apply Z.div_pos; lia|apply Z.div_lt_upper_bound; lia]. }
  assert (Hlo : (0 <= b mod 16 < 16)%Z) by (apply Z.mod_pos_bound; lia).
  change (hex_of upper (b :: bs) ++ rest)
    with (hex_digit upper (b / 16) :: hex_digit upper (b mod 16) :: (hex_of upper bs ++ rest)).
  simpl length. cbn [decode_from].
  change ((hex_digit upper (b / 16) :: hex_digit upper (b mod 16)
             :: (hex_of upper bs ++ rest)) !! (2 * 0 + 0))
    with (Some (hex_digit upper (b / 16))).
  change ((hex_digit upper (b / 16) :: hex_digit upper (b mod 16)
             :: (hex_of upper bs ++ rest)) !! (2 * 0 + 1))
    with (Some (hex_digit upper (b mod 16))).
  cbv beta iota. rewrite decode_from_skip_pair, IH by exact Hbs.
  destruct (hex_digit_facts upper (b / 16) Hhi) as (-> & _).
  destruct (hex_digit_facts upper (b mod 16) Hlo) as (-> & _).
  rewrite byte_of_digits by assumption.
  f_equal. f_equal. pose proof (Z.div_mod b 16). lia.
Qed.

Lemma length_hex_of (upper : bool) (bs : list Z) : length (hex_of upper bs) = 2 * length bs.
Proof. induction bs as [|b bs IH]; simpl; [reflexivity|]. rewrite IH. lia. Qed.

Lemma hex_of_chars (upper : bool) (bs : list Z) :
  forallb is_byte bs = true ->
  forallb (fun c => negb (Ascii.eqb c NUL)) (hex_of upper bs) = true
  /\ existsb not_hexadecimal (hex_of upper bs) = false
  /\ forallb key_char (hex_of upper bs) = true
  /\ forallb value_char (hex_of upper bs) = true
  /\ map to_lower (hex_of upper bs) = hex_of false bs.
Proof.
  induction bs as [|b bs IH]; intros H; [repeat split|].
  simpl in H. apply andb_true_iff in H as [Hb Hbs].
  unfold is_byte in Hb. apply andb_true_iff in Hb as [Hb0 Hb1].
  apply Z.leb_le in Hb0. apply Z.ltb_lt in Hb1.
  assert (Hhi : (0 <= b / 16 < 16)%Z).
  { split; [apply Z.div_pos; lia|apply Z.div_lt_upper_bound; lia]. }
  assert (Hlo : (0 <= b mod 16 < 16)%Z) by (apply Z.mod_pos_bound; lia).
  destruct (IH Hbs) as (I1 & I2 & I3 & I4 & I5).
  destruct (hex_digit_facts upper (b / 16) Hhi) as (_ & A2 & A3 & A4 & A5 & A6).
  destruct (hex_digit_facts upper (b mod 16) Hlo) as (_ & B2 & B3 & B4 & B5 & B6).
  change (hex_of upper (b :: bs))
    with (hex_digit upper (b / 16) :: hex_digit upper (b mod 16) :: hex_of upper bs).
  change (hex_of false (b :: bs))
    with (hex_digit false (b / 16) :: hex_digit false (b mod 16) :: hex_of false bs).
  cbn [forallb existsb map].
  rewrite A2, A3, A4, A5, A6, B2, B3, B4, B5, B6, I1, I2, I3, I4, I5. repeat split.
Qed.

(** X7.  The codec turns the text of bytes back into the bytes.  Where
    [src] starts with the hex text of [bs], in either case,
    [DecodeHex] with [size = length bs] gives [bs] whatever follows the
    [2 * size] digits; what follows only decides the diagnostic, written
    exactly when the C string is longer than the digits. *)
Theorem DecodeHex_hex_of (upper : bool) (bs : list Z) (rest : list ascii) (len : nat)
    (log : list Warning) :
  forallb is_byte bs = true ->
  strlen (hex_of upper bs ++ rest) = Some len ->
  DecodeHex (hex_of upper bs ++ rest) (length bs) log
  = Some (bs, if len =? 2 * length bs then log
              else log ++ [MalformedValueLength len (2 * length bs)]).
Proof.
  intros Hbs Hlen. unfold DecodeHex. rewrite Hlen, decode_from_hex_of by exact Hbs.
  destruct (len =? 2 * length bs); reflexivity.
Qed.

(** ** More on the parser: any callback *)

Section ParserRuns.

Variable St : Type.
Variable f : cptr -> cptr -> World St -> option (World St).

(** One turn that goes on, then the rest of the file. *)
Lemma ProcessKeyValueFile_continue (text pre tail : list ascii) (w w' : World St) :
  parse_turn St f (length text) text 0 w = Continue St (pre ++ tail) (length pre) w' ->
  ProcessKeyValueFile St f text (length text) w
  = shift_parsed pre (ProcessKeyValueFile St f tail (length tail) w').
Proof.
  intros Ht. destruct text as [|a text]; [discriminate Ht|].
  pose proof (parse_turn_progress _ _ _ _ _ _ _ _ _ Ht ltac:(simpl; lia)) as [Hofs Hlen].
  rewrite length_app in Hlen. simpl in Hlen.
  unfold ProcessKeyValueFile. simpl length. simpl parse_loop.
  simpl in Ht. rewrite Ht.
  replace (S (length text)) with (length pre + length tail) by lia.
  rewrite <- (Nat.add_0_r (length pre)) at 2.
  rewrite parse_loop_shift. f_equal. apply parse_loop_fuel_irrelevant; lia.
Qed.

Lemma ProcessKeyValueFile_stop (text : list ascii) (r : Parsed St) (w : World St) :
  text <> [] ->
  parse_turn St f (length text) text 0 w = Stop St r ->
  ProcessKeyValueFile St f text (length text) w = r.
Proof.
  intros Hne Ht. destruct text as [|a text]; [contradiction|].
  unfold ProcessKeyValueFile. simpl length. simpl parse_loop.
  simpl in Ht. rewrite Ht. reflexivity.
Qed.

Lemma ProcessKeyValueFile_filler (c : ascii) (rest : list ascii) (w : World St) :
  is_filler c = true ->
  ProcessKeyValueFile St f (c :: rest) (length (c :: rest)) w
  = shift_parsed [c] (ProcessKeyValueFile St f rest (length rest) w).
Proof.
  intros Hc. apply (ProcessKeyValueFile_continue (c :: rest) [c] rest).
  unfold parse_turn. simpl. rewrite Hc. reflexivity.
Qed.

Lemma ProcessKeyValueFile_fillers (fill rest : list ascii) (w : World St) :
  forallb is_filler fill = true ->
  ProcessKeyValueFile St f (fill ++ rest) (length (fill ++ rest)) w
  = shift_parsed fill (ProcessKeyValueFile St f rest (length rest) w).
Proof.
  induction fill as [|c fill IH]; intros H.
  - unfold shift_parsed. simpl.
    destruct (ProcessKeyValueFile St f rest (length rest) w). reflexivity.
  - cbn [forallb] in H. apply andb_true_iff in H as [Hc Hfill].
    change ((c :: fill) ++ rest) with (c :: (fill ++ rest)).
    rewrite (ProcessKeyValueFile_filler c (fill ++ rest) w Hc), IH by exact Hfill.
    reflexivity.
Qed.

(** The key of an entry, up to and including its delimiter: the turn
    goes on at the value with the key folded and terminated. *)
Lemma parse_turn_key (k bl1 : list ascii) (d : ascii) (tail : list ascii) (w : World St) :
  k <> [] -> forallb key_char k = true ->
  forallb is_blank bl1 = true -> is_delimiter d = true ->
  exists P X,
    P = map to_lower k ++ NUL :: X
    /\ X = tl (bl1 ++ [NUL])
    /\ length P = length k + length bl1 + 1
    /\ parse_turn St f (length (k ++ bl1 ++ d :: tail)) (k ++ bl1 ++ d :: tail) 0 w
       = parse_value St f (length (k ++ bl1 ++ d :: tail)) (P ++ tail) 0 (length P) w.
Proof.
  intros Hne Hk Hbl1 Hd.
  destruct k as [|a k]; [contradiction|]. clear Hne.
  pose proof Hk as Hk'. simpl in Hk'. apply andb_true_iff in Hk' as [Ha _].
  destruct (key_char_facts a Ha) as (Hfill & _).
  set (text := (a :: k) ++ bl1 ++ d :: tail).
  assert (Hl0 : text !! 0 = Some a) by reflexivity.
  unfold parse_turn. rewrite Hl0, Hfill, Nat.sub_0_r. clear Hl0.
  destruct bl1 as [|b bl1].
  - unfold text. simpl app.
    change (a :: k ++ d :: tail) with ((a :: k) ++ d :: tail).
    rewrite scan_key_key;
      [|assumption|apply is_delimiter_key_end, Hd|rewrite length_app; simpl; lia].
    assert ((length (a :: k) =? length ((a :: k) ++ d :: tail)) = false) as ->.
    { apply Nat.eqb_neq. rewrite length_app. simpl. lia. }
    rewrite list_lookup_middle by (rewrite length_map; reflexivity).
    rewrite Hd. rewrite insert_middle by (rewrite length_map; reflexivity).
    exists (map to_lower (a :: k) ++ [NUL]), [].
    split; [reflexivity|]. split; [reflexivity|].
    split; [rewrite length_app, length_map; simpl; lia|].
    rewrite <- app_assoc. simpl app at 2.
    replace (length (map to_lower (a :: k) ++ [NUL])) with (S (length (a :: k)))
      by (rewrite length_app, length_map; simpl; lia).
    reflexivity.
  - simpl in Hbl1. apply andb_true_iff in Hbl1 as [Hb Hbl1].
    destruct (blank_facts b Hb) as (Hbe & Hbd & _).
    unfold text.
    change ((a :: k) ++ (b :: bl1) ++ d :: tail) with ((a :: k) ++ b :: bl1 ++ d :: tail).
    rewrite scan_key_key; [|assumption|assumption|rewrite length_app; simpl; lia].
    assert ((length (a :: k) =? length ((a :: k) ++ b :: bl1 ++ d :: tail)) = false) as ->.
    { apply Nat.eqb_neq. rewrite length_app. simpl. lia. }
    rewrite list_lookup_middle by (rewrite length_map; reflexivity).
    rewrite Hbd. cbv zeta. rewrite insert_middle by (rewrite length_map; reflexivity).
    set (Q := map to_lower (a :: k) ++ [NUL]).
    replace (map to_lower (a :: k) ++ NUL :: bl1 ++ d :: tail)
      with (Q ++ bl1 ++ d :: tail) by (unfold Q; rewrite <- app_assoc; reflexivity).
    assert (HQ : length Q = S (length (a :: k)))
      by (unfold Q; rewrite length_app, length_map; simpl; lia).
    rewrite <- HQ.
    set (N := length ((a :: k) ++ b :: bl1 ++ d :: tail)).
    assert (HN : N = length Q + (length bl1 + S (length tail))).
    { unfold N. rewrite HQ. rewrite !length_app. simpl. rewrite !length_app. simpl. lia. }
    assert (Hs : skip_blanks (N - length Q) (Q ++ bl1 ++ d :: tail) (length Q)
                 = Some (length Q + length bl1)).
    { rewrite <- (Nat.add_0_r (length Q)) at 2. rewrite skip_blanks_shift.
      rewrite (skip_blanks_blanks bl1 _ d tail);
        [reflexivity|assumption|apply delimiter_not_blank, Hd|lia]. }
    rewrite Hs. clear Hs.
    assert ((length Q + length bl1 =? N) = false) as -> by (apply Nat.eqb_neq; lia).
    rewrite (app_assoc Q bl1).
    rewrite list_lookup_middle by (rewrite length_app; reflexivity).
    rewrite Hd. simpl negb. cbv iota.
    rewrite insert_middle by (rewrite length_app; reflexivity).
    exists ((Q ++ bl1) ++ [NUL]), (bl1 ++ [NUL]).
    split; [unfold Q; rewrite <- !app_assoc; reflexivity|].
    split; [reflexivity|].
    split; [rewrite !length_app, HQ; simpl; lia|].
    rewrite <- (app_assoc (Q ++ bl1) [NUL]). simpl app at 3.
    replace (length ((Q ++ bl1) ++ [NUL])) with (S (length Q + length bl1))
      by (rewrite !length_app; simpl; lia).
    reflexivity.
Qed.

End ParserRuns.

(** *** The value of an entry, for any callback *)

Lemma strlen_no_NUL (v : list ascii) :
  forallb (fun c => negb (Ascii.eqb c NUL)) v = true -> strlen v = None.
Proof.
  induction v as [|c v IH]; simpl; intros H; [reflexivity|].
  apply andb_true_iff in H as [Hc Hv]. apply negb_true_iff in Hc.
  rewrite Hc, IH by exact Hv. reflexivity.
Qed.

Lemma value_chars_no_NUL (v : list ascii) :
  forallb value_char v = true -> forallb (fun c => negb (Ascii.eqb c NUL)) v = true.
Proof.
  apply forallb_impl. intros c Hc.
  destruct (value_char_facts c Hc) as (_ & _ & ->). reflexivity.
Qed.

Lemma scan_value_unterminated (v : list ascii) :
  forallb value_char v = true -> scan_value (length v) v 0 = Some (v, length v).
Proof.
  induction v as [|a v IH]; intros Hv; [reflexivity|].
  simpl in Hv. apply andb_true_iff in Hv as [Ha Hv].
  destruct (value_char_facts a Ha) as (_ & Hend & _).
  simpl. rewrite Hend.
  change (scan_value (length v) ([a] ++ v) (length [a] + 0) = Some (a :: v, S (length v))).
  rewrite scan_value_shift, IH by exact Hv. reflexivity.
Qed.

Lemma skip_blanks_all (bl : list ascii) :
  forallb is_blank bl = true -> skip_blanks (length bl) bl 0 = Some (length bl).
Proof.
  induction bl as [|b bl IH]; intros H; [reflexivity|].
  simpl in H. apply andb_true_iff in H as [Hb Hbl].
  simpl. rewrite Hb.
  change (skip_blanks (length bl) ([b] ++ bl) (length [b] + 0) = Some (S (length bl))).
  rewrite skip_blanks_shift, IH by exact Hbl. reflexivity.
Qed.

Section ParserValues.

Variable St : Type.
Variable f : cptr -> cptr -> World St -> option (World St).

Lemma parse_value_terminated (P bl v : list ascii) (t : ascii) (rest : list ascii)
    (a : ascii) (file_size : nat) (w : World St) :
  P !! 0 = Some a -> Ascii.eqb a NUL = false ->
  forallb is_blank bl = true ->
  v <> [] -> forallb value_char v = true -> is_value_end t = true ->
  file_size = length (P ++ bl ++ v ++ t :: rest) ->
  parse_value St f file_size (P ++ bl ++ v ++ t :: rest) 0 (length P) w
  = match ProcessKeyValue St f ((P ++ bl ++ v) ++ NUL :: rest) (v ++ NUL :: rest) w with
    | Some w' => Continue St ((P ++ bl ++ v) ++ NUL :: rest) (length (P ++ bl ++ v)) w'
    | None => Stop St (mkParsed ((P ++ bl ++ v) ++ NUL :: rest) w OutOfBounds)
    end.
Proof.
  intros HP Ha Hbl Hne Hv Ht Hfs. unfold parse_value.
  assert (Hl : (P ++ bl ++ v ++ t :: rest) !! 0 = Some a).
  { apply lookup_app_l_Some, HP. }
  rewrite Hl, Ha. clear Hl.
  destruct v as [|v0 v]; [contradiction|].
  assert (Hv0 : is_blank v0 = false).
  { simpl in Hv. apply andb_true_iff in Hv as [Hv0 _]. apply (value_char_facts v0 Hv0). }
  rewrite !length_app in Hfs. simpl in Hfs.
  rewrite <- (Nat.add_0_r (length P)) at 2.
  rewrite skip_blanks_shift.
  rewrite (skip_blanks_blanks bl _ v0 (v ++ t :: rest)) by (assumption || lia).
  simpl fmap. cbv beta iota.
  assert ((length P + length bl =? file_size) = false) as -> by (apply Nat.eqb_neq; lia).
  rewrite (app_assoc P bl).
  replace (length P + length bl) with (length (P ++ bl) + 0) by (rewrite length_app; lia).
  rewrite scan_value_shift.
  rewrite (scan_value_value (v0 :: v) _ t rest)
    by (assumption || (rewrite length_app; simpl; lia)).
  simpl fmap. cbv beta iota. cbn [fst snd].
  rewrite Nat.add_0_r, drop_0, drop_app_length.
  rewrite <- !app_assoc.
  replace (length (P ++ bl ++ v0 :: v)) with (length (P ++ bl) + S (length v))
    by (rewrite !length_app; simpl; lia).
  reflexivity.
Qed.

Lemma parse_value_unterminated (P bl v : list ascii) (a : ascii) (file_size : nat)
    (w : World St) :
  P !! 0 = Some a -> Ascii.eqb a NUL = false ->
  forallb is_blank bl = true ->
  v <> [] -> forallb value_char v = true ->
  file_size = length (P ++ bl ++ v) ->
  parse_value St f file_size (P ++ bl ++ v) 0 (length P) w
  = Stop St (mkParsed (P ++ bl ++ v) w OutOfBounds).
Proof.
  intros HP Ha Hbl Hne Hv Hfs. unfold parse_value.
  assert (Hl : (P ++ bl ++ v) !! 0 = Some a) by (apply lookup_app_l_Some, HP).
  rewrite Hl, Ha. clear Hl.
  destruct v as [|v0 v]; [contradiction|].
  assert (Hv0 : is_blank v0 = false).
  { simpl in Hv. apply andb_true_iff in Hv as [Hv0 _]. apply (value_char_facts v0 Hv0). }
  rewrite !length_app in Hfs. simpl in Hfs.
  rewrite <- (Nat.add_0_r (length P)) at 2.
  rewrite skip_blanks_shift.
  rewrite (skip_blanks_blanks bl _ v0 v) by (assumption || lia).
  simpl fmap. cbv beta iota.
  assert ((length P + length bl =? file_size) = false) as -> by (apply Nat.eqb_neq; lia).
  rewrite (app_assoc P bl).
  replace (length P + length bl) with (length (P ++ bl) + 0) by (rewrite length_app; lia).
  replace (file_size - (length (P ++ bl) + 0)) with (length (v0 :: v))
    by (rewrite length_app; simpl; lia).
  rewrite scan_value_shift, scan_value_unterminated by exact Hv.
  simpl fmap. cbv beta iota. cbn [fst snd].
  rewrite Nat.add_0_r, drop_app_length.
  unfold ProcessKeyValue. rewrite strlen_no_NUL by (apply value_chars_no_NUL, Hv).
  reflexivity.
Qed.

Lemma parse_value_missing (P bl : list ascii) (a : ascii) (file_size : nat) (w : World St) :
  P !! 0 = Some a -> Ascii.eqb a NUL = false ->
  forallb is_blank bl = true ->
  file_size = length (P ++ bl) ->
  parse_value St f file_size (P ++ bl) 0 (length P) w
  = Stop St (mkParsed (P ++ bl) (warn w MissingValue) Returned).
Proof.
  intros HP Ha Hbl Hfs. unfold parse_value.
  assert (Hl : (P ++ bl) !! 0 = Some a) by (apply lookup_app_l_Some, HP).
  rewrite Hl, Ha. clear Hl.
  rewrite length_app in Hfs.
  replace (file_size - length P) with (length bl) by lia.
  rewrite <- (Nat.add_0_r (length P)) at 1.
  rewrite skip_blanks_shift, skip_blanks_all by exact Hbl.
  simpl fmap. cbv beta iota.
  assert ((length P + length bl =? file_size) = true) as -> by (apply Nat.eqb_eq; lia).
  reflexivity.
Qed.

End ParserValues.

Section ParserEntries.

Variable St : Type.
Variable f : cptr -> cptr -> World St -> option (World St).

Lemma shift_parsed_app (A B : list ascii) (r : Parsed St) :
  shift_parsed A (shift_parsed B r) = shift_parsed (A ++ B) r.
Proof. unfold shift_parsed. simpl. rewrite app_assoc. reflexivity. Qed.

(** One entry at the head of the file: the callback is given the key
    folded to lower case and the value, both terminated in place, and
    the loop goes on behind the entry. *)
Lemma ProcessKeyValueFile_entry (e : Entry) (rest : list ascii) (w : World St) :
  entry_ok e = true ->
  ProcessKeyValueFile St f (render e ++ rest) (length (render e ++ rest)) w
  = match ProcessKeyValue St f (entry_done e ++ rest) (entry_value e ++ NUL :: rest) w with
    | Some w' => shift_parsed (entry_done e) (ProcessKeyValueFile St f rest (length rest) w')
    | None => mkParsed (entry_done e ++ rest) w OutOfBounds
    end.
Proof.
  destruct e as [k bl1 d bl2 v t]. unfold entry_ok, render, entry_done. simpl.
  intros H. repeat (apply andb_true_iff in H as [H ?]).
  assert (Hk : k <> []) by (apply length_nonzero; assumption).
  assert (Hv : v <> []) by (apply length_nonzero; assumption).
  destruct (parse_turn_key St f k bl1 d (bl2 ++ v ++ t :: rest) w)
    as (P & X & HP & HX & HlenP & Hturn); try assumption.
  assert (HP0 : exists a, P !! 0 = Some a /\ Ascii.eqb a NUL = false).
  { destruct k as [|a k]; [contradiction|]. exists (to_lower a). split.
    - rewrite HP. reflexivity.
    - pose proof (no_NUL_lower (a :: k) ltac:(assumption)) as Hno.
      simpl in Hno. apply andb_true_iff in Hno as [Hno _].
      apply negb_true_iff in Hno. exact Hno. }
  destruct HP0 as (a & HP0 & Ha).
  assert (Hlen : length (k ++ bl1 ++ d :: bl2 ++ v ++ t :: rest)
                 = length (P ++ bl2 ++ v ++ t :: rest)).
  { rewrite !length_app. simpl. rewrite !length_app. simpl. lia. }
  rewrite (parse_value_terminated St f P bl2 v t rest a _ w HP0 Ha) in Hturn
    by assumption.
  rewrite <- HX.
  assert (Hdone : map to_lower k ++ NUL :: X ++ bl2 ++ v ++ [NUL] = (P ++ bl2 ++ v) ++ [NUL]).
  { rewrite HP. repeat (rewrite <- app_assoc; simpl). reflexivity. }
  rewrite Hdone.
  replace ((k ++ bl1 ++ d :: bl2 ++ v ++ [t]) ++ rest)
    with (k ++ bl1 ++ d :: bl2 ++ v ++ t :: rest)
    by (repeat (rewrite <- app_assoc; simpl); reflexivity).
  replace (((P ++ bl2 ++ v) ++ [NUL]) ++ rest) with ((P ++ bl2 ++ v) ++ NUL :: rest)
    by (rewrite <- (app_assoc _ [NUL]); reflexivity).
  destruct (ProcessKeyValue St f ((P ++ bl2 ++ v) ++ NUL :: rest) (v ++ NUL :: rest) w)
    as [w'|].
  - rewrite (ProcessKeyValueFile_continue St f _ _ _ _ _ Hturn).
    rewrite (ProcessKeyValueFile_filler St f NUL rest w' eq_refl).
    apply shift_parsed_app.
  - apply ProcessKeyValueFile_stop; [|exact Hturn].
    destruct k; [contradiction|discriminate].
Qed.

End ParserEntries.

(** *** Files that end inside an entry, and entries the loop refuses *)

Lemma scan_key_all (k : list ascii) :
  forallb key_char k = true ->
  scan_key (length k) k 0 = KeyEnds (map to_lower k) (length k).
Proof.
  induction k as [|a k IH]; intros Hk; [reflexivity|].
  simpl in Hk. apply andb_true_iff in Hk as [Ha Hk]. simpl.
  destruct (key_char_facts a Ha) as (_ & -> & -> & Hl & _).
  unfold to_lower. destruct (between "A" "Z" a).
  - change (scan_key (length k) ([fold_upper a] ++ k) (length [fold_upper a] + 0)
            = KeyEnds (fold_upper a :: map to_lower k) (S (length k))).
    rewrite scan_key_shift, IH by assumption. reflexivity.
  - rewrite Hl by reflexivity.
    change (scan_key (length k) ([a] ++ k) (length [a] + 0)
            = KeyEnds (a :: map to_lower k) (S (length k))).
    rewrite scan_key_shift, IH by assumption. reflexivity.
Qed.

Lemma scan_key_stray_at_end (k : list ascii) (c : ascii) :
  forallb key_char k = true -> key_char c = false -> is_key_end c = false ->
  Ascii.eqb c NUL = false ->
  scan_key (length (k ++ [c])) (k ++ [c]) 0 = KeyOutOfBounds (map to_lower k ++ [c]).
Proof.
  intros Hk Hc Hc' Hc0. rewrite length_app, Nat.add_comm. cbn [length Nat.add].
  induction k as [|a k IH].
  - simpl. rewrite Hc', Hc0.
    destruct (not_key_char_facts c Hc Hc') as (-> & Hbad).
    rewrite Hbad by exact Hc0. reflexivity.
  - simpl in Hk. apply andb_true_iff in Hk as [Ha Hk]. specialize (IH Hk).
    cbn [length app scan_key].
    change ((a :: k ++ [c]) !! 0) with (Some a).
    destruct (key_char_facts a Ha) as (_ & -> & -> & Hl & _).
    cbn [map]. unfold to_lower at 1. destruct (between "A" "Z" a).
    + change (scan_key (S (length k)) ([fold_upper a] ++ (k ++ [c])) (length [fold_upper a] + 0)
              = KeyOutOfBounds (fold_upper a :: map to_lower k ++ [c])).
      rewrite scan_key_shift, IH. reflexivity.
    + rewrite Hl by reflexivity.
      change (scan_key (S (length k)) ([a] ++ (k ++ [c])) (length [a] + 0)
              = KeyOutOfBounds (a :: map to_lower k ++ [c])).
      rewrite scan_key_shift, IH. reflexivity.
Qed.

Section ParserEnds.

Variable St : Type.
Variable f : cptr -> cptr -> World St -> option (World St).

(** The file ends in a value: no character ends the value, so no NUL
    is written and [ProcessKeyValue] takes the length of a string that
    is not terminated inside the buffer. *)
Lemma ProcessKeyValueFile_value_at_end (k bl1 : list ascii) (d : ascii) (bl2 v : list ascii)
    (w : World St) :
  k <> [] -> forallb key_char k = true ->
  forallb is_blank bl1 = true -> is_delimiter d = true -> forallb is_blank bl2 = true ->
  v <> [] -> forallb value_char v = true ->
  exists buf,
    ProcessKeyValueFile St f (k ++ bl1 ++ d :: bl2 ++ v) (length (k ++ bl1 ++ d :: bl2 ++ v)) w
    = mkParsed buf w OutOfBounds.
Proof.
  intros Hk0 Hk Hbl1 Hd Hbl2 Hv0 Hv.
  destruct (parse_turn_key St f k bl1 d (bl2 ++ v) w)
    as (P & X & HP & HX & HlenP & Hturn); try assumption.
  assert (HP0 : exists a, P !! 0 = Some a /\ Ascii.eqb a NUL = false).
  { destruct k as [|a k]; [contradiction|]. exists (to_lower a). split.
    - rewrite HP. reflexivity.
    - pose proof (no_NUL_lower (a :: k) Hk) as Hno.
      simpl in Hno. apply andb_true_iff in Hno as [Hno _].
      apply negb_true_iff in Hno. exact Hno. }
  destruct HP0 as (a & HP0 & Ha).
  assert (Hlen : length (k ++ bl1 ++ d :: bl2 ++ v) = length (P ++ bl2 ++ v)).
  { rewrite !length_app. simpl. rewrite !length_app. lia. }
  rewrite (parse_value_unterminated St f P bl2 v a _ w HP0 Ha) in Hturn by assumption.
  eexists. apply ProcessKeyValueFile_stop; [|exact Hturn].
  destruct k; [contradiction|discriminate].
Qed.

(** The file ends after the delimiter or in the blanks behind it. *)
Lemma ProcessKeyValueFile_missing_value (k bl1 : list ascii) (d : ascii) (bl2 : list ascii)
    (w : World St) :
  k <> [] -> forallb key_char k = true ->
  forallb is_blank bl1 = true -> is_delimiter d = true -> forallb is_blank bl2 = true ->
  exists buf,
    ProcessKeyValueFile St f (k ++ bl1 ++ d :: bl2) (length (k ++ bl1 ++ d :: bl2)) w
    = mkParsed buf (warn w MissingValue) Returned.
Proof.
  intros Hk0 Hk Hbl1 Hd Hbl2.
  destruct (parse_turn_key St f k bl1 d bl2 w)
    as (P & X & HP & HX & HlenP & Hturn); try assumption.
  assert (HP0 : exists a, P !! 0 = Some a /\ Ascii.eqb a NUL = false).
  { destruct k as [|a k]; [contradiction|]. exists (to_lower a). split.
    - rewrite HP. reflexivity.
    - pose proof (no_NUL_lower (a :: k) Hk) as Hno.
      simpl in Hno. apply andb_true_iff in Hno as [Hno _].
      apply negb_true_iff in Hno. exact Hno. }
  destruct HP0 as (a & HP0 & Ha).
  assert (Hlen : length (k ++ bl1 ++ d :: bl2) = length (P ++ bl2)).
  { rewrite !length_app. simpl. lia. }
  rewrite (parse_value_missing St f P bl2 a _ w HP0 Ha) in Hturn by assumption.
  eexists. apply ProcessKeyValueFile_stop; [|exact Hturn].
  destruct k; [contradiction|discriminate].
Qed.

(** The file ends in a key: the terminator of the key is written at
    [buf[file_size]], one past a buffer of [file_size] characters. *)
Lemma ProcessKeyValueFile_key_at_end (k : list ascii) (w : World St) :
  k <> [] -> forallb key_char k = true ->
  ProcessKeyValueFile St f k (length k) w = mkParsed (map to_lower k) w OutOfBounds.
Proof.
  intros Hk0 Hk. apply ProcessKeyValueFile_stop; [exact Hk0|].
  destruct k as [|a k]; [contradiction|].
  pose proof Hk as Hk'. simpl in Hk'. apply andb_true_iff in Hk' as [Ha _].
  destruct (key_char_facts a Ha) as (Hfill & _).
  set (text := a :: k) in *.
  assert (Hl0 : text !! 0 = Some a) by reflexivity.
  unfold parse_turn. rewrite Hl0, Hfill, Nat.sub_0_r.
  rewrite scan_key_all by exact Hk.
  rewrite Nat.eqb_refl, length_map.
  rewrite Nat.ltb_irrefl. reflexivity.
Qed.

(** The file ends one character behind a key, and that character
    neither belongs to a key nor ends one (a line end, say): the
    terminator that cuts the key for the diagnostic is written at
    [buf[file_size]]. *)
Lemma ProcessKeyValueFile_stray_at_end (k : list ascii) (c : ascii) (w : World St) :
  k <> [] -> forallb key_char k = true -> key_char c = false -> is_key_end c = false ->
  Ascii.eqb c NUL = false ->
  ProcessKeyValueFile St f (k ++ [c]) (length (k ++ [c])) w
  = mkParsed (map to_lower k ++ [c]) w OutOfBounds.
Proof.
  intros Hk0 Hk Hc Hc' Hc0. apply ProcessKeyValueFile_stop.
  { destruct k; [contradiction|discriminate]. }
  destruct k as [|a k]; [contradiction|].
  pose proof Hk as Hk'. simpl in Hk'. apply andb_true_iff in Hk' as [Ha _].
  destruct (key_char_facts a Ha) as (Hfill & _).
  set (text := (a :: k) ++ [c]) in *.
  assert (Hl0 : text !! 0 = Some a) by reflexivity.
  unfold parse_turn. rewrite Hl0, Hfill, Nat.sub_0_r.
  unfold text. rewrite scan_key_stray_at_end by assumption. reflexivity.
Qed.

(** A delimiter where a key should start. *)
Lemma ProcessKeyValueFile_empty_key (d : ascii) (rest : list ascii) (w : World St) :
  is_delimiter d = true ->
  ProcessKeyValueFile St f (d :: rest) (length (d :: rest)) w
  = mkParsed (NUL :: rest) (warn w EmptyKey) Returned.
Proof.
  intros Hd. apply ProcessKeyValueFile_stop; [discriminate|].
  assert (Hfill : is_filler d = false) by (revert Hd; ascii_cases d; congruence).
  set (text := d :: rest).
  assert (Hl0 : text !! 0 = Some d) by reflexivity.
  unfold parse_turn. rewrite Hl0, Hfill, Nat.sub_0_r.
  assert (Hscan : scan_key (length text) text 0 = KeyEnds text 0).
  { unfold text. simpl length. cbn [scan_key]. fold text.
    rewrite Hl0, (is_delimiter_key_end d Hd). reflexivity. }
  rewrite Hscan. change (0 =? length text) with false. cbv iota zeta.
  rewrite Hl0, Hd. unfold parse_value.
  assert (Hl1 : <[0 := NUL]> text !! 0 = Some NUL) by reflexivity.
  rewrite Hl1. reflexivity.
Qed.

(** Blanks behind a key and then no delimiter: another character, or
    the end of the file. *)
Lemma ProcessKeyValueFile_no_delimiter (k : list ascii) (b : ascii) (bl : list ascii)
    (tail : list ascii) (w : World St) :
  k <> [] -> forallb key_char k = true ->
  is_blank b = true -> forallb is_blank bl = true ->
  match tail with
  | [] => True
  | c :: _ => is_blank c = false /\ is_delimiter c = false
  end ->
  ProcessKeyValueFile St f (k ++ b :: bl ++ tail) (length (k ++ b :: bl ++ tail)) w
  = mkParsed (map to_lower k ++ NUL :: bl ++ tail) (warn w MalformedPair) Returned.
Proof.
  intros Hk0 Hk Hb Hbl Htail. apply ProcessKeyValueFile_stop.
  { destruct k; [contradiction|discriminate]. }
  destruct k as [|a k]; [contradiction|]. clear Hk0.
  pose proof Hk as Hk'. simpl in Hk'. apply andb_true_iff in Hk' as [Ha _].
  destruct (key_char_facts a Ha) as (Hfill & _).
  destruct (blank_facts b Hb) as (Hbe & Hbd & _).
  set (text := (a :: k) ++ b :: bl ++ tail).
  assert (Hl0 : text !! 0 = Some a) by reflexivity.
  unfold parse_turn. rewrite Hl0, Hfill, Nat.sub_0_r. clear Hl0.
  unfold text.
  rewrite scan_key_key; [|assumption|assumption|rewrite length_app; simpl; lia].
  assert ((length (a :: k) =? length ((a :: k) ++ b :: bl ++ tail)) = false) as ->.
  { apply Nat.eqb_neq. rewrite length_app. simpl. lia. }
  rewrite list_lookup_middle by (rewrite length_map; reflexivity).
  rewrite Hbd. cbv zeta. rewrite insert_middle by (rewrite length_map; reflexivity).
  set (Q := map to_lower (a :: k) ++ [NUL]).
  replace (map to_lower (a :: k) ++ NUL :: bl ++ tail)
    with (Q ++ bl ++ tail) by (unfold Q; rewrite <- app_assoc; reflexivity).
  assert (HQ : length Q = S (length (a :: k)))
    by (unfold Q; rewrite length_app, length_map; simpl; lia).
  rewrite <- HQ.
  set (N := length ((a :: k) ++ b :: bl ++ tail)).
  assert (HN : N = length Q + (length bl + length tail)).
  { unfold N. rewrite HQ. rewrite !length_app. simpl. rewrite !length_app. lia. }
  destruct tail as [|c tail].
  - rewrite app_nil_r. change (length (@nil ascii)) with 0 in HN.
    assert (Hs : skip_blanks (N - length Q) (Q ++ bl) (length Q)
                 = Some (length Q + length bl)).
    { replace (N - length Q) with (length bl) by lia.
      rewrite <- (Nat.add_0_r (length Q)) at 1.
      rewrite skip_blanks_shift, skip_blanks_all by exact Hbl. reflexivity. }
    rewrite Hs. clear Hs.
    assert ((length Q + length bl =? N) = true) as -> by (apply Nat.eqb_eq; lia).
    unfold Q. rewrite <- app_assoc. reflexivity.
  - destruct Htail as [Hcb Hcd]. change (length (c :: tail)) with (S (length tail)) in HN.
    assert (Hs : skip_blanks (N - length Q) (Q ++ bl ++ c :: tail) (length Q)
                 = Some (length Q + length bl)).
    { rewrite <- (Nat.add_0_r (length Q)) at 2. rewrite skip_blanks_shift.
      rewrite (skip_blanks_blanks bl _ c tail); [reflexivity|assumption|assumption|lia]. }
    rewrite Hs. clear Hs.
    assert ((length Q + length bl =? N) = false) as -> by (apply Nat.eqb_neq; lia).
    rewrite (app_assoc Q bl).
    rewrite list_lookup_middle by (rewrite length_app; reflexivity).
    rewrite Hcd. unfold Q. rewrite <- !app_assoc. reflexivity.
Qed.

End ParserEnds.

(** ** Title-key files *)

Section TitleKeyFiles.

Variable KeyManager : Type.
Variable Register : KeyManager -> list Z -> list Z -> KeyManager.

(** A rights id and a title key of the right sizes, as hex text in
    C strings: the pair is registered and nothing is written. *)
Lemma LoadTitleKey_hex (km : KeyManager) (rid key : list Z) (u1 u2 : bool)
    (Y Z : list ascii) (log : list Warning) :
  length rid = RightsIdSize -> forallb is_byte rid = true ->
  length key = AccessKeySize -> forallb is_byte key = true ->
  LoadTitleKey KeyManager Register km (hex_of u1 rid ++ NUL :: Y) (hex_of u2 key ++ NUL :: Z) log
  = Some (Register km rid key, log).
Proof.
  intros Hrl Hrb Hkl Hkb.
  destruct (hex_of_chars u1 rid Hrb) as (R1 & R2 & _).
  destruct (hex_of_chars u2 key Hkb) as (K1 & K2 & _).
  unfold LoadTitleKey, DecodeHex.
  rewrite !strlen_app by assumption.
  rewrite !length_hex_of, Hrl, Hkl.
  change (negb (2 * RightsIdSize mod 2 =? 0)) with false.
  change (negb (2 * RightsIdSize =? 32)) with false.
  change (negb (2 * AccessKeySize =? 32)) with false.
  cbv iota.
  unfold has_not_hexadecimal.
  replace (2 * RightsIdSize) with (length (hex_of u1 rid)) at 1
    by (rewrite length_hex_of, Hrl; reflexivity).
  rewrite take_app_length, R2.
  rewrite !Nat.eqb_refl. simpl negb. cbv iota zeta.
  rewrite <- Hrl at 1. rewrite decode_from_hex_of by exact Hrb.
  rewrite <- Hkl at 1. rewrite decode_from_hex_of by exact Hkb.
  reflexivity.
Qed.

Lemma ProcessKeyValue_title_key (km : KeyManager) (rid key : list Z) (u2 : bool)
    (Y Z : list ascii) (log : list Warning) :
  length rid = RightsIdSize -> forallb is_byte rid = true ->
  length key = AccessKeySize -> forallb is_byte key = true ->
  ProcessKeyValue KeyManager (title_key_callback Register)
    (hex_of false rid ++ NUL :: Y) (hex_of u2 key ++ NUL :: Z) (km, log)
  = Some (Register km rid key, log).
Proof.
  intros Hrl Hrb Hkl Hkb.
  destruct (hex_of_chars u2 key Hkb) as (K1 & K2 & _).
  unfold ProcessKeyValue. rewrite strlen_app by exact K1.
  rewrite length_hex_of, Hkl.
  change (negb (2 * AccessKeySize mod 2 =? 0)) with false. cbv iota.
  unfold has_not_hexadecimal.
  replace (2 * AccessKeySize) with (length (hex_of u2 key))
    by (rewrite length_hex_of, Hkl; reflexivity).
  rewrite take_app_length, K2.
  unfold title_key_callback. simpl fst. simpl snd.
  apply LoadTitleKey_hex; assumption.
Qed.

Lemma ProcessKeyValueFile_title_key_line (l : TitleKeyLine) (rest : list ascii)
    (km : KeyManager) (log : list Warning) :
  line_ok l = true ->
  ProcessKeyValueFile KeyManager (title_key_callback Register) (line_text l ++ rest)
    (length (line_text l ++ rest)) (km, log)
  = shift_parsed (line_filler l ++ entry_done (line_entry l))
      (ProcessKeyValueFile KeyManager (title_key_callback Register) rest (length rest)
         (Register km (line_rights_id l) (line_access_key l), log)).
Proof.
  intros Hl. unfold line_text. rewrite <- app_assoc.
  unfold line_ok in Hl. repeat (apply andb_true_iff in Hl as [Hl ?]).
  repeat match goal with H : (_ =? _) = true |- _ => apply Nat.eqb_eq in H end.
  destruct (hex_of_chars (line_rights_id_upper l) (line_rights_id l) ltac:(assumption))
    as (_ & _ & R3 & _ & R5).
  destruct (hex_of_chars (line_access_key_upper l) (line_access_key l) ltac:(assumption))
    as (_ & _ & _ & K4 & _).
  rewrite ProcessKeyValueFile_fillers by assumption.
  rewrite ProcessKeyValueFile_entry.
  2:{ unfold entry_ok, line_entry. cbn [entry_key entry_blanks_before entry_delimiter
        entry_blanks_after entry_value entry_end].
      rewrite !length_hex_of, R3, K4.
      repeat match goal with H : _ = true |- _ => rewrite H end.
      repeat match goal with H : length _ = _ |- _ => rewrite H end.
      reflexivity. }
  assert (Hkey : exists Y, entry_done (line_entry l) ++ rest
                           = hex_of false (line_rights_id l) ++ NUL :: Y).
  { unfold entry_done, line_entry.
    cbn [entry_key entry_blanks_before entry_delimiter entry_blanks_after entry_value
         entry_end].
    rewrite R5, <- app_assoc. cbn [app]. eexists. reflexivity. }
  destruct Hkey as (Y & Hkey). rewrite Hkey at 1.
  change (entry_value (line_entry l))
    with (hex_of (line_access_key_upper l) (line_access_key l)).
  rewrite ProcessKeyValue_title_key by assumption.
  apply shift_parsed_app.
Qed.

(** X8.  A title-key file of well-formed lines: every line is registered,
    in the order of the file, nothing is written to [stderr] and the
    parser reaches the end of the file.  The lines may be separated by
    filler, written in either case and with either delimiter. *)
Theorem ProcessKeyValueFile_title_keys (lines : list TitleKeyLine) (trailer : list ascii)
    (km : KeyManager) (log : list Warning) :
  forallb line_ok lines = true -> forallb is_filler trailer = true ->
  let text := concat (map line_text lines) ++ trailer in
  let r := ProcessKeyValueFile KeyManager (title_key_callback Register) text (length text)
             (km, log) in
  parsed_world r = (register_lines Register lines km, log) /\ parsed_exit r = Finished.
Proof.
  intros Hlines Htr. cbv zeta.
  revert km Hlines. induction lines as [|l lines IH]; intros km Hlines.
  - simpl. rewrite <- (app_nil_r trailer).
    rewrite ProcessKeyValueFile_fillers by exact Htr. split; reflexivity.
  - cbn [forallb] in Hlines. apply andb_true_iff in Hlines as [Hl Hlines].
    specialize (IH (Register km (line_rights_id l) (line_access_key l)) Hlines).
    cbn [map concat]. rewrite <- app_assoc.
    rewrite ProcessKeyValueFile_title_key_line by exact Hl.
    exact IH.
Qed.

End TitleKeyFiles.

(** ** What the parser hands to its callback *)

Lemma ProcessKeyValueFile_note_entry (e : Entry) (rest : list ascii)
    (w : World (list (string * string))) :
  entry_ok e = true ->
  ProcessKeyValueFile _ note_pair (render e ++ rest) (length (render e ++ rest)) w
  = shift_parsed (entry_done e)
      (ProcessKeyValueFile _ note_pair rest (length rest)
         (note_value (map to_lower (entry_key e)) (entry_value e) w)).
Proof.
  intros He. rewrite ProcessKeyValueFile_entry by exact He.
  unfold entry_ok in He. repeat (apply andb_true_iff in He as [He ?]).
  unfold entry_done at 1. rewrite <- app_assoc. cbn [app].
  rewrite ProcessKeyValue_note; [reflexivity|apply no_NUL_lower; assumption|assumption].
Qed.

Lemma ProcessKeyValueFile_note_lines (lines : list (list ascii * Entry)) (rest : list ascii) :
  forall w : World (list (string * string)),
    lines_ok lines = true ->
    ProcessKeyValueFile _ note_pair (text_of lines ++ rest) (length (text_of lines ++ rest)) w
    = shift_parsed (text_done lines)
        (ProcessKeyValueFile _ note_pair rest (length rest) (note_entries (map snd lines) w)).
Proof.
  induction lines as [|[fill e] lines IH]; intros w H.
  - unfold shift_parsed. simpl.
    destruct (ProcessKeyValueFile _ note_pair rest (length rest) w). reflexivity.
  - unfold lines_ok in H. cbn [forallb fst snd] in H.
    apply andb_true_iff in H as [Hl Hlines]. apply andb_true_iff in Hl as [Hfill He].
    unfold text_of, text_done. cbn [map concat fst snd].
    fold (text_of lines). fold (text_done lines).
    rewrite <- !app_assoc.
    rewrite ProcessKeyValueFile_fillers by exact Hfill.
    rewrite ProcessKeyValueFile_note_entry by exact He.
    rewrite IH by exact Hlines.
    rewrite !shift_parsed_app. unfold note_entries. cbn [fold_left].
    rewrite <- !app_assoc. reflexivity.
Qed.

Lemma note_entries_world (es : list Entry) :
  forall w : World (list (string * string)),
    note_entries es w
    = (fst w ++ concat (map entry_pairs es), snd w ++ concat (map entry_warnings es)).
Proof.
  induction es as [|e es IH]; intros [acc log].
  - simpl. rewrite !app_nil_r. reflexivity.
  - unfold note_entries. cbn [fold_left]. fold (note_entries es).
    rewrite IH. cbn [map concat].
    unfold note_value, entry_pairs, entry_warnings, well_formed_value, warn.
    destruct (length (entry_value e) mod 2 =? 0); cbn [negb andb fst snd];
      [destruct (existsb not_hexadecimal (entry_value e)); cbn [negb fst snd]|];
      rewrite <- ?app_assoc; reflexivity.
Qed.

(** X9.  The grammar of a key file.  On a file of well-formed lines, with
    any filler between them and behind them (so with line ends of
    either kind, empty lines and indentation), the callback is given
    one pair for each entry whose value is an even number of hex
    digits, in the order of the file, with the key in lower case; each
    other entry adds its diagnostic and is skipped; the parser reaches
    the end of the file, and leaves every key and value terminated in
    the buffer. *)
Theorem ProcessKeyValueFile_lines (lines : list (list ascii * Entry)) (trailer : list ascii)
    (acc : list (string * string)) (log : list Warning) :
  lines_ok lines = true -> forallb is_filler trailer = true ->
  ProcessKeyValueFile _ note_pair (text_of lines ++ trailer)
    (length (text_of lines ++ trailer)) (acc, log)
  = mkParsed (text_done lines ++ trailer)
      (acc ++ concat (map entry_pairs (map snd lines)),
       log ++ concat (map entry_warnings (map snd lines)))
      Finished.
Proof.
  intros Hlines Htr.
  rewrite ProcessKeyValueFile_note_lines by exact Hlines.
  rewrite <- (app_nil_r trailer) at 1 2.
  rewrite ProcessKeyValueFile_fillers by exact Htr.
  rewrite note_entries_world, shift_parsed_app.
  unfold shift_parsed. simpl. rewrite !app_nil_r. reflexivity.
Qed.

(** X10.  Files on which the parser leaves the buffer [LoadKeyValueFile]
    gives it, which has the size of the file.  When the last value
    runs to the end of the file, no terminator is written behind it and
    its length is taken past the buffer.  When the file ends in a key,
    the terminator of the key is written at [buf[file_size]].  When it
    ends one character behind a key, and that character is neither one
    of a key nor one that ends a key (a key alone on the last line,
    before its line end), the terminator for the diagnostic is written
    at [buf[file_size]] too.  In each case the pairs of the lines before
    have been delivered and nothing more. *)
Theorem LoadKeyValueFile_leaves_buffer (lines : list (list ascii * Entry))
    (fill k bl1 : list ascii) (d : ascii) (bl2 v : list ascii) (c : ascii)
    (acc : list (string * string)) (log : list Warning) :
  lines_ok lines = true -> forallb is_filler fill = true ->
  k <> [] -> forallb key_char k = true ->
  forallb is_blank bl1 = true -> is_delimiter d = true -> forallb is_blank bl2 = true ->
  v <> [] -> forallb value_char v = true ->
  key_char c = false -> is_key_end c = false -> Ascii.eqb c NUL = false ->
  let world := (acc ++ concat (map entry_pairs (map snd lines)),
                log ++ concat (map entry_warnings (map snd lines))) in
  let leaves text :=
    exists buf, LoadKeyValueFile note_pair (inr text) (acc, log)
                = inr (mkParsed buf world OutOfBounds) in
  leaves (text_of lines ++ fill ++ k ++ bl1 ++ d :: bl2 ++ v)
  /\ leaves (text_of lines ++ fill ++ k)
  /\ leaves (text_of lines ++ fill ++ k ++ [c]).
Proof.
  intros Hlines Hfill Hk0 Hk Hbl1 Hd Hbl2 Hv0 Hv Hc Hc' Hc0. cbv beta zeta.
  unfold LoadKeyValueFile.
  rewrite !ProcessKeyValueFile_note_lines by exact Hlines.
  rewrite (ProcessKeyValueFile_fillers _ _ fill (k ++ bl1 ++ d :: bl2 ++ v)) by exact Hfill.
  rewrite (ProcessKeyValueFile_fillers _ _ fill k) by exact Hfill.
  rewrite (ProcessKeyValueFile_fillers _ _ fill (k ++ [c])) by exact Hfill.
  rewrite note_entries_world. cbn [fst snd].
  destruct (ProcessKeyValueFile_value_at_end _ note_pair k bl1 d bl2 v
              (acc ++ concat (map entry_pairs (map snd lines)),
               log ++ concat (map entry_warnings (map snd lines))))
    as [buf ->]; try assumption.
  rewrite ProcessKeyValueFile_key_at_end by assumption.
  rewrite ProcessKeyValueFile_stray_at_end by assumption.
  unfold shift_parsed. cbn [parsed_buf parsed_world parsed_exit].
  repeat split; eexists; reflexivity.
Qed.

(** X11.  The three diagnostics on the shape of a line.  After well-formed
    lines, a delimiter where a key should start, a key followed by
    blanks and then anything but a delimiter, and a key and delimiter
    with nothing but blanks up to the end of the file each write their
    diagnostic and end the parse: whatever follows is not read, and the
    pairs of the lines before have been delivered. *)
Theorem ProcessKeyValueFile_malformed_line (lines : list (list ascii * Entry))
    (fill k bl1 : list ascii) (d b c : ascii) (bl2 rest : list ascii)
    (acc : list (string * string)) (log : list Warning) :
  lines_ok lines = true -> forallb is_filler fill = true ->
  k <> [] -> forallb key_char k = true ->
  forallb is_blank bl1 = true -> is_delimiter d = true -> forallb is_blank bl2 = true ->
  is_blank b = true -> is_blank c = false -> is_delimiter c = false ->
  let run text := ProcessKeyValueFile _ note_pair text (length text) (acc, log) in
  let result m := ((acc ++ concat (map entry_pairs (map snd lines)),
                    log ++ concat (map entry_warnings (map snd lines)) ++ [m]),
                   Returned) in
  let outcome r := (parsed_world r, parsed_exit r) in
  outcome (run (text_of lines ++ fill ++ d :: rest)) = result EmptyKey
  /\ outcome (run (text_of lines ++ fill ++ k ++ b :: bl1 ++ c :: rest)) = result MalformedPair
  /\ outcome (run (text_of lines ++ fill ++ k ++ b :: bl1)) = result MalformedPair
  /\ outcome (run (text_of lines ++ fill ++ k ++ bl1 ++ d :: bl2)) = result MissingValue.
Proof.
  intros Hlines Hfill Hk0 Hk Hbl1 Hd Hbl2 Hb Hc Hcd. cbv beta zeta.
  rewrite !ProcessKeyValueFile_note_lines by exact Hlines.
  rewrite (ProcessKeyValueFile_fillers _ _ fill (d :: rest)) by exact Hfill.
  rewrite (ProcessKeyValueFile_fillers _ _ fill (k ++ b :: bl1 ++ c :: rest)) by exact Hfill.
  rewrite (ProcessKeyValueFile_fillers _ _ fill (k ++ b :: bl1)) by exact Hfill.
  rewrite (ProcessKeyValueFile_fillers _ _ fill (k ++ bl1 ++ d :: bl2)) by exact Hfill.
  rewrite note_entries_world. cbn [fst snd].
  set (w := (acc ++ concat (map entry_pairs (map snd lines)),
             log ++ concat (map entry_warnings (map snd lines)))).
  rewrite ProcessKeyValueFile_empty_key by exact Hd.
  rewrite (ProcessKeyValueFile_no_delimiter _ note_pair k b bl1 (c :: rest) w)
    by (assumption || (split; assumption)).
  pose proof (ProcessKeyValueFile_no_delimiter _ note_pair k b bl1 [] w Hk0 Hk Hb Hbl1 I)
    as E.
  rewrite app_nil_r in E. rewrite E. clear E.
  destruct (ProcessKeyValueFile_missing_value _ note_pair k bl1 d bl2 w) as [buf ->];
    try assumption.
  unfold shift_parsed, warn, w. cbn [parsed_world parsed_exit fst snd].
  rewrite <- !app_assoc. repeat split.
Qed.

(** ** The parser on any buffer *)

Lemma strlen_lookup (s : cptr) :
  forall j, s !! j = Some NUL -> is_Some (strlen s).
Proof.
  induction s as [|c s IH]; intros j Hj; [destruct j; discriminate Hj|].
  simpl. destruct (Ascii.eqb c NUL) eqn:Hc; [eexists; reflexivity|].
  destruct j as [|j].
  - simpl in Hj. inversion Hj; subst. discriminate Hc.
  - destruct (IH j Hj) as [n ->]. eexists. reflexivity.
Qed.

Lemma strlen_drop (buf : list ascii) (i j : nat) :
  buf !! j = Some NUL -> i <= j -> is_Some (strlen (drop i buf)).
Proof.
  intros Hj Hij.
  assert (H : drop i buf !! (j - i) = Some NUL).
  { rewrite lookup_drop. replace (i + (j - i)) with j by lia. exact Hj. }
  exact (strlen_lookup _ _ H).
Qed.

Lemma scan_key_safe (file_size : nat) (n : nat) :
  forall buf kend,
    kend + n <= file_size -> file_size < length buf -> buf !! file_size = Some NUL ->
    match scan_key n buf kend with
    | KeyEnds b _ => b !! file_size = Some NUL
    | KeyMalformed _ => True
    | KeyOutOfBounds _ => False
    end.
Proof.
  induction n as [|n IH]; intros buf kend Hn Hlen Hnul; simpl; [exact Hnul|].
  destruct (lookup_lt_is_Some_2 buf kend ltac:(lia)) as [c ->].
  destruct (is_key_end c); [exact Hnul|].
  destruct (Ascii.eqb c NUL); [exact I|].
  destruct (between "A" "Z" c).
  - apply IH; [lia|rewrite length_insert; exact Hlen|].
    rewrite list_lookup_insert_ne by lia. exact Hnul.
  - destruct (not_key_char c).
    + assert ((S kend <? length buf) = true) as -> by (apply Nat.ltb_lt; lia). exact I.
    + apply IH; [lia|exact Hlen|exact Hnul].
Qed.

Lemma skip_blanks_safe (file_size : nat) (n : nat) :
  forall buf ofs,
    ofs + n <= file_size -> file_size < length buf -> is_Some (skip_blanks n buf ofs).
Proof.
  induction n as [|n IH]; intros buf ofs Hn Hlen; simpl; [eexists; reflexivity|].
  destruct (lookup_lt_is_Some_2 buf ofs ltac:(lia)) as [c ->].
  destruct (is_blank c); [apply IH; lia|eexists; reflexivity].
Qed.

Lemma scan_value_safe (file_size : nat) (n : nat) :
  forall buf vend,
    vend + n <= file_size -> file_size < length buf -> buf !! file_size = Some NUL ->
    exists b v, scan_value n buf vend = Some (b, v) /\ b !! file_size = Some NUL.
Proof.
  induction n as [|n IH]; intros buf vend Hn Hlen Hnul; simpl.
  - exists buf, vend. split; [reflexivity|exact Hnul].
  - destruct (lookup_lt_is_Some_2 buf vend ltac:(lia)) as [c ->].
    destruct (is_value_end c).
    + eexists _, _. split; [reflexivity|].
      rewrite list_lookup_insert_ne by lia. exact Hnul.
    + apply IH; [lia|exact Hlen|exact Hnul].
Qed.

Section ParserSafety.

Variable St : Type.
Variable f : cptr -> cptr -> World St -> option (World St).

(** The callback stays inside the two strings it is given. *)
Hypothesis f_defined :
  forall key value w, is_Some (strlen key) -> is_Some (strlen value) -> is_Some (f key value w).

Lemma parse_value_safe (file_size : nat) (buf : list ascii) (key ofs : nat) (w : World St) :
  key <= file_size -> ofs <= file_size ->
  file_size < length buf -> buf !! file_size = Some NUL ->
  match parse_value St f file_size buf key ofs w with
  | Continue _ b _ _ => b !! file_size = Some NUL
  | Stop _ r => parsed_exit r <> OutOfBounds
  end.
Proof.
  intros Hkey Hofs Hlen Hnul. unfold parse_value.
  destruct (lookup_lt_is_Some_2 buf key ltac:(lia)) as [k0 ->].
  destruct (Ascii.eqb k0 NUL); [discriminate|].
  destruct (skip_blanks_safe file_size (file_size - ofs) buf ofs ltac:(lia) Hlen) as [o Ho].
  rewrite Ho. apply skip_blanks_bounds in Ho.
  destruct (o =? file_size); [discriminate|].
  destruct (scan_value_safe file_size (file_size - o) buf o ltac:(lia) Hlen Hnul)
    as (b & v & Hv & Hb).
  rewrite Hv. apply scan_value_bounds in Hv as [Hv1 Hv2].
  unfold ProcessKeyValue.
  destruct (strlen_drop b o file_size Hb ltac:(lia)) as [len Hvalue]. rewrite Hvalue.
  destruct (negb (len mod 2 =? 0)); [exact Hb|].
  destruct (has_not_hexadecimal len (drop o b)); [exact Hb|].
  destruct (f_defined (drop key b) (drop o b) w) as [w' ->];
    [apply (strlen_drop b key file_size Hb Hkey)|rewrite Hvalue; eexists; reflexivity|].
  exact Hb.
Qed.

Lemma parse_turn_safe (file_size : nat) (buf : list ascii) (ofs : nat) (w : World St) :
  ofs < file_size -> file_size < length buf -> buf !! file_size = Some NUL ->
  match parse_turn St f file_size buf ofs w with
  | Continue _ b _ _ => b !! file_size = Some NUL
  | Stop _ r => parsed_exit r <> OutOfBounds
  end.
Proof.
  intros Hofs Hlen Hnul. unfold parse_turn.
  destruct (lookup_lt_is_Some_2 buf ofs ltac:(lia)) as [c ->].
  destruct (is_filler c); [exact Hnul|].
  pose proof (scan_key_safe file_size (file_size - ofs) buf ofs ltac:(lia) Hlen Hnul) as Hsafe.
  destruct (scan_key (file_size - ofs) buf ofs) as [b kend|b|b] eqn:Hk;
    [|discriminate|contradiction].
  apply scan_key_ends in Hk as [Hk1 Hk2].
  destruct (kend =? file_size) eqn:Hend.
  { assert ((kend <? length b) = true) as -> by (apply Nat.ltb_lt; lia). discriminate. }
  apply Nat.eqb_neq in Hend.
  destruct (lookup_lt_is_Some_2 b kend ltac:(lia)) as [d ->].
  assert (Hb1 : <[kend := NUL]> b !! file_size = Some NUL)
    by (rewrite list_lookup_insert_ne by lia; exact Hsafe).
  destruct (is_delimiter d).
  - apply parse_value_safe; [lia|lia|rewrite length_insert; lia|exact Hb1].
  - cbv zeta.
    destruct (skip_blanks_safe file_size (file_size - S kend) (<[kend := NUL]> b) (S kend)
                ltac:(lia) ltac:(rewrite length_insert; lia)) as [o Ho].
    rewrite Ho. apply skip_blanks_bounds in Ho.
    destruct (o =? file_size) eqn:Hofs'; [discriminate|]. apply Nat.eqb_neq in Hofs'.
    destruct (lookup_lt_is_Some_2 (<[kend := NUL]> b) o
                ltac:(rewrite length_insert; lia)) as [d' ->].
    destruct (negb (is_delimiter d')); [discriminate|].
    apply parse_value_safe; [lia|lia|rewrite !length_insert; lia|].
    rewrite list_lookup_insert_ne by lia. exact Hb1.
Qed.

Lemma parse_loop_safe (fuel : nat) :
  forall file_size buf ofs w,
    file_size < length buf -> buf !! file_size = Some NUL ->
    parsed_exit (parse_loop St f fuel file_size buf ofs w) <> OutOfBounds.
Proof.
  induction fuel as [|fuel IH]; intros file_size buf ofs w Hlen Hnul; simpl.
  - destruct (ofs <? file_size); discriminate.
  - destruct (ofs <? file_size) eqn:E; [|discriminate]. apply Nat.ltb_lt in E.
    pose proof (parse_turn_safe file_size buf ofs w E Hlen Hnul) as Hsafe.
    destruct (parse_turn St f file_size buf ofs w) as [b o w'|r] eqn:Ht; [|exact Hsafe].
    apply parse_turn_progress in Ht as [_ Hb]; [|exact E].
    apply IH; [rewrite Hb; exact Hlen|exact Hsafe].
Qed.

(** X12.  With one more character than [file_size] in the buffer, and that
    character a NUL, the parser stays inside the buffer whatever the
    content of the file: it reaches the end of the file or returns
    after a diagnostic.  The callback is taken to stay inside the two
    strings it is given. *)
Theorem ProcessKeyValueFile_safe_with_terminator (buf : list ascii) (file_size : nat)
    (w : World St) :
  file_size < length buf -> buf !! file_size = Some NUL ->
  parsed_exit (ProcessKeyValueFile St f buf file_size w) = Finished
  \/ parsed_exit (ProcessKeyValueFile St f buf file_size w) = Returned.
Proof.
  intros Hlen Hnul.
  pose proof (ProcessKeyValueFile_fuel St f buf file_size w) as Hfuel.
  pose proof (parse_loop_safe file_size file_size buf 0 w Hlen Hnul) as Hsafe.
  fold (ProcessKeyValueFile St f buf file_size w) in Hsafe.
  destruct (parsed_exit (ProcessKeyValueFile St f buf file_size w));
    [left; reflexivity|right; reflexivity|contradiction|contradiction].
Qed.

End ParserSafety.

(** *** The pairs the callback is given *)

Lemma fold_upper_key_char (c : ascii) :
  between "A" "Z" c = true -> not_key_char (fold_upper c) = false.
Proof. ascii_cases c; intros H; try discriminate H; reflexivity. Qed.

Lemma key_char_not_NUL (c : ascii) : not_key_char c = false -> Ascii.eqb c NUL = false.
Proof. ascii_cases c; intros H; try discriminate H; reflexivity. Qed.

Lemma key_segment_insert (buf : list ascii) (key kend j : nat) (c : ascii) :
  kend <= j -> key_segment buf key kend -> key_segment (<[j := c]> buf) key kend.
Proof.
  intros Hj H i Hi. destruct (H i Hi) as (x & Hx & Hc).
  exists x. rewrite list_lookup_insert_ne by lia. split; assumption.
Qed.

Lemma scan_key_segment (n : nat) :
  forall buf kend b kend' key,
    scan_key n buf kend = KeyEnds b kend' ->
    key <= kend -> key_segment buf key kend -> key_segment b key kend'.
Proof.
  induction n as [|n IH]; intros buf kend b kend' key H Hkey Hseg; simpl in H.
  - inversion H; subst. exact Hseg.
  - destruct (buf !! kend) as [c|] eqn:Hc; [|discriminate].
    destruct (is_key_end c); [inversion H; subst; exact Hseg|].
    destruct (Ascii.eqb c NUL); [discriminate|].
    destruct (between "A" "Z" c) eqn:Hup.
    + apply (IH _ _ _ _ key) in H; [exact H|lia|].
      intros i Hi. destruct (decide (i = kend)) as [->|Hne].
      * exists (fold_upper c). split; [|apply fold_upper_key_char, Hup].
        apply list_lookup_insert_eq. apply lookup_lt_Some in Hc. exact Hc.
      * destruct (Hseg i ltac:(lia)) as (x & Hx & Hxc). exists x.
        rewrite list_lookup_insert_ne by lia. split; assumption.
    + destruct (not_key_char c) eqn:Hbad.
      * destruct (S kend <? length buf); discriminate.
      * apply (IH _ _ _ _ key) in H; [exact H|lia|].
        intros i Hi. destruct (decide (i = kend)) as [->|Hne].
        -- exists c. split; assumption.
        -- apply Hseg. lia.
Qed.

Lemma scan_value_before (n : nat) :
  forall buf vend b vend',
    scan_value n buf vend = Some (b, vend') ->
    forall i, i < vend -> b !! i = buf !! i.
Proof.
  induction n as [|n IH]; intros buf vend b vend' H i Hi; simpl in H.
  - inversion H; subst. reflexivity.
  - destruct (buf !! vend) as [c|]; [|discriminate].
    destruct (is_value_end c).
    + inversion H; subst. apply list_lookup_insert_ne. lia.
    + apply (IH _ _ _ _ H). lia.
Qed.

Lemma c_str_key_segment (n : nat) :
  forall s : cptr,
    (forall i, i < n -> exists c, s !! i = Some c /\ not_key_char c = false) ->
    s !! n = Some NUL ->
    length (c_str s) = n /\ forallb (fun c => negb (not_key_char c)) (c_str s) = true.
Proof.
  induction n as [|n IH]; intros s Hseg Hnul.
  - destruct s as [|c s]; [discriminate Hnul|]. simpl in Hnul. inversion Hnul; subst.
    split; reflexivity.
  - destruct s as [|c s]; [discriminate Hnul|].
    destruct (Hseg 0 ltac:(lia)) as (x & Hx & Hxc). simpl in Hx. inversion Hx; subst x.
    simpl. rewrite (key_char_not_NUL c Hxc).
    destruct (IH s) as [Hl Hf].
    + intros i Hi. apply (Hseg (S i)). lia.
    + exact Hnul.
    + simpl. rewrite Hl, Hxc, Hf. split; reflexivity.
Qed.

Lemma strlen_c_str (s : cptr) :
  forall n, strlen s = Some n -> c_str s = take n s /\ length (take n s) = n.
Proof.
  induction s as [|c s IH]; intros n H; [discriminate H|].
  simpl in H. simpl. destruct (Ascii.eqb c NUL); [inversion H; subst; split; reflexivity|].
  destruct (strlen s) as [m|]; [|discriminate H]. simpl in H. inversion H; subst.
  destruct (IH m eq_refl) as [-> Hl]. simpl. rewrite Hl. split; reflexivity.
Qed.

Lemma ProcessKeyValue_contract (buf : list ascii) (key kend ofs : nat)
    (w : World (list (string * string))) :
  key < kend -> key_segment buf key kend -> buf !! kend = Some NUL ->
  Forall (fun p => pair_ok p = true) (fst w) ->
  match ProcessKeyValue _ note_pair (drop key buf) (drop ofs buf) w with
  | Some w' => Forall (fun p => pair_ok p = true) (fst w')
  | None => True
  end.
Proof.
  intros Hkey Hseg Hnul Hw. unfold ProcessKeyValue.
  destruct (strlen (drop ofs buf)) as [len|] eqn:Hlen; [|exact I].
  destruct (len mod 2 =? 0) eqn:Heven; [|exact Hw]. cbn [negb].
  unfold has_not_hexadecimal.
  destruct (existsb not_hexadecimal (take len (drop ofs buf))) eqn:Hhex; [exact Hw|].
  unfold note_pair. cbn [fst]. apply Forall_app. split; [exact Hw|].
  apply Forall_cons. split; [|apply Forall_nil; exact I].
  unfold pair_ok. cbn [fst snd]. rewrite !list_ascii_of_string_of_list_ascii.
  destruct (c_str_key_segment (kend - key) (drop key buf)) as [Hl Hf].
  { intros i Hi. destruct (Hseg (key + i) ltac:(lia)) as (c & Hc & Hcc).
    exists c. unfold cptr. rewrite lookup_drop. split; assumption. }
  { unfold cptr. rewrite lookup_drop. replace (key + (kend - key)) with kend by lia. exact Hnul. }
  rewrite Hl, Hf.
  assert ((kend - key =? 0) = false) as -> by (apply Nat.eqb_neq; lia).
  destruct (strlen_c_str _ _ Hlen) as [-> Hl'].
  unfold well_formed_value. rewrite Hl', Heven, Hhex. reflexivity.
Qed.

Lemma parse_value_contract (file_size : nat) (buf : list ascii) (key kend ofs : nat)
    (w : World (list (string * string))) :
  key <= kend -> kend < ofs -> key_segment buf key kend -> buf !! kend = Some NUL ->
  Forall (fun p => pair_ok p = true) (fst w) ->
  match parse_value _ note_pair file_size buf key ofs w with
  | Continue _ _ _ w' => Forall (fun p => pair_ok p = true) (fst w')
  | Stop _ r => Forall (fun p => pair_ok p = true) (fst (parsed_world r))
  end.
Proof.
  intros Hkey Hofs Hseg Hnul Hw. unfold parse_value.
  destruct (buf !! key) as [k0|] eqn:Hk0; [|exact Hw].
  destruct (Ascii.eqb k0 NUL) eqn:Hk0n; [exact Hw|].
  assert (Hlt : key < kend).
  { destruct (decide (key = kend)) as [->|]; [|lia].
    rewrite Hnul in Hk0. inversion Hk0; subst. discriminate Hk0n. }
  destruct (skip_blanks (file_size - ofs) buf ofs) as [o|] eqn:Ho; [|exact Hw].
  apply skip_blanks_bounds in Ho.
  destruct (o =? file_size); [exact Hw|].
  destruct (scan_value (file_size - o) buf o) as [[b v]|] eqn:Hv; [|exact Hw].
  pose proof (scan_value_before _ _ _ _ _ Hv) as Hsame.
  pose proof (ProcessKeyValue_contract b key kend o w Hlt) as Hc.
  destruct (ProcessKeyValue _ note_pair (drop key b) (drop o b) w) as [w'|]; [|exact Hw].
  apply Hc; [|rewrite Hsame by lia; exact Hnul|exact Hw].
  intros i Hi. rewrite Hsame by lia. apply Hseg, Hi.
Qed.

Lemma parse_turn_contract (file_size : nat) (buf : list ascii) (ofs : nat)
    (w : World (list (string * string))) :
  Forall (fun p => pair_ok p = true) (fst w) ->
  match parse_turn _ note_pair file_size buf ofs w with
  | Continue _ _ _ w' => Forall (fun p => pair_ok p = true) (fst w')
  | Stop _ r => Forall (fun p => pair_ok p = true) (fst (parsed_world r))
  end.
Proof.
  intros Hw. unfold parse_turn.
  destruct (buf !! ofs) as [c|]; [|exact Hw].
  destruct (is_filler c); [exact Hw|].
  destruct (scan_key (file_size - ofs) buf ofs) as [b kend|b|b] eqn:Hk; [|exact Hw|exact Hw].
  pose proof (scan_key_segment _ _ _ _ _ ofs Hk (le_n _)) as Hseg.
  specialize (Hseg ltac:(intros i Hi; lia)).
  apply scan_key_ends in Hk as [Hk1 Hk2].
  destruct (kend =? file_size); [destruct (kend <? length b); exact Hw|].
  destruct (b !! kend) as [d|] eqn:Hd; [|exact Hw].
  assert (Hkl : kend < length b) by (apply lookup_lt_Some in Hd; exact Hd).
  assert (Hnul : <[kend := NUL]> b !! kend = Some NUL)
    by (apply list_lookup_insert_eq; exact Hkl).
  assert (Hseg' : key_segment (<[kend := NUL]> b) ofs kend)
    by (apply key_segment_insert; [lia|exact Hseg]).
  destruct (is_delimiter d).
  - apply (parse_value_contract _ _ ofs kend); [lia|lia|exact Hseg'|exact Hnul|exact Hw].
  - cbv zeta.
    destruct (skip_blanks (file_size - S kend) (<[kend := NUL]> b) (S kend)) as [o|] eqn:Ho;
      [|exact Hw].
    apply skip_blanks_bounds in Ho.
    destruct (o =? file_size); [exact Hw|].
    destruct (<[kend := NUL]> b !! o) as [d'|]; [|exact Hw].
    destruct (negb (is_delimiter d')); [exact Hw|].
    apply (parse_value_contract _ _ ofs kend); [lia|lia| | |exact Hw].
    + apply key_segment_insert; [lia|exact Hseg'].
    + rewrite list_lookup_insert_ne by lia. exact Hnul.
Qed.

Lemma parse_loop_contract (fuel : nat) :
  forall file_size buf ofs (w : World (list (string * string))),
    Forall (fun p => pair_ok p = true) (fst w) ->
    Forall (fun p => pair_ok p = true)
      (fst (parsed_world (parse_loop _ note_pair fuel file_size buf ofs w))).
Proof.
  induction fuel as [|fuel IH]; intros file_size buf ofs w Hw; simpl; [exact Hw|].
  destruct (ofs <? file_size); [|exact Hw].
  pose proof (parse_turn_contract file_size buf ofs w Hw) as Ht.
  destruct (parse_turn _ note_pair file_size buf ofs w) as [b o w'|r]; [|exact Ht].
  apply IH, Ht.
Qed.

(** X13.  Whatever is in the buffer, every pair the callback is given has a
    key that is a non-empty word over [a-z0-9_] (no upper case is left)
    and a value that is an even number of hex digits, possibly none. *)
Theorem ProcessKeyValueFile_callback_contract (buf : list ascii) (file_size : nat)
    (log : list Warning) :
  Forall (fun p => pair_ok p = true)
    (fst (parsed_world (ProcessKeyValueFile _ note_pair buf file_size ([], log)))).
Proof. apply parse_loop_contract. apply Forall_nil. exact I. Qed.

(** ** External keys *)

Lemma strcmp_eq_same (name rest : list ascii) :
  forallb (fun c => negb (Ascii.eqb c NUL)) name = true ->
  strcmp_eq (name ++ NUL :: rest) name = Some true.
Proof.
  induction name as [|c name IH]; intros H; [reflexivity|].
  simpl in H. apply andb_true_iff in H as [_ H].
  simpl. rewrite Ascii.eqb_refl. apply IH, H.
Qed.

Lemma strcmp_eq_other (name : list ascii) :
  forall (key : cptr) (n : nat),
    forallb (fun c => negb (Ascii.eqb c NUL)) name = true ->
    strlen key = Some n -> c_str key <> name ->
    strcmp_eq key name = Some false.
Proof.
  induction name as [|c name IH]; intros key n Hname Hlen Hne.
  - destruct key as [|k key]; [discriminate Hlen|]. simpl in *.
    destruct (Ascii.eqb k NUL); [contradiction|reflexivity].
  - destruct key as [|k key]; [discriminate Hlen|].
    simpl in Hname. apply andb_true_iff in Hname as [Hc Hname].
    apply negb_true_iff in Hc. simpl in *.
    destruct (Ascii.eqb k c) eqn:Hkc; [|reflexivity].
    apply Ascii.eqb_eq in Hkc. subst k. rewrite Hc in *.
    destruct (strlen key) as [m|] eqn:Hm; [|discriminate Hlen].
    apply (IH key m Hname Hm). intros E. apply Hne. rewrite E. reflexivity.
Qed.

Lemma hex_digits_chars (fuel : nat) :
  forall n acc,
    forallb key_char acc = true -> forallb key_char (hex_digits fuel n acc) = true.
Proof.
  induction fuel as [|fuel IH]; intros n acc Hacc; [exact Hacc|].
  assert (Hd : forallb key_char (hex_digit false (Z.of_nat (n mod 16)) :: acc) = true).
  { cbn [forallb]. rewrite Hacc, andb_true_r.
    apply hex_digit_facts.
    pose proof (Nat.mod_upper_bound n 16 ltac:(lia)). lia. }
  cbn [hex_digits]. destruct (n / 16 =? 0); [exact Hd|apply IH, Hd].
Qed.

Lemma format_02x_chars (n : nat) : forallb key_char (format_02x n) = true.
Proof.
  unfold format_02x.
  pose proof (hex_digits_chars 8 n [] eq_refl) as H.
  destruct (length (hex_digits 8 n []) <? 2); [|exact H].
  cbn [forallb]. rewrite H. reflexivity.
Qed.

Lemma key_chars_no_NUL (k : list ascii) :
  forallb key_char k = true -> forallb (fun c => negb (Ascii.eqb c NUL)) k = true.
Proof.
  apply forallb_impl. intros c Hc.
  destruct (key_char_facts c Hc) as (_ & _ & -> & _). reflexivity.
Qed.

Lemma key_chars_lower (k : list ascii) :
  forallb key_char k = true -> forallb (fun c => negb (between "A" "Z" c)) k = true ->
  map to_lower k = k.
Proof.
  induction k as [|c k IH]; intros Hk Hl; [reflexivity|].
  simpl in *. apply andb_true_iff in Hk as [_ Hk]. apply andb_true_iff in Hl as [Hc Hl].
  apply negb_true_iff in Hc. unfold to_lower at 1. rewrite Hc, IH by assumption.
  reflexivity.
Qed.

Lemma decode_from_hex_then (upper : bool) (bs : list Z) :
  forall (src : cptr) (n : nat) (tail : list Z),
    forallb is_byte bs = true ->
    decode_from n src 0 = Some tail ->
    decode_from (length bs + n) (hex_of upper bs ++ src) 0 = Some (bs ++ tail).
Proof.
  induction bs as [|b bs IH]; intros src n tail H Htail; [exact Htail|].
  simpl in H. apply andb_true_iff in H as [Hb Hbs].
  unfold is_byte in Hb. apply andb_true_iff in Hb as [Hb0 Hb1].
  apply Z.leb_le in Hb0. apply Z.ltb_lt in Hb1.
  assert (Hhi : (0 <= b / 16 < 16)%Z).
  { split; [apply Z.div_pos; lia|apply Z.div_lt_upper_bound; lia]. }
  assert (Hlo : (0 <= b mod 16 < 16)%Z) by (apply Z.mod_pos_bound; lia).
  change (hex_of upper (b :: bs) ++ src)
    with (hex_digit upper (b / 16) :: hex_digit upper (b mod 16) :: (hex_of upper bs ++ src)).
  cbn [length Nat.add decode_from].
  change ((hex_digit upper (b / 16) :: hex_digit upper (b mod 16)
             :: (hex_of upper bs ++ src)) !! (2 * 0 + 0))
    with (Some (hex_digit upper (b / 16))).
  change ((hex_digit upper (b / 16) :: hex_digit upper (b mod 16)
             :: (hex_of upper bs ++ src)) !! (2 * 0 + 1))
    with (Some (hex_digit upper (b mod 16))).
  cbv beta iota. rewrite decode_from_skip_pair, (IH src n tail Hbs Htail).
  destruct (hex_digit_facts upper (b / 16) Hhi) as (-> & _).
  destruct (hex_digit_facts upper (b mod 16) Hlo) as (-> & _).
  rewrite byte_of_digits by assumption.
  f_equal. cbn [app]. f_equal. pose proof (Z.div_mod b 16). lia.
Qed.

(** *** The names are pairwise distinct *)

Lemma format_02x_two_digits (n : nat) :
  n < 256 ->
  format_02x n = [hex_digit false (Z.of_nat (n / 16)); hex_digit false (Z.of_nat (n mod 16))].
Proof.
  intros Hn. unfold format_02x. cbn [hex_digits].
  destruct (n / 16 =? 0) eqn:E.
  - apply Nat.eqb_eq in E. rewrite E. reflexivity.
  - apply Nat.eqb_neq in E.
    assert (H16 : n / 16 < 16) by (apply Nat.Div0.div_lt_upper_bound; lia).
    rewrite (Nat.mod_small (n / 16) 16 H16).
    rewrite (Nat.div_small (n / 16) 16 H16). reflexivity.
Qed.

Lemma hex_digit_inj (a b : nat) :
  a < 16 -> b < 16 -> hex_digit false (Z.of_nat a) = hex_digit false (Z.of_nat b) -> a = b.
Proof.
  intros Ha Hb H. apply (f_equal HexToI) in H.
  destruct (hex_digit_facts false (Z.of_nat a) ltac:(lia)) as (Ea & _).
  destruct (hex_digit_facts false (Z.of_nat b) ltac:(lia)) as (Eb & _).
  rewrite Ea, Eb in H. lia.
Qed.

Lemma format_02x_inj (a b : nat) :
  a < 256 -> b < 256 -> format_02x a = format_02x b -> a = b.
Proof.
  intros Ha Hb H. rewrite !format_02x_two_digits in H by assumption.
  pose proof (Nat.div_mod_eq a 16) as Ea. pose proof (Nat.div_mod_eq b 16) as Eb.
  assert (Ha1 : a / 16 < 16) by (apply Nat.Div0.div_lt_upper_bound; lia).
  assert (Hb1 : b / 16 < 16) by (apply Nat.Div0.div_lt_upper_bound; lia).
  assert (Ha0 : a mod 16 < 16) by (apply Nat.mod_upper_bound; lia).
  assert (Hb0 : b mod 16 < 16) by (apply Nat.mod_upper_bound; lia).
  set (a1 := a / 16) in *. set (a0 := a mod 16) in *.
  set (b1 := b / 16) in *. set (b0 := b mod 16) in *.
  clearbody a1 a0 b1 b0.
  injection H as H1 H0.
  apply hex_digit_inj in H1; [|assumption..].
  apply hex_digit_inj in H0; [|assumption..].
  lia.
Qed.

Lemma with_gen_inj (p q : list ascii) (a b : nat) :
  a < 256 -> b < 256 ->
  p ++ "_"%char :: format_02x a = q ++ "_"%char :: format_02x b -> p = q /\ a = b.
Proof.
  intros Ha Hb H.
  assert (Hl : length ("_"%char :: format_02x a) = length ("_"%char :: format_02x b))
    by (rewrite !format_02x_two_digits by assumption; reflexivity).
  apply app_inj_2 in H as [Hp Hd]; [|exact Hl].
  split; [exact Hp|].
  apply format_02x_inj; [assumption..|].
  injection Hd as Hd. exact Hd.
Qed.

Lemma ends_with_gen_with_gen (p : list ascii) (a : nat) :
  a < 256 -> ends_with_gen (p ++ "_"%char :: format_02x a) = true.
Proof.
  intros Ha. rewrite format_02x_two_digits by exact Ha.
  unfold ends_with_gen. rewrite rev_app_distr. cbn [rev app].
  destruct (hex_digit_facts false (Z.of_nat (a / 16))) as (_ & -> & _).
  { pose proof (Nat.Div0.div_lt_upper_bound a 16 16 ltac:(lia)). lia. }
  destruct (hex_digit_facts false (Z.of_nat (a mod 16))) as (_ & -> & _).
  { pose proof (Nat.mod_upper_bound a 16 ltac:(lia)). lia. }
  reflexivity.
Qed.

Lemma distinct_names_NoDup (names : list (list ascii)) :
  distinct_names names = true -> List.NoDup names.
Proof.
  induction names as [|x rest IH]; intros H; [constructor|].
  cbn [distinct_names] in H. apply andb_true_iff in H as [Hx Hrest].
  constructor; [|apply IH, Hrest].
  intros Hin. apply negb_true_iff in Hx.
  assert (existsb (fun y => if List.list_eq_dec ascii_dec x y then true else false) rest = true);
    [|congruence].
  apply existsb_exists. exists x. split; [exact Hin|].
  destruct (List.list_eq_dec ascii_dec x x); [reflexivity|contradiction].
Qed.

Lemma NoDup_flat_map_inj {A B : Type} (h : A -> list B) (G : list A) :
  List.NoDup G ->
  (forall g, In g G -> List.NoDup (h g)) ->
  (forall g g' x, In g G -> In g' G -> In x (h g) -> In x (h g') -> g = g') ->
  List.NoDup (flat_map h G).
Proof.
  induction G as [|g G IH]; intros HG Hh Hinj; [constructor|].
  cbn [flat_map]. inversion HG as [|? ? Hg HG']; subst.
  apply List.NoDup_app.
  - apply Hh. left. reflexivity.
  - apply IH; [exact HG'| |].
    + intros g' Hg'. apply Hh. right. exact Hg'.
    + intros g1 g2 x H1 H2. apply Hinj; right; assumption.
  - intros x Hx Hx'. apply in_flat_map in Hx' as (g' & Hg' & Hx').
    assert (g = g') by (apply (Hinj g g' x); [left; reflexivity|right; exact Hg'|assumption..]).
    subst g'. contradiction.
Qed.

Lemma map_flat_map {A B C : Type} (g : B -> C) (f : A -> list B) (l : list A) :
  map g (flat_map f l) = flat_map (fun x => map g (f x)) l.
Proof.
  induction l as [|x l IH]; [reflexivity|].
  cbn [flat_map]. rewrite map_app, IH. reflexivity.
Qed.

Ltac family_member H :=
  let g := fresh "g" in
  let Hg := fresh "Hg" in
  apply in_flat_map in H as (g & Hg & H);
  unfold gens in Hg; apply in_seq in Hg;
  cbn [map test_name TEST_KEY_WITH_GEN TEST_KEY_AREA_KEY In] in H;
  repeat (destruct H as [H|H]); try contradiction.

Ltac name_clash H :=
  apply with_gen_inj in H; [|lia..];
  let Hp := fresh "Hp" in
  destruct H as [Hp H];
  first [vm_compute in Hp; discriminate Hp | lia].

Ltac family_distinct :=
  apply NoDup_flat_map_inj;
  [ apply seq_NoDup
  | let g := fresh "g" in
    let Hg := fresh "Hg" in
    let H := fresh "H" in
    intros g Hg; unfold gens in Hg; apply in_seq in Hg;
    cbn [map test_name TEST_KEY_WITH_GEN TEST_KEY_AREA_KEY];
    repeat (apply List.NoDup_cons;
            [cbn [In]; intros H; repeat (destruct H as [H|H]);
             try contradiction; name_clash H|]);
    apply List.NoDup_nil
  | let g := fresh "g" in
    let g' := fresh "g" in
    let x := fresh "x" in
    let Hg := fresh "Hg" in
    let Hg' := fresh "Hg" in
    let H := fresh "H" in
    let H' := fresh "H" in
    intros g g' x Hg Hg' H H'; unfold gens in Hg, Hg'; apply in_seq in Hg, Hg';
    cbn [map test_name TEST_KEY_WITH_GEN TEST_KEY_AREA_KEY In] in H, H';
    repeat (destruct H as [H|H]); try contradiction; subst x;
    repeat (destruct H' as [H'|H']); try contradiction;
    name_clash H' ].

Ltac families_apart :=
  let x := fresh "x" in
  let Hx := fresh "Hx" in
  let Hx' := fresh "Hx" in
  intros x Hx Hx'; rewrite ?in_app_iff in Hx';
  family_member Hx; subst x;
  repeat match type of Hx' with _ \/ _ => destruct Hx' as [Hx'|Hx'] end;
  family_member Hx'; name_clash Hx'.

Lemma not_in_names (x : list ascii) (names : list (list ascii)) :
  forallb (fun y => if List.list_eq_dec ascii_dec x y then false else true) names = true ->
  ~ In x names.
Proof.
  intros H Hin. rewrite forallb_forall in H. specialize (H x Hin).
  destruct (List.list_eq_dec ascii_dec x x); [discriminate H|contradiction].
Qed.

Section ExternalKeyProperties.

Variables KeyGeneration_1_0_0 KeyGeneration_6_2_0 KeyGeneration_Max : nat.

Local Abbreviation tests :=
  (external_key_tests KeyGeneration_1_0_0 KeyGeneration_6_2_0 KeyGeneration_Max).
Local Abbreviation LoadExternalKey' :=
  (LoadExternalKey KeyGeneration_1_0_0 KeyGeneration_6_2_0 KeyGeneration_Max).

Lemma with_gen_name_chars (kn : string) (gn : nat) :
  forallb key_char (list_ascii_of_string kn) = true ->
  forallb key_char (list_ascii_of_string kn ++ "_"%char :: format_02x gn) = true.
Proof.
  intros H. rewrite forallb_app, H. cbn [forallb]. rewrite format_02x_chars. reflexivity.
Qed.

(** Every name [LoadExternalKey] tests for is a word over the
    characters of a key. *)
Lemma external_key_names_chars (t : KeyTest) :
  In t tests -> forallb key_char (test_name t) = true.
Proof.
  unfold external_key_tests. rewrite !in_app_iff, !in_flat_map.
  intros [H|[(gen & _ & H)|[(gen & _ & H)|[(gen & _ & H)|(gen & _ & H)]]]];
    cbn [In] in H;
    repeat (destruct H as [<-|H];
            [first [reflexivity|apply with_gen_name_chars; reflexivity]|]);
    contradiction.
Qed.

Lemma external_key_names_nonempty (t : KeyTest) : In t tests -> test_name t <> [].
Proof.
  unfold external_key_tests. rewrite !in_app_iff, !in_flat_map.
  intros [H|[(gen & _ & H)|[(gen & _ & H)|[(gen & _ & H)|(gen & _ & H)]]]];
    cbn [In] in H;
    repeat (destruct H as [<-|H]; [discriminate|]);
    contradiction.
Qed.

Lemma run_test_other (key value : cptr) (n : nat) (t : KeyTest)
    (st : option (KeySet * list Warning * bool)) :
  In t tests -> strlen key = Some n -> c_str key <> test_name t ->
  run_test key value st t = st.
Proof.
  intros Ht Hlen Hne. destruct st as [[[ks log] m]|]; [|reflexivity].
  unfold run_test.
  rewrite (strcmp_eq_other _ key n); [reflexivity| |exact Hlen|exact Hne].
  apply key_chars_no_NUL, external_key_names_chars, Ht.
Qed.

Lemma run_tests_other (key value : cptr) (n : nat) (l : list KeyTest) :
  forall st,
    (forall t, In t l -> In t tests) ->
    strlen key = Some n -> ~ In (c_str key) (map test_name l) ->
    fold_left (run_test key value) l st = st.
Proof.
  induction l as [|t l IH]; intros st Hin Hlen Hne; [reflexivity|].
  cbn [fold_left]. rewrite (run_test_other key value n t st).
  - apply IH; [intros t' Ht'; apply Hin; right; exact Ht'|exact Hlen|].
    intros H. apply Hne. right. exact H.
  - apply Hin. left. reflexivity.
  - exact Hlen.
  - intros E. apply Hne. left. symmetry. exact E.
Qed.

(** X14.  A key that is none of the names tested: the key set and [stderr]
    are left as they are, and the key and its value are reported as
    not matched. *)
Theorem LoadExternalKey_unknown_key (ks : KeySet) (key value : cptr) (log : list Warning)
    (unmatched : list (list ascii * list ascii)) (n m : nat) :
  strlen key = Some n -> strlen value = Some m ->
  ~ In (c_str key) (map test_name tests) ->
  LoadExternalKey' ks key value log unmatched
  = Some (ks, log, unmatched ++ [(c_str key, c_str value)]).
Proof.
  intros Hk Hv Hne. unfold LoadExternalKey.
  rewrite (run_tests_other key value n) by (auto || exact Hk || exact Hne).
  cbn [negb]. rewrite Hk, Hv. reflexivity.
Qed.

Section DistinctNames.

Hypothesis gen_le : KeyGeneration_6_2_0 <= KeyGeneration_Max.
Hypothesis gen_max : KeyGeneration_Max <= 256.

Lemma scalar_not_with_gen (x : list ascii) :
  In x (map test_name (firstn 26 tests)) ->
  ends_with_gen x = false.
Proof.
  cbn [firstn external_key_tests app map test_name TEST_KEY In].
  intros H. repeat (destruct H as [<-|H]; [reflexivity|]). contradiction.
Qed.

Lemma external_key_names_distinct :
  List.NoDup (map test_name tests).
Proof.
  unfold external_key_tests. rewrite !map_app, !map_flat_map.
  apply List.NoDup_app; [| |]; [apply distinct_names_NoDup; vm_compute; reflexivity| |].
  2:{ intros x Hx Hx'.
      assert (Hs : ends_with_gen x = false).
      { apply scalar_not_with_gen. exact Hx. }
      rewrite !in_app_iff in Hx'.
      destruct Hx' as [H|[H|[H|H]]]; family_member H; subst x;
        rewrite ends_with_gen_with_gen in Hs by lia; discriminate Hs. }
  apply List.NoDup_app; [family_distinct| |families_apart].
  apply List.NoDup_app; [family_distinct| |families_apart].
  apply List.NoDup_app; [family_distinct|family_distinct|families_apart].
Qed.

(** The key is one of the names tested: the test of that name decodes
    the value into its slot, and no other test does anything. *)
Lemma LoadExternalKey_match (ks : KeySet) (t : KeyTest) (Y : list ascii) (value : cptr)
    (len : nat) (dst : list Z) (log : list Warning)
    (unmatched : list (list ascii * list ascii)) :
  In t tests ->
  strlen value = Some len -> decode_from (test_size t) value 0 = Some dst ->
  LoadExternalKey' ks (test_name t ++ NUL :: Y) value log unmatched
  = Some (test_store t ks dst,
          if len =? 2 * test_size t then log
          else log ++ [MalformedValueLength len (2 * test_size t)],
          unmatched).
Proof.
  intros Ht Hlen Hdst. pose proof external_key_names_distinct as Hdup.
  destruct (in_split _ _ Ht) as (l1 & l2 & Hsplit).
  pose proof (external_key_names_chars t Ht) as Hchars.
  pose proof (key_chars_no_NUL _ Hchars) as Hnul.
  assert (Hkey : c_str (test_name t ++ NUL :: Y) = test_name t) by (apply c_str_app, Hnul).
  assert (Hklen : strlen (test_name t ++ NUL :: Y) = Some (length (test_name t)))
    by (apply strlen_app, Hnul).
  rewrite Hsplit, map_app in Hdup. cbn [map] in Hdup.
  apply NoDup_remove in Hdup as [_ Hnotin]. rewrite in_app_iff in Hnotin.
  unfold LoadExternalKey. rewrite Hsplit, fold_left_app. cbn [fold_left].
  rewrite (run_tests_other _ _ (length (test_name t)) l1).
  2:{ intros t' Ht'. rewrite Hsplit. apply in_or_app. left. exact Ht'. }
  2:{ exact Hklen. }
  2:{ rewrite Hkey. intros H. apply Hnotin. left. exact H. }
  unfold run_test at 2. rewrite strcmp_eq_same by exact Hnul.
  unfold DecodeHex. rewrite Hlen, Hdst.
  rewrite (run_tests_other _ _ (length (test_name t)) l2).
  2:{ intros t' Ht'. rewrite Hsplit. apply in_or_app. right. right. exact Ht'. }
  2:{ exact Hklen. }
  2:{ rewrite Hkey. intros H. apply Hnotin. right. exact H. }
  cbn [negb]. destruct (len =? 2 * test_size t); reflexivity.
Qed.

(** X15.  A key that is one of the names tested, with a value of as many
    bytes as the slot of that name has, in hex: the bytes are stored
    in that slot, every other slot is left as it is and nothing is
    reported.  The generations are numbered below 256, so that each
    is written with two digits. *)
Theorem LoadExternalKey_known_key (ks : KeySet) (t : KeyTest) (upper : bool) (bs : list Z)
    (Y rest : list ascii) (log : list Warning) (unmatched : list (list ascii * list ascii)) :
  In t tests ->
  length bs = test_size t -> forallb is_byte bs = true ->
  LoadExternalKey' ks (test_name t ++ NUL :: Y) (hex_of upper bs ++ NUL :: rest) log unmatched
  = Some (test_store t ks bs, log, unmatched).
Proof.
  intros Ht Hlen Hbs.
  destruct (hex_of_chars upper bs Hbs) as (Hv0 & _).
  rewrite (LoadExternalKey_match ks t Y _ (2 * length bs) bs).
  - rewrite Hlen, Nat.eqb_refl. reflexivity.
  - exact Ht.
  - rewrite strlen_app by exact Hv0. rewrite length_hex_of. reflexivity.
  - rewrite <- Hlen. apply decode_from_hex_of, Hbs.
Qed.

(** X16.  A value that is shorter than the slot it is for.  The slot is
    filled all the same: with the bytes the value writes, and then
    with what [DecodeHex] reads behind the terminator of the value,
    which in a key file is the text of the lines that follow.  One
    diagnostic is written. *)
Theorem LoadExternalKey_short_value (ks : KeySet) (t : KeyTest) (upper : bool)
    (bs : list Z) (Y behind : list ascii) (log : list Warning)
    (unmatched : list (list ascii * list ascii)) :
  In t tests ->
  length bs < test_size t -> forallb is_byte bs = true ->
  2 * test_size t <= length (hex_of upper bs ++ NUL :: behind) ->
  exists tail,
    length tail = test_size t - length bs
    /\ decode_from (test_size t - length bs) (NUL :: behind) 0 = Some tail
    /\ LoadExternalKey' ks (test_name t ++ NUL :: Y) (hex_of upper bs ++ NUL :: behind)
         log unmatched
       = Some (test_store t ks (bs ++ tail),
               log ++ [MalformedValueLength (2 * length bs) (2 * test_size t)],
               unmatched).
Proof.
  intros Ht Hshort Hbs Hroom.
  destruct (hex_of_chars upper bs Hbs) as (Hv0 & _).
  assert (Hlen : strlen (hex_of upper bs ++ NUL :: behind) = Some (2 * length bs))
    by (rewrite strlen_app by exact Hv0; rewrite length_hex_of; reflexivity).
  destruct (decode_from_defined (test_size t - length bs) (NUL :: behind) 0) as (tail & Htail & Hl).
  { rewrite length_app, length_hex_of in Hroom. simpl in *. lia. }
  exists tail. split; [exact Hl|]. split; [exact Htail|].
  rewrite (LoadExternalKey_match ks t Y _ (2 * length bs) (bs ++ tail) log unmatched Ht Hlen).
  - assert ((2 * length bs =? 2 * test_size t) = false) as -> by (apply Nat.eqb_neq; lia).
    reflexivity.
  - replace (test_size t) with (length bs + (test_size t - length bs)) by lia.
    apply decode_from_hex_then; assumption.
Qed.

End DistinctNames.

End ExternalKeyProperties.

(** ** Key files *)

Section KeyFiles.

Variables KeyGeneration_1_0_0 KeyGeneration_6_2_0 KeyGeneration_Max : nat.
Hypothesis gen_le : KeyGeneration_6_2_0 <= KeyGeneration_Max.
Hypothesis gen_max : KeyGeneration_Max <= 256.

Local Abbreviation tests :=
  (external_key_tests KeyGeneration_1_0_0 KeyGeneration_6_2_0 KeyGeneration_Max).
Local Abbreviation callback :=
  (external_key_callback KeyGeneration_1_0_0 KeyGeneration_6_2_0 KeyGeneration_Max).

Lemma ProcessKeyValue_external_key (ks : KeySet) (t : KeyTest) (upper : bool) (bs : list Z)
    (Y rest : list ascii) (log : list Warning) (unmatched : list (list ascii * list ascii)) :
  In t tests -> length bs = test_size t -> forallb is_byte bs = true ->
  ProcessKeyValue _ callback (test_name t ++ NUL :: Y) (hex_of upper bs ++ NUL :: rest)
    ((ks, unmatched), log)
  = Some ((test_store t ks bs, unmatched), log).
Proof.
  intros Ht Hlen Hbs.
  destruct (hex_of_chars upper bs Hbs) as (K1 & K2 & _).
  unfold ProcessKeyValue. rewrite strlen_app by exact K1.
  rewrite length_hex_of.
  assert (((2 * length bs) mod 2 =? 0) = true) as ->.
  { apply Nat.eqb_eq. rewrite Nat.mul_comm. apply Nat.Div0.mod_mul. }
  cbn [negb]. unfold has_not_hexadecimal.
  replace (2 * length bs) with (length (hex_of upper bs)) by apply length_hex_of.
  rewrite take_app_length, K2.
  unfold external_key_callback. cbn [fst snd].
  rewrite (LoadExternalKey_match _ _ _ gen_le gen_max ks t Y _ (2 * length bs) bs).
  - rewrite Hlen, Nat.eqb_refl. reflexivity.
  - exact Ht.
  - rewrite strlen_app by exact K1. rewrite length_hex_of. reflexivity.
  - rewrite <- Hlen. apply decode_from_hex_of, Hbs.
Qed.

Lemma ProcessKeyValueFile_key_line (l : KeyLine) (rest : list ascii) (ks : KeySet)
    (unmatched : list (list ascii * list ascii)) (log : list Warning) :
  key_line_ok tests l ->
  ProcessKeyValueFile _ callback (key_line_text l ++ rest) (length (key_line_text l ++ rest))
    ((ks, unmatched), log)
  = shift_parsed (key_filler l ++ entry_done (key_line_entry l))
      (ProcessKeyValueFile _ callback rest (length rest)
         ((test_store (key_test l) ks (key_bytes l), unmatched), log)).
Proof.
  intros (Ht & Hk & Hname & Hne & Hlen & Hbs & Hfill & Hbl1 & Hd & Hbl2 & Hend).
  unfold key_line_text. rewrite <- app_assoc.
  destruct (hex_of_chars (key_upper l) (key_bytes l) Hbs) as (_ & _ & _ & K4 & _).
  rewrite ProcessKeyValueFile_fillers by exact Hfill.
  rewrite ProcessKeyValueFile_entry.
  2:{ unfold entry_ok, key_line_entry. cbn [entry_key entry_blanks_before entry_delimiter
        entry_blanks_after entry_value entry_end].
      rewrite Hk, Hbl1, Hd, Hbl2, K4, Hend, length_hex_of.
      assert (Hw : (length (key_written l) =? 0) = false).
      { apply Nat.eqb_neq. intros E. apply length_zero_iff_nil in E.
        rewrite E in Hname. cbn [map] in Hname.
        apply (external_key_names_nonempty _ _ _ _ Ht). symmetry. exact Hname. }
      assert (Hb : (2 * length (key_bytes l) =? 0) = false).
      { apply Nat.eqb_neq. destruct (key_bytes l); [contradiction|simpl; lia]. }
      rewrite Hw, Hb. reflexivity. }
  assert (Hkey : exists Y, entry_done (key_line_entry l) ++ rest
                           = test_name (key_test l) ++ NUL :: Y).
  { unfold entry_done, key_line_entry.
    cbn [entry_key entry_blanks_before entry_delimiter entry_blanks_after entry_value
         entry_end].
    rewrite Hname, <- app_assoc. cbn [app]. eexists. reflexivity. }
  destruct Hkey as (Y & Hkey). rewrite Hkey at 1.
  change (entry_value (key_line_entry l)) with (hex_of (key_upper l) (key_bytes l)).
  rewrite ProcessKeyValue_external_key by assumption.
  apply shift_parsed_app.
Qed.

(** X17.  A key file of lines that each name a slot and give it as many
    bytes as it has: the bytes of every line are stored in its slot,
    in the order of the file (so the last line for a slot wins),
    nothing is reported, and the parser reaches the end of the file.
    The names may be written in either case. *)
Theorem ProcessKeyValueFile_external_keys (lines : list KeyLine) (trailer : list ascii)
    (ks : KeySet) (unmatched : list (list ascii * list ascii)) (log : list Warning) :
  Forall (key_line_ok tests) lines -> forallb is_filler trailer = true ->
  let text := concat (map key_line_text lines) ++ trailer in
  let r := ProcessKeyValueFile _ callback text (length text) ((ks, unmatched), log) in
  parsed_world r = ((store_lines lines ks, unmatched), log) /\ parsed_exit r = Finished.
Proof.
  intros Hlines Htr. cbv zeta.
  revert ks. induction Hlines as [|l lines Hl Hlines IH]; intros ks.
  - simpl. rewrite <- (app_nil_r trailer).
    rewrite ProcessKeyValueFile_fillers by exact Htr. split; reflexivity.
  - specialize (IH (test_store (key_test l) ks (key_bytes l))).
    cbn [map concat]. rewrite <- app_assoc.
    rewrite ProcessKeyValueFile_key_line by exact Hl.
    exact IH.
Qed.

End KeyFiles.

(** ** Presetting the keys *)

Lemma IsZero_zeros (n : nat) : IsZero (zeros n) = true.
Proof. induction n as [|n IH]; [reflexivity|exact IH]. Qed.

Lemma lookup_repeat {A : Type} (x : A) (n : nat) :
  forall i, i < n -> repeat x n !! i = Some x.
Proof.
  induction n as [|n IH]; intros i Hi; [lia|].
  destruct i as [|i]; [reflexivity|]. simpl. apply IH. lia.
Qed.


Section PresetProperties.

Variables KeyGeneration_1_0_0 KeyGeneration_6_2_0 KeyGeneration_Max : nat.
Variable DecryptBlock : list Z -> list Z -> list Z.
Variable KeyManager : Type.
Variable Register : KeyManager -> list Z -> list Z -> KeyManager.
Hypothesis gen_le : KeyGeneration_6_2_0 <= KeyGeneration_Max.
Hypothesis gen_max : KeyGeneration_Max <= 256.

Local Abbreviation tests :=
  (external_key_tests KeyGeneration_1_0_0 KeyGeneration_6_2_0 KeyGeneration_Max).
Local Abbreviation DeriveKeys' :=
  (DeriveKeys KeyGeneration_1_0_0 KeyGeneration_6_2_0 KeyGeneration_Max DecryptBlock).


Lemma DeriveKeys_zero_key_set (g : nat) :
  KeyGeneration_1_0_0 <= g < KeyGeneration_Max ->
  slot (master_keys (DeriveKeys' (g_keyset KeyGeneration_Max))) g = zeros AesKeySize.
Proof.
  clear gen_le gen_max. intros Hg.
  assert (Hwf : KeySet_wf KeyGeneration_Max (g_keyset KeyGeneration_Max)).
  { unfold KeySet_wf. cbn. unfold rows. rewrite !repeat_length. repeat split. }
  apply slot_lookup.
  rewrite DeriveKeys_master_keys by (assumption || lia).
  unfold master_key_ready.
  assert (Hsrc : master_key_source (DeriveKeys' (g_keyset KeyGeneration_Max))
                 = zeros AesKeySize).
  { pose proof (frame_DeriveKeys KeyGeneration_1_0_0 KeyGeneration_6_2_0 KeyGeneration_Max
                  DecryptBlock (g_keyset KeyGeneration_Max)) as F.
    destruct (frame_inputs _ _ F) as (_ & _ & _ & _ & _ & _ & _ & _ & <-). reflexivity. }
  rewrite Hsrc, IsZero_zeros. cbn [negb andb]. rewrite andb_false_r.
  change (master_keys (g_keyset KeyGeneration_Max)) with (rows KeyGeneration_Max AesKeySize).
  unfold rows. apply lookup_repeat. lia.
Qed.

(** X18.  No key file.  When no key file is named, or the file cannot
    be opened or read, [PresetInternalKeys] goes on all the same: with
    nothing else loaded it hands [spl] an all-zero master key for
    every generation.  The failure is the one warning written. *)
Theorem PresetInternalKeys_without_key_file (failure : option FileFailure)
    (gamecard_keys_set : bool) (km : KeyManager) :
  exists p,
    PresetInternalKeys KeyGeneration_1_0_0 KeyGeneration_6_2_0 KeyGeneration_Max DecryptBlock
      KeyManager Register
      (option_map inl failure) None gamecard_keys_set
      (mkProcessor KeyManager (g_keyset KeyGeneration_Max) [] km [] [] [] false)
    = Some p
    /\ spl_keys KeyManager p
       = map (fun g => (zeros AesKeySize, g)) (gens KeyGeneration_1_0_0 KeyGeneration_Max)
    /\ file_failures KeyManager p = match failure with Some e => [e] | None => [] end
    /\ stderr KeyManager p = [] /\ unmatched_keys KeyManager p = [].
Proof.
  clear gen_le gen_max. unfold PresetInternalKeys, LoadKeyValueFile.
  destruct failure as [e|]; cbn [option_map keyset spl_keys external_nca_key_manager stderr
    unmatched_keys file_failures gamecard_warning app];
    (eexists; split; [reflexivity|]);
    cbn [spl_keys stderr unmatched_keys file_failures];
    (split; [|repeat split]);
    apply map_ext_in; intros g Hg; unfold gens in Hg; apply in_seq in Hg;
    rewrite DeriveKeys_zero_key_set by lia; reflexivity.
Qed.


End PresetProperties.


(** ** The further properties at sample inputs *)

Lemma DeriveKeys_master_key_sample :
  slot (master_keys (DeriveKeys 0 6 32 Aes128.decrypt_block sample_keys)) 0
  = if negb (IsZero (master_key_source sample_keys))
       && negb (IsZero (slot (master_keks (DeriveKeys 0 6 32 Aes128.decrypt_block sample_keys)) 0))
    then Aes128.decrypt_block
           (slot (master_keks (DeriveKeys 0 6 32 Aes128.decrypt_block sample_keys)) 0)
           (master_key_source sample_keys)
    else slot (master_keys sample_keys) 0.
Proof.
  apply (DeriveKeys_master_key 0 6 32 Aes128.decrypt_block).
  - sample_wf.
  - lia.
Defined.

Lemma DeriveKeys_master_kek_cases_sample :
  slot (master_keks (DeriveKeys 0 6 32 Aes128.decrypt_block sample_keys)) 0
  = if negb (IsZero (mariko_kek sample_keys))
       && negb (IsZero (slot (mariko_master_kek_sources sample_keys) 0))
    then Aes128.decrypt_block (mariko_kek sample_keys)
           (slot (mariko_master_kek_sources sample_keys) 0)
    else if (0 <? 6) && negb (IsZero (span (slot (keyblobs sample_keys) 0) 0x00 AesKeySize))
    then span (slot (keyblobs sample_keys) 0) 0x00 AesKeySize
    else slot (master_keks sample_keys) 0.
Proof.
  apply (DeriveKeys_master_kek_cases 0 6 32 Aes128.decrypt_block).
  - lia.
  - sample_wf.
  - lia.
Defined.

Lemma DeriveKeys_keyblob_key_kept_sample :
  IsZero (secure_boot_key sample_keys_given_keyblob_key) = true
  /\ slot (keyblob_keys (DeriveKeys 0 6 32 Aes128.decrypt_block sample_keys_given_keyblob_key)) 0
     = slot (keyblob_keys sample_keys_given_keyblob_key) 0.
Proof.
  split; [reflexivity|].
  apply (DeriveKeys_keyblob_key_kept 0 6 32 Aes128.decrypt_block).
  - lia.
  - sample_wf.
  - lia.
  - right. right. left. reflexivity.
Defined.

Lemma DeriveKeys_device_key_cases_sample :
  device_key (DeriveKeys 0 6 32 Aes128.decrypt_block sample_keys)
  = if negb (IsZero (secure_boot_key sample_keys)) && negb (IsZero (tsec_key sample_keys))
       && negb (IsZero (slot (keyblob_key_sources sample_keys) 0))
       && negb (IsZero (keyblob_mac_key_source sample_keys))
       && negb (IsZero (per_console_key_source sample_keys))
    then Aes128.decrypt_block
           (slot (keyblob_keys (DeriveKeys 0 6 32 Aes128.decrypt_block sample_keys)) 0)
           (per_console_key_source sample_keys)
    else device_key sample_keys.
Proof.
  apply (DeriveKeys_device_key_cases 0 6 32 Aes128.decrypt_block).
  - lia.
  - sample_wf.
  - lia.
Defined.

Lemma DeriveKeys_package1_key_cases_sample :
  slot (package1_keys (DeriveKeys 0 6 32 Aes128.decrypt_block sample_keys)) 0
  = if (0 <? 6) && negb (IsZero (span (slot (keyblobs sample_keys) 0) 0x80 AesKeySize))
    then span (slot (keyblobs sample_keys) 0) 0x80 AesKeySize
    else slot (package1_keys sample_keys) 0.
Proof.
  apply (DeriveKeys_package1_key_cases 0 6 32 Aes128.decrypt_block).
  - lia.
  - sample_wf.
  - lia.
Defined.

Lemma DeriveKeys_nothing_to_derive_sample :
  DeriveKeys 0 6 32 Aes128.decrypt_block sample_keys_given_keyblob_key
  = sample_keys_given_keyblob_key.
Proof.
  apply (DeriveKeys_nothing_to_derive 0 6 32 Aes128.decrypt_block).
  - left. reflexivity.
  - intros gen Hgen.
    assert (H : gen = 0 \/ gen = 1 \/ gen = 2 \/ gen = 3 \/ gen = 4 \/ gen = 5) by lia.
    destruct H as [->|[->|[->|[->|[->| ->]]]]]; split; reflexivity.
  - reflexivity.
  - reflexivity.
Defined.

Lemma DecodeHex_hex_of_sample :
  DecodeHex (hex_of true (block_from 0xA0) ++ [NUL]) (length (block_from 0xA0)) []
  = Some (block_from 0xA0,
          if 32 =? 2 * length (block_from 0xA0) then []
          else [] ++ [MalformedValueLength 32 (2 * length (block_from 0xA0))]).
Proof.
  apply DecodeHex_hex_of.
  - reflexivity.
  - reflexivity.
Defined.

Lemma ProcessKeyValueFile_title_keys_sample :
  parsed_world
    (ProcessKeyValueFile _ (title_key_callback register_pair)
       (concat (map line_text sample_title_key_lines) ++ [LF])
       (length (concat (map line_text sample_title_key_lines) ++ [LF])) ([], []))
  = (register_lines register_pair sample_title_key_lines [], [])
  /\ parsed_exit
       (ProcessKeyValueFile _ (title_key_callback register_pair)
          (concat (map line_text sample_title_key_lines) ++ [LF])
          (length (concat (map line_text sample_title_key_lines) ++ [LF])) ([], []))
     = Finished.
Proof.
  apply (ProcessKeyValueFile_title_keys _ register_pair sample_title_key_lines [LF] [] []).
  - reflexivity.
  - reflexivity.
Defined.

Lemma ProcessKeyValueFile_lines_sample :
  ProcessKeyValueFile _ note_pair (text_of sample_lines ++ [LF])
    (length (text_of sample_lines ++ [LF])) ([], [])
  = mkParsed (text_done sample_lines ++ [LF])
      ([] ++ concat (map entry_pairs (map snd sample_lines)),
       [] ++ concat (map entry_warnings (map snd sample_lines)))
      Finished.
Proof.
  apply ProcessKeyValueFile_lines.
  - reflexivity.
  - reflexivity.
Defined.

Lemma LoadKeyValueFile_leaves_buffer_sample :
  (exists buf,
     LoadKeyValueFile note_pair
       (inr (text_of sample_lines ++ [LF] ++ list_ascii_of_string "key_d" ++ []
               ++ "="%char :: [] ++ list_ascii_of_string "00")) ([], [])
     = inr (mkParsed buf
              ([] ++ concat (map entry_pairs (map snd sample_lines)),
               [] ++ concat (map entry_warnings (map snd sample_lines)))
              OutOfBounds))
  /\ (exists buf,
        LoadKeyValueFile note_pair
          (inr (text_of sample_lines ++ [LF] ++ list_ascii_of_string "key_d")) ([], [])
        = inr (mkParsed buf
                 ([] ++ concat (map entry_pairs (map snd sample_lines)),
                  [] ++ concat (map entry_warnings (map snd sample_lines)))
                 OutOfBounds))
  /\ (exists buf,
        LoadKeyValueFile note_pair
          (inr (text_of sample_lines ++ [LF] ++ list_ascii_of_string "key_d" ++ [LF]))
          ([], [])
        = inr (mkParsed buf
                 ([] ++ concat (map entry_pairs (map snd sample_lines)),
                  [] ++ concat (map entry_warnings (map snd sample_lines)))
                 OutOfBounds)).
Proof.
  apply (LoadKeyValueFile_leaves_buffer sample_lines [LF] (list_ascii_of_string "key_d") []
           "=" [] (list_ascii_of_string "00") LF [] []).
  - reflexivity.
  - reflexivity.
  - discriminate.
  - reflexivity.
  - reflexivity.
  - reflexivity.
  - reflexivity.
  - discriminate.
  - reflexivity.
  - reflexivity.
  - reflexivity.
  - reflexivity.
Defined.

Lemma ProcessKeyValueFile_malformed_line_sample :
  (parsed_world
     (ProcessKeyValueFile _ note_pair
        (text_of sample_lines ++ [LF] ++ "="%char :: list_ascii_of_string "0011")
        (length (text_of sample_lines ++ [LF] ++ "="%char :: list_ascii_of_string "0011"))
        ([], [])),
   parsed_exit
     (ProcessKeyValueFile _ note_pair
        (text_of sample_lines ++ [LF] ++ "="%char :: list_ascii_of_string "0011")
        (length (text_of sample_lines ++ [LF] ++ "="%char :: list_ascii_of_string "0011"))
        ([], [])))
  = (([] ++ concat (map entry_pairs (map snd sample_lines)),
      [] ++ concat (map entry_warnings (map snd sample_lines)) ++ [EmptyKey]),
     Returned).
Proof.
  apply (ProcessKeyValueFile_malformed_line sample_lines [LF] (list_ascii_of_string "key_d")
           [SPACE] "=" SPACE "x" [SPACE] (list_ascii_of_string "0011") [] []).
  - reflexivity.
  - reflexivity.
  - discriminate.
  - reflexivity.
  - reflexivity.
  - reflexivity.
  - reflexivity.
  - reflexivity.
  - reflexivity.
  - reflexivity.
Defined.

Lemma ProcessKeyValueFile_safe_with_terminator_sample :
  parsed_exit
    (ProcessKeyValueFile _ note_pair (list_ascii_of_string "key_a=0011" ++ [NUL]) 10 ([], []))
  = Finished
  \/ parsed_exit
       (ProcessKeyValueFile _ note_pair (list_ascii_of_string "key_a=0011" ++ [NUL]) 10
          ([], []))
     = Returned.
Proof.
  apply (ProcessKeyValueFile_safe_with_terminator _ note_pair).
  - intros key value w _ _. eexists. reflexivity.
  - simpl. lia.
  - reflexivity.
Defined.

Lemma LoadExternalKey_unknown_key_sample :
  LoadExternalKey 0 6 32 (g_keyset 32) (list_ascii_of_string "master_key_5" ++ [NUL])
    (list_ascii_of_string "0011" ++ [NUL]) [] []
  = Some (g_keyset 32, [],
          [] ++ [(c_str (list_ascii_of_string "master_key_5" ++ [NUL]),
                  c_str (list_ascii_of_string "0011" ++ [NUL]))]).
Proof.
  apply (LoadExternalKey_unknown_key 0 6 32 _ _ _ _ _ 12 4).
  - reflexivity.
  - reflexivity.
  - apply not_in_names. vm_compute. reflexivity.
Defined.

Lemma sample_master_key_test_tested : In sample_master_key_test (external_key_tests 0 6 32).
Proof.
  unfold external_key_tests. rewrite !in_app_iff. do 4 right.
  apply in_flat_map. exists 5. split.
  - unfold gens. apply in_seq. lia.
  - right. left. reflexivity.
Qed.

Lemma sample_master_kek_test_tested : In sample_master_kek_test (external_key_tests 0 6 32).
Proof.
  unfold external_key_tests. rewrite !in_app_iff. do 4 right.
  apply in_flat_map. exists 5. split.
  - unfold gens. apply in_seq. lia.
  - left. reflexivity.
Qed.

Lemma sample_master_key_source_test_tested :
  In sample_master_key_source_test (external_key_tests 0 6 32).
Proof.
  unfold external_key_tests. rewrite !in_app_iff. left.
  do 17 right. left. reflexivity.
Qed.

Lemma sample_master_kek_line_ok :
  key_line_ok (external_key_tests 0 6 32) sample_master_kek_line.
Proof.
  split; [exact sample_master_kek_test_tested|].
  split; [reflexivity|]. split; [reflexivity|]. split; [discriminate|].
  repeat split.
Qed.

Lemma sample_master_key_source_line_ok :
  key_line_ok (external_key_tests 0 6 32) sample_master_key_source_line.
Proof.
  split; [exact sample_master_key_source_test_tested|].
  split; [reflexivity|]. split; [reflexivity|]. split; [discriminate|].
  repeat split.
Qed.

Lemma LoadExternalKey_known_key_sample :
  LoadExternalKey 0 6 32 (g_keyset 32)
    (test_name sample_master_key_test ++ NUL :: [])
    (hex_of true (block_from 0xA0) ++ NUL :: []) [] []
  = Some (test_store sample_master_key_test (g_keyset 32) (block_from 0xA0), [], []).
Proof.
  apply (LoadExternalKey_known_key 0 6 32).
  - lia.
  - lia.
  - exact sample_master_key_test_tested.
  - reflexivity.
  - reflexivity.
Defined.

Lemma LoadExternalKey_short_value_sample :
  exists tail,
    length tail = test_size sample_master_key_test - length [0x01; 0x02]%Z
    /\ decode_from (test_size sample_master_key_test - length [0x01; 0x02]%Z)
         (NUL :: LF :: list_ascii_of_string "master_key_06 = 112233445566778899aabbccddeeff00") 0
       = Some tail
    /\ LoadExternalKey 0 6 32 (g_keyset 32)
         (test_name sample_master_key_test ++ NUL :: [])
         (hex_of false [0x01; 0x02]%Z
            ++ NUL :: LF :: list_ascii_of_string "master_key_06 = 112233445566778899aabbccddeeff00")
         [] []
       = Some (test_store sample_master_key_test (g_keyset 32) ([0x01; 0x02]%Z ++ tail),
               [] ++ [MalformedValueLength (2 * length [0x01; 0x02]%Z)
                        (2 * test_size sample_master_key_test)],
               []).
Proof.
  apply (LoadExternalKey_short_value 0 6 32).
  - lia.
  - lia.
  - exact sample_master_key_test_tested.
  - apply Nat.ltb_lt. reflexivity.
  - reflexivity.
  - apply Nat.leb_le. reflexivity.
Defined.

Lemma ProcessKeyValueFile_external_keys_sample :
  parsed_world
    (ProcessKeyValueFile _ (external_key_callback 0 6 32)
       (concat (map key_line_text sample_key_lines) ++ [])
       (length (concat (map key_line_text sample_key_lines) ++ []))
       ((g_keyset 32, []), []))
  = ((store_lines sample_key_lines (g_keyset 32), []), [])
  /\ parsed_exit
       (ProcessKeyValueFile _ (external_key_callback 0 6 32)
          (concat (map key_line_text sample_key_lines) ++ [])
          (length (concat (map key_line_text sample_key_lines) ++ []))
          ((g_keyset 32, []), []))
     = Finished.
Proof.
  apply (ProcessKeyValueFile_external_keys 0 6 32 ltac:(lia) ltac:(lia) sample_key_lines []).
  - apply Forall_cons. split; [exact sample_master_kek_line_ok|].
    apply Forall_cons. split; [exact sample_master_key_source_line_ok|].
    apply Forall_nil. exact I.
  - reflexivity.
Defined.


